(** * Formol: a shallow embedding of [formol.py]

    Formol reflows a line-oriented comment markup: [_Parser] turns raw
    lines into a tree of block elements and [_Formatter] renders that
    tree back into lines wrapped at a maximum width.

    Conventions of the embedding.
    - A Python [str] is a list of Unicode code points ([char := N]), so
      that [len] is [length]; literals are written with [u "..."], which
      decodes the UTF-8 bytes of a Rocq string.
    - A Python [int] that may be negative (widths, nesting levels) is a
      [Z]; lengths and indices are [nat].
    - A call may return, raise or run for ever: [res] has the three
      outcomes.  Every [while True] loop and every recursive
      [_Parser(...)] call consumes fuel; loops that walk forward over
      the remaining lines are structural recursions on that suffix.
    - The Unicode tables of the Python runtime that the source reaches
      through [\d] and [str.upper] are parameters ([is_decimal],
      [upper]); [ascii_decimal] and [ascii_upper] instantiate them on
      concrete inputs. *)

From Stdlib Require Import String Ascii.
From Stdlib Require Import List ZArith NArith Lia Bool Arith.
Import ListNotations.

(** ** Strings *)

Definition char := N.
Definition str := list char.

(** Code points of a UTF-8 byte sequence (well-formed input only). *)
Fixpoint utf8_decode (bs : list N) : str :=
  match bs with
  | [] => []
  | b :: r =>
      if (b <? 128)%N then b :: utf8_decode r
      else if (b <? 224)%N then
        match r with
        | b1 :: r1 => ((b - 192) * 64 + (b1 - 128))%N :: utf8_decode r1
        | _ => []
        end
      else if (b <? 240)%N then
        match r with
        | b1 :: b2 :: r2 =>
            ((b - 224) * 4096 + (b1 - 128) * 64 + (b2 - 128))%N :: utf8_decode r2
        | _ => []
        end
      else
        match r with
        | b1 :: b2 :: b3 :: r3 =>
            ((b - 240) * 262144 + (b1 - 128) * 4096 + (b2 - 128) * 64 + (b3 - 128))%N
              :: utf8_decode r3
        | _ => []
        end
  end.

(** A string literal of the source. *)
Definition u (s : string) : str :=
  utf8_decode (map N_of_ascii (list_ascii_of_string s)).
Arguments u s%_string.

Definition ch (s : string) : char := hd 0%N (u s).
Arguments ch s%_string.

Arguments u : simpl never.
Arguments ch : simpl never.

Definition char_eqb (a b : char) : bool := N.eqb a b.

Fixpoint str_eqb (a b : str) : bool :=
  match a, b with
  | [], [] => true
  | x :: a', y :: b' => char_eqb x y && str_eqb a' b'
  | _, _ => false
  end.

(** [len(s) == 0] *)
Definition is_empty {A} (s : list A) : bool :=
  match s with [] => true | _ => false end.

(** [c in chars] *)
Definition char_in (chars : str) (c : char) : bool := existsb (char_eqb c) chars.

(** Python's [str.isspace] on one character, which is also the class
    [\s] of [re] on [str] patterns. *)
Definition is_space (c : char) : bool :=
  ((9 <=? c) && (c <=? 13) || (28 <=? c) && (c <=? 32) || (c =? 133) || (c =? 160)
   || (c =? 5760) || (8192 <=? c) && (c <=? 8202) || (c =? 8232) || (c =? 8233)
   || (c =? 8239) || (c =? 8287) || (c =? 12288))%N.

(** The line boundaries of [str.splitlines]. *)
Definition is_linebreak (c : char) : bool :=
  ((10 <=? c) && (c <=? 13) || (28 <=? c) && (c <=? 30) || (c =? 133)
   || (c =? 8232) || (c =? 8233))%N.

(** The class [.] of [re]: anything but a line feed. *)
Definition is_dot (c : char) : bool := negb (c =? 10)%N.

Fixpoint take_while {A} (p : A -> bool) (l : list A) : list A :=
  match l with
  | x :: l' => if p x then x :: take_while p l' else []
  | [] => []
  end.

Fixpoint drop_while {A} (p : A -> bool) (l : list A) : list A :=
  match l with
  | x :: l' => if p x then drop_while p l' else l
  | [] => []
  end.

(** The last element and what is before it: [(l[:-1], l[-1])]. *)
Fixpoint unsnoc {A} (l : list A) : option (list A * A) :=
  match l with
  | [] => None
  | x :: l' =>
      match unsnoc l' with
      | None => Some ([], x)
      | Some (front, y) => Some (x :: front, y)
      end
  end.

Definition lstrip (s : str) : str := drop_while is_space s.
Definition rstrip (s : str) : str := rev (drop_while is_space (rev s)).
Definition strip (s : str) : str := lstrip (rstrip s).

(** [s.startswith(prefix)], and the rest of [s] when it does. *)
Fixpoint strip_prefix (prefix s : str) : option str :=
  match prefix, s with
  | [], _ => Some s
  | p :: prefix', c :: s' => if char_eqb p c then strip_prefix prefix' s' else None
  | _ :: _, [] => None
  end.

Definition startswith (s prefix : str) : bool :=
  match strip_prefix prefix s with Some _ => true | None => false end.

(** [sep.join(parts)] *)
Fixpoint join (sep : str) (parts : list str) : str :=
  match parts with
  | [] => []
  | [p] => p
  | p :: parts' => p ++ sep ++ join sep parts'
  end.

(** [s.ljust(width)] *)
Definition ljust (s : str) (width : nat) : str :=
  s ++ repeat (ch " ") (width - length s).

(** [format(s, '>width')] *)
Definition rjust (s : str) (width : nat) : str :=
  repeat (ch " ") (width - length s) ++ s.

Fixpoint uint_str (d : Decimal.uint) : str :=
  match d with
  | Decimal.Nil => []
  | Decimal.D0 d' => 48%N :: uint_str d'
  | Decimal.D1 d' => 49%N :: uint_str d'
  | Decimal.D2 d' => 50%N :: uint_str d'
  | Decimal.D3 d' => 51%N :: uint_str d'
  | Decimal.D4 d' => 52%N :: uint_str d'
  | Decimal.D5 d' => 53%N :: uint_str d'
  | Decimal.D6 d' => 54%N :: uint_str d'
  | Decimal.D7 d' => 55%N :: uint_str d'
  | Decimal.D8 d' => 56%N :: uint_str d'
  | Decimal.D9 d' => 57%N :: uint_str d'
  end.

(** [f'{n}'] for an [int]. *)
Definition str_of_int (n : Z) : str :=
  match Z.to_int n with
  | Decimal.Pos d => uint_str d
  | Decimal.Neg d => ch "-" :: uint_str d
  end.

(** [text.splitlines()]: a line ends at a line boundary, [\r\n] counts
    as one, and a final boundary opens no empty last line. *)
Fixpoint splitlines (s : str) : list str :=
  match s with
  | [] => []
  | c :: s' =>
      if is_linebreak c then
        match s' with
        | c' :: s'' =>
            if (c =? 13)%N && (c' =? 10)%N then [] :: splitlines s''
            else [] :: splitlines s'
        | [] => [[]]
        end
      else
        match splitlines s' with
        | [] => [[c]]
        | l :: ls => (c :: l) :: ls
        end
  end.

(** ** Outcomes *)

Inductive exn : Type :=
| AssertionError
| IndexError
| ValueError (arg : str).

Inductive res (A : Type) : Type :=
| Ok (a : A)
| Raise (e : exn)
| OutOfFuel.
Arguments Ok {A} a.
Arguments Raise {A} e.
Arguments OutOfFuel {A}.

Definition bind {A B} (r : res A) (k : A -> res B) : res B :=
  match r with
  | Ok a => k a
  | Raise e => Raise e
  | OutOfFuel => OutOfFuel
  end.

Notation "x <- r ;; k" := (bind r (fun x => k))
  (at level 61, r at next level, right associativity).
Notation "' p <- r ;; k" := (bind r (fun p => k))
  (at level 61, p pattern, r at next level, right associativity).

(** [lines += f(x)] for each [x] of [l]. *)
Definition concat_mapM {A} (f : A -> res (list str)) : list A -> res (list str) :=
  fix go (l : list A) : res (list str) :=
    match l with
    | [] => Ok []
    | x :: l' => a <- f x ;; b <- go l' ;; Ok (a ++ b)
    end.

(** The same over [enumerate(l)], counting from [index]. *)
Definition concat_mapM_enum {A} (f : nat -> A -> res (list str))
  : nat -> list A -> res (list str) :=
  fix go (index : nat) (l : list A) : res (list str) :=
    match l with
    | [] => Ok []
    | x :: l' => a <- f index x ;; b <- go (S index) l' ;; Ok (a ++ b)
    end.

(** ** Elements *)

#[local] Set Warnings "-register-all".

Inductive Elem : Type :=
| _P (words : list str)
| _Ul (items : list (list Elem))
| _Ol (items : list (list Elem))
| _Dl (items : list (list str * list Elem))
| _Pre (lines : list str)
| _H1 (text : str)
| _H2 (text : str)
| _Hr
| _AdmonBox (elems : list Elem)
| _Blockquote (elems : list Elem)
| _Verbatim (lines : list str).

(** [_SimpleListItem(elems)] and [_DlItem(terms, elems)]. *)
Definition _SimpleListItem := list Elem.
Definition _DlItem := (list str * list Elem)%type.

(** ** Helpers of the module *)

(** The loop of [_remove_trailing_empty_lines] over the reversed list:
    [new_lines[-1]] raises once every line was deleted. *)
Fixpoint drop_trailing_empty (rev_lines : list str) : res (list str) :=
  match rev_lines with
  | [] => Raise IndexError
  | l :: rest => if is_empty l then drop_trailing_empty rest else Ok (rev rev_lines)
  end.

Definition _remove_trailing_empty_lines (lines : list str) : res (list str) :=
  match lines with
  | [] => Raise AssertionError
  | _ => drop_trailing_empty (rev lines)
  end.

Definition _indent_str (count : nat) : str := repeat (ch " ") count.

(** ** The formatter: class [_Formatter] *)

Module Formatter.

(** The object's fields. *)
Record Self : Type := mkSelf {
  _max_line_len : Z;
  _cur_ul_level : Z;
  _cur_ol_level : Z
}.

(** [self._cur_ul_level += 1] and [self._cur_ol_level += 1]; the
    matching decrement restores the caller's [self]. *)
Definition incr_ul (self : Self) : Self :=
  mkSelf (_max_line_len self) (_cur_ul_level self + 1) (_cur_ol_level self).
Definition incr_ol (self : Self) : Self :=
  mkSelf (_max_line_len self) (_cur_ul_level self) (_cur_ol_level self + 1).

Definition _p_line_list_len (lst : list str) : Z :=
  fold_right (fun t acc => (Z.of_nat (length t) + acc)%Z) 0%Z lst.

(** The wrapping loop of [_p_lines].  [lines] is never empty there, so
    it is kept as the pair [(lines[:-1], lines[-1])]. *)
Definition wrap_word (max_line_len : Z) (lines : list (list str) * list str) (word : str)
  : list (list str) * list str :=
  let '(front, cur) := lines in
  let to_append := word ++ u " " in
  if length cur =? 0 then (front, cur ++ [to_append])
  else if (_p_line_list_len cur + Z.of_nat (length word) >? max_line_len)%Z
       then (front ++ [cur], [to_append])
       else (front, cur ++ [to_append]).

Definition wrap_words (max_line_len : Z) (words : list str) : list (list str) * list str :=
  fold_left (wrap_word max_line_len) words ([], []).

(** The runt correction of [_p_lines]. *)
Definition avoid_runt (max_line_len : Z) (lines : list (list str) * list str)
  : res (list (list str)) :=
  let '(front, cur) := lines in
  match unsnoc front with
  | None => Ok (front ++ [cur])
  | Some (front', prev) =>
      match cur with
      | [b] =>
          match unsnoc prev with
          | None => Raise IndexError
          | Some (prev', a) =>
              if (Z.of_nat (length a) + Z.of_nat (length b) - 1 <=? max_line_len)%Z
              then Ok (front' ++ [prev'; [a; b]])
              else Ok (front ++ [cur])
          end
      | _ => Ok (front ++ [cur])
      end
  end.

Definition _p_lines (self : Self) (words : list str) : res (list str) :=
  lines <- avoid_runt (_max_line_len self) (wrap_words (_max_line_len self) words) ;;
  let new_lines := map (@concat char) lines in
  new_lines <- _remove_trailing_empty_lines new_lines ;;
  Ok (new_lines ++ [[]]).

(** [_compact_list(lst, lines)], [items] being [lst.items]. *)
Definition _compact_list {A} (items : list A) (lines : list str) : list str :=
  if length lines =? 2 * length items
  then filter (fun line => 1 <=? length (strip line)) lines ++ [[]]
  else lines.

Definition _make_ol_item_num (self : Self) (items : list _SimpleListItem) (index : nat) : str :=
  if (_cur_ol_level self mod 2 =? 0)%Z
  then
    let max_num_width := length (str_of_int (Z.of_nat (length items) - 1)) in
    rjust (str_of_int (Z.of_nat index + 1)) max_num_width ++ u "."
  else [(ch "a" + N.of_nat (index mod 26))%N] ++ u ")".

Definition _pre_lines (lines : list str) : list str :=
  map (fun line => u "    " ++ line) lines ++ [[]].

Definition _verbatim_lines (lines : list str) : list str := lines.

Definition _hr_lines (self : Self) : list str :=
  [repeat (ch "┄") (Z.to_nat (_max_line_len self)); []].

Definition _heading_lines (text : str) (underline_ch : char) : list str :=
  [text; repeat underline_ch (length text)].

Section Methods.

(** [str.upper]. *)
Variable upper : str -> str.

(** [_Formatter(elems, max_line_len, cur_ul_level, cur_ol_level).lines] *)
Variable _Formatter : list Elem -> Self -> res (list str).

Definition _format_elems (self : Self) (elems : list Elem) (max_line_len : Z)
  : res (list str) :=
  _Formatter elems (mkSelf max_line_len (_cur_ul_level self) (_cur_ol_level self)).

Definition _format_elems_indented (self : Self) (elems : list Elem) (indent_len : nat)
  : res (list str) :=
  lines <- _format_elems self elems (_max_line_len self - Z.of_nat indent_len) ;;
  Ok (map (fun line => if 1 <=? length line then repeat (ch " ") indent_len ++ line
                       else line) lines).

Definition _ul_item_lines (self : Self) (item : _SimpleListItem) : res (list str) :=
  lines <- _format_elems_indented self item 2 ;;
  let bullet := nth (Z.to_nat (_cur_ul_level self mod 3)) (u "•‣⁃") 0%N in
  match lines with
  | [] => Raise IndexError
  | line0 :: rest =>
      lines <- _remove_trailing_empty_lines ((bullet :: u " " ++ skipn 2 line0) :: rest) ;;
      Ok (lines ++ [[]])
  end.

Definition _ul_lines (self : Self) (items : list _SimpleListItem) : res (list str) :=
  lines <- concat_mapM (_ul_item_lines (incr_ul self)) items ;;
  Ok (_compact_list items lines).

Definition _ol_item_lines (self : Self) (items : list _SimpleListItem) (index : nat)
  (item : _SimpleListItem) : res (list str) :=
  let num := _make_ol_item_num self items index in
  let indent_len := length num + 1 in
  lines <- _format_elems_indented self item indent_len ;;
  match lines with
  | [] => Raise IndexError
  | line0 :: rest =>
      lines <- _remove_trailing_empty_lines ((num ++ u " " ++ skipn indent_len line0) :: rest) ;;
      Ok (lines ++ [[]])
  end.

Definition _ol_lines (self : Self) (items : list _SimpleListItem) : res (list str) :=
  lines <- concat_mapM_enum (_ol_item_lines (incr_ol self) items) 0 items ;;
  Ok (_compact_list items lines).

Definition _dl_item_lines (self : Self) (item : _DlItem) : res (list str) :=
  let '(terms, elems) := item in
  let lines := map (fun line => line ++ u ":") terms in
  more <- _format_elems_indented self elems 4 ;;
  lines <- _remove_trailing_empty_lines (lines ++ more) ;;
  Ok (lines ++ [[]]).

Definition _dl_lines (self : Self) (items : list _DlItem) : res (list str) :=
  concat_mapM (_dl_item_lines self) items.

Definition _blockquote_lines (self : Self) (elems : list Elem) : res (list str) :=
  lines <- _format_elems_indented self elems 2 ;;
  lines <- _remove_trailing_empty_lines lines ;;
  Ok (map (fun line => u "> " ++ skipn 2 line) lines ++ [[]]).

(** [len(max(content_lines, key=len))]; [max] raises on no line. *)
Definition longest_len (content_lines : list str) : res nat :=
  match content_lines with
  | [] => Raise (ValueError (u "max() arg is an empty sequence"))
  | _ => Ok (fold_right (fun line acc => Nat.max (length line) acc) 0 content_lines)
  end.

Definition _admon_box_lines (self : Self) (elems : list Elem) : res (list str) :=
  content_lines <- _format_elems self elems (_max_line_len self - 4) ;;
  longest_content_line_len <- longest_len content_lines ;;
  let rule := repeat (ch "─") longest_content_line_len in
  Ok ([u "┌─" ++ rule ++ u "─┐"]
      ++ map (fun content_line =>
                u "│ " ++ ljust content_line longest_content_line_len ++ u " │")
             content_lines
      ++ [u "└─" ++ rule ++ u "─┘"]
      ++ [[]]).

Definition _h1_lines (text : str) : list str := _heading_lines (upper text) (ch "━").
Definition _h2_lines (text : str) : list str := _heading_lines text (ch "─").

End Methods.

(** [_elem_lines]: the dispatch on the element's type, with
    [_elems_lines] of the nested formatters inlined as [nested]. *)
Fixpoint _elem_lines (upper : str -> str) (elem : Elem) (self : Self) {struct elem}
  : res (list str) :=
  let nested (elems : list Elem) (self' : Self) : res (list str) :=
    lines <- concat_mapM (fun e => _elem_lines upper e self') elems ;;
    _remove_trailing_empty_lines (map rstrip lines) in
  match elem with
  | _P words => _p_lines self words
  | _Ul items => _ul_lines nested self items
  | _Ol items => _ol_lines nested self items
  | _Dl items => _dl_lines nested self items
  | _H1 text => Ok (_h1_lines upper text)
  | _H2 text => Ok (_h2_lines text)
  | _Pre lines => Ok (_pre_lines lines)
  | _Hr => Ok (_hr_lines self)
  | _Blockquote elems => _blockquote_lines nested self elems
  | _Verbatim lines => Ok (_verbatim_lines lines)
  | _AdmonBox elems => _admon_box_lines nested self elems
  end.

Definition _elems_lines (upper : str -> str) (self : Self) (elems : list Elem)
  : res (list str) :=
  lines <- concat_mapM (fun elem => _elem_lines upper elem self) elems ;;
  let lines := map rstrip lines in
  _remove_trailing_empty_lines lines.

(** [_Formatter(elems, max_line_len, cur_ul_level, cur_ol_level).lines],
    the three fields being [self]. *)
Definition _Formatter (upper : str -> str) (elems : list Elem) (self : Self)
  : res (list str) :=
  _elems_lines upper self elems.

(** [_Formatter(elems, max_line_len).lines] *)
Definition lines (upper : str -> str) (elems : list Elem) (max_line_len : Z)
  : res (list str) :=
  _Formatter upper elems (mkSelf max_line_len (-1) (-1)).

End Formatter.

(** ** The parser: class [_Parser] *)

Module Parser.

(** *** The patterns

    Each pattern of the source is a function on the string it is
    matched against ([re.match] anchors at the start and lets the rest
    of the string follow).  A pattern is quoted as the source writes it,
    a capturing group between angle brackets. *)

(** The group "<\S.*>" at the start of [s]. *)
Definition text_group (s : str) : option str :=
  match s with
  | c :: rest => if is_space c then None else Some (c :: take_while is_dot rest)
  | [] => None
  end.

(** What [$] may leave unread: one final line feed. *)
Definition chomp (s : str) : str :=
  match unsnoc s with
  | Some (front, c) => if (c =? 10)%N then front else s
  | None => s
  end.

(** "^{prefix} <\S.*>": group 1. *)
Definition match_heading_prefix (prefix line : str) : option str :=
  match strip_prefix (prefix ++ u " ") line with
  | Some rest => text_group rest
  | None => None
  end.

(** "^{underscore_ch}+\s*$", for an [underscore_ch] that is no space. *)
Definition match_underline (underscore_ch : char) (line : str) : bool :=
  match line with
  | c :: _ =>
      char_eqb c underscore_ch
      && forallb is_space (drop_while (fun x => char_eqb x underscore_ch) line)
  | [] => false
  end.

(** ":: <\S.*>" at the start of [s]: group 2 of [_single_line_dt_pat]. *)
Definition dt_here (s : str) : option str :=
  match strip_prefix (u ":: ") s with
  | Some rest => text_group rest
  | None => None
  end.

(** ".*:: <\S.*>" at the start of [s]: the greedy ".*" keeps the last
    place where the rest matches. *)
Fixpoint dt_split (s : str) : option (str * str) :=
  match s with
  | [] => None
  | c :: s' =>
      if is_dot c then
        match dt_split s' with
        | Some (g1, g2) => Some (c :: g1, g2)
        | None => match dt_here s with Some g2 => Some ([], g2) | None => None end
        end
      else None
  end.

(** [_single_line_dt_pat], "^<\S.*>:: <\S.*>": groups 1 and 2. *)
Definition match_single_line_dt (line : str) : option (str * str) :=
  match line with
  | c :: rest =>
      if is_space c then None
      else match dt_split rest with
           | Some (g1, g2) => Some (c :: g1, g2)
           | None => None
           end
  | [] => None
  end.

(** [_dt_pat], "^<\S.*>:$": group 1. *)
Definition match_dt (line : str) : option str :=
  match chomp line with
  | c :: rest =>
      if is_space c then None
      else match unsnoc rest with
           | Some (mid, last) =>
               if char_eqb last (ch ":") && forallb is_dot mid then Some (c :: mid)
               else None
           | None => None
           end
  | [] => None
  end.

(** A pattern of [count] spaces and "." ([_indented_content_pat] with
    4, [_ul_cont_pat] with 2, [cont_pat] of an ordered item). *)
Definition match_indented_content (count : nat) (line : str) : bool :=
  match strip_prefix (repeat (ch " ") count) line with
  | Some (c :: _) => is_dot c
  | _ => false
  end.

(** "^    \S" *)
Definition match_indented_text (line : str) : bool :=
  match strip_prefix (u "    ") line with
  | Some (c :: _) => negb (is_space c)
  | _ => false
  end.

(** [_bullet_line_pat], "^[*•‣⁃] <\S.*>": group 1. *)
Definition match_bullet_line (line : str) : option str :=
  match line with
  | b :: sp :: rest =>
      if char_in (u "*•‣⁃") b && char_eqb sp (ch " ") then text_group rest else None
  | _ => None
  end.

(** "^\. \S.*" *)
Definition match_dot_item (line : str) : bool :=
  match strip_prefix (u ". ") line with
  | Some rest => match text_group rest with Some _ => true | None => false end
  | None => false
  end.

(** An ordered item that starts with "\. ": groups 1 and 2. *)
Definition ol_dotted (line : str) : option (str * str) :=
  match strip_prefix (u ". ") line with
  | Some rest =>
      match text_group rest with
      | Some g2 => Some (u ". ", g2)
      | None => None
      end
  | None => None
  end.

(** An ordered item that starts with "[a-z]\) ": groups 1 and 2. *)
Definition ol_lettered (line : str) : option (str * str) :=
  match line with
  | c :: r =>
      if ((97 <=? c) && (c <=? 122))%N then
        match strip_prefix (u ") ") r with
        | Some rest =>
            match text_group rest with
            | Some g2 => Some (c :: u ") ", g2)
            | None => None
            end
        | None => None
        end
      else None
  | [] => None
  end.

(** [_literal_pat] at the start of [s]: group 0 and what follows it. *)
Definition match_literal (s : str) : option (str * str) :=
  let '(bracket, s1) :=
    match s with
    | c :: r => if char_in (u "([{") c then ([c], r) else ([], s)
    | [] => ([], s)
    end in
  match s1 with
  | q :: s2 =>
      if char_eqb q (ch "`") then
        let not_quote := fun c => negb (char_eqb c (ch "`")) in
        match drop_while not_quote s2 with
        | q' :: s3 =>
            let non_space := fun c => negb (is_space c) in
            Some (bracket ++ [q] ++ take_while not_quote s2 ++ [q'] ++ take_while non_space s3,
                  drop_while non_space s3)
        | [] => None
        end
      else None
  | [] => None
  end.

(** The look-ahead of [_word_pat]: "(?=[\([{]?`| |$)". *)
Definition word_lookahead (s : str) : bool :=
  match s with
  | [] => true
  | c :: r =>
      char_eqb c (ch "`")
      || char_in (u "([{") c && match r with c' :: _ => char_eqb c' (ch "`") | [] => false end
      || char_eqb c (ch " ")
      || (c =? 10)%N && is_empty r
  end.

(** [_word_pat] at the start of [s]: group 1 (the shortest run that
    the look-ahead accepts) and what follows it. *)
Fixpoint match_word (s : str) : option (str * str) :=
  match s with
  | [] => None
  | c :: s' =>
      if is_dot c then
        if word_lookahead s' then Some ([c], s')
        else match match_word s' with
             | Some (w, rest) => Some (c :: w, rest)
             | None => None
             end
      else None
  end.

(** "^┄{3,}$" *)
Definition match_hr_rule (line : str) : bool :=
  let body := chomp line in
  (3 <=? length body) && forallb (fun c => char_eqb c (ch "┄")) body.

Definition verbatim_chars : str := u "│┃┆┇┊┋┌┍┎┏└┕┖┗├┝┞┟┠┡┢┣╎╏║╒╓╔╘╙╚╞╟╠╽╿".

(** "^│ (?:CAUTION|IMPORTANT|NOTE|TIP|WARNING): " *)
Definition match_admon_tag (line : str) : bool :=
  existsb (fun tag => startswith line (u "│ " ++ tag ++ u ": "))
          [u "CAUTION"; u "IMPORTANT"; u "NOTE"; u "TIP"; u "WARNING"].

(** "^│?\s*$" *)
Definition match_admon_blank (line : str) : bool :=
  forallb is_space line
  || match line with
     | c :: r => char_eqb c (ch "│") && forallb is_space r
     | [] => false
     end.

(** "[│ ] <[^│]*>": group 1. *)
Definition match_admon_line (line : str) : option str :=
  match line with
  | c :: sp :: r =>
      if (char_eqb c (ch "│") || char_eqb c (ch " ")) && char_eqb sp (ch " ")
      then Some (take_while (fun x => negb (char_eqb x (ch "│"))) r)
      else None
  | _ => None
  end.

(** *** The loops that walk forward over the remaining lines *)

(** Lines of a block: empty lines and lines [cont] accepts. *)
Fixpoint block_lines (cont : str -> bool) (rest : list str) : list str :=
  match rest with
  | [] => []
  | l :: rest' =>
      if is_empty l then [] :: block_lines cont rest'
      else if cont l then l :: block_lines cont rest'
      else []
  end.

(** The terms of a definition item. *)
Fixpoint take_terms (rest : list str) : list str :=
  match rest with
  | l :: rest' =>
      match match_dt l with
      | Some term => term :: take_terms rest'
      | None => []
      end
  | [] => []
  end.

(** The content of a delimited block and the number of lines read,
    the closing delimiter included. *)
Fixpoint delim_content (delim : str) (rest : list str) : list str * nat :=
  match rest with
  | [] => ([], 0)
  | l :: rest' =>
      if str_eqb l delim then ([], 1)
      else let '(ls, n) := delim_content delim rest' in (l :: ls, S n)
  end.

(** The lines of a prefixed blockquote. *)
Fixpoint quoted_lines (rest : list str) : list str :=
  match rest with
  | l :: rest' =>
      if str_eqb l (u ">") then [] :: quoted_lines rest'
      else match strip_prefix (u "> ") l with
           | Some content => content :: quoted_lines rest'
           | None => []
           end
  | [] => []
  end.

(** The content of a drawn admonition box and the number of lines read. *)
Fixpoint admon_content (rest : list str) : list str * nat :=
  match rest with
  | [] => ([], 0)
  | l :: rest' =>
      if startswith l (u "└") then ([], 1)
      else
        let '(ls, n) := admon_content rest' in
        if match_admon_blank l then ([] :: ls, S n)
        else match match_admon_line l with
             | Some g => (rstrip g :: ls, S n)
             | None => (ls, S n)
             end
  end.

(** The lines of a paragraph. *)
Fixpoint paragraph_lines (rest : list str) : list str :=
  match rest with
  | l :: rest' =>
      if is_empty l
         || match match_bullet_line l with Some _ => true | None => false end
         || match_dot_item l
      then []
      else l :: paragraph_lines rest'
  | [] => []
  end.

(** [_unindent_lines(lines, count)] *)
Definition _unindent_lines (lines : list str) (count : nat) : list str :=
  map (fun line => if startswith line (_indent_str count) then skipn count line else line)
      lines.

(** The scanning loop of [_p_elem_from_text] on [text[i:]]: when
    neither pattern matches, [i] stays and the loop spins. *)
Fixpoint scan_text (fuel : nat) (text : str) (elems : list str) : res (list str) :=
  match fuel with
  | 0 => OutOfFuel
  | S fuel' =>
      match text with
      | [] => Ok elems
      | _ =>
          match match_literal text with
          | Some (literal, rest) => scan_text fuel' rest (elems ++ [literal])
          | None =>
              match match_word text with
              | Some (w, rest) =>
                  let word := strip w in
                  scan_text fuel' rest
                            (if 1 <=? length word then elems ++ [word] else elems)
              | None => scan_text fuel' text elems
              end
          end
      end
  end.

Section Rules.

(** The class [\d]. *)
Variable is_decimal : char -> bool.

(** [_Parser(lines).elems] of a nested parser. *)
Variable parse_sub : list str -> res (list Elem).

(** The fuel of the unbounded loops. *)
Variable fuel : nat.

(** [self._lines]; the cursor [self._at] is passed along. *)
Variable _lines : list str.

(** A try-parse method returns what it found and the new cursor. *)
Definition rule (A : Type) : Type := nat -> res (option A * nat).

(** The pattern of an ordered item,
    "^<(?: *\d+)?\. |[a-z]\) ><\S.*>": groups 1 and 2.  Its three ways
    to start are tried in the order of the pattern. *)
Definition ol_numbered (line : str) : option (str * str) :=
  let is_sp := fun c => char_eqb c (ch " ") in
  let spaces := take_while is_sp line in
  let digits := take_while is_decimal (drop_while is_sp line) in
  let after := drop_while is_decimal (drop_while is_sp line) in
  if is_empty digits then None
  else match strip_prefix (u ". ") after with
       | Some rest =>
           match text_group rest with
           | Some g2 => Some (spaces ++ digits ++ u ". ", g2)
           | None => None
           end
       | None => None
       end.

Definition match_ol_item_start (line : str) : option (str * str) :=
  match ol_numbered line with
  | Some m => Some m
  | None =>
      match ol_dotted line with
      | Some m => Some m
      | None => ol_lettered line
      end
  end.

(** [_verbatim_line_pat]: "^(?: *\[\d+\]: [hf]|[│┃...]).+" *)
Definition match_verbatim_line (line : str) : bool :=
  let reference :=
    match drop_while (fun c => char_eqb c (ch " ")) line with
    | c :: s1 =>
        char_eqb c (ch "[")
        && negb (is_empty (take_while is_decimal s1))
        && match strip_prefix (u "]: ") (drop_while is_decimal s1) with
           | Some (h :: c2 :: _) => char_in (u "hf") h && is_dot c2
           | _ => false
           end
    | [] => false
    end in
  let drawing :=
    match line with
    | c :: c2 :: _ => char_in verbatim_chars c && is_dot c2
    | _ => false
    end in
  reference || drawing.

Definition _is_done (_at : nat) : bool := length _lines <=? _at.

Definition _cur_line (_at : nat) : res str :=
  match nth_error _lines _at with
  | Some line => Ok line
  | None => Raise AssertionError
  end.

Definition _next_line (_at : nat) : str := nth (S _at) _lines [].

Definition _goto_next_line (_at incr : nat) : res nat :=
  if _at + incr <=? length _lines then Ok (_at + incr) else Raise AssertionError.

Definition _skip_empty_lines (_at : nat) : nat :=
  _at + length (take_while is_empty (skipn _at _lines)).

Definition _try_parse_heading (elem_type : str -> Elem) (prefix : str)
  (underscore_ch : char) : rule Elem :=
  fun _at =>
    cur <- _cur_line _at ;;
    match match_heading_prefix prefix cur, is_empty (_next_line _at) with
    | Some text, true =>
        _at' <- _goto_next_line _at 1 ;;
        Ok (Some (elem_type text), _at')
    | _, _ =>
        if match_underline underscore_ch (_next_line _at) then
          _at' <- _goto_next_line _at 2 ;;
          Ok (Some (elem_type cur), _at')
        else Ok (None, _at)
    end.

Definition _try_parse_h1 : rule Elem := _try_parse_heading _H1 (u "=") (ch "━").
Definition _try_parse_h2 : rule Elem := _try_parse_heading _H2 (u "==") (ch "─").

Definition _try_parse_single_line_dl_item : rule _DlItem :=
  fun _at =>
    cur <- _cur_line _at ;;
    match match_single_line_dt cur with
    | None => Ok (None, _at)
    | Some (term, definition) =>
        _at' <- _goto_next_line _at 1 ;;
        elems <- parse_sub [definition] ;;
        Ok (Some ([term], elems), _at')
    end.

Definition _try_parse_dl_item : rule _DlItem :=
  fun _at =>
    '(elem, begin_at) <- _try_parse_single_line_dl_item _at ;;
    match elem with
    | Some _ => Ok (elem, begin_at)
    | None =>
        let terms := take_terms (skipn begin_at _lines) in
        let _at1 := begin_at + length terms in
        if length terms =? 0 then Ok (None, begin_at)
        else if _is_done _at1 || negb (match_indented_text (nth _at1 _lines []))
        then Ok (None, begin_at)
        else
          let def_lines := block_lines (match_indented_content 4) (skipn _at1 _lines) in
          let _at2 := _at1 + length def_lines in
          def_lines <- _remove_trailing_empty_lines def_lines ;;
          elems <- parse_sub (_unindent_lines def_lines 4) ;;
          Ok (Some (terms, elems), _at2)
    end.

(** The loop shared by [_try_parse_simple_list] and [_try_parse_dl]. *)
Fixpoint item_loop {I} (parse_item_func : rule I) (k : nat) (_at : nat) (items : list I)
  : res (list I * nat) :=
  match k with
  | 0 => OutOfFuel
  | S k' =>
      let _at := _skip_empty_lines _at in
      if _is_done _at then Ok (items, _at)
      else
        '(item, _at') <- parse_item_func _at ;;
        match item with
        | None => Ok (items, _at')
        | Some item => item_loop parse_item_func k' _at' (items ++ [item])
        end
  end.

Definition _try_parse_dl : rule Elem :=
  fun _at =>
    '(items, _at') <- item_loop _try_parse_dl_item fuel _at [] ;;
    if 1 <=? length items then Ok (Some (_Dl items), _at') else Ok (None, _at').

Definition _try_parse_pre_indented : rule Elem :=
  fun _at =>
    cur <- _cur_line _at ;;
    if negb (match_indented_text cur) then Ok (None, _at)
    else
      let lines := block_lines (match_indented_content 4) (skipn _at _lines) in
      let _at' := _at + length lines in
      lines <- _remove_trailing_empty_lines lines ;;
      Ok (Some (_Pre (_unindent_lines lines 4)), _at').

Definition _try_parse_delim_block (delim : str) : rule (list str) :=
  fun _at =>
    cur <- _cur_line _at ;;
    if negb (str_eqb cur delim) then Ok (None, _at)
    else
      _at1 <- _goto_next_line _at 1 ;;
      let '(lines, n) := delim_content delim (skipn _at1 _lines) in
      lines <- _remove_trailing_empty_lines lines ;;
      if 1 <=? length lines then Ok (Some lines, _at1 + n) else Ok (None, _at1 + n).

Definition _try_parse_pre_delim : rule Elem :=
  fun _at =>
    '(lines, _at') <- _try_parse_delim_block (u "```") _at ;;
    match lines with
    | Some lines => Ok (Some (_Pre lines), _at')
    | None => Ok (None, _at')
    end.

Definition _try_parse_ul_item : rule _SimpleListItem :=
  fun _at =>
    cur <- _cur_line _at ;;
    match match_bullet_line cur with
    | None => Ok (None, _at)
    | Some first =>
        _at1 <- _goto_next_line _at 1 ;;
        let more := block_lines (match_indented_content 2) (skipn _at1 _lines) in
        let _at2 := _at1 + length more in
        lines <- _remove_trailing_empty_lines (first :: more) ;;
        elems <- parse_sub (_unindent_lines lines 2) ;;
        Ok (Some elems, _at2)
    end.

Definition _try_parse_simple_list (elem_type : list _SimpleListItem -> Elem)
  (parse_item_func : rule _SimpleListItem) : rule Elem :=
  fun _at =>
    '(items, _at') <- item_loop parse_item_func fuel _at [] ;;
    if 1 <=? length items then Ok (Some (elem_type items), _at') else Ok (None, _at').

Definition _try_parse_ul : rule Elem := _try_parse_simple_list _Ul _try_parse_ul_item.

Definition _try_parse_ol_item : rule _SimpleListItem :=
  fun _at =>
    cur <- _cur_line _at ;;
    match match_ol_item_start cur with
    | None => Ok (None, _at)
    | Some (num, first) =>
        _at1 <- _goto_next_line _at 1 ;;
        let prefix_len := length num in
        let more := block_lines (match_indented_content prefix_len) (skipn _at1 _lines) in
        let _at2 := _at1 + length more in
        lines <- _remove_trailing_empty_lines (first :: more) ;;
        elems <- parse_sub (_unindent_lines lines prefix_len) ;;
        Ok (Some elems, _at2)
    end.

Definition _try_parse_ol : rule Elem := _try_parse_simple_list _Ol _try_parse_ol_item.

Definition _p_elem_from_text (text : str) : res Elem :=
  elems <- scan_text fuel text [] ;;
  Ok (_P elems).

Definition _try_parse_p : rule Elem :=
  fun _at =>
    let lines := paragraph_lines (skipn _at _lines) in
    if 1 <=? length lines then
      p <- _p_elem_from_text (join (u " ") lines) ;;
      Ok (Some p, _at + length lines)
    else Ok (None, _at).

Definition _try_parse_hr : rule Elem :=
  fun _at =>
    cur <- _cur_line _at ;;
    if str_eqb cur (u "***") || match_hr_rule cur then
      _at' <- _goto_next_line _at 1 ;;
      Ok (Some _Hr, _at')
    else Ok (None, _at).

Definition _try_parse_blockquote_prefixed : rule Elem :=
  fun _at =>
    let lines := quoted_lines (skipn _at _lines) in
    if 1 <=? length lines then
      elems <- parse_sub lines ;;
      Ok (Some (_Blockquote elems), _at + length lines)
    else Ok (None, _at).

Definition _try_parse_blockquote_delim : rule Elem :=
  fun _at =>
    '(lines, _at') <- _try_parse_delim_block (u ">>>") _at ;;
    match lines with
    | Some lines => elems <- parse_sub lines ;; Ok (Some (_Blockquote elems), _at')
    | None => Ok (None, _at')
    end.

Definition _try_parse_verbatim : rule Elem :=
  fun _at =>
    let lines := take_while match_verbatim_line (skipn _at _lines) in
    if 1 <=? length lines then Ok (Some (_Verbatim lines), _at + length lines)
    else Ok (None, _at).

Definition _try_parse_admon_box_delim : rule Elem :=
  fun _at =>
    '(lines, _at') <- _try_parse_delim_block (u "!!!") _at ;;
    match lines with
    | Some lines => elems <- parse_sub lines ;; Ok (Some (_AdmonBox elems), _at')
    | None => Ok (None, _at')
    end.

Definition _try_parse_admon_box : rule Elem :=
  fun _at =>
    cur <- _cur_line _at ;;
    if negb (startswith cur (u "┌")) then Ok (None, _at)
    else if negb (match_admon_tag (_next_line _at)) then Ok (None, _at)
    else
      _at1 <- _goto_next_line _at 1 ;;
      let '(lines, n) := admon_content (skipn _at1 _lines) in
      elems <- parse_sub lines ;;
      Ok (Some (_AdmonBox elems), _at1 + n).

Definition funcs : list (rule Elem) :=
  [ _try_parse_h1;
    _try_parse_h2;
    _try_parse_ul;
    _try_parse_ol;
    _try_parse_dl;
    _try_parse_pre_delim;
    _try_parse_pre_indented;
    _try_parse_hr;
    _try_parse_blockquote_delim;
    _try_parse_blockquote_prefixed;
    _try_parse_admon_box_delim;
    _try_parse_admon_box;
    _try_parse_verbatim;
    _try_parse_p ].

(** [for func in funcs]: the first element found, if any. *)
Fixpoint try_funcs (fs : list (rule Elem)) : rule Elem :=
  fun _at =>
    match fs with
    | [] => Ok (None, _at)
    | func :: fs' =>
        '(elem, _at') <- func _at ;;
        match elem with
        | Some _ => Ok (elem, _at')
        | None => try_funcs fs' _at'
        end
    end.

(** The loop of [_parse]; [k] bounds its iterations. *)
Fixpoint _parse (k : nat) (_at : nat) (_elems : list Elem) : res (list Elem) :=
  match k with
  | 0 => OutOfFuel
  | S k' =>
      let _at := _skip_empty_lines _at in
      if _is_done _at then Ok _elems
      else
        '(elem, _at') <- try_funcs funcs _at ;;
        match elem with
        | Some e => _parse k' _at' (_elems ++ [e])
        | None => _parse k' _at' _elems
        end
  end.

End Rules.

(** [_Parser(lines).elems] *)
Fixpoint elems (is_decimal : char -> bool) (fuel : nat) (lines : list str)
  : res (list Elem) :=
  match fuel with
  | 0 => OutOfFuel
  | S n => _parse is_decimal (elems is_decimal n) n lines n 0 []
  end.

End Parser.

(** ** The module's functions *)

Definition newline : str := [10%N].

Section Functions.

Variable is_decimal : char -> bool.
Variable upper : str -> str.

(** The engine behind the module's functions:
    [_Formatter(_Parser(lines).elems, max_line_len).lines]. *)
Definition engine (fuel : nat) (lines : list str) (max_line_len : Z) : res (list str) :=
  elems <- Parser.elems is_decimal fuel lines ;;
  Formatter.lines upper elems max_line_len.

(** [format(text, max_line_len)] *)
Definition format (fuel : nat) (text : str) (max_line_len : Z) : res str :=
  lines <- engine fuel (splitlines text) max_line_len ;;
  Ok (join newline lines).

(** [line_pat] of [format_c_block_comment], "\s*\* <.+>": group 1. *)
Definition match_c_line (comment_line : str) : option str :=
  match strip_prefix (u "* ") (drop_while is_space comment_line) with
  | Some (c :: rest) => if is_dot c then Some (c :: take_while is_dot rest) else None
  | _ => None
  end.

(** The first loop of [format_c_block_comment]. *)
Fixpoint c_content_lines (comment_lines : list str) : res (list str) :=
  match comment_lines with
  | [] => Ok []
  | comment_line :: rest =>
      let comment_line := strip comment_line in
      if str_eqb comment_line (u "/*") || str_eqb comment_line (u "*/")
      then c_content_lines rest
      else if str_eqb comment_line (u "*")
      then content_lines <- c_content_lines rest ;; Ok ([] :: content_lines)
      else match match_c_line comment_line with
           | None => Raise (ValueError comment_line)
           | Some content =>
               content_lines <- c_content_lines rest ;; Ok (content :: content_lines)
           end
  end.

(** [format_c_block_comment(comment, start_col, max_line_len)], the
    engine it calls being the argument [run]. *)
Definition format_c_block_comment_with (run : list str -> Z -> res (list str))
  (comment : str) (start_col max_line_len : Z) : res str :=
  content_lines <- c_content_lines (splitlines comment) ;;
  new_content_lines <- run content_lines (max_line_len - start_col - 3)%Z ;;
  let indent_str := _indent_str (Z.to_nat start_col) in
  let new_comment_lines :=
    [u "/*"]
    ++ map (fun rline => rstrip (indent_str ++ u " * " ++ rline)) new_content_lines
    ++ [indent_str ++ u " */"] in
  Ok (join newline new_comment_lines).

Definition format_c_block_comment (fuel : nat) (comment : str)
  (start_col max_line_len : Z) : res str :=
  format_c_block_comment_with (engine fuel) comment start_col max_line_len.

End Functions.

(** The tables on ASCII. *)
Definition ascii_decimal (c : char) : bool := ((48 <=? c) && (c <=? 57))%N.
Definition ascii_upper (s : str) : str :=
  map (fun c => if ((97 <=? c) && (c <=? 122))%N then (c - 32)%N else c) s.

(** * Vocabulary of the statements *)

(** ** Paragraph wrapping *)

(** A token as [_p_lines] stores it: the word and one space. *)
Definition add_space (w : str) : str := w ++ u " ".

(** The line [_p_lines] joins from a group of words. *)
Definition line_of_words (g : list str) : str := concat (map add_space g).

(** All tokens the wrapping loop has placed so far, in order. *)
Definition placed (lines : list (list str) * list str) : list str :=
  concat (fst lines) ++ snd lines.

(** What the wrapping loop keeps true of [lines]: every finished line
    holds a token, the line after a finished one was opened by a word
    that did not fit behind it, and every token is a word and a space. *)
Definition wrapped_ok (max : Z) (lines : list (list str) * list str) : Prop :=
  let '(front, cur) := lines in
  Forall (fun l => l <> []) front
  /\ (front = [] \/
      exists front' prev t cur',
        front = front' ++ [prev] /\ cur = add_space t :: cur'
        /\ (Formatter._p_line_list_len prev + Z.of_nat (length t) > max)%Z)
  /\ (forall tok, In tok (concat front ++ cur) -> exists w, tok = add_space w).

(** The runt correction as the specification words it, on lines of
    words: with at least two lines, a final line of exactly one word,
    and the last word of the line before it fitting in front of that
    word with a single space between them, the two words become the
    final line; any other wrapping is left as it is. *)
Definition runt_corrected (max_width : Z) (lines : list (list str)) : list (list str) :=
  match unsnoc lines with
  | Some (before, [final]) =>
      match unsnoc before with
      | Some (earlier, second_to_last) =>
          match unsnoc second_to_last with
          | Some (kept, last_word) =>
              if (Z.of_nat (length (last_word ++ u " " ++ final)) <=? max_width)%Z
              then earlier ++ [kept; [last_word; final]]
              else lines
          | None => lines
          end
      | None => lines
      end
  | _ => lines
  end.

(** ** Lists *)

(** An item rendered as one content line and one blank line. *)
Definition one_content_line (item_lines : list str) : Prop :=
  exists content, item_lines = [content; []] /\ strip content <> [].

(** The test of [_compact_list] for a line to keep. *)
Definition not_blank (line : str) : bool := 1 <=? length (strip line).

(** An item of a list as the formatter renders it: a line that is not
    blank, possibly more lines, and one blank line. *)
Definition item_shape (ls : list str) : Prop :=
  exists first more, ls = first :: more ++ [[]] /\ strip first <> [].

(** ** The element tree *)

(** No list of the tree, at any depth, is without items. *)
Fixpoint no_empty_list (e : Elem) : bool :=
  match e with
  | _Ul items | _Ol items =>
      negb (is_empty items) && forallb (forallb no_empty_list) items
  | _Dl items =>
      negb (is_empty items) && forallb (fun item => forallb no_empty_list (snd item)) items
  | _AdmonBox elems | _Blockquote elems => forallb no_empty_list elems
  | _P _ | _Pre _ | _H1 _ | _H2 _ | _Hr | _Verbatim _ => true
  end.

(** The only errors the engine raises. *)
Definition internal_error (e : exn) : Prop := e = AssertionError \/ e = IndexError.

(** A call that, when it returns, returns a value of [P], and that,
    when it raises, raises an [internal_error]. *)
Definition sound {A} (P : A -> Prop) (r : res A) : Prop :=
  match r with
  | Ok a => P a
  | Raise e => internal_error e
  | OutOfFuel => True
  end.

(** What a try-parse method found is a tree without empty lists. *)
Definition found_ok {A} (P : A -> Prop) (found : option A * nat) : Prop :=
  match fst found with
  | Some a => P a
  | None => True
  end.

(** ** Comment envelopes *)

(** A string matches "\s*\* <.+>" from its start. *)
Definition matches_c_line_pat (s : str) : Prop :=
  exists spaces c rest,
    s = spaces ++ u "* " ++ c :: rest
    /\ forallb is_space spaces = true
    /\ c <> 10%N.

(** A line of a C block comment that [format_c_block_comment] takes:
    stripped, it is "/*", "*/" or "*", or it matches the pattern. *)
Definition c_line_accepted (line : str) : Prop :=
  strip line = u "/*" \/ strip line = u "*/" \/ strip line = u "*"
  \/ matches_c_line_pat (strip line).

(** A sequence of elements without empty lists. *)
Definition tree_ok (elems : list Elem) : Prop := forallb no_empty_list elems = true.

(** ** Termination of the parser *)

(** A line holds no line feed, as every line [str.splitlines] returns. *)
Definition line_ok (l : str) : Prop := forallb is_dot l = true.

(** The measure that decreases at every nested [_Parser]: the count of
    the characters, one more for each line. *)
Definition size (lines : list str) : nat :=
  fold_right (fun l acc => S (length l) + acc) 0 lines.

(** [a] is the start of [b]. *)
Definition prefix_of {A} (a b : list A) : Prop := exists tail, b = a ++ tail.

(** What a try-parse method does to the cursor: with an element found
    it moved forward and stayed within the lines, with none found it did
    not move; it may raise, and it does not run out of fuel. *)
Definition progress {A} (len _at : nat) (r : res (option A * nat)) : Prop :=
  match r with
  | Ok (Some _, _at') => _at < _at' /\ _at' <= len
  | Ok (None, _at') => _at' = _at
  | Raise _ => True
  | OutOfFuel => False
  end.

(** One iteration of the loop of [_parse] at a line that is not blank:
    some method found an element and moved the cursor forward, or the
    iteration raised an internal error. *)
Definition consumes {A} (len _at : nat) (r : res (option A * nat)) : Prop :=
  match r with
  | Ok (Some _, _at') => _at < _at' /\ _at' <= len
  | Ok (None, _) => False
  | Raise e => internal_error e
  | OutOfFuel => False
  end.

(** What the loop over the items of a list returns from the cursor
    [_at]: either no new item, the cursor behind the blank lines, where
    the item method found nothing; or more items and the cursor moved
    forward. *)
Definition loop_result {T} (_lines : list str) (f : Parser.rule T) (_at : nat)
  (items : list T) (r : res (list T * nat)) : Prop :=
  match r with
  | Ok (items', _at') =>
      _at' <= length _lines
      /\ ((items' = items /\ _at' = Parser._skip_empty_lines _lines _at
           /\ (_at' < length _lines -> exists p, f _at' = Ok (None, p)))
          \/ (length items < length items'
              /\ Parser._skip_empty_lines _lines _at < _at'))
  | Raise _ => True
  | OutOfFuel => False
  end.

(** A call that returns, or raises an internal error: it does not run
    for ever. *)
Definition returns_or_raises {A} (r : res A) : Prop :=
  match r with
  | Ok _ => True
  | Raise e => internal_error e
  | OutOfFuel => False
  end.

(** No line boundary of [str.splitlines] in a line. *)
Definition no_linebreak (l : str) : Prop :=
  forallb (fun c => negb (is_linebreak c)) l = true.

(** ** Widths *)

(** A line of tokens of the wrapping loop fits [max] columns once its
    last space is dropped, or it holds one token, or none. *)
Definition tokens_fit (max : Z) (line : list str) : Prop :=
  line = [] \/ (Formatter._p_line_list_len line - 1 <= max)%Z \/ exists t, line = [t].

(** A line of words fits [max] columns, its words one space apart, or
    it holds a single word that alone is longer than [max]. *)
Definition group_fits (max : Z) (g : list str) : Prop :=
  (Z.of_nat (length (join (u " ") g)) <= max)%Z
  \/ exists w, g = [w] /\ (Z.of_nat (length w) > max)%Z.

(** The formatter of the content of a construct indented by
    [indent_len] columns. *)
Definition narrow (self : Formatter.Self) (indent_len : nat) : Formatter.Self :=
  Formatter.mkSelf (Formatter._max_line_len self - Z.of_nat indent_len)
                   (Formatter._cur_ul_level self) (Formatter._cur_ol_level self).

Definition forallb_enum {A} (f : nat -> A -> bool) : nat -> list A -> bool :=
  fix go (index : nat) (l : list A) : bool :=
    match l with
    | [] => true
    | x :: l' => f index x && go (S index) l'
    end.

(** The element is built of paragraphs, lists with an item at least,
    blockquotes and admonition boxes only, and every word of every
    paragraph fits the width the formatter wraps that paragraph at: the
    maximum width less the indentation of the constructs around it. *)
Fixpoint words_fit (e : Elem) (self : Formatter.Self) {struct e} : bool :=
  match e with
  | _P words =>
      forallb (fun w => (Z.of_nat (length w) <=? Formatter._max_line_len self)%Z) words
  | _Ul items =>
      negb (is_empty items)
      && forallb (fun item =>
                    forallb (fun e => words_fit e (narrow (Formatter.incr_ul self) 2)) item)
                 items
  | _Ol items =>
      negb (is_empty items)
      && forallb_enum
        (fun index item =>
           let num := Formatter._make_ol_item_num (Formatter.incr_ol self) items index in
           forallb (fun e => words_fit e (narrow (Formatter.incr_ol self) (length num + 1)))
                   item)
        0 items
  | _Blockquote elems => forallb (fun e => words_fit e (narrow self 2)) elems
  | _AdmonBox elems => forallb (fun e => words_fit e (narrow self 4)) elems
  | _Dl _ | _Pre _ | _H1 _ | _H2 _ | _Hr | _Verbatim _ => false
  end.

(** A line is at most [max] columns wide. *)
Definition within (max : Z) (line : str) : Prop := (Z.of_nat (length line) <= max)%Z.

(** A group of words of the wrapping loop: it fits, or it is one word. *)
Definition fits_or_single (max : Z) (g : list str) : Prop :=
  (Z.of_nat (length (join (u " ") g)) <= max)%Z \/ exists w, g = [w].

(** What the width bound carries through the tree for one element:
    formatted by a formatter its words fit, its lines are within the
    maximum width of that formatter, which is not negative. *)
Definition elem_within (upper : str -> str) (e : Elem) : Prop :=
  forall self ls,
    words_fit e self = true -> Formatter._elem_lines upper e self = Ok ls ->
    (0 <= Formatter._max_line_len self)%Z
    /\ Forall (fun l => within (Formatter._max_line_len self) (rstrip l)) ls.

(** ** Outcomes of the formatter *)

(** A nested formatter that returns, returns a line. *)
Definition formats (F : list Elem -> Formatter.Self -> res (list str)) (elems : list Elem)
  : Prop :=
  forall self, sound (fun ls => ls <> []) (F elems self).

(** The test of the loop of [format_c_block_comment] for a line it takes. *)
Definition c_line_taken (line : str) : bool :=
  str_eqb (strip line) (u "/*") || str_eqb (strip line) (u "*/")
  || str_eqb (strip line) (u "*")
  || match match_c_line (strip line) with Some _ => true | None => false end.

(** ** Plain paragraphs *)

(** An ASCII letter or digit. *)
Definition plain_char (c : char) : bool :=
  ((48 <=? c) && (c <=? 57) || (65 <=? c) && (c <=? 90) || (97 <=? c) && (c <=? 122))%N.

(** A word of letters and digits, one at least. *)
Definition plain_word (w : str) : bool := negb (is_empty w) && forallb plain_char w.

(** A string of letters, digits and spaces. *)
Definition mild (s : str) : bool :=
  forallb (fun x => plain_char x || char_eqb x (ch " ")) s.

(** A line of letters, digits and spaces that starts with a letter or a
    digit. *)
Definition tame (l : str) : bool :=
  match l with
  | c :: rest => plain_char c && mild rest
  | [] => false
  end.

(** The text behind the first word of a line: each word with a space
    in front of it. *)
Definition tail_text (words : list str) : str :=
  concat (map (fun w => ch " " :: w) words).

(** * The other functions *)

(** ** [format_prefixed_block_comment] *)

(** The group of [line_pat] once the prefix is read: "<.+>". *)
Definition rest_of_line (s : str) : option str :=
  match s with
  | c :: rest => if is_dot c then Some (c :: take_while is_dot rest) else None
  | [] => None
  end.

(** [line_pat] of [format_prefixed_block_comment],
    "\s*{re.escape(prefix)}<.+>": group 1.  The greedy "\s*" reads all
    the white space it can and gives it back, a character at a time,
    until the prefix and a character follow. *)
Fixpoint match_prefixed_line (prefix s : str) : option str :=
  let here :=
    match strip_prefix prefix s with
    | Some rest => rest_of_line rest
    | None => None
    end in
  match s with
  | c :: s' =>
      if is_space c then
        match match_prefixed_line prefix s' with
        | Some content => Some content
        | None => here
        end
      else here
  | [] => here
  end.

(** The first loop of [format_prefixed_block_comment]. *)
Fixpoint prefixed_content_lines (prefix : str) (comment_lines : list str)
  : res (list str) :=
  match comment_lines with
  | [] => Ok []
  | comment_line :: rest =>
      let comment_line := strip comment_line in
      if str_eqb comment_line (rstrip prefix)
      then content_lines <- prefixed_content_lines prefix rest ;; Ok ([] :: content_lines)
      else match match_prefixed_line prefix comment_line with
           | None => Raise (ValueError comment_line)
           | Some content =>
               content_lines <- prefixed_content_lines prefix rest ;;
               Ok (content :: content_lines)
           end
  end.

(** [format_prefixed_block_comment(comment, start_col, max_line_len,
    prefix)], the engine it calls being the argument [run]. *)
Definition format_prefixed_block_comment_with (run : list str -> Z -> res (list str))
  (comment : str) (start_col max_line_len : Z) (prefix : str) : res str :=
  content_lines <- prefixed_content_lines prefix (splitlines comment) ;;
  new_content_lines <- run content_lines (max_line_len - start_col - Z.of_nat (length prefix))%Z ;;
  let indent_str := _indent_str (Z.to_nat start_col) in
  let new_comment_lines :=
    map (fun rline => rstrip (indent_str ++ prefix ++ rline)) new_content_lines in
  Ok (join newline new_comment_lines).

Definition format_prefixed_block_comment (is_decimal : char -> bool) (upper : str -> str)
  (fuel : nat) (comment : str) (start_col max_line_len : Z) (prefix : str) : res str :=
  format_prefixed_block_comment_with (engine is_decimal upper fuel)
                                     comment start_col max_line_len prefix.

(** ** The test files: [_split_ft_file] of [tests/conftest.py] *)

(** [line.rstrip() == '---'] *)
Definition is_separator (line : str) : bool := str_eqb (rstrip line) (u "---").

(** The loop of [_split_ft_file] over the lines of the file;
    [in_expected] tells which of the two lists [cur_lines] is. *)
Fixpoint split_ft_lines (file_lines : list str) (in_expected : bool)
  (formol_lines expected_lines : list str) : list str * list str :=
  match file_lines with
  | [] => (formol_lines, expected_lines)
  | line :: rest =>
      if is_separator line && (length expected_lines =? 0)
      then split_ft_lines rest true formol_lines expected_lines
      else if in_expected
           then split_ft_lines rest true formol_lines (expected_lines ++ [line])
           else split_ft_lines rest false (formol_lines ++ [line]) expected_lines
  end.

(** [_split_ft_file(path)], [file_lines] being the lines that reading
    the file at [path] yields, each with its line end. *)
Definition _split_ft_file (file_lines : list str) : str * str :=
  let '(formol_lines, expected_lines) := split_ft_lines file_lines false [] [] in
  (concat formol_lines, rstrip (concat expected_lines)).

(** * Vocabulary of the further statements *)

(** A line of a preformatted block as [format] returns it: four
    spaces in front of it, and nothing for an empty line. *)
Definition pre_line (line : str) : str :=
  if is_empty line then [] else u "    " ++ line.

(** A string matches "\s*{prefix}<.+>" from its start, the prefix
    being read as it is written. *)
Definition matches_prefixed_pat (prefix s : str) : Prop :=
  exists spaces c rest,
    s = spaces ++ prefix ++ c :: rest
    /\ forallb is_space spaces = true
    /\ c <> 10%N.

(** A line of a prefixed block comment that
    [format_prefixed_block_comment] takes: stripped, it is the prefix
    without the white space that ends it, or it is the prefix and a
    character at least that is no line feed. *)
Definition prefixed_line_accepted (prefix line : str) : Prop :=
  strip line = rstrip prefix
  \/ exists c rest, strip line = prefix ++ c :: rest /\ c <> 10%N.

(** The test of the loop of [format_prefixed_block_comment] for a line
    it takes. *)
Definition prefixed_line_taken (prefix line : str) : bool :=
  str_eqb (strip line) (rstrip prefix)
  || match match_prefixed_line prefix (strip line) with Some _ => true | None => false end.

(** A line of a list item whose marker is [marker]: an empty line, the
    marker, a space and text, or text under the text of the first
    line, behind as many spaces as the marker and its space take. *)
Definition item_line (marker line : str) : Prop :=
  line = []
  \/ (exists text, line = marker ++ u " " ++ text)
  \/ (exists text, line = repeat (ch " ") (length marker + 1) ++ text).

(** The bullet of the items of an unordered list that a formatter
    [self] formats: the levels take "•", "‣" and "⁃" in turn. *)
Definition ul_bullet (self : Formatter.Self) : char :=
  nth (Z.to_nat ((Formatter._cur_ul_level self + 1) mod 3)) (u "•‣⁃") 0%N.

(** ** The characters of the output *)

(** Every character of every string of an element is a character of
    [Q]. *)
Fixpoint elem_chars (Q : char -> bool) (e : Elem) : bool :=
  match e with
  | _P words => forallb (forallb Q) words
  | _Ul items | _Ol items => forallb (forallb (elem_chars Q)) items
  | _Dl items =>
      forallb (fun item => forallb (forallb Q) (fst item)
                           && forallb (elem_chars Q) (snd item)) items
  | _Pre lines | _Verbatim lines => forallb (forallb Q) lines
  | _H1 text | _H2 text => forallb Q text
  | _Hr => true
  | _AdmonBox elems | _Blockquote elems => forallb (elem_chars Q) elems
  end.

(** What a call returns, when it returns, is in [P]. *)
Definition returns {A} (P : A -> Prop) (r : res A) : Prop :=
  forall a, r = Ok a -> P a.

(** What a try-parse method found, when it found an element, is in [P]. *)
Definition found {A} (P : A -> Prop) (r : res (option A * nat)) : Prop :=
  returns (fun p => forall a, fst p = Some a -> P a) r.

(** The characters that the formatter writes of its own: the space,
    the bullets, the marks of the markers, of the terms and of the
    quotations, the strokes of the boxes, of the underlines and of the
    rules, the digits and the lower-case letters of the markers. *)
Definition emitted (c : char) : bool :=
  char_in (u " •‣⁃.):>│┌─┐└┘━┄-") c
  || ((48 <=? c) && (c <=? 57))%N
  || ((97 <=? c) && (c <=? 122))%N.

(** * Facts and theorems *)

Section Wrapping.

(** * Proofs *)

(** ** Lists and strings *)

Lemma unsnoc_snoc {A} (l : list A) (x : A) : unsnoc (l ++ [x]) = Some (l, x).
Proof.
  induction l as [|y l IH]; simpl; [reflexivity|].
  now rewrite IH.
Qed.

Lemma unsnoc_Some {A} (l front : list A) (x : A) :
  unsnoc l = Some (front, x) -> l = front ++ [x].
Proof.
  revert front x; induction l as [|y l IH]; simpl; intros front x H; [discriminate|].
  destruct (unsnoc l) as [[f z]|] eqn:E.
  - inversion H; subst. simpl. f_equal. now apply IH.
  - inversion H; subst. destruct l; [reflexivity|].
    simpl in E. destruct (unsnoc l) as [[? ?]|]; discriminate.
Qed.

Lemma unsnoc_None {A} (l : list A) : unsnoc l = None -> l = [].
Proof.
  destruct l; simpl; [reflexivity|].
  destruct (unsnoc l) as [[? ?]|]; discriminate.
Qed.

Lemma drop_trailing_empty_last (front : list str) (l : str) :
  l <> [] -> drop_trailing_empty (rev (front ++ [l])) = Ok (front ++ [l]).
Proof.
  intros Hl. rewrite rev_app_distr. simpl.
  destruct l; [congruence|]. simpl.
  rewrite rev_involutive. reflexivity.
Qed.

Lemma remove_trailing_last (front : list str) (l : str) :
  l <> [] -> _remove_trailing_empty_lines (front ++ [l]) = Ok (front ++ [l]).
Proof.
  intros Hl. unfold _remove_trailing_empty_lines.
  destruct (front ++ [l]) eqn:E.
  - destruct front; discriminate.
  - rewrite <- E. now apply drop_trailing_empty_last.
Qed.

(** ** Paragraph wrapping *)

Import Formatter.

Lemma p_line_list_len_app (a b : list str) :
  _p_line_list_len (a ++ b) = (_p_line_list_len a + _p_line_list_len b)%Z.
Proof.
  unfold _p_line_list_len. induction a as [|x a IH]; simpl; [reflexivity|].
  fold (_p_line_list_len) in *. rewrite IH. lia.
Qed.

Lemma placed_wrap_word max lines word :
  placed (wrap_word max lines word) = placed lines ++ [add_space word].
Proof.
  destruct lines as [front cur]. unfold wrap_word, placed.
  destruct (length cur =? 0); simpl.
  - now rewrite app_assoc.
  - destruct (_ >? _)%Z; simpl.
    + rewrite concat_app. simpl. now rewrite app_nil_r.
    + now rewrite app_assoc.
Qed.

Lemma placed_fold max words : forall lines,
  placed (fold_left (wrap_word max) words lines) = placed lines ++ map add_space words.
Proof.
  induction words as [|w words IH]; intros lines; simpl.
  - now rewrite app_nil_r.
  - rewrite IH, placed_wrap_word, <- app_assoc. reflexivity.
Qed.

Lemma placed_wrap_words max words :
  placed (wrap_words max words) = map add_space words.
Proof. unfold wrap_words. now rewrite placed_fold. Qed.

Lemma wrapped_ok_init max : wrapped_ok max ([], []).
Proof. repeat split; auto. intros tok []. Qed.

Lemma wrapped_ok_step max lines word :
  wrapped_ok max lines -> wrapped_ok max (wrap_word max lines word).
Proof.
  destruct lines as [front cur]. intros (Hne & Hopen & Htok).
  assert (Htok' : forall tok, In tok ((concat front ++ cur) ++ [add_space word]) ->
                              exists w, tok = add_space w).
  { intros tok Hin. apply in_app_or in Hin. destruct Hin as [Hin|[<-|[]]]; eauto. }
  unfold wrap_word. destruct (length cur =? 0) eqn:Ecur.
  - apply Nat.eqb_eq in Ecur. destruct cur; [|discriminate]. simpl.
    destruct Hopen as [->|(f & p & t & c & _ & Hc & _)]; [|discriminate].
    repeat split; auto.
  - destruct (_ >? _)%Z eqn:Efit.
    + repeat split.
      * apply Forall_app. split; [assumption|]. constructor; [|constructor].
        intros ->. discriminate.
      * right. exists front, cur, word, []. repeat split; auto. lia.
      * rewrite concat_app. simpl. rewrite app_nil_r. exact Htok'.
    + repeat split; auto.
      * destruct Hopen as [->|(f & p & t & c & Hf & Hc & Hlen)]; [now left|].
        right. exists f, p, t, (c ++ [add_space word]). subst. repeat split; auto.
      * rewrite app_assoc. exact Htok'.
Qed.

Lemma wrapped_ok_fold max words : forall lines,
  wrapped_ok max lines -> wrapped_ok max (fold_left (wrap_word max) words lines).
Proof.
  induction words as [|w words IH]; intros lines H; simpl; [assumption|].
  apply IH. now apply wrapped_ok_step.
Qed.

Lemma wrapped_ok_wrap_words max words : wrapped_ok max (wrap_words max words).
Proof. apply wrapped_ok_fold, wrapped_ok_init. Qed.


Lemma length_add_space w : length (add_space w) = S (length w).
Proof. unfold add_space. rewrite length_app. simpl. lia. Qed.

Lemma add_space_inj a b : add_space a = add_space b -> a = b.
Proof. unfold add_space. intros H. now apply app_inv_tail in H. Qed.

Lemma add_space_nonempty w : add_space w <> [].
Proof. unfold add_space. destruct w; discriminate. Qed.

(** Tokens that are words with a space come from groups of words. *)
Lemma tokens_from_words (groups : list (list str)) :
  (forall tok, In tok (concat groups) -> exists w, tok = add_space w) ->
  exists wgroups, groups = map (map add_space) wgroups.
Proof.
  induction groups as [|g groups IH]; intros H.
  - now exists [].
  - destruct IH as [wgs ->].
    { intros tok Hin. apply H. simpl. apply in_or_app. now right. }
    assert (Hg : exists wg, g = map add_space wg).
    { assert (Hin : forall tok, In tok g -> exists w, tok = add_space w).
      { intros tok Hin. apply H. simpl. apply in_or_app. now left. }
      clear H. induction g as [|t g IHg]; [now exists []|].
      destruct (Hin t (or_introl eq_refl)) as [w ->].
      destruct IHg as [wg ->]; [intros; apply Hin; now right|].
      now exists (w :: wg). }
    destruct Hg as [wg ->]. now exists (wg :: wgs).
Qed.

Lemma concat_map_map {A B} (f : A -> B) (ls : list (list A)) :
  concat (map (map f) ls) = map f (concat ls).
Proof. now rewrite concat_map. Qed.

Lemma map_add_space_inj a b : map add_space a = map add_space b -> a = b.
Proof.
  revert b; induction a as [|x a IH]; destruct b as [|y b]; simpl; intros H;
    try discriminate; [reflexivity|].
  inversion H as [[Hx Hr]]. apply add_space_inj in Hx. subst. f_equal. now apply IH.
Qed.

(** The runt correction of the code on a wrapping the loop produced. *)
Lemma avoid_runt_spec max (wfront : list (list str)) (wcur : list str) :
  Forall (fun l => l <> []) wfront ->
  avoid_runt max (map (map add_space) wfront, map add_space wcur)
  = Ok (map (map add_space) (runt_corrected max (wfront ++ [wcur]))).
Proof.
  intros Hne. unfold avoid_runt, runt_corrected.
  rewrite unsnoc_snoc.
  destruct (unsnoc wfront) as [[earlier prev]|] eqn:Efront.
  - apply unsnoc_Some in Efront. subst wfront.
    rewrite map_app.
    change (map (map add_space) [prev]) with [map add_space prev].
    rewrite unsnoc_snoc.
    destruct wcur as [|b [|b' wcur]].
    + simpl. now rewrite !map_app.
    + change (map add_space [b]) with [add_space b]. cbv iota.
      destruct (unsnoc prev) as [[kept a]|] eqn:Eprev.
      * apply unsnoc_Some in Eprev. subst prev.
        rewrite map_app.
        change (map add_space [a]) with [add_space a].
        rewrite unsnoc_snoc.
        rewrite !length_add_space, !length_app. simpl length.
        replace (Z.of_nat (S (length a)) + Z.of_nat (S (length b)) - 1)%Z
          with (Z.of_nat (length a + S (length b))) by lia.
        destruct (_ <=? _)%Z; rewrite !map_app; simpl; rewrite ?map_app; reflexivity.
      * apply unsnoc_None in Eprev. subst prev.
        apply Forall_app in Hne. destruct Hne as [_ Hne].
        inversion Hne; congruence.
    + simpl. now rewrite !map_app.
  - apply unsnoc_None in Efront. subst wfront. simpl.
    destruct wcur as [|b [|b' wcur]]; reflexivity.
Qed.

Lemma Forall_nonempty_map_inv (wfront : list (list str)) :
  Forall (fun l : list str => l <> []) (map (map add_space) wfront) ->
  Forall (fun l : list str => l <> []) wfront.
Proof.
  induction wfront as [|g wfront IH]; simpl; intros H; [constructor|].
  inversion H as [|? ? Hg Hrest]; subst. constructor; [|now apply IH].
  intros ->. now apply Hg.
Qed.

(** The wrapping loop's lines are lines of words. *)
Lemma wrap_words_words max words :
  exists wfront wcur,
    wrap_words max words = (map (map add_space) wfront, map add_space wcur)
    /\ Forall (fun l => l <> []) wfront
    /\ concat wfront ++ wcur = words
    /\ (wfront = [] \/
        exists earlier prev t cur',
          wfront = earlier ++ [prev] /\ wcur = t :: cur'
          /\ (_p_line_list_len (map add_space prev) + Z.of_nat (length t) > max)%Z).
Proof.
  pose proof (wrapped_ok_wrap_words max words) as Hok.
  pose proof (placed_wrap_words max words) as Hpl.
  destruct (wrap_words max words) as [front cur].
  destruct Hok as (Hne & Hopen & Htok).
  destruct (tokens_from_words (front ++ [cur])) as [wg Hwg].
  { intros tok Hin. apply Htok. rewrite concat_app in Hin. simpl in Hin.
    now rewrite app_nil_r in Hin. }
  assert (exists wfront wcur, wg = wfront ++ [wcur]) as (wfront & wcur & ->).
  { destruct (unsnoc wg) as [[f c]|] eqn:E.
    - apply unsnoc_Some in E. eauto.
    - apply unsnoc_None in E. subst. destruct front; discriminate. }
  rewrite map_app in Hwg. simpl in Hwg. apply app_inj_tail in Hwg.
  destruct Hwg as [-> ->].
  exists wfront, wcur. split; [reflexivity|]. split; [|split].
  - now apply Forall_nonempty_map_inv.
  - unfold placed in Hpl. simpl in Hpl.
    rewrite concat_map_map, <- map_app in Hpl. now apply map_add_space_inj.
  - destruct Hopen as [Hnil|(f & p & t & c & Hf & Hc & Hlen)].
    + left. destruct wfront; [reflexivity|discriminate].
    + right.
      destruct (unsnoc wfront) as [[earlier prev]|] eqn:E.
      * apply unsnoc_Some in E. subst wfront.
        rewrite map_app in Hf. simpl in Hf. apply app_inj_tail in Hf.
        destruct Hf as [_ <-].
        destruct wcur as [|t' cur']; [discriminate|].
        simpl in Hc. inversion Hc as [[Ht Hc']]. apply add_space_inj in Ht. subst t'.
        now exists earlier, prev, t, cur'.
      * apply unsnoc_None in E. subst wfront. destruct f; discriminate.
Qed.

Lemma line_of_words_nonempty g : g <> [] -> line_of_words g <> [].
Proof.
  destruct g as [|w g]; [congruence|]. intros _. unfold line_of_words. simpl.
  unfold add_space at 1. destruct w; discriminate.
Qed.

Lemma concat_line_of_words (g : list str) :
  concat (map add_space g) = line_of_words g.
Proof. reflexivity. Qed.

(** After the correction no line of a non-empty paragraph is empty. *)
Lemma runt_corrected_nonempty max (wfront : list (list str)) (wcur : list str) :
  Forall (fun l => l <> []) wfront -> wcur <> [] ->
  (wfront = [] \/
   exists earlier prev t cur',
     wfront = earlier ++ [prev] /\ wcur = t :: cur'
     /\ (_p_line_list_len (map add_space prev) + Z.of_nat (length t) > max)%Z) ->
  Forall (fun l => l <> []) (runt_corrected max (wfront ++ [wcur])).
Proof.
  intros Hne Hcur Hopen.
  assert (Hall : Forall (fun l : list str => l <> []) (wfront ++ [wcur])).
  { apply Forall_app. split; [assumption|]. now constructor. }
  unfold runt_corrected. rewrite unsnoc_snoc.
  destruct wcur as [|b [|b' wcur]]; try assumption.
  destruct (unsnoc wfront) as [[earlier prev]|] eqn:Efront; [|assumption].
  destruct (unsnoc prev) as [[kept a]|] eqn:Eprev; [|assumption].
  destruct (_ <=? _)%Z eqn:Efit; [|assumption].
  apply unsnoc_Some in Efront, Eprev. subst wfront prev.
  apply Forall_app in Hne. destruct Hne as [Hearlier _].
  apply Forall_app. split; [assumption|].
  constructor; [|constructor; [discriminate|constructor]].
  intros ->.
  destruct Hopen as [Hnil|(e & p & t & c & Hf & Hc & Hlen)].
  - destruct earlier; discriminate.
  - apply app_inj_tail in Hf. destruct Hf as [_ <-].
    inversion Hc; subst t c. simpl in Hlen.
    rewrite length_add_space in Hlen.
    apply Z.leb_le in Efit. rewrite !length_app in Efit. simpl in Efit. lia.
Qed.

Lemma wrapped_last_nonempty (wfront : list (list str)) (wcur : list str) max :
  concat wfront ++ wcur <> [] ->
  (wfront = [] \/
   exists earlier prev t cur',
     wfront = earlier ++ [prev] /\ wcur = t :: cur'
     /\ (_p_line_list_len (map add_space prev) + Z.of_nat (length t) > max)%Z) ->
  wcur <> [].
Proof.
  intros Hwords [->|(e & p & t & c & _ & -> & _)]; [|discriminate].
  simpl in Hwords. assumption.
Qed.

(** The lines [_p_lines] returns for a paragraph that has a word. *)
Lemma p_lines_nonempty_words (self : Self) (words : list str) :
  words <> [] ->
  exists wrapped,
    fst (wrap_words (_max_line_len self) words) ++ [snd (wrap_words (_max_line_len self) words)]
    = map (map add_space) wrapped
    /\ concat wrapped = words
    /\ Forall (fun g => g <> []) (runt_corrected (_max_line_len self) wrapped)
    /\ _p_lines self words
       = Ok (map line_of_words (runt_corrected (_max_line_len self) wrapped) ++ [[]]).
Proof.
  intros Hwords. unfold _p_lines.
  destruct (wrap_words_words (_max_line_len self) words)
    as (wfront & wcur & E & Hne & Hcat & Hopen).
  exists (wfront ++ [wcur]). rewrite E. simpl fst. simpl snd.
  assert (Hcur : wcur <> []).
  { eapply wrapped_last_nonempty; [|exact Hopen]. now rewrite Hcat. }
  pose proof (runt_corrected_nonempty _ _ _ Hne Hcur Hopen) as Hall.
  split; [now rewrite map_app|]. split.
  { rewrite concat_app. simpl. now rewrite app_nil_r. }
  split; [assumption|].
  rewrite avoid_runt_spec by assumption. simpl bind.
  rewrite map_map.
  rewrite (map_ext _ line_of_words) by (intros; apply concat_line_of_words).
  destruct (unsnoc (runt_corrected (_max_line_len self) (wfront ++ [wcur])))
    as [[front l]|] eqn:El.
  - apply unsnoc_Some in El. rewrite El in *. rewrite map_app. simpl map.
    rewrite remove_trailing_last; [reflexivity|].
    apply line_of_words_nonempty.
    apply Forall_app in Hall. destruct Hall as [_ Hl]. now inversion Hl.
  - apply unsnoc_None in El. exfalso.
    unfold runt_corrected in El. rewrite unsnoc_snoc in El.
    destruct wcur as [|b [|b' wcur]]; try (destruct wfront; discriminate).
    destruct (unsnoc wfront) as [[earlier prev]|]; [|destruct wfront; discriminate].
    destruct (unsnoc prev) as [[kept a]|]; [|destruct wfront; discriminate].
    destruct (_ <=? _)%Z; [destruct earlier|destruct wfront]; discriminate.
Qed.

Lemma p_lines_no_words (self : Self) : _p_lines self [] = Raise IndexError.
Proof. reflexivity. Qed.

Lemma runt_corrected_concat max (lines : list (list str)) :
  concat (runt_corrected max lines) = concat lines.
Proof.
  unfold runt_corrected.
  destruct (unsnoc lines) as [[before [|final [|? ?]]]|] eqn:E; try reflexivity.
  destruct (unsnoc before) as [[earlier prev]|] eqn:E1; try reflexivity.
  destruct (unsnoc prev) as [[kept a]|] eqn:E2; try reflexivity.
  destruct (_ <=? _)%Z; try reflexivity.
  apply unsnoc_Some in E, E1, E2. subst.
  rewrite !concat_app. simpl. rewrite !app_nil_r, <- !app_assoc. reflexivity.
Qed.

(** C6: the runt correction of [_p_lines] is the one the specification
    describes.  Whatever the words and the width, the lines the greedy
    loop built are lines of words ([wrapped]), and the correction the
    code applies to them is [runt_corrected]: the last word of the
    second-to-last line and a lone final word become the final line
    exactly when there are two lines or more and the two words fit on
    [max_line_len] columns with one space between them, the
    second-to-last line losing that word; in every other case the lines
    stay as the loop built them.  The corrected lines are the ones
    [_p_lines] then joins and returns. *)
Theorem runt_correction_as_specified (self : Self) (words : list str) :
  exists wrapped : list (list str),
    fst (wrap_words (_max_line_len self) words) ++ [snd (wrap_words (_max_line_len self) words)]
    = map (map add_space) wrapped
    /\ avoid_runt (_max_line_len self) (wrap_words (_max_line_len self) words)
       = Ok (map (map add_space) (runt_corrected (_max_line_len self) wrapped))
    /\ _p_lines self words
       = match words with
         | [] => Raise IndexError
         | _ => Ok (map line_of_words (runt_corrected (_max_line_len self) wrapped) ++ [[]])
         end.
Proof.
  destruct words as [|w words].
  - exists [[]]. repeat split.
  - destruct (p_lines_nonempty_words self (w :: words)) as (wrapped & E & _ & _ & Hp);
      [discriminate|].
    exists wrapped. split; [exact E|]. split; [|exact Hp].
    destruct (wrap_words_words (_max_line_len self) (w :: words))
      as (wfront & wcur & E' & Hne & _ & _).
    rewrite E' in *. simpl in E.
    assert (wrapped = wfront ++ [wcur]) as ->.
    { change [map add_space wcur] with (map (map add_space) [wcur]) in E.
      rewrite <- (map_app (map add_space) wfront [wcur]) in E. symmetry in E.
      clear -E. revert wrapped E.
      generalize (wfront ++ [wcur]) as l.
      induction l as [|x l IH]; destruct wrapped as [|y wr]; simpl; intros E;
        try discriminate; [reflexivity|].
      inversion E as [[Hx Hl]]. apply map_add_space_inj in Hx. subst.
      f_equal. now apply IH. }
    now apply avoid_runt_spec.
Qed.

(** C9: wrapping keeps the words.  The lines [_p_lines] returns for a
    paragraph that has a word are the lines of consecutive groups of
    its words, every group being non-empty, followed by the blank
    separator line; the groups, concatenated, are the paragraph's words
    in their order, so that no word is lost, repeated, split or moved
    by the wrapping or by the runt correction. *)
Theorem wrapping_preserves_words (self : Self) (words : list str) :
  words <> [] ->
  exists groups : list (list str),
    _p_lines self words = Ok (map line_of_words groups ++ [[]])
    /\ concat groups = words
    /\ Forall (fun g => g <> []) groups.
Proof.
  intros Hwords.
  destruct (p_lines_nonempty_words self words Hwords) as (wrapped & _ & Hcat & Hall & Hp).
  exists (runt_corrected (_max_line_len self) wrapped).
  split; [exact Hp|]. split; [|exact Hall].
  now rewrite runt_corrected_concat.
Qed.

Lemma wrapping_preserves_words_witness :
  exists groups : list (list str),
    _p_lines (mkSelf 9 (-1) (-1)) [u "one"; u "two"; u "three"; u "x"]
    = Ok (map line_of_words groups ++ [[]])
    /\ concat groups = [u "one"; u "two"; u "three"; u "x"]
    /\ Forall (fun g => g <> []) groups.
Proof.
  apply (wrapping_preserves_words (mkSelf 9 (-1) (-1)) [u "one"; u "two"; u "three"; u "x"]).
  discriminate.
Defined.

End Wrapping.

Section ListRendering.

Import Formatter.

(** ** The formatter's lists *)

Lemma elem_lines_Ul upper items self :
  _elem_lines upper (_Ul items) self = _ul_lines (_Formatter upper) self items.
Proof. reflexivity. Qed.

Lemma elem_lines_Ol upper items self :
  _elem_lines upper (_Ol items) self = _ol_lines (_Formatter upper) self items.
Proof. reflexivity. Qed.

Lemma elem_lines_Dl upper items self :
  _elem_lines upper (_Dl items) self = _dl_lines (_Formatter upper) self items.
Proof. reflexivity. Qed.

Lemma elem_lines_Blockquote upper elems self :
  _elem_lines upper (_Blockquote elems) self = _blockquote_lines (_Formatter upper) self elems.
Proof. reflexivity. Qed.

Lemma elem_lines_AdmonBox upper elems self :
  _elem_lines upper (_AdmonBox elems) self = _admon_box_lines (_Formatter upper) self elems.
Proof. reflexivity. Qed.

Lemma drop_while_app_stop {A} (p : A -> bool) (l : list A) (x : A) :
  p x = false -> drop_while p (l ++ [x]) = drop_while p l ++ [x].
Proof.
  intros Hx. induction l as [|y l IH]; simpl.
  - now rewrite Hx.
  - destruct (p y); [exact IH|reflexivity].
Qed.

Lemma take_drop_while {A} (p : A -> bool) (l : list A) :
  take_while p l ++ drop_while p l = l.
Proof.
  induction l as [|x l IH]; simpl; [reflexivity|].
  destruct (p x); simpl; [now rewrite IH|reflexivity].
Qed.

Lemma forallb_take_while {A} (p : A -> bool) (l : list A) :
  forallb p (take_while p l) = true.
Proof.
  induction l as [|x l IH]; simpl; [reflexivity|].
  destruct (p x) eqn:E; simpl; [now rewrite E|reflexivity].
Qed.

Lemma drop_while_nil_iff {A} (p : A -> bool) (l : list A) :
  drop_while p l = [] <-> forallb p l = true.
Proof.
  induction l as [|x l IH]; simpl; [tauto|].
  destruct (p x); simpl; [exact IH|]. split; discriminate.
Qed.

(** What [rstrip] removes is white space. *)
Lemma rstrip_split (s : str) :
  exists dropped, s = rstrip s ++ dropped /\ forallb is_space dropped = true.
Proof.
  unfold rstrip. exists (rev (take_while is_space (rev s))). split.
  - rewrite <- rev_app_distr, take_drop_while. now rewrite rev_involutive.
  - rewrite forallb_forall. intros c Hc. apply in_rev in Hc.
    pose proof (forallb_take_while is_space (rev s)) as H.
    rewrite forallb_forall in H. now apply H.
Qed.

Lemma strip_nil_iff (s : str) : strip s = [] <-> forallb is_space s = true.
Proof.
  unfold strip, lstrip.
  destruct (rstrip_split s) as (d & E & Hd).
  assert (Hs : forallb is_space s = forallb is_space (rstrip s)).
  { rewrite E at 1. now rewrite forallb_app, Hd, andb_true_r. }
  rewrite Hs. apply drop_while_nil_iff.
Qed.

Lemma strip_not_blank (s : str) (c : char) :
  In c s -> is_space c = false -> strip s <> [].
Proof.
  intros Hin Hc H. apply strip_nil_iff in H.
  rewrite forallb_forall in H. specialize (H c Hin). congruence.
Qed.

Lemma not_blank_true (s : str) : not_blank s = true <-> strip s <> [].
Proof.
  unfold not_blank. destruct (strip s); simpl; split; congruence.
Qed.

Lemma not_blank_nil : not_blank [] = false.
Proof. reflexivity. Qed.

(** What [_remove_trailing_empty_lines] returns and what it removes. *)
Lemma drop_trailing_empty_Ok (rl : list str) (r : list str) :
  drop_trailing_empty rl = Ok r ->
  exists k front l, rev rl = r ++ repeat [] k /\ r = front ++ [l] /\ l <> [].
Proof.
  induction rl as [|x rl IH]; simpl; intros H; [discriminate|].
  destruct x as [|c x]; simpl in H.
  - destruct (IH H) as (k & front & l & E & Hr & Hl).
    exists (S k), front, l. split; [|now split].
    rewrite E, <- app_assoc. f_equal.
    change [@nil char] with (repeat (@nil char) 1).
    now rewrite <- repeat_app, Nat.add_comm.
  - inversion H; subst. exists 0, (rev rl), (c :: x). simpl.
    rewrite app_nil_r. repeat split. discriminate.
Qed.

Lemma remove_trailing_Ok (lines r : list str) :
  _remove_trailing_empty_lines lines = Ok r ->
  exists k front l, lines = r ++ repeat [] k /\ r = front ++ [l] /\ l <> [].
Proof.
  unfold _remove_trailing_empty_lines. destruct lines as [|x lines]; [discriminate|].
  intros H. apply drop_trailing_empty_Ok in H. now rewrite rev_involutive in H.
Qed.

Lemma remove_trailing_Ok_nonempty (lines r : list str) :
  _remove_trailing_empty_lines lines = Ok r -> r <> [].
Proof.
  intros H. apply remove_trailing_Ok in H. destruct H as (k & f & l & _ & -> & _).
  destruct f; discriminate.
Qed.

(** The first line survives when it is not empty. *)
Lemma remove_trailing_head (first : str) (rest r : list str) :
  first <> [] ->
  _remove_trailing_empty_lines (first :: rest) = Ok r ->
  exists rest', r = first :: rest'.
Proof.
  intros Hf H. apply remove_trailing_Ok in H.
  destruct H as (k & front & l & E & Hr & Hl).
  destruct r as [|x r']; [destruct front; discriminate|].
  simpl in E. inversion E; subst. eauto.
Qed.

Lemma bind_Ok {A B} (r : res A) (k : A -> res B) (b : B) :
  bind r k = Ok b -> exists a, r = Ok a /\ k a = Ok b.
Proof. destruct r; simpl; intros H; try discriminate. eauto. Qed.

Lemma bullet_not_space (level : Z) :
  is_space (nth (Z.to_nat (level mod 3)) (u "•‣⁃") 0%N) = false.
Proof.
  pose proof (Z.mod_pos_bound level 3 eq_refl) as Hb.
  assert (H : Z.to_nat (level mod 3) = 0 \/ Z.to_nat (level mod 3) = 1
              \/ Z.to_nat (level mod 3) = 2) by lia.
  destruct H as [-> | [-> | ->]]; reflexivity.
Qed.

Lemma ul_item_shape F self item ls :
  _ul_item_lines F self item = Ok ls -> item_shape ls.
Proof.
  unfold _ul_item_lines. intros H.
  apply bind_Ok in H. destruct H as (lines & _ & H).
  destruct lines as [|line0 rest]; [discriminate|].
  apply bind_Ok in H. destruct H as (r & Hr & H). inversion H; subst.
  apply remove_trailing_head in Hr; [|discriminate].
  destruct Hr as [rest' ->]. eexists _, rest'. split; [reflexivity|].
  eapply strip_not_blank; [now left|apply bullet_not_space].
Qed.

Lemma ol_num_has_mark self (items : list _SimpleListItem) index :
  exists c, In c (_make_ol_item_num self items index) /\ is_space c = false.
Proof.
  unfold _make_ol_item_num. destruct (_ =? 0)%Z.
  - exists (ch "."). split; [|reflexivity]. apply in_or_app. right. now left.
  - exists (ch ")"). split; [|reflexivity]. apply in_or_app. right. now left.
Qed.

Lemma ol_item_shape F self items index item ls :
  _ol_item_lines F self items index item = Ok ls -> item_shape ls.
Proof.
  unfold _ol_item_lines. intros H.
  apply bind_Ok in H. destruct H as (lines & _ & H).
  destruct lines as [|line0 rest]; [discriminate|].
  apply bind_Ok in H. destruct H as (r & Hr & H). inversion H; subst.
  destruct (ol_num_has_mark self items index) as (c & Hc & Hsp).
  apply remove_trailing_head in Hr.
  - destruct Hr as [rest' ->]. eexists _, rest'. split; [reflexivity|].
    eapply strip_not_blank; [|exact Hsp]. apply in_or_app. now left.
  - intros E. apply app_eq_nil in E. destruct E as [E _]. rewrite E in Hc. destruct Hc.
Qed.

Lemma item_shape_length ls : item_shape ls -> 2 <= length ls.
Proof.
  intros (f & m & -> & _). simpl. rewrite length_app. simpl. lia.
Qed.

Lemma item_shape_one_line ls :
  item_shape ls -> length ls = 2 -> one_content_line ls.
Proof.
  intros (f & m & -> & Hf) Hlen. simpl in Hlen. rewrite length_app in Hlen. simpl in Hlen.
  destruct m; [|simpl in Hlen; lia]. now exists f.
Qed.

Lemma one_content_line_length ls : one_content_line ls -> length ls = 2.
Proof. intros (c & -> & _). reflexivity. Qed.

(** The count of the rendered lines is twice the count of the items
    exactly when every item is one content line and one blank line. *)
Lemma two_lines_each (rendered : list (list str)) :
  Forall item_shape rendered ->
  (length (concat rendered) = 2 * length rendered <-> Forall one_content_line rendered).
Proof.
  intros Hshape.
  assert (Hge : 2 * length rendered <= length (concat rendered)
                /\ (length (concat rendered) = 2 * length rendered ->
                    Forall one_content_line rendered)).
  { induction Hshape as [|ls rendered Hls Hrest [IHge IHeq]]; simpl.
    - split; [lia|constructor].
    - rewrite length_app. pose proof (item_shape_length _ Hls). split; [lia|].
      intros Hlen. constructor.
      + apply item_shape_one_line; [assumption|lia].
      + apply IHeq. lia. }
  split; [apply Hge|].
  intros Hone. clear Hshape Hge.
  induction Hone as [|ls rendered Hls _ IH]; simpl; [reflexivity|].
  rewrite length_app, (one_content_line_length _ Hls). lia.
Qed.

(** Compacting lines that are one content line and one blank line per
    item keeps the content lines and one blank line. *)
Lemma filter_one_line_each (rendered : list (list str)) :
  Forall one_content_line rendered ->
  filter not_blank (concat rendered) = map (hd []) rendered.
Proof.
  induction 1 as [|ls rendered (c & -> & Hc) _ IH]; simpl; [reflexivity|].
  apply not_blank_true in Hc. rewrite Hc. simpl. now rewrite IH.
Qed.

(** [concat_mapM] returns the lines of the items, one after the other. *)
Lemma concat_mapM_Ok {A} (f : A -> res (list str)) (l : list A) (ls : list str) :
  concat_mapM f l = Ok ls ->
  exists rendered, Forall2 (fun x r => f x = Ok r) l rendered /\ ls = concat rendered.
Proof.
  revert ls; induction l as [|x l IH]; simpl; intros ls H.
  - inversion H. exists []. split; constructor.
  - apply bind_Ok in H. destruct H as (a & Ha & H).
    apply bind_Ok in H. destruct H as (b & Hb & H). inversion H; subst.
    destruct (IH b Hb) as (rendered & Hr & ->).
    exists (a :: rendered). split; [now constructor|reflexivity].
Qed.

Lemma concat_mapM_rendered {A} (f : A -> res (list str)) (l : list A) rendered :
  Forall2 (fun x r => f x = Ok r) l rendered ->
  concat_mapM f l = Ok (concat rendered).
Proof.
  induction 1 as [|x r l rendered Hx _ IH]; simpl; [reflexivity|].
  rewrite Hx. simpl. fold (concat_mapM f). rewrite IH. reflexivity.
Qed.

Lemma concat_mapM_enum_rendered {A} (f : nat -> A -> res (list str)) (l : list A)
  rendered : forall start,
  length rendered = length l ->
  (forall i x r, nth_error l i = Some x -> nth_error rendered i = Some r ->
                 f (start + i) x = Ok r) ->
  concat_mapM_enum f start l = Ok (concat rendered).
Proof.
  revert rendered; induction l as [|x l IH]; intros [|r rendered] start Hlen H;
    try discriminate; simpl; [reflexivity|].
  rewrite <- (Nat.add_0_r start) at 1. rewrite (H 0 x r eq_refl eq_refl). simpl.
  fold (concat_mapM_enum f). rewrite (IH rendered (S start)).
  - reflexivity.
  - simpl in Hlen. lia.
  - intros i y s Hy Hs. replace (S start + i) with (start + S i) by lia.
    now apply H.
Qed.

End ListRendering.

Section Compaction.

Import Formatter.

Lemma Forall2_length_eq {A B} (R : A -> B -> Prop) l r :
  Forall2 R l r -> length r = length l.
Proof. induction 1; simpl; congruence. Qed.

Lemma compact_list_cases {A} (items : list A) (rendered : list (list str)) :
  length rendered = length items ->
  Forall item_shape rendered ->
  (length (concat rendered) = 2 * length items <-> Forall one_content_line rendered)
  /\ _compact_list items (concat rendered)
     = (if length (concat rendered) =? 2 * length items
        then filter not_blank (concat rendered) ++ [[]]
        else concat rendered)
  /\ (Forall one_content_line rendered ->
      _compact_list items (concat rendered) = map (hd []) rendered ++ [[]]).
Proof.
  intros Hlen Hshape.
  pose proof (two_lines_each rendered Hshape) as Hiff. rewrite Hlen in Hiff.
  split; [exact Hiff|]. split; [reflexivity|].
  intros Hone. unfold _compact_list.
  apply Hiff in Hone as Hcount. rewrite Hcount, Nat.eqb_refl.
  fold not_blank. now rewrite filter_one_line_each.
Qed.

Lemma ul_rendered_shape F self items rendered :
  Forall2 (fun item ls => _ul_item_lines F self item = Ok ls) items rendered ->
  Forall item_shape rendered.
Proof.
  induction 1 as [|item ls items rendered H _ IH]; constructor; [|exact IH].
  eapply ul_item_shape, H.
Qed.

Lemma ol_rendered_shape F self items0 (items : list _SimpleListItem) rendered :
  forall start,
  length rendered = length items ->
  (forall i item ls, nth_error items i = Some item -> nth_error rendered i = Some ls ->
                     _ol_item_lines F self items0 (start + i) item = Ok ls) ->
  Forall item_shape rendered.
Proof.
  revert rendered; induction items as [|item items IH]; intros [|ls rendered] start Hlen H;
    try discriminate; constructor.
  - eapply ol_item_shape. apply (H 0 item ls eq_refl eq_refl).
  - apply (IH rendered (S start)); [simpl in Hlen; lia|].
    intros i x r Hx Hr. replace (S start + i) with (start + S i) by lia. now apply H.
Qed.

(** C5: compaction of a list.  The lines of an unordered or ordered
    list are the lines of its items, compacted (every blank line
    dropped, one blank line appended) if and only if their count is
    twice the count of the items, and left as they are otherwise; the
    count is twice the count of the items exactly when every item
    rendered to one content line and one blank line, and the compacted
    list is then the content lines and one blank line.  On the two
    items of "* Hello." and "* World." at width 72, [format] returns
    the two lines "• Hello." and "• World.". *)
Theorem list_compaction :
  format ascii_decimal ascii_upper 100
         (u "* Hello." ++ newline ++ u "* World." ++ newline) 72
  = Ok (u "• Hello." ++ newline ++ u "• World.")
  /\ (forall upper self items rendered,
        Forall2 (fun item ls =>
                   _ul_item_lines (_Formatter upper) (incr_ul self) item = Ok ls)
                items rendered ->
        (length (concat rendered) = 2 * length items
         <-> Forall one_content_line rendered)
        /\ _elem_lines upper (_Ul items) self
           = Ok (if length (concat rendered) =? 2 * length items
                 then filter not_blank (concat rendered) ++ [[]]
                 else concat rendered)
        /\ (Forall one_content_line rendered ->
            _elem_lines upper (_Ul items) self = Ok (map (hd []) rendered ++ [[]])))
  /\ (forall upper self items rendered,
        length rendered = length items ->
        (forall index item ls,
            nth_error items index = Some item -> nth_error rendered index = Some ls ->
            _ol_item_lines (_Formatter upper) (incr_ol self) items index item = Ok ls) ->
        (length (concat rendered) = 2 * length items
         <-> Forall one_content_line rendered)
        /\ _elem_lines upper (_Ol items) self
           = Ok (if length (concat rendered) =? 2 * length items
                 then filter not_blank (concat rendered) ++ [[]]
                 else concat rendered)
        /\ (Forall one_content_line rendered ->
            _elem_lines upper (_Ol items) self = Ok (map (hd []) rendered ++ [[]]))).
Proof.
  split; [vm_compute; reflexivity|]. split.
  - intros upper self items rendered Hr.
    pose proof (Forall2_length_eq _ _ _ Hr) as Hlen.
    pose proof (ul_rendered_shape _ _ _ _ Hr) as Hshape.
    destruct (compact_list_cases items rendered Hlen Hshape) as (Hiff & Hc & Hone).
    rewrite elem_lines_Ul. unfold _ul_lines.
    rewrite (concat_mapM_rendered _ _ _ Hr). simpl bind.
    split; [exact Hiff|]. split; [now rewrite Hc|].
    intros H. now rewrite (Hone H).
  - intros upper self items rendered Hlen Hr.
    pose proof (ol_rendered_shape _ _ items items rendered 0 Hlen Hr) as Hshape.
    destruct (compact_list_cases items rendered Hlen Hshape) as (Hiff & Hc & Hone).
    rewrite elem_lines_Ol. unfold _ol_lines.
    rewrite (concat_mapM_enum_rendered _ _ rendered 0 Hlen Hr). simpl bind.
    split; [exact Hiff|]. split; [now rewrite Hc|].
    intros H. now rewrite (Hone H).
Qed.

Lemma list_compaction_witness :
  let items := [[_P [u "Hello."]]; [_P [u "World."]]] in
  let rendered := [[u "• Hello."; []]; [u "• World."; []]] in
  let self := mkSelf 72 (-1) (-1) in
  (length (concat rendered) = 2 * length items <-> Forall one_content_line rendered)
  /\ _elem_lines ascii_upper (_Ul items) self
     = Ok (if length (concat rendered) =? 2 * length items
           then filter not_blank (concat rendered) ++ [[]]
           else concat rendered)
  /\ (Forall one_content_line rendered ->
      _elem_lines ascii_upper (_Ul items) self = Ok (map (hd []) rendered ++ [[]])).
Proof.
  intros items rendered self.
  apply (proj1 (proj2 list_compaction) ascii_upper self items rendered).
  constructor; [reflexivity|]. constructor; [reflexivity|]. constructor.
Defined.

(** C4: the width of a numeric marker is taken from the count of the
    items less one.  In a list of ten items at an even depth the
    markers of the first nine items are two columns wide and the
    marker of the tenth is three: "1." and "10." are not aligned, as
    the lines [format] returns for ten items show. *)
Theorem ol_marker_not_aligned_at_ten_items :
  let items : list _SimpleListItem := repeat [_P [u "x"]] 10 in
  let self := mkSelf 72 (-1) 0 in
  _make_ol_item_num self items 0 = u "1."
  /\ _make_ol_item_num self items 8 = u "9."
  /\ _make_ol_item_num self items 9 = u "10."
  /\ format ascii_decimal ascii_upper 100
       (concat (map (fun l => l ++ newline)
                    [u ". a"; u ". b"; u ". c"; u ". d"; u ". e";
                     u ". f"; u ". g"; u ". h"; u ". i"; u ". j"])) 72
     = Ok (join newline
             [u "1. a"; u "2. b"; u "3. c"; u "4. d"; u "5. e";
              u "6. f"; u "7. g"; u "8. h"; u "9. i"; u "10. j"]).
Proof. vm_compute. repeat split; reflexivity. Qed.

End Compaction.

(** ** What the parser returns and raises *)

Lemma sound_bind {A B} (P : A -> Prop) (Q : B -> Prop) (r : res A) (k : A -> res B) :
  sound P r -> (forall a, P a -> sound Q (k a)) -> sound Q (bind r k).
Proof. destruct r; simpl; auto. Qed.

Lemma sound_weaken {A} (P Q : A -> Prop) (r : res A) :
  sound P r -> (forall a, P a -> Q a) -> sound Q r.
Proof. destruct r; simpl; auto. Qed.

Lemma sound_any_bind {A B} (Q : B -> Prop) (r : res A) (k : A -> res B) :
  sound (fun _ => True) r -> (forall a, sound Q (k a)) -> sound Q (bind r k).
Proof. intros Hr Hk. eapply sound_bind; [exact Hr|auto]. Qed.

Lemma sound_drop_trailing_empty rl : sound (fun _ => True) (drop_trailing_empty rl).
Proof.
  induction rl as [|l rl IH]; simpl; [now right|].
  destruct (is_empty l); [exact IH|exact I].
Qed.

Lemma sound_remove_trailing lines :
  sound (fun _ => True) (_remove_trailing_empty_lines lines).
Proof.
  destruct lines; simpl; [now left|]. apply sound_drop_trailing_empty.
Qed.

Lemma sound_scan_text fuel : forall text elems,
  sound (fun _ => True) (Parser.scan_text fuel text elems).
Proof.
  induction fuel as [|fuel IH]; intros text elems; simpl; [exact I|].
  destruct text; [exact I|].
  destruct (Parser.match_literal _) as [[? ?]|]; [apply IH|].
  destruct (Parser.match_word _) as [[? ?]|]; apply IH.
Qed.

Section ParserSound.
Import Parser.

Variable is_decimal : char -> bool.
Variable parse_sub : list str -> res (list Elem).
Variable fuel : nat.
Variable _lines : list str.

Hypothesis parse_sub_sound : forall lines, sound tree_ok (parse_sub lines).

Lemma sound_cur_line _at : sound (fun _ => True) (_cur_line _lines _at).
Proof. unfold _cur_line. destruct (nth_error _ _); simpl; [exact I|now left]. Qed.

Lemma sound_goto _at incr : sound (fun _ => True) (_goto_next_line _lines _at incr).
Proof. unfold _goto_next_line. destruct (_ <=? _); simpl; [exact I|now left]. Qed.

Ltac step :=
  match goal with
  | |- sound _ (bind (_cur_line _ _) _) => apply sound_any_bind; [apply sound_cur_line|intros ?]
  | |- sound _ (bind (_goto_next_line _ _ _) _) => apply sound_any_bind; [apply sound_goto|intros ?]
  | |- sound _ (bind (_remove_trailing_empty_lines _) _) =>
      apply sound_any_bind; [apply sound_remove_trailing|intros ?]
  | |- sound _ (bind (parse_sub _) _) =>
      eapply sound_bind; [apply parse_sub_sound|intros ? ?]
  | |- sound _ (Ok _) => simpl
  | |- sound _ (match ?x with _ => _ end) => destruct x eqn:?
  | |- sound _ (if ?x then _ else _) => destruct x eqn:?
  | |- found_ok _ _ => unfold found_ok; simpl
  end.

Lemma sound_heading mk prefix c _at :
  (forall t, no_empty_list (mk t) = true) ->
  sound (found_ok (fun e => no_empty_list e = true))
        (_try_parse_heading _lines mk prefix c _at).
Proof. intros Hmk. unfold _try_parse_heading. repeat step; auto. Qed.

Lemma sound_single_line_dl_item _at :
  sound (found_ok (fun item : _DlItem => tree_ok (snd item)))
        (_try_parse_single_line_dl_item parse_sub _lines _at).
Proof. unfold _try_parse_single_line_dl_item. repeat step; auto. Qed.

Lemma sound_dl_item _at :
  sound (found_ok (fun item : _DlItem => tree_ok (snd item)))
        (_try_parse_dl_item parse_sub _lines _at).
Proof.
  unfold _try_parse_dl_item.
  eapply sound_bind; [apply sound_single_line_dl_item|].
  intros [elem begin_at] Hfound. unfold found_ok in Hfound. simpl in Hfound.
  repeat step; auto.
Qed.

Lemma sound_ul_item _at :
  sound (found_ok tree_ok) (_try_parse_ul_item parse_sub _lines _at).
Proof. unfold _try_parse_ul_item. repeat step; auto. Qed.

Lemma sound_ol_item _at :
  sound (found_ok tree_ok) (_try_parse_ol_item is_decimal parse_sub _lines _at).
Proof. unfold _try_parse_ol_item. repeat step; auto. Qed.

(** The loop over the items of a list keeps what the items satisfy,
    and keeps the items it already has. *)
Lemma sound_item_loop {T} (P : T -> Prop) (f : rule T) :
  (forall _at, sound (found_ok P) (f _at)) ->
  forall k _at items,
    Forall P items ->
    sound (fun r => Forall P (fst r) /\ length items <= length (fst r))
          (item_loop _lines f k _at items).
Proof.
  intros Hf. induction k as [|k IH]; intros _at items Hitems; simpl; [exact I|].
  destruct (_is_done _ _); simpl; [auto|].
  eapply sound_bind; [apply Hf|].
  intros [[item|] _at'] Hfound; unfold found_ok in Hfound; simpl in Hfound; simpl; [|auto].
  eapply sound_weaken.
  - apply IH. apply Forall_app. split; [assumption|]. now constructor.
  - intros r [HP Hlen]. split; [assumption|]. rewrite length_app in Hlen. simpl in Hlen. lia.
Qed.

Lemma forallb_Forall {A} (p : A -> bool) (l : list A) :
  Forall (fun x => p x = true) l -> forallb p l = true.
Proof. intros H. apply forallb_forall. now apply Forall_forall. Qed.

Lemma sound_simple_list mk (f : rule _SimpleListItem) _at :
  (forall items, no_empty_list (mk items)
                 = negb (is_empty items) && forallb (forallb no_empty_list) items) ->
  (forall _at, sound (found_ok tree_ok) (f _at)) ->
  sound (found_ok (fun e => no_empty_list e = true))
        (_try_parse_simple_list fuel _lines mk f _at).
Proof.
  intros Hmk Hf. unfold _try_parse_simple_list.
  eapply sound_bind; [apply (sound_item_loop tree_ok f Hf fuel _at []); constructor|].
  intros [items _at'] [Hitems _]. simpl in Hitems.
  destruct (1 <=? length items) eqn:Elen; simpl; unfold found_ok; simpl; [|exact I].
  rewrite Hmk. apply andb_true_intro. split.
  - destruct items; [discriminate|reflexivity].
  - now apply forallb_Forall.
Qed.

Lemma sound_dl _at :
  sound (found_ok (fun e => no_empty_list e = true))
        (_try_parse_dl parse_sub fuel _lines _at).
Proof.
  unfold _try_parse_dl.
  eapply sound_bind;
    [apply (sound_item_loop (fun item : _DlItem => tree_ok (snd item)) _
                            sound_dl_item fuel _at []); constructor|].
  intros [items _at'] [Hitems _]. simpl in Hitems.
  destruct (1 <=? length items) eqn:Elen; simpl; unfold found_ok; simpl; [|exact I].
  apply andb_true_intro. split.
  - destruct items; [discriminate|reflexivity].
  - now apply forallb_Forall.
Qed.

Lemma sound_delim_block delim _at :
  sound (fun _ => True) (_try_parse_delim_block _lines delim _at).
Proof.
  unfold _try_parse_delim_block. repeat step; auto.
Qed.

Lemma sound_pre_delim _at :
  sound (found_ok (fun e => no_empty_list e = true)) (_try_parse_pre_delim _lines _at).
Proof.
  unfold _try_parse_pre_delim.
  apply sound_any_bind; [apply sound_delim_block|]. intros [[?|] ?]; repeat step; auto.
Qed.

Lemma sound_pre_indented _at :
  sound (found_ok (fun e => no_empty_list e = true)) (_try_parse_pre_indented _lines _at).
Proof. unfold _try_parse_pre_indented. repeat step; auto. Qed.

Lemma sound_hr _at :
  sound (found_ok (fun e => no_empty_list e = true)) (_try_parse_hr _lines _at).
Proof. unfold _try_parse_hr. repeat step; auto. Qed.

Lemma sound_blockquote_delim _at :
  sound (found_ok (fun e => no_empty_list e = true))
        (_try_parse_blockquote_delim parse_sub _lines _at).
Proof.
  unfold _try_parse_blockquote_delim.
  apply sound_any_bind; [apply sound_delim_block|]. intros [[?|] ?]; repeat step; auto.
Qed.

Lemma sound_blockquote_prefixed _at :
  sound (found_ok (fun e => no_empty_list e = true))
        (_try_parse_blockquote_prefixed parse_sub _lines _at).
Proof. unfold _try_parse_blockquote_prefixed. repeat step; auto. Qed.

Lemma sound_admon_box_delim _at :
  sound (found_ok (fun e => no_empty_list e = true))
        (_try_parse_admon_box_delim parse_sub _lines _at).
Proof.
  unfold _try_parse_admon_box_delim.
  apply sound_any_bind; [apply sound_delim_block|]. intros [[?|] ?]; repeat step; auto.
Qed.

Lemma sound_admon_box _at :
  sound (found_ok (fun e => no_empty_list e = true))
        (_try_parse_admon_box parse_sub _lines _at).
Proof. unfold _try_parse_admon_box. repeat step; auto. Qed.

Lemma sound_verbatim _at :
  sound (found_ok (fun e => no_empty_list e = true))
        (_try_parse_verbatim is_decimal _lines _at).
Proof. unfold _try_parse_verbatim. repeat step; auto. Qed.

Lemma sound_p _at :
  sound (found_ok (fun e => no_empty_list e = true)) (_try_parse_p fuel _lines _at).
Proof.
  unfold _try_parse_p, _p_elem_from_text.
  destruct (1 <=? _); [|exact I].
  apply sound_bind with (P := fun e => no_empty_list e = true).
  - apply sound_any_bind; [apply sound_scan_text|intros; reflexivity].
  - intros e He. exact He.
Qed.

Lemma sound_funcs :
  Forall (fun f : rule Elem =>
            forall _at, sound (found_ok (fun e => no_empty_list e = true)) (f _at))
         (funcs is_decimal parse_sub fuel _lines).
Proof.
  unfold funcs. repeat constructor; intros _at.
  - now apply sound_heading.
  - now apply sound_heading.
  - apply sound_simple_list; [reflexivity|apply sound_ul_item].
  - apply sound_simple_list; [reflexivity|apply sound_ol_item].
  - apply sound_dl.
  - apply sound_pre_delim.
  - apply sound_pre_indented.
  - apply sound_hr.
  - apply sound_blockquote_delim.
  - apply sound_blockquote_prefixed.
  - apply sound_admon_box_delim.
  - apply sound_admon_box.
  - apply sound_verbatim.
  - apply sound_p.
Qed.

Lemma sound_try_funcs (fs : list (rule Elem)) :
  Forall (fun f : rule Elem =>
            forall _at, sound (found_ok (fun e => no_empty_list e = true)) (f _at)) fs ->
  forall _at, sound (found_ok (fun e => no_empty_list e = true)) (try_funcs fs _at).
Proof.
  induction 1 as [|f fs Hf _ IH]; intros _at; simpl; [exact I|].
  eapply sound_bind; [apply Hf|].
  intros [[e|] _at'] Hfound; [exact Hfound|apply IH].
Qed.

Lemma parse_S k _at elems :
  _parse is_decimal parse_sub fuel _lines (S k) _at elems
  = (let _at := _skip_empty_lines _lines _at in
     if _is_done _lines _at then Ok elems
     else
       ' (elem, _at') <- try_funcs (funcs is_decimal parse_sub fuel _lines) _at ;;
       match elem with
       | Some e => _parse is_decimal parse_sub fuel _lines k _at' (elems ++ [e])
       | None => _parse is_decimal parse_sub fuel _lines k _at' elems
       end).
Proof. reflexivity. Qed.

Lemma sound_parse : forall k _at elems,
  tree_ok elems ->
  sound tree_ok (_parse is_decimal parse_sub fuel _lines k _at elems).
Proof.
  induction k as [|k IH]; intros _at elems Helems; [exact I|].
  rewrite parse_S. cbv zeta.
  destruct (_is_done _ _); [exact Helems|].
  eapply sound_bind; [apply sound_try_funcs, sound_funcs|].
  intros [[e|] _at'] Hfound; unfold found_ok in Hfound; simpl in Hfound; apply IH;
    [|assumption].
  unfold tree_ok. rewrite forallb_app. simpl. now rewrite Helems, Hfound.
Qed.

End ParserSound.

(** The parser returns trees without empty lists and raises internal
    errors only. *)
Lemma sound_elems is_decimal : forall fuel lines,
  sound tree_ok (Parser.elems is_decimal fuel lines).
Proof.
  induction fuel as [|fuel IH]; intros lines; simpl; [exact I|].
  apply sound_parse; [exact IH|reflexivity].
Qed.

(** C8: the parser builds no empty list.  Whatever the lines, every
    element the parser returns, and every element nested in one at any
    depth, is free of unordered, ordered and definition lists without
    items. *)
Theorem parser_builds_no_empty_list (is_decimal : char -> bool) (fuel : nat)
  (lines : list str) (elems : list Elem) :
  Parser.elems is_decimal fuel lines = Ok elems ->
  forallb no_empty_list elems = true.
Proof.
  intros H. pose proof (sound_elems is_decimal fuel lines) as Hs.
  rewrite H in Hs. exact Hs.
Qed.

Lemma parser_builds_no_empty_list_witness :
  forallb no_empty_list
          [_Ul [[_P [u "a"]; _Ol [[_P [u "b"]]]]]; _Dl [([u "t"], [_P [u "d"]])]] = true.
Proof.
  apply (parser_builds_no_empty_list ascii_decimal 100
           [u "* a"; []; u "  . b"; u "t:: d"]).
  vm_compute. reflexivity.
Defined.

(** ** Induction on the element tree *)

Lemma Elem_nested_ind (P : Elem -> Prop) :
  (forall words, P (_P words)) ->
  (forall items, Forall (Forall P) items -> P (_Ul items)) ->
  (forall items, Forall (Forall P) items -> P (_Ol items)) ->
  (forall items, Forall (fun item : _DlItem => Forall P (snd item)) items -> P (_Dl items)) ->
  (forall lines, P (_Pre lines)) ->
  (forall text, P (_H1 text)) ->
  (forall text, P (_H2 text)) ->
  P _Hr ->
  (forall elems, Forall P elems -> P (_AdmonBox elems)) ->
  (forall elems, Forall P elems -> P (_Blockquote elems)) ->
  (forall lines, P (_Verbatim lines)) ->
  forall e, P e.
Proof.
  intros HP HUl HOl HDl HPre HH1 HH2 HHr HAdmon HBq HVerb.
  fix IH 1. intros e.
  assert (Hlist : forall elems : list Elem, Forall P elems).
  { fix IHl 1. intros [|x elems]; constructor; [apply IH|apply IHl]. }
  assert (Hitems : forall items : list (list Elem), Forall (Forall P) items).
  { fix IHi 1. intros [|x items]; constructor; [apply Hlist|apply IHi]. }
  destruct e as [words|items|items|items|lines|text|text| |elems|elems|lines].
  - apply HP.
  - apply HUl, Hitems.
  - apply HOl, Hitems.
  - apply HDl. clear -Hlist. induction items as [|[t es] items IHd]; constructor;
      [apply Hlist|exact IHd].
  - apply HPre.
  - apply HH1.
  - apply HH2.
  - apply HHr.
  - apply HAdmon, Hlist.
  - apply HBq, Hlist.
  - apply HVerb.
Qed.

(** ** What the formatter returns and raises *)

Section FormatterSound.
Import Formatter.

Variable upper : str -> str.

Lemma sound_avoid_runt max lines : sound (fun _ => True) (avoid_runt max lines).
Proof.
  unfold avoid_runt. destruct lines as [front cur].
  destruct (unsnoc front) as [[front' prev]|]; [|exact I].
  destruct cur as [|b [|? ?]]; try exact I.
  destruct (unsnoc prev) as [[prev' a]|]; [|now right].
  destruct (_ <=? _)%Z; exact I.
Qed.

Lemma sound_p_lines self words : sound (fun _ => True) (_p_lines self words).
Proof.
  unfold _p_lines. apply sound_any_bind; [apply sound_avoid_runt|intros lines].
  apply sound_any_bind; [apply sound_remove_trailing|intros; exact I].
Qed.

Lemma sound_concat_mapM {A} (f : A -> res (list str)) (l : list A) :
  Forall (fun x => sound (fun _ => True) (f x)) l ->
  sound (fun _ => True) (concat_mapM f l).
Proof.
  induction 1 as [|x l Hx _ IH]; simpl; [exact I|].
  apply sound_any_bind; [exact Hx|intros a].
  fold (concat_mapM f). apply sound_any_bind; [exact IH|intros; exact I].
Qed.

Lemma sound_concat_mapM_enum {A} (f : nat -> A -> res (list str)) (l : list A) :
  Forall (fun x => forall i, sound (fun _ => True) (f i x)) l ->
  forall start, sound (fun _ => True) (concat_mapM_enum f start l).
Proof.
  induction 1 as [|x l Hx _ IH]; intros start; simpl; [exact I|].
  apply sound_any_bind; [apply Hx|intros a].
  fold (concat_mapM_enum f). apply sound_any_bind; [apply IH|intros; exact I].
Qed.

Section MethodsSound.

Variable F : list Elem -> Self -> res (list str).

Lemma sound_format_elems_indented self elems n :
  formats F elems ->
  sound (fun ls => ls <> []) (_format_elems_indented F self elems n).
Proof.
  intros HF. unfold _format_elems_indented, _format_elems.
  eapply sound_bind; [apply HF|]. intros ls Hls. simpl.
  destruct ls; [congruence|discriminate].
Qed.

Lemma sound_ul_item_lines self item :
  formats F item -> sound (fun _ => True) (_ul_item_lines F self item).
Proof.
  intros HF. unfold _ul_item_lines.
  eapply sound_bind; [now apply sound_format_elems_indented|]. intros [|l0 rest] _.
  - now right.
  - apply sound_any_bind; [apply sound_remove_trailing|intros; exact I].
Qed.

Lemma sound_ol_item_lines self items index item :
  formats F item -> sound (fun _ => True) (_ol_item_lines F self items index item).
Proof.
  intros HF. unfold _ol_item_lines.
  eapply sound_bind; [now apply sound_format_elems_indented|]. intros [|l0 rest] _.
  - now right.
  - apply sound_any_bind; [apply sound_remove_trailing|intros; exact I].
Qed.

Lemma sound_ul_lines self items :
  Forall (formats F) items -> sound (fun _ => True) (_ul_lines F self items).
Proof.
  intros HF. unfold _ul_lines.
  apply sound_any_bind; [|intros; exact I].
  apply sound_concat_mapM. eapply Forall_impl; [|exact HF].
  intros item Hitem. now apply sound_ul_item_lines.
Qed.

Lemma sound_ol_lines self items :
  Forall (formats F) items -> sound (fun _ => True) (_ol_lines F self items).
Proof.
  intros HF. unfold _ol_lines.
  apply sound_any_bind; [|intros; exact I].
  apply sound_concat_mapM_enum. eapply Forall_impl; [|exact HF].
  intros item Hitem i. now apply sound_ol_item_lines.
Qed.

Lemma sound_dl_lines self (items : list _DlItem) :
  Forall (fun item => formats F (snd item)) items ->
  sound (fun _ => True) (_dl_lines F self items).
Proof.
  intros HF. unfold _dl_lines.
  apply sound_concat_mapM. eapply Forall_impl; [|exact HF].
  intros [terms elems] Hitem. unfold _dl_item_lines.
  eapply sound_bind; [now apply sound_format_elems_indented|]. intros more _.
  apply sound_any_bind; [apply sound_remove_trailing|intros; exact I].
Qed.

Lemma sound_blockquote_lines self elems :
  formats F elems -> sound (fun _ => True) (_blockquote_lines F self elems).
Proof.
  intros HF. unfold _blockquote_lines.
  eapply sound_bind; [now apply sound_format_elems_indented|]. intros ls _.
  apply sound_any_bind; [apply sound_remove_trailing|intros; exact I].
Qed.

Lemma sound_admon_box_lines self elems :
  formats F elems -> sound (fun _ => True) (_admon_box_lines F self elems).
Proof.
  intros HF. unfold _admon_box_lines, _format_elems.
  eapply sound_bind; [apply HF|]. intros ls Hls.
  destruct ls as [|l ls]; [congruence|]. exact I.
Qed.

End MethodsSound.

Lemma sound_elems_lines self elems :
  Forall (fun e => forall self, sound (fun _ => True) (_elem_lines upper e self)) elems ->
  sound (fun ls => ls <> []) (_elems_lines upper self elems).
Proof.
  intros H. unfold _elems_lines.
  apply sound_any_bind.
  - apply sound_concat_mapM. eapply Forall_impl; [|exact H]. intros e He. apply He.
  - intros ls. pose proof (sound_remove_trailing (map rstrip ls)) as Hs.
    destruct (_remove_trailing_empty_lines _) eqn:E; simpl in *; auto.
    now apply remove_trailing_Ok_nonempty in E.
Qed.

Lemma formats_Formatter elems :
  Forall (fun e => forall self, sound (fun _ => True) (_elem_lines upper e self)) elems ->
  formats (_Formatter upper) elems.
Proof. intros H self. now apply sound_elems_lines. Qed.

Lemma sound_elem_lines :
  forall e self, sound (fun _ => True) (_elem_lines upper e self).
Proof.
  induction e using Elem_nested_ind; intros self.
  - apply sound_p_lines.
  - rewrite elem_lines_Ul. apply sound_ul_lines.
    eapply Forall_impl; [|exact H]. intros item. apply formats_Formatter.
  - rewrite elem_lines_Ol. apply sound_ol_lines.
    eapply Forall_impl; [|exact H]. intros item. apply formats_Formatter.
  - rewrite elem_lines_Dl. apply sound_dl_lines.
    eapply Forall_impl; [|exact H]. intros item. apply formats_Formatter.
  - exact I.
  - exact I.
  - exact I.
  - exact I.
  - rewrite elem_lines_AdmonBox. apply sound_admon_box_lines. now apply formats_Formatter.
  - rewrite elem_lines_Blockquote. apply sound_blockquote_lines.
    now apply formats_Formatter.
  - exact I.
Qed.

(** The formatter returns at least one line and raises internal errors
    only. *)
Lemma sound_lines elems max_line_len :
  sound (fun ls => ls <> []) (lines upper elems max_line_len).
Proof.
  unfold lines, _Formatter. apply sound_elems_lines.
  apply Forall_forall. intros e _. apply sound_elem_lines.
Qed.

End FormatterSound.

(** The engine raises internal errors only. *)
Lemma sound_engine is_decimal upper fuel lines max_line_len :
  sound (fun ls => ls <> []) (engine is_decimal upper fuel lines max_line_len).
Proof.
  unfold engine. apply sound_any_bind.
  - eapply sound_weaken; [apply sound_elems|auto].
  - intros elems. apply sound_lines.
Qed.

(** ** The envelope of a C block comment *)

Lemma char_eqb_eq a b : char_eqb a b = true <-> a = b.
Proof. apply N.eqb_eq. Qed.

Lemma str_eqb_eq a b : str_eqb a b = true <-> a = b.
Proof.
  revert b; induction a as [|x a IH]; destruct b as [|y b]; simpl;
    try (split; [discriminate|congruence]); [tauto|].
  rewrite andb_true_iff, char_eqb_eq, IH. split.
  - intros [-> ->]. reflexivity.
  - intros H. inversion H. auto.
Qed.

Lemma strip_prefix_Some prefix s rest :
  strip_prefix prefix s = Some rest <-> s = prefix ++ rest.
Proof.
  revert s; induction prefix as [|p prefix IH]; intros s; simpl.
  - split; [intros H; now inversion H|intros ->; reflexivity].
  - destruct s as [|c s]; [split; discriminate|].
    destruct (char_eqb p c) eqn:E.
    + apply char_eqb_eq in E. subst c. rewrite IH. split; [intros ->; reflexivity|].
      intros H. now inversion H.
    + split; [discriminate|]. intros H. inversion H. subst.
      unfold char_eqb in E. now rewrite N.eqb_refl in E.
Qed.

Lemma drop_while_all_then {A} (p : A -> bool) (l r : list A) (x : A) :
  forallb p l = true -> p x = false -> drop_while p (l ++ x :: r) = x :: r.
Proof.
  intros Hl Hx. induction l as [|y l IH]; simpl in *.
  - now rewrite Hx.
  - apply andb_true_iff in Hl. destruct Hl as [Hy Hl]. rewrite Hy. now apply IH.
Qed.

Lemma match_c_line_spec s :
  match_c_line s <> None <-> matches_c_line_pat s.
Proof.
  unfold match_c_line, matches_c_line_pat. split.
  - destruct (strip_prefix _ _) as [[|c rest]|] eqn:E; try congruence.
    destruct (is_dot c) eqn:Ec; [|congruence]. intros _.
    apply strip_prefix_Some in E.
    exists (take_while is_space s), c, rest. split; [|split].
    + rewrite <- E. symmetry. apply take_drop_while.
    + apply forallb_take_while.
    + intros ->. discriminate.
  - intros (spaces & c & rest & -> & Hsp & Hc).
    change (u "* " ++ c :: rest) with (ch "*" :: ch " " :: c :: rest).
    rewrite drop_while_all_then by (assumption || reflexivity).
    simpl. unfold is_dot. destruct (c =? 10)%N eqn:E; [|discriminate].
    apply N.eqb_eq in E. contradiction.
Qed.

Lemma c_line_taken_spec line : c_line_taken line = true <-> c_line_accepted line.
Proof.
  unfold c_line_taken, c_line_accepted.
  rewrite !orb_true_iff, !str_eqb_eq.
  pose proof (match_c_line_spec (strip line)) as H.
  destruct (match_c_line (strip line)); split; intros Hc.
  - destruct Hc as [[[?|?]|?]|_]; auto. right; right; right. apply H. discriminate.
  - now right.
  - destruct Hc as [[[?|?]|?]|?]; auto. discriminate.
  - destruct Hc as [?|[?|[?|Hm]]]; auto. apply H in Hm. congruence.
Qed.

(** The first loop raises on the first line it does not take, and
    returns when it takes every line. *)
Lemma c_content_lines_cases (comment_lines : list str) :
  (exists content, c_content_lines comment_lines = Ok content
                   /\ Forall c_line_accepted comment_lines)
  \/ (exists before line after,
        comment_lines = before ++ line :: after
        /\ Forall c_line_accepted before
        /\ ~ c_line_accepted line
        /\ c_content_lines comment_lines = Raise (ValueError (strip line))).
Proof.
  induction comment_lines as [|line rest IH]; simpl.
  - left. exists []. split; [reflexivity|constructor].
  - pose proof (c_line_taken_spec line) as Hspec. unfold c_line_taken in Hspec.
    destruct (str_eqb (strip line) (u "/*") || str_eqb (strip line) (u "*/")) eqn:E1;
      [|destruct (str_eqb (strip line) (u "*")) eqn:E2;
        [|destruct (match_c_line (strip line)) eqn:E3]].
    4:{ right. exists [], line, rest. simpl in Hspec.
        split; [reflexivity|]. split; [constructor|]. split; [|reflexivity].
        intros Hacc. apply Hspec in Hacc. discriminate. }
    all: assert (Hline : c_line_accepted line)
           by (apply Hspec; simpl; rewrite ?orb_true_r; reflexivity).
    all: destruct IH as [(content & Ec & Hall)|(before & l & after & -> & Hb & Hl & Ec)];
      rewrite Ec; simpl;
      [left; eexists; split; [reflexivity|now constructor]
      |right; exists (line :: before), l, after;
       split; [reflexivity|]; split; [now constructor|]; split; [assumption|reflexivity]].
Qed.

(** C7: the error of [format_c_block_comment].  The call raises
    [ValueError] exactly when some line of the comment, stripped, is
    neither "/*", "*/" nor "*" and does not match the line pattern; the
    error then carries such a line, stripped, and the call raises it
    whatever the engine it would have run, even one that never returns:
    the engine is not run. *)
Theorem c_block_comment_error (is_decimal : char -> bool) (upper : str -> str)
  (fuel : nat) (comment : str) (start_col max_line_len : Z) :
  ((exists line, In line (splitlines comment) /\ ~ c_line_accepted line)
   <-> (exists arg,
          format_c_block_comment is_decimal upper fuel comment start_col max_line_len
          = Raise (ValueError arg)))
  /\ (forall arg,
        format_c_block_comment is_decimal upper fuel comment start_col max_line_len
        = Raise (ValueError arg) ->
        (exists line, In line (splitlines comment) /\ ~ c_line_accepted line
                      /\ arg = strip line)
        /\ (forall run,
              format_c_block_comment_with run comment start_col max_line_len
              = Raise (ValueError arg))).
Proof.
  unfold format_c_block_comment, format_c_block_comment_with.
  destruct (c_content_lines_cases (splitlines comment))
    as [(content & Ec & Hall)|(before & line & after & Esplit & Hb & Hl & Ec)];
    rewrite Ec; simpl.
  - assert (Hno : forall arg,
               bind (engine is_decimal upper fuel content (max_line_len - start_col - 3))
                    (fun new_content_lines =>
                       Ok (join newline
                             ([u "/*"]
                              ++ map (fun rline =>
                                        rstrip (_indent_str (Z.to_nat start_col)
                                                ++ u " * " ++ rline)) new_content_lines
                              ++ [_indent_str (Z.to_nat start_col) ++ u " */"])))
               <> Raise (ValueError arg)).
    { intros arg H.
      pose proof (sound_engine is_decimal upper fuel content
                               (max_line_len - start_col - 3)%Z) as Hs.
      destruct (engine _ _ _ _ _); simpl in *; try discriminate.
      inversion H; subst. destruct Hs; discriminate. }
    split.
    + split.
      * intros (l & Hin & Hbad). rewrite Forall_forall in Hall. now apply Hall in Hin.
      * intros (arg & H). now apply Hno in H.
    + intros arg H. now apply Hno in H.
  - split.
    + split; [intros _; now exists (strip line)|].
      intros _. exists line. split; [|assumption].
      rewrite Esplit. apply in_or_app. right. now left.
    + intros arg H. inversion H; subst arg. split; [|reflexivity].
      exists line. repeat split; [|assumption].
      rewrite Esplit. apply in_or_app. right. now left.
Qed.

(** C1: [format] raises on a text without content.  The empty text
    and a text of blank lines parse to no element, and the formatter
    then calls [_remove_trailing_empty_lines] on no line, against its
    assertion; a paragraph of white space, a delimiter alone and a lone
    quote mark raise in the same helper. *)
Theorem format_raises_without_content :
  (forall is_decimal upper fuel max_line_len,
      format is_decimal upper (S (S fuel)) [] max_line_len = Raise AssertionError)
  /\ (forall is_decimal upper fuel max_line_len,
        format is_decimal upper (S (S fuel)) (newline ++ newline) max_line_len
        = Raise AssertionError)
  /\ format ascii_decimal ascii_upper 100 (u " ") 72 = Raise IndexError
  /\ format ascii_decimal ascii_upper 100 (u "```") 72 = Raise AssertionError
  /\ format ascii_decimal ascii_upper 100 (u ">") 72 = Raise AssertionError.
Proof.
  split; [reflexivity|]. split; [reflexivity|].
  repeat split; vm_compute; reflexivity.
Qed.

Section ParserLoops.

Import Parser.

(** ** Sizes, prefixes and lines without a line feed *)

Lemma size_app a b : size (a ++ b) = size a + size b.
Proof. induction a as [|x a IH]; simpl; [reflexivity|]. rewrite IH. lia. Qed.

Lemma size_length ls : length ls <= size ls.
Proof. induction ls as [|x ls IH]; simpl; lia. Qed.

Lemma prefix_of_refl {A} (a : list A) : prefix_of a a.
Proof. exists []. now rewrite app_nil_r. Qed.

Lemma prefix_of_nil {A} (a : list A) : prefix_of [] a.
Proof. now exists a. Qed.

Lemma prefix_of_cons {A} (x : A) a b : prefix_of a b -> prefix_of (x :: a) (x :: b).
Proof. intros [t ->]. now exists t. Qed.

Lemma prefix_of_trans {A} (a b c : list A) : prefix_of a b -> prefix_of b c -> prefix_of a c.
Proof. intros [t ->] [t' ->]. exists (t ++ t'). now rewrite app_assoc. Qed.

Lemma prefix_of_length {A} (a b : list A) : prefix_of a b -> length a <= length b.
Proof. intros [t ->]. rewrite length_app. lia. Qed.

Lemma prefix_of_size a b : prefix_of a b -> size a <= size b.
Proof. intros [t ->]. rewrite size_app. lia. Qed.

Lemma prefix_of_Forall {A} (P : A -> Prop) a b : prefix_of a b -> Forall P b -> Forall P a.
Proof. intros [t ->] H. now apply Forall_app in H. Qed.

Lemma line_ok_app a b : line_ok (a ++ b) <-> line_ok a /\ line_ok b.
Proof. unfold line_ok. rewrite forallb_app. apply andb_true_iff. Qed.

Lemma line_ok_prefix a b : prefix_of a b -> line_ok b -> line_ok a.
Proof. intros [t ->] H. now apply line_ok_app in H. Qed.

Lemma line_ok_cons c s : line_ok (c :: s) <-> is_dot c = true /\ line_ok s.
Proof. unfold line_ok. simpl. apply andb_true_iff. Qed.

Lemma line_ok_skipn n s : line_ok s -> line_ok (skipn n s).
Proof.
  intros H. rewrite <- (firstn_skipn n s) in H. now apply line_ok_app in H.
Qed.

Lemma take_while_prefix {A} (p : A -> bool) l : prefix_of (take_while p l) l.
Proof. exists (drop_while p l). symmetry. apply take_drop_while. Qed.

Lemma line_ok_drop_while p s : line_ok s -> line_ok (drop_while p s).
Proof.
  intros H. rewrite <- (take_drop_while p s) in H. now apply line_ok_app in H.
Qed.

Lemma line_ok_rev s : line_ok s -> line_ok (rev s).
Proof.
  unfold line_ok. rewrite !forallb_forall. intros H c Hc. apply H. now apply in_rev.
Qed.

Lemma line_ok_rstrip s : line_ok s -> line_ok (rstrip s).
Proof.
  intros H. unfold rstrip. now apply line_ok_rev, line_ok_drop_while, line_ok_rev.
Qed.

Lemma length_drop_while {A} (p : A -> bool) l : length (drop_while p l) <= length l.
Proof.
  rewrite <- (take_drop_while p l) at 2. rewrite length_app. lia.
Qed.

Lemma length_rstrip s : length (rstrip s) <= length s.
Proof.
  unfold rstrip. rewrite length_rev.
  etransitivity; [apply length_drop_while|]. now rewrite length_rev.
Qed.

Lemma skipn_view {A} (n : nat) (l : list A) :
  n < length l ->
  exists cur rest,
    skipn n l = cur :: rest /\ nth_error l n = Some cur /\ skipn (S n) l = rest.
Proof.
  revert l; induction n as [|n IH]; intros [|x l] H; simpl in H; try lia.
  - now exists x, l.
  - destruct (IH l) as (cur & rest & E1 & E2 & E3); [lia|]. now exists cur, rest.
Qed.

Lemma skipn_prefix_size n ls : size (skipn n ls) <= size ls.
Proof.
  rewrite <- (firstn_skipn n ls) at 2. rewrite size_app. lia.
Qed.

Lemma length_skipn_le {A} n (l : list A) : n + length (skipn n l) <= Nat.max n (length l).
Proof. rewrite length_skipn. lia. Qed.

(** *** The groups of the patterns *)

Lemma text_group_prefix s g : text_group s = Some g -> prefix_of g s /\ g <> [].
Proof.
  unfold text_group. destruct s as [|c rest]; [discriminate|].
  destruct (is_space c); [discriminate|]. intros H. inversion H; subst. split.
  - apply prefix_of_cons, take_while_prefix.
  - discriminate.
Qed.

Lemma bullet_line_group cur first :
  match_bullet_line cur = Some first ->
  length first + 2 <= length cur /\ (line_ok cur -> line_ok first).
Proof.
  unfold match_bullet_line. destruct cur as [|b [|sp rest]]; try discriminate.
  destruct (_ && _); [|discriminate]. intros H. apply text_group_prefix in H.
  destruct H as [Hp _]. split.
  - apply prefix_of_length in Hp. simpl. lia.
  - intros Hok. apply line_ok_cons in Hok. destruct Hok as [_ Hok].
    apply line_ok_cons in Hok. destruct Hok as [_ Hok]. now apply (line_ok_prefix _ rest).
Qed.

Lemma strip_prefix_group prefix s rest g :
  strip_prefix prefix s = Some rest -> text_group rest = Some g ->
  length g + length prefix <= length s /\ (line_ok s -> line_ok g).
Proof.
  intros Hs Hg. apply strip_prefix_Some in Hs. subst s.
  apply text_group_prefix in Hg. destruct Hg as [Hp _]. split.
  - apply prefix_of_length in Hp. rewrite length_app. lia.
  - intros Hok. apply line_ok_app in Hok. destruct Hok as [_ Hok].
    now apply (line_ok_prefix _ rest).
Qed.

Lemma ol_dotted_group cur num first :
  ol_dotted cur = Some (num, first) ->
  length first + length num <= length cur /\ 2 <= length num
  /\ (line_ok cur -> line_ok first).
Proof.
  unfold ol_dotted.
  destruct (strip_prefix (u ". ") cur) as [rest|] eqn:Edot; [|discriminate].
  destruct (text_group rest) as [g2|] eqn:Eg; [|discriminate].
  intros H. inversion H; subst.
  destruct (strip_prefix_group _ _ _ _ Edot Eg) as [Hlen Hok]. simpl in *.
  split; [lia|]. split; [lia|assumption].
Qed.

Lemma ol_lettered_group cur num first :
  ol_lettered cur = Some (num, first) ->
  length first + length num <= length cur /\ 2 <= length num
  /\ (line_ok cur -> line_ok first).
Proof.
  unfold ol_lettered. destruct cur as [|c r]; [discriminate|].
  destruct ((97 <=? c)%N && (c <=? 122)%N); [|discriminate].
  destruct (strip_prefix (u ") ") r) as [rest'|] eqn:El; [|discriminate].
  destruct (text_group rest') as [g2|] eqn:Eg'; [|discriminate].
  intros H. inversion H; subst.
  destruct (strip_prefix_group _ _ _ _ El Eg') as [Hlen Hok]. simpl in *.
  split; [lia|]. split; [lia|].
  intros Hc. apply line_ok_cons in Hc. now apply Hok.
Qed.

Section OlStart.
Variable is_decimal : char -> bool.

Lemma ol_numbered_group cur num first :
  ol_numbered is_decimal cur = Some (num, first) ->
  length first + length num <= length cur /\ 2 <= length num
  /\ (line_ok cur -> line_ok first).
Proof.
  unfold ol_numbered.
  pose proof (take_drop_while (fun c => char_eqb c (ch " ")) cur) as E1.
  pose proof (take_drop_while is_decimal (drop_while (fun c => char_eqb c (ch " ")) cur))
    as E2.
  destruct (is_empty _); [discriminate|].
  destruct (strip_prefix (u ". ") _) as [rest|] eqn:Eafter; [|discriminate].
  destruct (text_group rest) as [g2|] eqn:Eg; [|discriminate].
  intros H. inversion H; subst num first.
  destruct (strip_prefix_group _ _ _ _ Eafter Eg) as [Hlen Hok].
  rewrite <- E1 at 3 4. rewrite <- E2 at 2 3. rewrite !length_app. simpl in *.
  split; [lia|]. split; [lia|].
  intros Hc. apply Hok.
  now apply line_ok_drop_while, line_ok_drop_while.
Qed.

Lemma ol_item_start_group cur num first :
  match_ol_item_start is_decimal cur = Some (num, first) ->
  length first + length num <= length cur /\ 2 <= length num
  /\ (line_ok cur -> line_ok first).
Proof.
  unfold match_ol_item_start.
  destruct (ol_numbered is_decimal cur) as [m|] eqn:E1.
  - intros H. inversion H; subst. now apply ol_numbered_group.
  - destruct (ol_dotted cur) as [m|] eqn:E2.
    + intros H. inversion H; subst. now apply ol_dotted_group.
    + apply ol_lettered_group.
Qed.

(** A line the paragraph rule refuses as an ordered item is one the
    ordered list rule takes. *)
Lemma dot_item_is_ol_start cur :
  match_dot_item cur = true -> match_ol_item_start is_decimal cur <> None.
Proof.
  unfold match_dot_item, match_ol_item_start, ol_dotted.
  destruct (strip_prefix (u ". ") cur) as [rest|]; [|discriminate].
  destruct (text_group rest) as [g|]; [|discriminate]. intros _.
  destruct (ol_numbered is_decimal cur); discriminate.
Qed.

End OlStart.

Lemma dt_split_group s g1 g2 :
  dt_split s = Some (g1, g2) ->
  length g2 + 3 <= length s /\ (line_ok s -> line_ok g2).
Proof.
  revert g1; induction s as [|c s IH]; intros g1; simpl; [discriminate|].
  destruct (is_dot c) eqn:Ec; [|discriminate].
  destruct (dt_split s) as [[h1 h2]|] eqn:Es.
  - intros H. inversion H; subst. destruct (IH h1 eq_refl) as [Hlen Hok]. split; [lia|].
    intros Hc. apply line_ok_cons in Hc. now apply Hok.
  - unfold dt_here.
    destruct (strip_prefix (u ":: ") (c :: s)) as [rest|] eqn:Ep; [|discriminate].
    destruct (text_group rest) as [g|] eqn:Eg; [|discriminate].
    intros H. inversion H; subst.
    destruct (strip_prefix_group _ _ _ _ Ep Eg) as [Hlen Hok]. simpl in *. split; [lia|].
    assumption.
Qed.

Lemma single_line_dt_group cur term def :
  match_single_line_dt cur = Some (term, def) ->
  length def < length cur /\ (line_ok cur -> line_ok def).
Proof.
  unfold match_single_line_dt. destruct cur as [|c rest]; [discriminate|].
  destruct (is_space c); [discriminate|].
  destruct (dt_split rest) as [[g1 g2]|] eqn:E; [|discriminate].
  intros H. inversion H; subst. apply dt_split_group in E. destruct E as [Hlen Hok].
  simpl. split; [lia|]. intros Hc. apply line_ok_cons in Hc. now apply Hok.
Qed.

Lemma admon_line_group l g :
  match_admon_line l = Some g -> length g + 2 <= length l /\ (line_ok l -> line_ok g).
Proof.
  unfold match_admon_line. destruct l as [|c [|sp r]]; try discriminate.
  destruct (_ && _); [|discriminate]. intros H. inversion H; subst.
  pose proof (take_while_prefix (fun x => negb (char_eqb x (ch "│"))) r) as Hp. split.
  - apply prefix_of_length in Hp. simpl. lia.
  - intros Hc. apply line_ok_cons in Hc. destruct Hc as [_ Hc].
    apply line_ok_cons in Hc. destruct Hc as [_ Hc]. now apply (line_ok_prefix _ r).
Qed.

(** *** The loops over the remaining lines *)

Lemma block_lines_prefix cont rest : prefix_of (block_lines cont rest) rest.
Proof.
  induction rest as [|l rest IH]; simpl; [apply prefix_of_refl|].
  destruct l as [|c l]; simpl.
  - now apply prefix_of_cons.
  - destruct (cont (c :: l)); [now apply prefix_of_cons|apply prefix_of_nil].
Qed.

Lemma paragraph_lines_prefix rest : prefix_of (paragraph_lines rest) rest.
Proof.
  induction rest as [|l rest IH]; simpl; [apply prefix_of_refl|].
  destruct (_ || _); [apply prefix_of_nil|now apply prefix_of_cons].
Qed.

Lemma take_terms_length rest : length (take_terms rest) <= length rest.
Proof.
  induction rest as [|l rest IH]; simpl; [lia|].
  destruct (match_dt l); simpl; lia.
Qed.

Lemma delim_content_facts delim rest :
  prefix_of (fst (delim_content delim rest)) rest
  /\ snd (delim_content delim rest) <= length rest.
Proof.
  induction rest as [|l rest [IHp IHn]]; simpl; [split; [apply prefix_of_refl|lia]|].
  destruct (str_eqb l delim); simpl; [split; [apply prefix_of_nil|lia]|].
  destruct (delim_content delim rest) as [ls n]. simpl in *.
  split; [now apply prefix_of_cons|lia].
Qed.

Lemma size_cons l ls : size (l :: ls) = S (length l) + size ls.
Proof. reflexivity. Qed.

Lemma quoted_lines_cons l rest :
  quoted_lines (l :: rest)
  = if str_eqb l (u ">") then [] :: quoted_lines rest
    else match strip_prefix (u "> ") l with
         | Some content => content :: quoted_lines rest
         | None => []
         end.
Proof. reflexivity. Qed.

Lemma quoted_lines_facts rest :
  length (quoted_lines rest) <= length rest
  /\ size (quoted_lines rest) + length (quoted_lines rest) <= size rest
  /\ (Forall line_ok rest -> Forall line_ok (quoted_lines rest)).
Proof.
  induction rest as [|l rest (IHl & IHs & IHok)].
  - simpl. split; [lia|]. split; [lia|]. intros _. constructor.
  - rewrite quoted_lines_cons, size_cons.
    destruct (str_eqb l (u ">")) eqn:E.
    + apply str_eqb_eq in E. subst l. rewrite size_cons. simpl length.
      split; [lia|]. split; [lia|].
      intros H. inversion H; subst. constructor; [reflexivity|auto].
    + destruct (strip_prefix (u "> ") l) as [content|] eqn:Ep.
      * apply strip_prefix_Some in Ep. subst l. rewrite size_cons, length_app.
        simpl length.
        split; [lia|]. split; [lia|].
        intros H. inversion H as [|? ? Hl Hr]; subst. constructor; [|auto].
        apply line_ok_cons in Hl. destruct Hl as [_ Hl].
        now apply line_ok_cons in Hl.
      * simpl. split; [lia|]. split; [lia|]. intros _. constructor.
Qed.

Lemma admon_content_cons l rest :
  admon_content (l :: rest)
  = if startswith l (u "└") then ([], 1)
    else
      let '(ls, n) := admon_content rest in
      if match_admon_blank l then ([] :: ls, S n)
      else match match_admon_line l with
           | Some g => (rstrip g :: ls, S n)
           | None => (ls, S n)
           end.
Proof. reflexivity. Qed.

Lemma admon_content_facts rest :
  snd (admon_content rest) <= length rest
  /\ size (fst (admon_content rest)) <= size rest
  /\ (Forall line_ok rest -> Forall line_ok (fst (admon_content rest))).
Proof.
  induction rest as [|l rest (IHn & IHs & IHok)].
  - simpl. split; [lia|]. split; [lia|]. intros _. constructor.
  - rewrite admon_content_cons, size_cons. simpl length.
    destruct (startswith l (u "└")).
    + simpl. split; [lia|]. split; [lia|]. intros _. constructor.
    + destruct (admon_content rest) as [ls n]. simpl fst in *. simpl snd in *.
      destruct (match_admon_blank l).
      * simpl. split; [lia|]. split; [lia|].
        intros H. inversion H; subst. constructor; [reflexivity|auto].
      * destruct (match_admon_line l) as [g|] eqn:Eg.
        -- apply admon_line_group in Eg. destruct Eg as [Hlen Hok].
           pose proof (length_rstrip g) as Hr. simpl fst. simpl snd. rewrite size_cons.
           split; [lia|]. split; [lia|].
           intros H. inversion H; subst. constructor; [|auto].
           now apply line_ok_rstrip, Hok.
        -- simpl. split; [lia|]. split; [lia|].
           intros H. inversion H; subst. auto.
Qed.

Lemma unindent_lines_facts lines count :
  size (_unindent_lines lines count) <= size lines
  /\ (Forall line_ok lines -> Forall line_ok (_unindent_lines lines count)).
Proof.
  unfold _unindent_lines. induction lines as [|l lines [IHs IHok]]; simpl;
    [split; auto|].
  assert (Hl : length (if startswith l (_indent_str count) then skipn count l else l)
               <= length l).
  { destruct (startswith _ _); [rewrite length_skipn|]; lia. }
  split; [lia|]. intros H. inversion H; subst. constructor; [|auto].
  destruct (startswith _ _); [now apply line_ok_skipn|assumption].
Qed.

Lemma remove_trailing_prefix lines r :
  _remove_trailing_empty_lines lines = Ok r -> prefix_of r lines.
Proof.
  intros H. apply remove_trailing_Ok in H. destruct H as (k & _ & _ & E & _).
  now exists (repeat [] k).
Qed.

(** *** The scanning loop of a paragraph *)

Lemma match_literal_rest s lit rest :
  match_literal s = Some (lit, rest) ->
  length rest < length s /\ (line_ok s -> line_ok rest).
Proof.
  unfold match_literal.
  set (bs := match s with
             | c :: r => if char_in (u "([{") c then ([c], r) else ([], s)
             | [] => ([], s)
             end).
  assert (Hbs : length (snd bs) <= length s /\ (line_ok s -> line_ok (snd bs))).
  { subst bs. destruct s as [|c r]; [simpl; auto|].
    destruct (char_in (u "([{") c); simpl; [|auto]. split; [lia|].
    intros H. now apply line_ok_cons in H. }
  destruct bs as [bracket s1]. simpl in Hbs. destruct Hbs as [Hlen Hok].
  destruct s1 as [|q s2]; [discriminate|].
  destruct (char_eqb q (ch "`")); [|discriminate].
  set (nq := fun c => negb (char_eqb c (ch "`"))).
  pose proof (length_drop_while nq s2) as H2.
  assert (Hok2 : line_ok s -> line_ok (drop_while nq s2)).
  { intros H. apply Hok in H. apply line_ok_cons in H. now apply line_ok_drop_while. }
  destruct (drop_while nq s2) as [|q' s3]; [discriminate|].
  intros H. inversion H; subst.
  pose proof (length_drop_while (fun c => negb (is_space c)) s3) as H3.
  simpl in *. split; [lia|].
  intros Hs. apply line_ok_drop_while. apply Hok2 in Hs. now apply line_ok_cons in Hs.
Qed.

Lemma match_word_rest s w rest :
  match_word s = Some (w, rest) -> s = w ++ rest /\ w <> [].
Proof.
  revert w; induction s as [|c s IH]; intros w; simpl; [discriminate|].
  destruct (is_dot c); [|discriminate].
  destruct (word_lookahead s).
  - intros H. inversion H; subst. split; [reflexivity|discriminate].
  - destruct (match_word s) as [[w' r]|]; [|discriminate].
    intros H. inversion H; subst. destruct (IH w' eq_refl) as [-> _].
    split; [reflexivity|discriminate].
Qed.

(** On a text without a line feed the word pattern matches. *)
Lemma match_word_total s : s <> [] -> line_ok s -> match_word s <> None.
Proof.
  induction s as [|c s IH]; intros Hne Hok; [congruence|]. simpl.
  apply line_ok_cons in Hok. destruct Hok as [Hc Hok]. rewrite Hc.
  destruct (word_lookahead s) eqn:El; [discriminate|].
  destruct s as [|c' s']; [discriminate|].
  specialize (IH ltac:(discriminate) Hok).
  destruct (match_word (c' :: s')) as [[w r]|]; [discriminate|congruence].
Qed.

Lemma scan_text_terminates : forall fuel text elems,
  line_ok text -> length text < fuel ->
  exists words, scan_text fuel text elems = Ok words.
Proof.
  induction fuel as [|fuel IH]; intros text elems Hok Hfuel; [lia|]. simpl.
  destruct text as [|c text]; [eauto|].
  destruct (match_literal (c :: text)) as [[lit rest]|] eqn:El.
  - apply match_literal_rest in El. destruct El as [Hlen Hr].
    apply IH; [auto|]. simpl in *. lia.
  - pose proof (match_word_total (c :: text) ltac:(discriminate) Hok) as Hw.
    destruct (match_word (c :: text)) as [[w rest]|] eqn:Ew; [|congruence].
    apply match_word_rest in Ew. destruct Ew as [E Hne].
    apply IH.
    + rewrite E in Hok. now apply line_ok_app in Hok.
    + assert (Hl : length (c :: text) = length w + length rest)
        by (rewrite E; apply length_app).
      destruct w; [congruence|]. simpl in *. lia.
Qed.

Lemma join_space_facts (ls : list str) :
  length (join (u " ") ls) <= size ls
  /\ (Forall line_ok ls -> line_ok (join (u " ") ls)).
Proof.
  induction ls as [|l ls [IHl IHok]]; simpl; [split; auto; reflexivity|].
  destruct ls as [|l' ls'].
  - simpl. split; [lia|]. intros H. now inversion H.
  - split.
    + rewrite !length_app. simpl in *. lia.
    + intros H. inversion H; subst.
      apply line_ok_app. split; [assumption|].
      apply line_ok_cons. split; [reflexivity|auto].
Qed.

End ParserLoops.

Section Cursor.

Import Parser.

(** ** Every try-parse method moves the cursor forward or leaves it *)

Lemma remove_trailing_returns_or_raises lines :
  _remove_trailing_empty_lines lines <> OutOfFuel.
Proof.
  unfold _remove_trailing_empty_lines. destruct lines as [|l lines]; [discriminate|].
  generalize (rev (l :: lines)) as rl. induction rl as [|x rl IH]; simpl; [discriminate|].
  destruct (is_empty x); [exact IH|discriminate].
Qed.

Lemma bind_ret {A B} (a : A) (k : A -> res B) : bind (Ok a) k = k a.
Proof. reflexivity. Qed.

Lemma progress_bind {A B} len _at (r : res A) (k : A -> res (option B * nat)) :
  r <> OutOfFuel ->
  (forall a, r = Ok a -> progress len _at (k a)) ->
  progress len _at (bind r k).
Proof. destruct r; simpl; intros H1 H2; [now apply H2|exact I|congruence]. Qed.

Section Progress.

Variable is_decimal : char -> bool.
Variable parse_sub : list str -> res (list Elem).
Variable fuel : nat.
Variable _lines : list str.

Hypothesis parse_sub_returns :
  forall lines, Forall line_ok lines -> size lines < size _lines ->
                parse_sub lines <> OutOfFuel.
Hypothesis enough_fuel : size _lines < fuel.
Hypothesis lines_ok : Forall line_ok _lines.

Let len := length _lines.

(** The line under the cursor and the lines after it. *)
Lemma cursor_view _at :
  _at < len ->
  exists cur rest,
    skipn _at _lines = cur :: rest
    /\ nth_error _lines _at = Some cur
    /\ nth _at _lines [] = cur
    /\ skipn (S _at) _lines = rest
    /\ line_ok cur /\ Forall line_ok rest
    /\ S (length cur) + size rest <= size _lines
    /\ _at + S (length rest) = len.
Proof.
  intros H. destruct (skipn_view _at _lines H) as (cur & rest & E1 & E2 & E3).
  exists cur, rest. split; [assumption|]. split; [assumption|].
  split; [now apply nth_error_nth|]. split; [assumption|].
  assert (Hall : Forall line_ok (cur :: rest)).
  { pose proof lines_ok as Hall0. rewrite <- (firstn_skipn _at _lines) in Hall0.
    apply Forall_app in Hall0. destruct Hall0 as [_ Hall0]. now rewrite E1 in Hall0. }
  inversion Hall; subst. split; [assumption|]. split; [assumption|]. split.
  - pose proof (skipn_prefix_size _at _lines) as Hs. rewrite E1 in Hs.
    rewrite size_cons in Hs. lia.
  - unfold len in *. rewrite length_skipn. lia.
Qed.

Lemma cur_line_at _at cur : nth_error _lines _at = Some cur -> _cur_line _lines _at = Ok cur.
Proof. unfold _cur_line. now intros ->. Qed.

Lemma goto_next_at _at : _at < len -> _goto_next_line _lines _at 1 = Ok (S _at).
Proof.
  intros H. unfold _goto_next_line. fold len.
  destruct (Nat.leb_spec (_at + 1) len); [|lia]. f_equal. lia.
Qed.

Lemma progress_heading mk prefix c _at :
  _at < len -> progress len _at (_try_parse_heading _lines mk prefix c _at).
Proof.
  intros H. destruct (cursor_view _at H) as (cur & rest & _ & Hn & _).
  unfold _try_parse_heading. rewrite (cur_line_at _ _ Hn). simpl bind.
  assert (Hunder : progress len _at
            (if match_underline c (_next_line _lines _at)
             then _at' <- _goto_next_line _lines _at 2 ;; Ok (Some (mk cur), _at')
             else Ok (None, _at))).
  { destruct (match_underline _ _); [|reflexivity].
    unfold _goto_next_line. fold len.
    destruct (Nat.leb_spec (_at + 2) len); simpl; [lia|exact I]. }
  destruct (match_heading_prefix prefix cur); [|exact Hunder].
  destruct (is_empty _); [|exact Hunder].
  rewrite goto_next_at by assumption. simpl. lia.
Qed.

Lemma progress_single_line_dl_item _at :
  _at < len -> progress len _at (_try_parse_single_line_dl_item parse_sub _lines _at).
Proof.
  intros H. destruct (cursor_view _at H) as (cur & rest & _ & Hn & _ & _ & Hc & _ & Hs & _).
  unfold _try_parse_single_line_dl_item. rewrite (cur_line_at _ _ Hn). simpl bind.
  destruct (match_single_line_dt cur) as [[term def]|] eqn:E; [|reflexivity].
  rewrite goto_next_at by assumption. simpl bind.
  apply single_line_dt_group in E. destruct E as [Hlen Hdef].
  apply progress_bind.
  - apply parse_sub_returns; [constructor; [auto|constructor]|].
    rewrite size_cons. simpl. lia.
  - intros elems _. simpl. lia.
Qed.

Lemma block_lines_facts cont _at rest :
  skipn _at _lines = rest -> _at <= len -> Forall line_ok rest ->
  let lines := block_lines cont rest in
  _at + length lines <= len /\ size lines <= size rest /\ Forall line_ok lines.
Proof.
  intros E Hat Hok lines.
  pose proof (block_lines_prefix cont rest) as Hp. fold lines in Hp.
  split; [|split].
  - apply prefix_of_length in Hp. rewrite <- E, length_skipn in Hp. fold len in Hp. lia.
  - now apply prefix_of_size.
  - now apply (prefix_of_Forall _ _ rest).
Qed.

Lemma progress_dl_item _at :
  _at < len -> progress len _at (_try_parse_dl_item parse_sub _lines _at).
Proof.
  intros H. unfold _try_parse_dl_item.
  pose proof (progress_single_line_dl_item _at H) as Hsingle.
  destruct (_try_parse_single_line_dl_item parse_sub _lines _at)
    as [[[item|] begin_at]| |]; simpl bind; try exact Hsingle.
  simpl in Hsingle. subst begin_at.
  destruct (cursor_view _at H) as (cur & rest & Es & _ & _ & Er & Hc & Hrest & Hsize & Hlen).
  set (terms := take_terms (skipn _at _lines)).
  destruct (length terms =? 0) eqn:Eterms; [reflexivity|].
  apply Nat.eqb_neq in Eterms.
  destruct (_is_done _lines (_at + length terms) || _) eqn:Edone; [reflexivity|].
  apply orb_false_iff in Edone. destruct Edone as [Edone _].
  unfold _is_done in Edone. apply Nat.leb_gt in Edone. fold len in Edone.
  set (_at1 := _at + length terms) in *.
  assert (Hsuffix : size (skipn _at1 _lines) <= size rest
                    /\ Forall line_ok (skipn _at1 _lines)).
  { assert (E1 : skipn _at1 _lines = skipn (length terms - 1) rest).
    { rewrite <- Er, skipn_skipn. f_equal. unfold _at1. lia. }
    rewrite E1. split; [apply skipn_prefix_size|].
    rewrite <- (firstn_skipn (length terms - 1) rest) in Hrest.
    now apply Forall_app in Hrest. }
  destruct Hsuffix as [Hsz Hokk].
  destruct (block_lines_facts (match_indented_content 4) _at1 _ eq_refl
              ltac:(lia) Hokk) as (Hb1 & Hb2 & Hb3).
  apply progress_bind; [apply remove_trailing_returns_or_raises|].
  intros def_lines Hdef. apply remove_trailing_prefix in Hdef.
  destruct (unindent_lines_facts def_lines 4) as [Hu1 Hu2].
  apply progress_bind.
  - apply parse_sub_returns.
    + apply Hu2. now apply (prefix_of_Forall _ _ _ Hdef).
    + apply prefix_of_size in Hdef. lia.
  - intros elems _. simpl. unfold _at1 in *. lia.
Qed.

Lemma progress_item (first : str) (cur : str) (rest : list str) _at (count : nat) drop :
  _at < len ->
  skipn (S _at) _lines = rest ->
  Forall line_ok rest -> line_ok first ->
  length first < length cur ->
  S (length cur) + size rest <= size _lines ->
  progress len _at
    (let more := block_lines (match_indented_content count) (skipn (S _at) _lines) in
     lines <- _remove_trailing_empty_lines (first :: more) ;;
     elems <- parse_sub (_unindent_lines lines drop) ;;
     Ok (Some elems, S _at + length more)).
Proof.
  intros H Er Hrest Hfirst Hlen Hsize. cbv zeta.
  destruct (block_lines_facts (match_indented_content count) (S _at) _ Er
              ltac:(lia) Hrest) as (Hb1 & Hb2 & Hb3).
  rewrite Er.
  apply progress_bind; [apply remove_trailing_returns_or_raises|].
  intros lines Hl. apply remove_trailing_prefix in Hl.
  destruct (unindent_lines_facts lines drop) as [Hu1 Hu2].
  apply progress_bind.
  - apply parse_sub_returns.
    + apply Hu2. apply (prefix_of_Forall _ _ _ Hl). now constructor.
    + apply prefix_of_size in Hl. rewrite size_cons in Hl. lia.
  - intros elems _. simpl. lia.
Qed.

Lemma progress_ul_item _at :
  _at < len -> progress len _at (_try_parse_ul_item parse_sub _lines _at).
Proof.
  intros H.
  destruct (cursor_view _at H) as (cur & rest & Es & Hn & _ & Er & Hc & Hrest & Hsize & Hlen).
  unfold _try_parse_ul_item. rewrite (cur_line_at _ _ Hn). simpl bind.
  destruct (match_bullet_line cur) as [first|] eqn:E; [|reflexivity].
  rewrite goto_next_at by assumption. simpl bind.
  apply bullet_line_group in E. destruct E as [Hl Hok].
  apply (progress_item first cur rest); auto. lia.
Qed.

Lemma progress_ol_item _at :
  _at < len -> progress len _at (_try_parse_ol_item is_decimal parse_sub _lines _at).
Proof.
  intros H.
  destruct (cursor_view _at H) as (cur & rest & Es & Hn & _ & Er & Hc & Hrest & Hsize & Hlen).
  unfold _try_parse_ol_item. rewrite (cur_line_at _ _ Hn). simpl bind.
  destruct (match_ol_item_start is_decimal cur) as [[num first]|] eqn:E; [|reflexivity].
  rewrite goto_next_at by assumption. simpl bind.
  apply ol_item_start_group in E. destruct E as (Hl & Hnum & Hok).
  apply (progress_item first cur rest); auto. lia.
Qed.

(** A list item found at the cursor: the line starts as its pattern
    says.  The converses say when a list rule has to take the line. *)
Lemma ul_item_refused _at cur _at' :
  nth_error _lines _at = Some cur ->
  _try_parse_ul_item parse_sub _lines _at = Ok (None, _at') ->
  match_bullet_line cur = None.
Proof.
  intros Hn. unfold _try_parse_ul_item. rewrite (cur_line_at _ _ Hn). simpl bind.
  destruct (match_bullet_line cur); [|reflexivity].
  repeat match goal with
         | |- context [bind ?r _] => destruct r; simpl bind; cbv zeta; try discriminate
         end.
Qed.

Lemma ol_item_refused _at cur _at' :
  nth_error _lines _at = Some cur ->
  _try_parse_ol_item is_decimal parse_sub _lines _at = Ok (None, _at') ->
  match_ol_item_start is_decimal cur = None.
Proof.
  intros Hn. unfold _try_parse_ol_item. rewrite (cur_line_at _ _ Hn). simpl bind.
  destruct (match_ol_item_start is_decimal cur) as [[num first]|]; [|reflexivity].
  repeat match goal with
         | |- context [bind ?r _] => destruct r; simpl bind; cbv zeta; try discriminate
         end.
Qed.

(** *** Skipping blank lines *)

Lemma take_while_empty_facts (rest : list str) :
  let n := length (take_while is_empty rest) in
  n <= length rest /\ (n < length rest -> nth n rest [] <> [])
  /\ (nth 0 rest [] <> [] -> n = 0).
Proof.
  induction rest as [|l rest (IH1 & IH2 & IH3)]; simpl; [repeat split; lia|].
  destruct l as [|c l]; simpl.
  - split; [lia|]. split; [intros H; apply IH2; lia|congruence].
  - split; [lia|]. split; [discriminate|reflexivity].
Qed.

Lemma nth_add_skipn {A} n k (l : list A) d : nth (n + k) l d = nth k (skipn n l) d.
Proof.
  revert l; induction n as [|n IH]; intros l; simpl; [reflexivity|].
  destruct l; [now destruct k|apply IH].
Qed.

Lemma skip_empty_lines_facts _at :
  _at <= len ->
  let _at' := _skip_empty_lines _lines _at in
  _at <= _at' /\ _at' <= len
  /\ (_at' < len -> nth _at' _lines [] <> [])
  /\ (nth _at _lines [] <> [] -> _at' = _at).
Proof.
  intros H. unfold _skip_empty_lines.
  destruct (take_while_empty_facts (skipn _at _lines)) as (H1 & H2 & H3).
  rewrite length_skipn in H1, H2. fold len in H1, H2.
  repeat split; try lia.
  - intros Hlt. rewrite nth_add_skipn. apply H2. lia.
  - intros Hne. cut (length (take_while is_empty (skipn _at _lines)) = 0); [lia|].
    apply H3. now rewrite <- nth_add_skipn, Nat.add_0_r.
Qed.

(** *** The loop over the items of a list *)

Lemma item_loop_progress {T} (f : rule T) :
  (forall p, p < len -> progress len p (f p)) ->
  forall k _at items,
    _at <= len -> len - _at < k ->
    loop_result _lines f _at items (item_loop _lines f k _at items).
Proof.
  intros Hf. unfold loop_result. fold len.
  induction k as [|k IH]; intros _at items Hat Hk; [lia|].
  simpl. destruct (skip_empty_lines_facts _at Hat) as (Hs1 & Hs2 & Hs3 & _).
  unfold _is_done. fold len.
  destruct (Nat.leb_spec len (_skip_empty_lines _lines _at)) as [Hdone|Hmore].
  - simpl. split; [lia|]. left. repeat split. lia.
  - specialize (Hf _ Hmore).
    destruct (f (_skip_empty_lines _lines _at)) as [[[item|] _at']| |] eqn:Ef; simpl in *;
      try exact I; try contradiction.
    + destruct Hf as [Hlt Hle].
      specialize (IH _at' (items ++ [item]) Hle ltac:(lia)).
      destruct (item_loop _lines f k _at' (items ++ [item])) as [[items' p]| |];
        simpl in *; try exact I; try contradiction.
      destruct IH as [Hp Hcases]. split; [assumption|]. right.
      destruct (skip_empty_lines_facts _at' Hle) as (Hs1' & _).
      rewrite length_app in Hcases. simpl in Hcases.
      destruct Hcases as [(-> & -> & _)|[Hl Hp']].
      * rewrite length_app. simpl. lia.
      * lia.
    + subst _at'. split; [lia|]. left. repeat split. intros _. eauto.
Qed.

Lemma progress_simple_list mk (f : rule _SimpleListItem) _at :
  (forall p, p < len -> progress len p (f p)) ->
  _at < len -> nth _at _lines [] <> [] ->
  progress len _at (_try_parse_simple_list fuel _lines mk f _at).
Proof.
  intros Hf H Hne. unfold _try_parse_simple_list.
  pose proof (size_length _lines) as Hsz. fold len in Hsz.
  pose proof (item_loop_progress f Hf fuel _at [] ltac:(lia) ltac:(lia)) as Hloop.
  unfold loop_result in Hloop. fold len in Hloop.
  destruct (skip_empty_lines_facts _at ltac:(lia)) as (_ & _ & _ & Hsame).
  specialize (Hsame Hne).
  destruct (item_loop _lines f fuel _at []) as [[items _at']| |]; simpl in *;
    try exact I; try contradiction.
  rewrite Hsame in Hloop.
  destruct Hloop as [Hle [(-> & -> & _)|[Hl Hlt]]]; simpl.
  - reflexivity.
  - destruct items; simpl in *; [lia|]. lia.
Qed.

Lemma simple_list_refused mk (f : rule _SimpleListItem) _at _at' :
  (forall p, p < len -> progress len p (f p)) ->
  _at < len -> nth _at _lines [] <> [] ->
  _try_parse_simple_list fuel _lines mk f _at = Ok (None, _at') ->
  exists p, f _at = Ok (None, p).
Proof.
  intros Hf H Hne. unfold _try_parse_simple_list.
  pose proof (size_length _lines) as Hsz. fold len in Hsz.
  pose proof (item_loop_progress f Hf fuel _at [] ltac:(lia) ltac:(lia)) as Hloop.
  unfold loop_result in Hloop. fold len in Hloop.
  destruct (skip_empty_lines_facts _at ltac:(lia)) as (_ & _ & _ & Hsame).
  specialize (Hsame Hne).
  destruct (item_loop _lines f fuel _at []) as [[items p]| |]; simpl in *;
    try discriminate.
  rewrite Hsame in Hloop.
  destruct Hloop as [Hle [(-> & -> & Hnone)|[Hl Hlt]]]; simpl.
  - intros _. now apply Hnone.
  - destruct items; simpl in *; [lia|discriminate].
Qed.

Lemma progress_dl _at :
  _at < len -> nth _at _lines [] <> [] ->
  progress len _at (_try_parse_dl parse_sub fuel _lines _at).
Proof.
  intros H Hne. unfold _try_parse_dl.
  pose proof (size_length _lines) as Hsz. fold len in Hsz.
  pose proof (item_loop_progress _ progress_dl_item fuel _at [] ltac:(lia) ltac:(lia))
    as Hloop.
  unfold loop_result in Hloop. fold len in Hloop.
  destruct (skip_empty_lines_facts _at ltac:(lia)) as (_ & _ & _ & Hsame).
  specialize (Hsame Hne).
  destruct (item_loop _lines _ fuel _at []) as [[items _at']| |]; simpl in *;
    try exact I; try contradiction.
  rewrite Hsame in Hloop.
  destruct Hloop as [Hle [(-> & -> & _)|[Hl Hlt]]]; simpl.
  - reflexivity.
  - destruct items; simpl in *; [lia|]. lia.
Qed.

Lemma progress_delim_block delim _at :
  _at < len ->
  match _try_parse_delim_block _lines delim _at with
  | Ok (Some lines, _at') =>
      _at < _at' /\ _at' <= len /\ Forall line_ok lines /\ size lines < size _lines
  | Ok (None, _at') => _at' = _at
  | Raise _ => True
  | OutOfFuel => False
  end.
Proof.
  intros H.
  destruct (cursor_view _at H) as (cur & rest & Es & Hn & _ & Er & Hc & Hrest & Hsize & Hlen).
  unfold _try_parse_delim_block. rewrite (cur_line_at _ _ Hn), bind_ret.
  destruct (str_eqb cur delim); [|reflexivity]. simpl negb. cbv iota.
  rewrite goto_next_at by assumption. rewrite bind_ret, Er.
  destruct (delim_content_facts delim rest) as [Hp Hn'].
  destruct (delim_content delim rest) as [lines n]. simpl in Hp, Hn'.
  pose proof (remove_trailing_returns_or_raises lines) as Hr.
  destruct (_remove_trailing_empty_lines lines) as [r| |] eqn:E; simpl bind;
    [|exact I|congruence].
  pose proof (remove_trailing_Ok_nonempty _ _ E) as Hne.
  apply remove_trailing_prefix in E.
  destruct r as [|l r]; [congruence|]. simpl.
  split; [lia|]. split; [lia|]. split.
  - apply (prefix_of_Forall _ _ _ E). now apply (prefix_of_Forall _ _ _ Hp).
  - apply prefix_of_size in E, Hp. rewrite size_cons in E. lia.
Qed.

Lemma progress_pre_delim _at :
  _at < len -> progress len _at (_try_parse_pre_delim _lines _at).
Proof.
  intros H. unfold _try_parse_pre_delim.
  pose proof (progress_delim_block (u "```") _at H) as Hb.
  destruct (_try_parse_delim_block _ _ _) as [[[lines|] p]| |]; simpl in *; try tauto.
Qed.

Lemma progress_blockquote_delim _at :
  _at < len -> progress len _at (_try_parse_blockquote_delim parse_sub _lines _at).
Proof.
  intros H. unfold _try_parse_blockquote_delim.
  pose proof (progress_delim_block (u ">>>") _at H) as Hb.
  destruct (_try_parse_delim_block _ _ _) as [[[lines|] p]| |]; simpl bind; try tauto.
  destruct Hb as (H1 & H2 & H3 & H4).
  apply progress_bind; [now apply parse_sub_returns|]. intros elems _. simpl. lia.
Qed.

Lemma progress_admon_box_delim _at :
  _at < len -> progress len _at (_try_parse_admon_box_delim parse_sub _lines _at).
Proof.
  intros H. unfold _try_parse_admon_box_delim.
  pose proof (progress_delim_block (u "!!!") _at H) as Hb.
  destruct (_try_parse_delim_block _ _ _) as [[[lines|] p]| |]; simpl bind; try tauto.
  destruct Hb as (H1 & H2 & H3 & H4).
  apply progress_bind; [now apply parse_sub_returns|]. intros elems _. simpl. lia.
Qed.

Lemma progress_pre_indented _at :
  _at < len -> progress len _at (_try_parse_pre_indented _lines _at).
Proof.
  intros H.
  destruct (cursor_view _at H) as (cur & rest & Es & Hn & _ & Er & Hc & Hrest & Hsize & Hlen).
  unfold _try_parse_pre_indented. rewrite (cur_line_at _ _ Hn). simpl bind.
  destruct (match_indented_text cur) eqn:Et; [|reflexivity]. simpl negb. cbv iota.
  assert (Hfirst : 1 <= length (block_lines (match_indented_content 4) (skipn _at _lines))).
  { rewrite Es. simpl. unfold match_indented_text in Et. unfold match_indented_content.
    destruct cur as [|c cur']; [discriminate|]. simpl is_empty. cbv iota.
    change (repeat (ch " ") 4) with (u "    ").
    destruct (strip_prefix (u "    ") (c :: cur')) as [[|d r]|]; try discriminate.
    destruct (is_dot d) eqn:Ed; [simpl; lia|].
    unfold is_dot in Ed. apply negb_false_iff, N.eqb_eq in Ed. subst d. discriminate. }
  assert (Hall : Forall line_ok (skipn _at _lines)) by (rewrite Es; now constructor).
  destruct (block_lines_facts (match_indented_content 4) _at _ eq_refl
              ltac:(lia) Hall) as (Hb1 & Hb2 & Hb3).
  apply progress_bind; [apply remove_trailing_returns_or_raises|].
  intros lines _. simpl. lia.
Qed.

Lemma progress_hr _at : _at < len -> progress len _at (_try_parse_hr _lines _at).
Proof.
  intros H. destruct (cursor_view _at H) as (cur & rest & _ & Hn & _).
  unfold _try_parse_hr. rewrite (cur_line_at _ _ Hn). simpl bind.
  destruct (_ || _); [|reflexivity].
  rewrite goto_next_at by assumption. simpl. lia.
Qed.

Lemma progress_blockquote_prefixed _at :
  _at < len -> progress len _at (_try_parse_blockquote_prefixed parse_sub _lines _at).
Proof.
  intros H. unfold _try_parse_blockquote_prefixed.
  destruct (quoted_lines_facts (skipn _at _lines)) as (Hq1 & Hq2 & Hq3).
  rewrite length_skipn in Hq1. fold len in Hq1.
  destruct (1 <=? length (quoted_lines (skipn _at _lines))) eqn:E; [|reflexivity].
  apply Nat.leb_le in E.
  pose proof (skipn_prefix_size _at _lines) as Hs.
  apply progress_bind.
  - apply parse_sub_returns; [|lia].
    apply Hq3. rewrite <- (firstn_skipn _at _lines) in lines_ok.
    now apply Forall_app in lines_ok.
  - intros elems _. simpl. lia.
Qed.

Lemma progress_admon_box _at :
  _at < len -> progress len _at (_try_parse_admon_box parse_sub _lines _at).
Proof.
  intros H.
  destruct (cursor_view _at H) as (cur & rest & Es & Hn & _ & Er & Hc & Hrest & Hsize & Hlen).
  unfold _try_parse_admon_box. rewrite (cur_line_at _ _ Hn), bind_ret.
  destruct (startswith cur (u "┌")); [|reflexivity]. simpl negb. cbv iota.
  destruct (match_admon_tag _); [|reflexivity]. simpl negb. cbv iota.
  rewrite goto_next_at by assumption. rewrite bind_ret, Er.
  destruct (admon_content_facts rest) as (Ha1 & Ha2 & Ha3).
  destruct (admon_content rest) as [lines n]. simpl in Ha1, Ha2, Ha3.
  apply progress_bind.
  - apply parse_sub_returns; [auto|lia].
  - intros elems _. simpl. lia.
Qed.

Lemma progress_verbatim _at :
  _at < len -> progress len _at (_try_parse_verbatim is_decimal _lines _at).
Proof.
  intros H. unfold _try_parse_verbatim.
  pose proof (take_while_prefix (match_verbatim_line is_decimal) (skipn _at _lines)) as Hp.
  apply prefix_of_length in Hp. rewrite length_skipn in Hp. fold len in Hp.
  destruct (1 <=? _) eqn:E; [|reflexivity]. apply Nat.leb_le in E. simpl. lia.
Qed.

Lemma progress_p _at :
  _at < len -> progress len _at (_try_parse_p fuel _lines _at).
Proof.
  intros H. unfold _try_parse_p, _p_elem_from_text.
  pose proof (paragraph_lines_prefix (skipn _at _lines)) as Hp.
  destruct (1 <=? _) eqn:E; [|reflexivity]. apply Nat.leb_le in E.
  destruct (join_space_facts (paragraph_lines (skipn _at _lines))) as [Hj1 Hj2].
  pose proof (skipn_prefix_size _at _lines) as Hs.
  pose proof (prefix_of_size _ _ Hp) as Hps.
  destruct (scan_text_terminates fuel (join (u " ") (paragraph_lines (skipn _at _lines))) [])
    as [words Hw].
  - apply Hj2. apply (prefix_of_Forall _ _ _ Hp).
    rewrite <- (firstn_skipn _at _lines) in lines_ok. now apply Forall_app in lines_ok.
  - lia.
  - rewrite Hw. simpl. apply prefix_of_length in Hp.
    rewrite length_skipn in Hp. fold len in Hp. lia.
Qed.

(** The paragraph rule takes a line that is not blank, unless the line
    starts a bullet item or an ordered item written with a dot. *)
Lemma p_refused _at cur _at' :
  nth_error _lines _at = Some cur -> cur <> [] ->
  _try_parse_p fuel _lines _at = Ok (None, _at') ->
  match_bullet_line cur <> None \/ match_dot_item cur = true.
Proof.
  intros Hn Hne. unfold _try_parse_p.
  assert (Es : exists rest, skipn _at _lines = cur :: rest).
  { assert (Hlt : _at < length _lines) by (apply nth_error_Some; congruence).
    destruct (skipn_view _at _lines Hlt) as (c & r & E1 & E2 & _).
    rewrite Hn in E2. inversion E2; subst. eauto. }
  destruct Es as [rest ->]. simpl paragraph_lines.
  destruct cur as [|c cur']; [congruence|]. simpl is_empty. rewrite orb_false_l.
  destruct (match_bullet_line (c :: cur')) as [g|]; [intros _; left; discriminate|].
  rewrite orb_false_l.
  destruct (match_dot_item (c :: cur')); [intros _; now right|].
  simpl. destruct (_p_elem_from_text _ _); simpl; discriminate.
Qed.

(** *** One iteration of the loop of [_parse] *)

Lemma try_funcs_cons (f : rule Elem) fs _at :
  progress len _at (f _at) ->
  (f _at = Ok (None, _at) -> progress len _at (try_funcs fs _at)
                             /\ (forall p, try_funcs fs _at <> Ok (None, p))) ->
  progress len _at (try_funcs (f :: fs) _at)
  /\ (forall p, try_funcs (f :: fs) _at <> Ok (None, p)).
Proof.
  intros Hf Hrest. simpl.
  destruct (f _at) as [[[e|] p]| |]; simpl in *; try contradiction.
  - split; [assumption|discriminate].
  - subst p. now apply Hrest.
  - split; [exact I|discriminate].
Qed.

Lemma try_funcs_takes_line _at :
  _at < len -> nth _at _lines [] <> [] ->
  progress len _at (try_funcs (funcs is_decimal parse_sub fuel _lines) _at)
  /\ (forall p, try_funcs (funcs is_decimal parse_sub fuel _lines) _at <> Ok (None, p)).
Proof.
  intros H Hne. unfold funcs.
  destruct (cursor_view _at H) as (cur & rest & _ & Hn & Hnth & _).
  rewrite Hnth in Hne.
  apply try_funcs_cons; [now apply progress_heading|intros _].
  apply try_funcs_cons; [now apply progress_heading|intros _].
  apply try_funcs_cons;
    [apply progress_simple_list; [apply progress_ul_item|assumption|now rewrite Hnth]
    |intros Hul].
  apply try_funcs_cons;
    [apply progress_simple_list; [apply progress_ol_item|assumption|now rewrite Hnth]
    |intros Hol].
  apply try_funcs_cons; [apply progress_dl; [assumption|now rewrite Hnth]|intros _].
  apply try_funcs_cons; [now apply progress_pre_delim|intros _].
  apply try_funcs_cons; [now apply progress_pre_indented|intros _].
  apply try_funcs_cons; [now apply progress_hr|intros _].
  apply try_funcs_cons; [now apply progress_blockquote_delim|intros _].
  apply try_funcs_cons; [now apply progress_blockquote_prefixed|intros _].
  apply try_funcs_cons; [now apply progress_admon_box_delim|intros _].
  apply try_funcs_cons; [now apply progress_admon_box|intros _].
  apply try_funcs_cons; [now apply progress_verbatim|intros _].
  apply try_funcs_cons; [now apply progress_p|intros Hp].
  exfalso.
  apply simple_list_refused in Hul;
    [|apply progress_ul_item|assumption|now rewrite Hnth].
  apply simple_list_refused in Hol;
    [|apply progress_ol_item|assumption|now rewrite Hnth].
  destruct Hul as [p1 Hul]. destruct Hol as [p2 Hol].
  apply (ul_item_refused _ cur) in Hul; [|assumption].
  apply (ol_item_refused _ cur) in Hol; [|assumption].
  apply (p_refused _ cur) in Hp; [|assumption|assumption].
  destruct Hp as [Hb|Hd]; [congruence|].
  now apply (dot_item_is_ol_start is_decimal) in Hd.
Qed.

(** The loop of [_parse] returns or raises. *)
Lemma parse_returns_or_raises : forall k _at elems,
  _at <= len -> len - _at < k ->
  _parse is_decimal parse_sub fuel _lines k _at elems <> OutOfFuel.
Proof.
  induction k as [|k IH]; intros _at elems Hat Hk; [lia|].
  rewrite parse_S. cbv zeta.
  destruct (skip_empty_lines_facts _at Hat) as (Hs1 & Hs2 & Hs3 & _).
  unfold _is_done. fold len.
  destruct (Nat.leb_spec len (_skip_empty_lines _lines _at)) as [Hdone|Hmore];
    [discriminate|].
  destruct (try_funcs_takes_line _ Hmore (Hs3 Hmore)) as [Hprog Hsome].
  destruct (try_funcs _ _) as [[[e|] p]| |]; simpl in *; try contradiction.
  - apply IH; lia.
  - now specialize (Hsome p).
  - discriminate.
Qed.

End Progress.

End Cursor.

Section Termination.

Import Parser.

(** ** Termination of the parser *)

Lemma elems_returns_or_raises is_decimal : forall fuel lines,
  Forall line_ok lines -> size lines + 2 <= fuel ->
  elems is_decimal fuel lines <> OutOfFuel.
Proof.
  induction fuel as [|fuel IH]; intros lines Hok Hfuel; [lia|]. simpl.
  apply parse_returns_or_raises.
  - intros ls Hls Hsize. apply IH; [assumption|lia].
  - lia.
  - assumption.
  - lia.
  - pose proof (size_length lines). lia.
Qed.

Lemma splitlines_no_linebreak : forall n text,
  length text <= n -> Forall no_linebreak (splitlines text).
Proof.
  induction n as [|n IH]; intros [|c s] Hlen; simpl in Hlen; try lia;
    try (simpl; constructor).
  simpl. destruct (is_linebreak c) eqn:Ec.
  - destruct s as [|c' s'].
    + constructor; [reflexivity|constructor].
    + destruct ((c =? 13)%N && (c' =? 10)%N).
      * constructor; [reflexivity|]. apply IH. simpl in Hlen. lia.
      * constructor; [reflexivity|]. apply IH. lia.
  - specialize (IH s ltac:(lia)).
    destruct (splitlines s) as [|l ls].
    + constructor; [|constructor]. unfold no_linebreak. simpl. now rewrite Ec.
    + inversion IH; subst. constructor; [|assumption].
      unfold no_linebreak in *. simpl. now rewrite Ec.
Qed.

Lemma no_linebreak_line_ok l : no_linebreak l -> line_ok l.
Proof.
  unfold no_linebreak, line_ok. rewrite !forallb_forall. intros H c Hc.
  specialize (H c Hc). unfold is_dot. destruct (c =? 10)%N eqn:E; [|reflexivity].
  apply N.eqb_eq in E. subst c. discriminate.
Qed.

(** The lines of a text hold no line feed. *)
Lemma splitlines_line_ok text : Forall line_ok (splitlines text).
Proof.
  eapply Forall_impl; [apply no_linebreak_line_ok|].
  now apply (splitlines_no_linebreak (length text)).
Qed.

Lemma sound_returns_or_raises {A} (P : A -> Prop) (r : res A) :
  sound P r -> r <> OutOfFuel -> returns_or_raises r.
Proof. destruct r; simpl; auto. Qed.

(** C10: parsing terminates.  On lines without a line feed (the lines
    of any text are such lines) and with fuel above the size of the
    lines, the parser returns or raises an internal error, and does not
    run out of fuel.  Each iteration of its loop, standing at a line that
    is not blank, ends with a try-parse method that found an element
    and moved the cursor forward by a line at least, or with an internal
    error; no iteration leaves the cursor where it was.  The paragraph
    method takes every such line but one that starts a bullet item or
    an ordered item written with a dot, and such a line is taken by the
    unordered or the ordered list method when that method is tried
    there. *)
Theorem parsing_terminates (is_decimal : char -> bool) (lines : list str) (fuel : nat) :
  Forall line_ok lines -> size lines < fuel ->
  let parse_sub := elems is_decimal fuel in
  returns_or_raises (elems is_decimal (S fuel) lines)
  /\ (forall text, returns_or_raises
                     (elems is_decimal (size (splitlines text) + 2) (splitlines text)))
  /\ (forall _at cur,
        nth_error lines _at = Some cur -> cur <> [] ->
        consumes (length lines) _at (try_funcs (funcs is_decimal parse_sub fuel lines) _at)
        /\ (match_bullet_line cur = None -> match_dot_item cur = false ->
            consumes (length lines) _at (_try_parse_p fuel lines _at))
        /\ (match_bullet_line cur <> None ->
            consumes (length lines) _at (_try_parse_ul parse_sub fuel lines _at))
        /\ (match_dot_item cur = true ->
            consumes (length lines) _at
                     (_try_parse_ol is_decimal parse_sub fuel lines _at))).
Proof.
  intros Hok Hfuel parse_sub.
  assert (Hsub : forall ls, Forall line_ok ls -> size ls < size lines ->
                            parse_sub ls <> OutOfFuel).
  { intros ls Hls Hsize. apply elems_returns_or_raises; [assumption|lia]. }
  assert (Hsound : forall ls, sound tree_ok (parse_sub ls)) by (apply sound_elems).
  split; [|split].
  - eapply sound_returns_or_raises; [apply sound_elems|].
    apply elems_returns_or_raises; [assumption|lia].
  - intros text. eapply sound_returns_or_raises; [apply sound_elems|].
    apply elems_returns_or_raises; [apply splitlines_line_ok|lia].
  - intros _at cur Hn Hne.
    assert (Hlt : _at < length lines) by (apply nth_error_Some; congruence).
    assert (Hnth : nth _at lines [] <> []) by (now rewrite (nth_error_nth _ _ _ Hn)).
    assert (Hlift : forall (r : res (option Elem * nat)),
               progress (length lines) _at r ->
               sound (found_ok (fun e => no_empty_list e = true)) r ->
               (forall p, r <> Ok (None, p)) ->
               consumes (length lines) _at r).
    { intros [[[e|] p]| |] Hp Hs Hnone; simpl in *; auto. now specialize (Hnone p). }
    split; [|split; [|split]].
    + destruct (try_funcs_takes_line is_decimal parse_sub fuel lines Hsub Hfuel Hok
                  _at Hlt Hnth) as [Hp Hsome].
      apply Hlift; [assumption| |assumption].
      apply sound_try_funcs, sound_funcs, Hsound.
    + intros Hb Hd. apply Hlift.
      * now apply progress_p.
      * apply sound_p.
      * intros p Hp. eapply p_refused in Hp; [|exact Hn|assumption].
        destruct Hp; congruence.
    + intros Hb. unfold _try_parse_ul. apply Hlift.
      * apply progress_simple_list; auto.
        intros p Hp. eapply progress_ul_item; eauto.
      * apply sound_simple_list; [reflexivity|]. intros p. now apply sound_ul_item.
      * intros p Hp. apply simple_list_refused in Hp; auto.
        -- destruct Hp as [q Hq]. eapply ul_item_refused in Hq; [|exact Hn]. congruence.
        -- intros q Hq. eapply progress_ul_item; eauto.
    + intros Hd. unfold _try_parse_ol. apply Hlift.
      * apply progress_simple_list; auto.
        intros p Hp. eapply progress_ol_item; eauto.
      * apply sound_simple_list; [reflexivity|]. intros p. now apply sound_ol_item.
      * intros p Hp. apply simple_list_refused in Hp; auto.
        -- destruct Hp as [q Hq]. eapply ol_item_refused in Hq; [|exact Hn].
           now apply (dot_item_is_ol_start is_decimal) in Hd.
        -- intros q Hq. eapply progress_ol_item; eauto.
Qed.

Lemma parsing_terminates_witness :
  returns_or_raises (elems ascii_decimal 21 [u "* a"; u ". b"; u "c"]).
Proof.
  refine (proj1 (parsing_terminates ascii_decimal [u "* a"; u ". b"; u "c"] 20 _ _)).
  - repeat constructor.
  - vm_compute. lia.
Defined.

End Termination.

Section Widths.

Import Formatter.

(** ** The width of the lines of a paragraph *)

Lemma p_line_list_len_snoc (line : list str) (t : str) :
  _p_line_list_len (line ++ [t]) = (_p_line_list_len line + Z.of_nat (length t))%Z.
Proof. rewrite p_line_list_len_app. simpl. lia. Qed.

Lemma tokens_fit_step max lines word :
  Forall (tokens_fit max) (fst lines) /\ tokens_fit max (snd lines) ->
  Forall (tokens_fit max) (fst (wrap_word max lines word))
  /\ tokens_fit max (snd (wrap_word max lines word)).
Proof.
  destruct lines as [front cur]. simpl. intros [Hfront Hcur]. unfold wrap_word.
  destruct (length cur =? 0) eqn:E0; simpl.
  - apply Nat.eqb_eq in E0. destruct cur; [|discriminate]. simpl.
    split; [assumption|]. right. right. eauto.
  - destruct (_ >? _)%Z eqn:Efit; simpl.
    + split.
      * apply Forall_app. split; [assumption|]. now constructor.
      * right. right. eauto.
    + split; [assumption|]. right. left.
      rewrite p_line_list_len_snoc. unfold add_space. rewrite length_app. simpl.
      rewrite Z.gtb_ltb in Efit. apply Z.ltb_ge in Efit. lia.
Qed.

Lemma tokens_fit_wrap_words max words :
  Forall (tokens_fit max) (fst (wrap_words max words))
  /\ tokens_fit max (snd (wrap_words max words)).
Proof.
  unfold wrap_words.
  assert (H : forall lines,
             Forall (tokens_fit max) (fst lines) /\ tokens_fit max (snd lines) ->
             Forall (tokens_fit max) (fst (fold_left (wrap_word max) words lines))
             /\ tokens_fit max (snd (fold_left (wrap_word max) words lines))).
  { induction words as [|w words IH]; intros lines Hl; simpl; [assumption|].
    apply IH. now apply tokens_fit_step. }
  apply H. simpl. split; [constructor|now left].
Qed.

Lemma length_join_cons (w : str) (g : list str) :
  g <> [] -> length (join (u " ") (w :: g)) = length w + 1 + length (join (u " ") g).
Proof.
  destruct g as [|w' g]; [congruence|]. intros _.
  change (join (u " ") (w :: w' :: g)) with (w ++ u " " ++ join (u " ") (w' :: g)).
  rewrite !length_app. simpl. lia.
Qed.

Lemma p_len_words (g : list str) :
  g <> [] ->
  _p_line_list_len (map add_space g) = (Z.of_nat (length (join (u " ") g)) + 1)%Z.
Proof.
  induction g as [|w g IH]; [congruence|]. intros _.
  destruct g as [|w' g].
  - simpl. rewrite length_add_space. lia.
  - rewrite length_join_cons by discriminate.
    change (map add_space (w :: w' :: g)) with ([add_space w] ++ map add_space (w' :: g)).
    rewrite p_line_list_len_app, IH by discriminate.
    change (_p_line_list_len [add_space w]) with (Z.of_nat (length (add_space w)) + 0)%Z.
    rewrite length_add_space. lia.
Qed.

Lemma tokens_fit_words max (g : list str) :
  g <> [] -> tokens_fit max (map add_space g) -> fits_or_single max g.
Proof.
  intros Hne [Hnil|[Hfit|[t Ht]]].
  - destruct g; [congruence|discriminate Hnil].
  - left. rewrite p_len_words in Hfit by assumption. lia.
  - right. destruct g as [|w [|w' g]]; try discriminate Ht; eauto.
Qed.

Lemma length_join_app_le (a b : list str) :
  length (join (u " ") a) <= length (join (u " ") (a ++ b)).
Proof.
  induction a as [|w a IH]; simpl app; [simpl; lia|].
  destruct a as [|w' a].
  - destruct b as [|w' b]; [simpl; lia|].
    simpl app. rewrite (length_join_cons w (w' :: b)) by discriminate. simpl. lia.
  - simpl app in *.
    rewrite (length_join_cons w (w' :: a)), (length_join_cons w (w' :: a ++ b))
      by discriminate.
    lia.
Qed.

Lemma fits_or_single_group max g : fits_or_single max g -> group_fits max g.
Proof.
  intros [H|[w ->]]; [now left|].
  destruct (Z_le_gt_dec (Z.of_nat (length w)) max); [now left|right; eauto].
Qed.

(** After the correction every line of the paragraph fits, or holds a
    single word. *)
Lemma runt_corrected_fits max (wfront : list (list str)) (wcur : list str) :
  Forall (fits_or_single max) (wfront ++ [wcur]) ->
  Forall (fun g => g <> []) (runt_corrected max (wfront ++ [wcur])) ->
  Forall (fits_or_single max) (runt_corrected max (wfront ++ [wcur])).
Proof.
  intros Hfit Hne. revert Hne. unfold runt_corrected. rewrite unsnoc_snoc.
  destruct wcur as [|b [|b' wcur]]; try (intros _; assumption).
  destruct (unsnoc wfront) as [[earlier prev]|] eqn:Efront; [|intros _; assumption].
  destruct (unsnoc prev) as [[kept a]|] eqn:Eprev; [|intros _; assumption].
  destruct (_ <=? _)%Z eqn:Emerge; [|intros _; assumption].
  intros Hne.
  apply unsnoc_Some in Efront, Eprev. subst wfront prev.
  apply Forall_app in Hfit. destruct Hfit as [Hfit _].
  apply Forall_app in Hfit. destruct Hfit as [Hearlier Hprev].
  apply Forall_app in Hne. destruct Hne as [_ Hne].
  inversion Hne as [|? ? Hkept _]; subst.
  apply Forall_app. split; [assumption|].
  constructor; [|constructor; [|constructor]].
  - inversion Hprev as [|? ? [Hp|[w Hw]] _]; subst.
    + left. pose proof (length_join_app_le kept [a]). lia.
    + destruct kept as [|k [|k' kept]]; [congruence|discriminate|discriminate].
  - left. apply Z.leb_le in Emerge.
    change (join (u " ") [a; b]) with (a ++ u " " ++ b). exact Emerge.
Qed.

Lemma rstrip_snoc_space (s : str) : rstrip (s ++ u " ") = rstrip s.
Proof.
  unfold rstrip. rewrite rev_app_distr. reflexivity.
Qed.

Lemma line_of_words_join (g : list str) :
  g <> [] -> line_of_words g = join (u " ") g ++ u " ".
Proof.
  induction g as [|w g IH]; [congruence|]. intros _.
  destruct g as [|w' g]; [unfold line_of_words; simpl; now rewrite app_nil_r|].
  change (line_of_words (w :: w' :: g)) with (add_space w ++ line_of_words (w' :: g)).
  rewrite IH by discriminate.
  change (join (u " ") (w :: w' :: g)) with (w ++ u " " ++ join (u " ") (w' :: g)).
  unfold add_space. now rewrite <- !app_assoc.
Qed.

(** The lines of a paragraph, with the words they hold and what the
    lines are once stripped of the space behind their last word. *)
Lemma p_lines_groups (self : Self) (words : list str) :
  words <> [] ->
  exists groups,
    _p_lines self words = Ok (map line_of_words groups ++ [[]])
    /\ concat groups = words
    /\ Forall (fun g => g <> [] /\ group_fits (_max_line_len self) g) groups.
Proof.
  intros Hwords.
  destruct (p_lines_nonempty_words self words Hwords) as (wrapped & E & Hcat & Hall & Hp).
  exists (runt_corrected (_max_line_len self) wrapped).
  split; [exact Hp|]. split; [now rewrite runt_corrected_concat|].
  pose proof (tokens_fit_wrap_words (_max_line_len self) words) as [Hf Hc].
  destruct (wrap_words_words (_max_line_len self) words)
    as (wfront & wcur & E' & Hne & Hcat' & Hopen).
  rewrite E' in *. simpl in E, Hf, Hc.
  assert (wrapped = wfront ++ [wcur]) as ->.
  { change [map add_space wcur] with (map (map add_space) [wcur]) in E.
    rewrite <- (map_app (map add_space) wfront [wcur]) in E. symmetry in E.
    clear -E. revert wrapped E.
    generalize (wfront ++ [wcur]) as l.
    induction l as [|x l IH]; destruct wrapped as [|y wr]; simpl; intros E;
      try discriminate; [reflexivity|].
    inversion E as [[Hx Hl]]. apply map_add_space_inj in Hx. subst.
    f_equal. now apply IH. }
  assert (Hcur : wcur <> []).
  { eapply wrapped_last_nonempty; [|exact Hopen]. now rewrite Hcat'. }
  assert (Hfits : Forall (fits_or_single (_max_line_len self)) (wfront ++ [wcur])).
  { apply Forall_app. split.
    - clear -Hf Hne. induction wfront as [|g wfront IH]; [constructor|].
      inversion Hf; inversion Hne; subst. constructor; [|now apply IH].
      now apply tokens_fit_words.
    - constructor; [|constructor]. now apply tokens_fit_words. }
  pose proof (runt_corrected_fits _ _ _ Hfits Hall) as Hres.
  clear -Hall Hres.
  induction Hall as [|g gs Hg _ IH]; [constructor|].
  inversion Hres; subst. constructor; [|now apply IH].
  split; [assumption|now apply fits_or_single_group].
Qed.

(** ** The width of the lines of a tree *)

Lemma within_rstrip max l : within max l -> within max (rstrip l).
Proof. unfold within. pose proof (length_rstrip l). lia. Qed.

Lemma forallb_enum_nth {A} (f : nat -> A -> bool) (l : list A) : forall start,
  forallb_enum f start l = true ->
  forall i x, nth_error l i = Some x -> f (start + i) x = true.
Proof.
  induction l as [|y l IH]; intros start H i x Hx; [destruct i; discriminate|].
  simpl in H. apply andb_true_iff in H. destruct H as [Hy Hl].
  destruct i as [|i]; simpl in Hx.
  - inversion Hx; subst. now rewrite Nat.add_0_r.
  - replace (start + S i) with (S start + i) by lia. now apply (IH (S start)).
Qed.

Lemma concat_mapM_Forall {A} (f : A -> res (list str)) (Q : str -> Prop) (l : list A) :
  forall ls,
    (forall x r, In x l -> f x = Ok r -> Forall Q r) ->
    concat_mapM f l = Ok ls -> Forall Q ls.
Proof.
  induction l as [|x l IH]; intros ls Hf H; simpl in H.
  - inversion H. constructor.
  - apply bind_Ok in H. destruct H as (a & Ha & H).
    apply bind_Ok in H. destruct H as (b & Hb & H). inversion H; subst.
    apply Forall_app. split.
    + apply (Hf x); [now left|assumption].
    + apply IH; [|assumption]. intros y r Hy. apply Hf. now right.
Qed.

Lemma concat_mapM_enum_Forall {A} (f : nat -> A -> res (list str)) (Q : str -> Prop)
  (l : list A) : forall start ls,
    (forall i x r, nth_error l i = Some x -> f (start + i) x = Ok r -> Forall Q r) ->
    concat_mapM_enum f start l = Ok ls -> Forall Q ls.
Proof.
  induction l as [|x l IH]; intros start ls Hf H; simpl in H.
  - inversion H. constructor.
  - apply bind_Ok in H. destruct H as (a & Ha & H).
    apply bind_Ok in H. destruct H as (b & Hb & H). inversion H; subst.
    apply Forall_app. split.
    + apply (Hf 0 x); [reflexivity|now rewrite Nat.add_0_r].
    + apply (IH (S start)); [|assumption]. intros i y r Hy Hr.
      apply (Hf (S i) y); [assumption|]. now replace (start + S i) with (S start + i) by lia.
Qed.

Lemma filter_Forall {A} (Q : A -> Prop) p (l : list A) : Forall Q l -> Forall Q (filter p l).
Proof.
  induction 1 as [|x l Hx _ IH]; simpl; [constructor|].
  destruct (p x); [now constructor|assumption].
Qed.

Lemma compact_list_within {A} max (items : list A) ls :
  (0 <= max)%Z -> Forall (within max) ls -> Forall (within max) (_compact_list items ls).
Proof.
  intros Hmax H. unfold _compact_list. destruct (_ =? _); [|assumption].
  apply Forall_app. split; [now apply filter_Forall|].
  constructor; [|constructor]. unfold within. simpl. lia.
Qed.

(** A marker written over the indentation of a line keeps the line
    within the width. *)
Lemma marker_within max (marker line : str) :
  within max line -> (Z.of_nat (length marker) <= max)%Z ->
  within max (marker ++ skipn (length marker) line).
Proof.
  unfold within. intros Hl Hm. rewrite length_app, length_skipn. lia.
Qed.

Section TreeWidth.

Variable upper : str -> str.

Lemma p_within words : elem_within upper (_P words).
Proof.
  intros self ls Hfit H. simpl in Hfit, H.
  destruct words as [|w0 words]; [discriminate|].
  destruct (p_lines_groups self (w0 :: words) ltac:(discriminate))
    as (groups & Hp & Hcat & Hgroups).
  rewrite Hp in H. inversion H; subst ls. clear H.
  rewrite forallb_forall in Hfit.
  assert (Hmax : (0 <= _max_line_len self)%Z).
  { specialize (Hfit w0 (or_introl eq_refl)). apply Z.leb_le in Hfit. lia. }
  split; [assumption|].
  apply Forall_app. split; [|constructor; [unfold within; simpl; lia|constructor]].
  apply Forall_map. rewrite Forall_forall in *. intros g Hg.
  destruct (Hgroups g Hg) as [Hne Hgf].
  rewrite line_of_words_join by assumption. rewrite rstrip_snoc_space.
  apply within_rstrip. unfold within.
  destruct Hgf as [Hle|(w & -> & Hgt)]; [assumption|].
  assert (Hin : In w (w0 :: words)).
  { rewrite <- Hcat. apply in_concat. exists [w]. split; [assumption|now left]. }
  specialize (Hfit w Hin). apply Z.leb_le in Hfit. lia.
Qed.

(** The lines of a nested formatter are within its width, and one of
    them is not empty. *)
Lemma nested_within elems self ls :
  Forall (elem_within upper) elems ->
  forallb (fun e => words_fit e self) elems = true ->
  _Formatter upper elems self = Ok ls ->
  Forall (within (_max_line_len self)) ls /\ (1 <= _max_line_len self)%Z /\ ls <> [].
Proof.
  intros Hall Hfit H. unfold _Formatter, _elems_lines in H.
  apply bind_Ok in H. destruct H as (raw & Hraw & H).
  assert (Hrawok : Forall (fun l => within (_max_line_len self) (rstrip l)) raw).
  { eapply concat_mapM_Forall; [|exact Hraw]. intros e r He Hr.
    rewrite Forall_forall in Hall. rewrite forallb_forall in Hfit.
    now apply (Hall e He self r (Hfit e He)). }
  apply remove_trailing_Ok in H. destruct H as (k & front & l & E & -> & Hl).
  assert (Hin : Forall (within (_max_line_len self)) (front ++ [l])).
  { apply Forall_map in Hrawok. rewrite E in Hrawok. now apply Forall_app in Hrawok. }
  split; [assumption|]. split; [|destruct front; discriminate].
  apply Forall_app in Hin. destruct Hin as [_ Hin]. inversion Hin; subst.
  unfold within in *. destruct l; [congruence|]. simpl in *. lia.
Qed.

Section Nested.

Variable elems : list Elem.
Hypothesis elems_within : Forall (elem_within upper) elems.

Lemma indented_within self n ls :
  forallb (fun e => words_fit e (narrow self n)) elems = true ->
  _format_elems_indented (_Formatter upper) self elems n = Ok ls ->
  Forall (within (_max_line_len self)) ls
  /\ (Z.of_nat n + 1 <= _max_line_len self)%Z /\ ls <> [].
Proof.
  intros Hfit H. unfold _format_elems_indented, _format_elems in H.
  apply bind_Ok in H. destruct H as (inner & Hinner & H). inversion H; subst ls. clear H.
  destruct (nested_within elems (narrow self n) inner elems_within Hfit Hinner)
    as (Hw & Hmax & Hne).
  simpl in Hw, Hmax. split; [|split; [lia|destruct inner; [congruence|discriminate]]].
  apply Forall_map. eapply Forall_impl; [|exact Hw].
  intros l Hl. unfold within in *. cbv beta.
  destruct l as [|c l']; [simpl; lia|].
  change (Z.of_nat (length (repeat (ch " ") n ++ c :: l')) <= _max_line_len self)%Z.
  rewrite length_app, repeat_length. lia.
Qed.

Lemma first_line_within self n (marker : str) line0 rest r :
  length marker = n ->
  forallb (fun e => words_fit e (narrow self n)) elems = true ->
  _format_elems_indented (_Formatter upper) self elems n = Ok (line0 :: rest) ->
  (lines <- _remove_trailing_empty_lines ((marker ++ skipn n line0) :: rest) ;;
   Ok (lines ++ [[]])) = Ok r ->
  (0 <= _max_line_len self)%Z /\ Forall (within (_max_line_len self)) r.
Proof.
  intros Hm Hfit Hls H.
  destruct (indented_within self n _ Hfit Hls) as (Hw & Hmax & _).
  apply bind_Ok in H. destruct H as (lines & Hlines & H). inversion H; subst r. clear H.
  apply remove_trailing_prefix in Hlines.
  split; [lia|].
  apply Forall_app. split; [|constructor; [unfold within; simpl; lia|constructor]].
  apply (prefix_of_Forall _ _ _ Hlines).
  inversion Hw; subst. constructor; [|assumption].
  apply marker_within; [assumption|lia].
Qed.

Lemma ul_item_within self r :
  forallb (fun e => words_fit e (narrow self 2)) elems = true ->
  _ul_item_lines (_Formatter upper) self elems = Ok r ->
  (0 <= _max_line_len self)%Z /\ Forall (within (_max_line_len self)) r.
Proof.
  intros Hfit H. unfold _ul_item_lines in H.
  apply bind_Ok in H. destruct H as (ls & Hls & H).
  destruct ls as [|line0 rest]; [discriminate|].
  eapply (first_line_within self 2
            [nth (Z.to_nat (_cur_ul_level self mod 3)) (u "•‣⁃") 0%N; ch " "]);
    [reflexivity|exact Hfit|exact Hls|exact H].
Qed.

Lemma ol_item_within self items index r :
  forallb (fun e =>
             words_fit e (narrow self (length (_make_ol_item_num self items index) + 1)))
          elems = true ->
  _ol_item_lines (_Formatter upper) self items index elems = Ok r ->
  (0 <= _max_line_len self)%Z /\ Forall (within (_max_line_len self)) r.
Proof.
  intros Hfit H. unfold _ol_item_lines in H.
  apply bind_Ok in H. destruct H as (ls & Hls & H).
  destruct ls as [|line0 rest]; [discriminate|].
  rewrite app_assoc in H.
  eapply (first_line_within self _ (_make_ol_item_num self items index ++ u " "));
    [|exact Hfit|exact Hls|exact H].
  rewrite length_app. reflexivity.
Qed.

Lemma blockquote_within self r :
  forallb (fun e => words_fit e (narrow self 2)) elems = true ->
  _blockquote_lines (_Formatter upper) self elems = Ok r ->
  (0 <= _max_line_len self)%Z /\ Forall (within (_max_line_len self)) r.
Proof.
  intros Hfit H. unfold _blockquote_lines in H.
  apply bind_Ok in H. destruct H as (ls & Hls & H).
  apply bind_Ok in H. destruct H as (lines & Hlines & H). inversion H; subst r. clear H.
  destruct (indented_within self 2 ls Hfit Hls) as (Hw & Hmax & _).
  apply remove_trailing_prefix in Hlines.
  split; [lia|].
  apply Forall_app. split; [|constructor; [unfold within; simpl; lia|constructor]].
  apply Forall_map. apply (prefix_of_Forall _ _ _ Hlines) in Hw.
  eapply Forall_impl; [|exact Hw]. intros l Hl.
  apply (marker_within _ (u "> ")); [assumption|]. simpl. lia.
Qed.

Lemma fold_max_bound (ls : list str) :
  Forall (fun l => length l <= fold_right (fun line acc => Nat.max (length line) acc) 0 ls) ls
  /\ (forall m, Forall (fun l => length l <= m) ls ->
                fold_right (fun line acc => Nat.max (length line) acc) 0 ls <= m).
Proof.
  induction ls as [|l ls [IH1 IH2]]; simpl.
  - split; [constructor|intros; lia].
  - split.
    + constructor; [lia|]. eapply Forall_impl; [|exact IH1]. simpl. intros; lia.
    + intros m Hm. inversion Hm; subst. specialize (IH2 m ltac:(assumption)). lia.
Qed.

Lemma longest_len_bound ls n :
  longest_len ls = Ok n -> Forall (fun l => length l <= n) ls
  /\ (forall m, Forall (fun l => length l <= m) ls -> n <= m).
Proof.
  unfold longest_len. destruct ls as [|l0 ls0]; [discriminate|].
  intros H. injection H as H. rewrite <- H. exact (fold_max_bound (l0 :: ls0)).
Qed.

Lemma admon_box_within self r :
  forallb (fun e => words_fit e (narrow self 4)) elems = true ->
  _admon_box_lines (_Formatter upper) self elems = Ok r ->
  (0 <= _max_line_len self)%Z /\ Forall (within (_max_line_len self)) r.
Proof.
  intros Hfit H. unfold _admon_box_lines, _format_elems in H.
  apply bind_Ok in H. destruct H as (content & Hcontent & H).
  apply bind_Ok in H. destruct H as (n & Hn & H). inversion H; subst r. clear H.
  destruct (nested_within elems (narrow self 4) content elems_within Hfit Hcontent)
    as (Hw & Hmax & _).
  simpl in Hw, Hmax.
  destruct (longest_len_bound _ _ Hn) as [Hle Hleast].
  assert (Hnmax : (Z.of_nat n <= _max_line_len self - 4)%Z).
  { assert (Hm : n <= Z.to_nat (_max_line_len self - 4)).
    { apply Hleast. eapply Forall_impl; [|exact Hw]. unfold within. intros; lia. }
    lia. }
  split; [lia|].
  assert (Hcap : forall a b c d : char,
             within (_max_line_len self) (a :: b :: repeat (ch "─") n ++ [c; d])).
  { intros a b c d. unfold within. simpl. rewrite length_app, repeat_length. simpl. lia. }
  constructor; [apply Hcap|].
  apply Forall_app. split.
  - apply Forall_map. eapply Forall_impl; [|exact Hle]. intros l Hl. cbv beta in Hl.
    unfold within, ljust. cbn [length]. rewrite !length_app, repeat_length.
    replace (length (u " │")) with 2 by reflexivity. lia.
  - constructor; [apply Hcap|]. constructor; [unfold within; simpl; lia|constructor].
Qed.

End Nested.

Lemma elem_within_all : forall e, elem_within upper e.
Proof.
  induction e using Elem_nested_ind; try (intros self ls Hfit; discriminate Hfit).
  - apply p_within.
  - (* unordered list *)
    intros self ls Hfit Hls. rewrite elem_lines_Ul in Hls. unfold _ul_lines in Hls.
    apply bind_Ok in Hls. destruct Hls as (raw & Hraw & Hls). inversion Hls; subst ls.
    simpl in Hfit. apply andb_true_iff in Hfit. destruct Hfit as [Hne Hfit].
    rewrite forallb_forall in Hfit. rewrite Forall_forall in H.
    assert (Hmax : (0 <= _max_line_len self)%Z).
    { destruct items as [|item items]; [discriminate|]. simpl in Hraw.
      apply bind_Ok in Hraw. destruct Hraw as (a & Ha & _).
      apply (ul_item_within item (H item (or_introl eq_refl))) in Ha;
        [|apply Hfit; now left].
      apply Ha. }
    split; [assumption|].
    eapply Forall_impl; [intros l; apply within_rstrip|].
    apply compact_list_within; [assumption|].
    eapply concat_mapM_Forall; [|exact Hraw]. intros item r Hitem Hr.
    apply (ul_item_within item (H item Hitem)) in Hr; [|now apply Hfit].
    apply Hr.
  - (* ordered list *)
    intros self ls Hfit Hls. rewrite elem_lines_Ol in Hls. unfold _ol_lines in Hls.
    apply bind_Ok in Hls. destruct Hls as (raw & Hraw & Hls). inversion Hls; subst ls.
    simpl in Hfit. apply andb_true_iff in Hfit. destruct Hfit as [Hne Hfit].
    pose proof (forallb_enum_nth _ _ _ Hfit) as Hnth. simpl in Hnth.
    rewrite Forall_forall in H.
    assert (Hitem : forall i item r,
               nth_error items i = Some item ->
               _ol_item_lines (_Formatter upper) (incr_ol self) items i item = Ok r ->
               (0 <= _max_line_len self)%Z /\ Forall (within (_max_line_len self)) r).
    { intros i item r Hi Hr.
      apply (ol_item_within item (H item (nth_error_In _ _ Hi))) in Hr; [exact Hr|].
      now apply Hnth. }
    assert (Hmax : (0 <= _max_line_len self)%Z).
    { destruct items as [|item items']; [discriminate|]. simpl in Hraw.
      apply bind_Ok in Hraw. destruct Hraw as (a & Ha & _).
      now apply (Hitem 0 item a eq_refl) in Ha. }
    split; [assumption|].
    eapply Forall_impl; [intros l; apply within_rstrip|].
    apply compact_list_within; [assumption|].
    eapply concat_mapM_enum_Forall; [|exact Hraw]. intros i item r Hi Hr.
    now apply (Hitem i item r Hi) in Hr.
  - (* admonition box *)
    intros self ls Hfit Hls. rewrite elem_lines_AdmonBox in Hls.
    apply (admon_box_within elems H) in Hls; [|exact Hfit].
    destruct Hls as [Hmax Hls]. split; [assumption|].
    eapply Forall_impl; [intros l; apply within_rstrip|exact Hls].
  - (* blockquote *)
    intros self ls Hfit Hls. rewrite elem_lines_Blockquote in Hls.
    apply (blockquote_within elems H) in Hls; [|exact Hfit].
    destruct Hls as [Hmax Hls]. split; [assumption|].
    eapply Forall_impl; [intros l; apply within_rstrip|exact Hls].
Qed.

(** The lines of a tree whose words fit are within the width. *)
Lemma lines_within elems max_line_len ls :
  forallb (fun e => words_fit e (mkSelf max_line_len (-1) (-1))) elems = true ->
  lines upper elems max_line_len = Ok ls ->
  Forall (within max_line_len) ls.
Proof.
  intros Hfit H. unfold lines in H.
  apply (nested_within elems (mkSelf max_line_len (-1) (-1)) ls); [|assumption|assumption].
  apply Forall_forall. intros e _. apply elem_within_all.
Qed.

End TreeWidth.

End Widths.

Section WidthBound.

Import Formatter.




End WidthBound.

Section Idempotence.

Import Parser.

(** * Formatting a plain paragraph twice *)

(** ** Letters and digits *)

Lemma plain_char_cases (c : char) :
  plain_char c = true ->
  (48 <= c <= 57 \/ 65 <= c <= 90 \/ 97 <= c <= 122)%N.
Proof.
  unfold plain_char. rewrite !orb_true_iff, !andb_true_iff, !N.leb_le. tauto.
Qed.

(** Replaces the literals of the goal by their code points. *)
Ltac literals :=
  repeat match goal with
         | |- context [u ?s] => let v := eval vm_compute in (u s) in change (u s) with v
         | |- context [ch ?s] => let v := eval vm_compute in (ch s) in change (ch s) with v
         end.

(** Decides the comparisons of a letter or digit [c] with code points
    that are none. *)
Ltac differs c :=
  repeat match goal with
         | |- context [N.eqb c ?k] =>
             replace (N.eqb c k) with false by (symmetry; apply N.eqb_neq; lia)
         | |- context [N.eqb ?k c] =>
             replace (N.eqb k c) with false by (symmetry; apply N.eqb_neq; lia)
         | |- context [N.leb c ?k] =>
             first [ replace (N.leb c k) with false by (symmetry; apply N.leb_gt; lia)
                   | replace (N.leb c k) with true by (symmetry; apply N.leb_le; lia) ]
         | |- context [N.leb ?k c] =>
             first [ replace (N.leb k c) with false by (symmetry; apply N.leb_gt; lia)
                   | replace (N.leb k c) with true by (symmetry; apply N.leb_le; lia) ]
         end.

Lemma plain_not_space c : plain_char c = true -> is_space c = false.
Proof.
  intros H. apply plain_char_cases in H. unfold is_space.
  destruct H as [H|[H|H]]; differs c; reflexivity.
Qed.

Lemma plain_is_dot c : plain_char c = true -> is_dot c = true.
Proof.
  intros H. apply plain_char_cases in H. unfold is_dot.
  destruct H as [H|[H|H]]; differs c; reflexivity.
Qed.

Lemma plain_not_linebreak c : plain_char c = true -> is_linebreak c = false.
Proof.
  intros H. apply plain_char_cases in H. unfold is_linebreak.
  destruct H as [H|[H|H]]; differs c; reflexivity.
Qed.

Lemma plain_not_in (chars : str) c :
  plain_char c = true -> forallb (fun k => negb (plain_char k)) chars = true ->
  char_in chars c = false.
Proof.
  intros Hc. unfold char_in. induction chars as [|k chars IH]; simpl; [reflexivity|].
  rewrite andb_true_iff. intros [Hk Hrest]. rewrite (IH Hrest), orb_false_r.
  unfold char_eqb. apply N.eqb_neq. intros ->. rewrite Hc in Hk. discriminate.
Qed.

Lemma plain_differs c k :
  plain_char c = true -> plain_char k = false -> char_eqb c k = false.
Proof.
  intros Hc Hk. unfold char_eqb. apply N.eqb_neq. intros ->. congruence.
Qed.

Lemma plain_differs_sym c k :
  plain_char c = true -> plain_char k = false -> char_eqb k c = false.
Proof.
  intros Hc Hk. unfold char_eqb. apply N.eqb_neq. intros ->. congruence.
Qed.

Lemma tame_inv (l : str) :
  tame l = true -> exists c rest, l = c :: rest /\ plain_char c = true /\ mild rest = true.
Proof.
  destruct l as [|c rest]; [discriminate|]. simpl. rewrite andb_true_iff.
  intros [Hc Hrest]. now exists c, rest.
Qed.

Lemma mild_cons c s : mild (c :: s) = (plain_char c || char_eqb c (ch " ")) && mild s.
Proof. reflexivity. Qed.

Lemma mild_app a b : mild (a ++ b) = mild a && mild b.
Proof. apply forallb_app. Qed.

Lemma plain_mild w : forallb plain_char w = true -> mild w = true.
Proof.
  unfold mild. rewrite !forallb_forall. intros H x Hx. now rewrite (H x Hx).
Qed.

Lemma tame_mild l : tame l = true -> mild l = true.
Proof.
  intros H. destruct (tame_inv l H) as (c & rest & -> & Hc & Hrest).
  now rewrite mild_cons, Hc, Hrest.
Qed.

(** The first character of a string of letters, digits and spaces is
    none of the characters the patterns start with. *)
Lemma mild_head_cases c :
  plain_char c || char_eqb c (ch " ") = true ->
  (c = 32 \/ 48 <= c <= 57 \/ 65 <= c <= 90 \/ 97 <= c <= 122)%N.
Proof.
  rewrite orb_true_iff. intros [H|H].
  - apply plain_char_cases in H. tauto.
  - left. now apply N.eqb_eq in H.
Qed.

Lemma mild_drop_while p s : mild s = true -> mild (drop_while p s) = true.
Proof.
  induction s as [|c s IH]; intros H; cbn [drop_while]; [reflexivity|].
  destruct (p c); [|exact H]. apply IH. rewrite mild_cons in H.
  now apply andb_true_iff in H.
Qed.

Lemma mild_no_dot_prefix k (p s : str) :
  plain_char k = false -> char_eqb k (ch " ") = false -> mild s = true ->
  strip_prefix (k :: p) s = None.
Proof.
  intros Hk Hsp Hs. destruct s as [|c s]; [reflexivity|]. cbn [strip_prefix].
  rewrite mild_cons in Hs. apply andb_true_iff in Hs. destruct Hs as [Hc _].
  destruct (char_eqb k c) eqn:E; [|reflexivity].
  apply N.eqb_eq in E. subst c. now rewrite Hk, Hsp in Hc.
Qed.

Lemma mild_last s front last :
  mild s = true -> unsnoc s = Some (front, last) ->
  plain_char last || char_eqb last (ch " ") = true.
Proof.
  intros Hs H. apply unsnoc_Some in H. subst s. rewrite mild_app in Hs.
  apply andb_true_iff in Hs. destruct Hs as [_ Hs]. rewrite mild_cons in Hs.
  now apply andb_true_iff in Hs.
Qed.

(** ** What the patterns of the other elements refuse *)

Section TameLine.

Variable c : char.
Variable rest : str.
Hypothesis c_plain : plain_char c = true.
Hypothesis rest_mild : mild rest = true.

(** Settles a test on the first character [c] of the line. *)
Ltac by_head :=
  literals; unfold char_in; cbn [strip_prefix app existsb str_eqb]; unfold char_eqb;
  destruct (plain_char_cases c c_plain) as [?|[?|?]]; differs c; reflexivity.

Lemma tame_not_heading prefix :
  prefix = u "=" \/ prefix = u "==" -> match_heading_prefix prefix (c :: rest) = None.
Proof. unfold match_heading_prefix. intros [->| ->]; by_head. Qed.

Lemma tame_not_underline k : plain_char k = false -> match_underline k (c :: rest) = false.
Proof.
  intros Hk. unfold match_underline. now rewrite (plain_differs c k c_plain Hk).
Qed.

Lemma tame_not_bullet : match_bullet_line (c :: rest) = None.
Proof. unfold match_bullet_line. destruct rest; [reflexivity|]. by_head. Qed.

Lemma tame_not_dot_item : match_dot_item (c :: rest) = false.
Proof. unfold match_dot_item. by_head. Qed.

Lemma tame_not_ol_dotted : ol_dotted (c :: rest) = None.
Proof. unfold ol_dotted. by_head. Qed.

Lemma tame_not_ol_lettered : ol_lettered (c :: rest) = None.
Proof.
  unfold ol_lettered. destruct (_ && _); [|reflexivity].
  literals. now rewrite mild_no_dot_prefix.
Qed.

Lemma tame_not_ol_numbered is_decimal : ol_numbered is_decimal (c :: rest) = None.
Proof.
  unfold ol_numbered. cbv zeta. destruct (is_empty _); [reflexivity|].
  literals. rewrite mild_no_dot_prefix; try reflexivity.
  apply mild_drop_while, mild_drop_while. now rewrite mild_cons, c_plain, rest_mild.
Qed.

Lemma tame_not_ol_item is_decimal : match_ol_item_start is_decimal (c :: rest) = None.
Proof.
  unfold match_ol_item_start.
  now rewrite tame_not_ol_numbered, tame_not_ol_dotted, tame_not_ol_lettered.
Qed.

Lemma mild_no_dt_split : forall s, mild s = true -> dt_split s = None.
Proof.
  induction s as [|x s IH]; intros Hs; [reflexivity|]. cbn [dt_split].
  destruct (is_dot x); [|reflexivity].
  rewrite IH by (rewrite mild_cons in Hs; now apply andb_true_iff in Hs).
  unfold dt_here. literals. now rewrite mild_no_dot_prefix.
Qed.

Lemma tame_not_single_line_dt : match_single_line_dt (c :: rest) = None.
Proof.
  unfold match_single_line_dt. rewrite (plain_not_space c c_plain).
  now rewrite mild_no_dt_split.
Qed.

Lemma tame_chomp : chomp (c :: rest) = c :: rest.
Proof.
  unfold chomp. destruct (unsnoc (c :: rest)) as [[front last]|] eqn:E; [|reflexivity].
  apply mild_last in E; [|now rewrite mild_cons, c_plain, rest_mild].
  apply mild_head_cases in E.
  destruct (N.eqb_spec last 10); [lia|reflexivity].
Qed.

Lemma tame_not_dt : match_dt (c :: rest) = None.
Proof.
  unfold match_dt. rewrite tame_chomp, (plain_not_space c c_plain).
  destruct (unsnoc rest) as [[mid last]|] eqn:E; [|reflexivity].
  apply mild_last in E; [|assumption]. apply mild_head_cases in E.
  replace (char_eqb last (ch ":")) with false; [reflexivity|].
  symmetry. literals. apply N.eqb_neq. lia.
Qed.

Lemma tame_not_literal (delim : str) :
  delim = u "```" \/ delim = u ">>>" \/ delim = u "!!!" \/ delim = u "***" \/ delim = u ">" ->
  str_eqb (c :: rest) delim = false.
Proof. intros [->|[->|[->|[->| ->]]]]; by_head. Qed.

Lemma tame_not_indented_text : match_indented_text (c :: rest) = false.
Proof. unfold match_indented_text. by_head. Qed.

Lemma tame_not_hr_rule : match_hr_rule (c :: rest) = false.
Proof.
  unfold match_hr_rule. rewrite tame_chomp. cbn [forallb].
  replace (char_eqb c (ch "┄")) with false; [now rewrite andb_false_r|].
  symmetry. by_head.
Qed.

Lemma tame_not_quoted : strip_prefix (u "> ") (c :: rest) = None.
Proof. by_head. Qed.

Lemma tame_not_box : startswith (c :: rest) (u "┌") = false.
Proof. unfold startswith. by_head. Qed.

Lemma tame_not_verbatim is_decimal : match_verbatim_line is_decimal (c :: rest) = false.
Proof.
  unfold match_verbatim_line. cbv zeta. apply orb_false_iff. split.
  - cbn [drop_while]. replace (char_eqb c (ch " ")) with false by (symmetry; by_head).
    replace (char_eqb c (ch "[")) with false by (symmetry; by_head). reflexivity.
  - destruct rest; [reflexivity|].
    replace (char_in verbatim_chars c) with false; [reflexivity|].
    symmetry. apply plain_not_in; [assumption|]. vm_compute. reflexivity.
Qed.

End TameLine.

(** ** The words of a line of plain words *)

Lemma plain_word_inv w :
  plain_word w = true ->
  exists c w', w = c :: w' /\ plain_char c = true /\ forallb plain_char w' = true.
Proof.
  unfold plain_word. destruct w as [|c w']; [discriminate|]. simpl.
  rewrite andb_true_iff. intros [Hc Hw]. now exists c, w'.
Qed.

Lemma join_tail_text (w : str) (ws : list str) : join (u " ") (w :: ws) = w ++ tail_text ws.
Proof.
  revert w. induction ws as [|w' ws IH]; intros w.
  - simpl. now rewrite app_nil_r.
  - change (join (u " ") (w :: w' :: ws)) with (w ++ u " " ++ join (u " ") (w' :: ws)).
    rewrite IH. reflexivity.
Qed.

Lemma tail_text_cases ws : tail_text ws = [] \/ exists r, tail_text ws = ch " " :: r.
Proof. destruct ws as [|w ws]; [now left|right]. now exists (w ++ tail_text ws). Qed.

Lemma tail_text_app a b : tail_text (a ++ b) = tail_text a ++ tail_text b.
Proof. unfold tail_text. now rewrite map_app, concat_app. Qed.

Lemma mild_tail_text ws : forallb plain_word ws = true -> mild (tail_text ws) = true.
Proof.
  induction ws as [|w ws IH]; [reflexivity|]. cbn [forallb]. rewrite andb_true_iff.
  intros [Hw Hws]. change (tail_text (w :: ws)) with ((ch " " :: w) ++ tail_text ws).
  rewrite mild_app, IH, andb_true_r by assumption. rewrite mild_cons.
  destruct (plain_word_inv w Hw) as (c & w' & -> & Hc & Hw').
  apply plain_mild. cbn [forallb]. now rewrite Hc, Hw'.
Qed.

Lemma tame_join (w : str) (ws : list str) :
  forallb plain_word (w :: ws) = true -> tame (join (u " ") (w :: ws)) = true.
Proof.
  cbn [forallb]. rewrite andb_true_iff. intros [Hw Hws]. rewrite join_tail_text.
  destruct (plain_word_inv w Hw) as (c & w' & -> & Hc & Hw').
  cbn [app tame]. rewrite Hc, mild_app, (plain_mild w' Hw'), (mild_tail_text ws Hws).
  reflexivity.
Qed.

Lemma match_literal_mild c s :
  plain_char c || char_eqb c (ch " ") = true -> match_literal (c :: s) = None.
Proof.
  intros H. apply mild_head_cases in H. unfold match_literal.
  replace (char_in (u "([{") c) with false.
  - replace (char_eqb c (ch "`")) with false; [reflexivity|].
    symmetry. literals. apply N.eqb_neq. lia.
  - symmetry. literals. unfold char_in. cbn [existsb]. unfold char_eqb.
    destruct H as [H|[H|[H|H]]]; differs c; reflexivity.
Qed.

Lemma lookahead_plain c s : plain_char c = true -> word_lookahead (c :: s) = false.
Proof.
  intros H. unfold word_lookahead. literals. unfold char_in. cbn [existsb].
  unfold char_eqb. destruct (plain_char_cases c H) as [?|[?|?]]; differs c; reflexivity.
Qed.

Lemma match_word_plain : forall (w rest : str),
  forallb plain_char w = true -> w <> [] ->
  (rest = [] \/ exists r, rest = ch " " :: r) ->
  match_word (w ++ rest) = Some (w, rest).
Proof.
  induction w as [|c w IH]; intros rest Hw Hne Hrest; [congruence|].
  cbn [forallb] in Hw. apply andb_true_iff in Hw. destruct Hw as [Hc Hw].
  cbn [app match_word]. rewrite (plain_is_dot c Hc).
  destruct w as [|c' w'].
  - cbn [app]. destruct Hrest as [->|[r ->]]; reflexivity.
  - cbn [forallb] in Hw. pose proof Hw as Hw0. apply andb_true_iff in Hw. destruct Hw as [Hc' _].
    cbn [app]. rewrite (lookahead_plain c' _ Hc').
    change (c' :: w' ++ rest) with ((c' :: w') ++ rest).
    rewrite IH; [reflexivity|assumption|discriminate|assumption].
Qed.

Lemma match_word_spaced (w rest : str) :
  plain_word w = true ->
  (rest = [] \/ exists r, rest = ch " " :: r) ->
  match_word (ch " " :: w ++ rest) = Some (ch " " :: w, rest).
Proof.
  intros Hw Hrest. destruct (plain_word_inv w Hw) as (c & w' & -> & Hc & Hw').
  cbn [match_word]. change (is_dot (ch " ")) with true. cbv iota.
  cbn [app]. rewrite (lookahead_plain c _ Hc).
  change (c :: w' ++ rest) with ((c :: w') ++ rest).
  rewrite match_word_plain; [reflexivity| |discriminate|assumption].
  cbn [forallb]. now rewrite Hc, Hw'.
Qed.

Lemma rstrip_keeps (s : str) (x : char) : is_space x = false -> rstrip (s ++ [x]) = s ++ [x].
Proof.
  intros H. unfold rstrip. rewrite rev_app_distr. cbn [rev app drop_while]. rewrite H.
  change (x :: rev s) with (rev [x] ++ rev s). now rewrite <- rev_app_distr, rev_involutive.
Qed.

Lemma rstrip_plain_end (s w : str) : plain_word w = true -> rstrip (s ++ w) = s ++ w.
Proof.
  intros Hw. destruct (plain_word_inv w Hw) as (c & w' & -> & Hc & Hw').
  destruct (unsnoc (c :: w')) as [[front last]|] eqn:E.
  - pose proof (mild_last (c :: w') front last) as Hl.
    apply unsnoc_Some in E. rewrite E, app_assoc. apply rstrip_keeps.
    assert (Hin : In last (c :: w')) by (rewrite E; apply in_or_app; right; now left).
    apply plain_not_space. destruct Hin as [<-|Hin]; [assumption|].
    rewrite forallb_forall in Hw'. now apply Hw'.
  - apply unsnoc_None in E. discriminate.
Qed.

Lemma strip_plain (w : str) : plain_word w = true -> strip w = w.
Proof.
  intros Hw. unfold strip. pose proof (rstrip_plain_end [] w Hw) as E.
  cbn [app] in E. rewrite E.
  destruct (plain_word_inv w Hw) as (c & w' & -> & Hc & _).
  unfold lstrip. cbn [drop_while]. now rewrite (plain_not_space c Hc).
Qed.

Lemma strip_spaced (w : str) : plain_word w = true -> strip (ch " " :: w) = w.
Proof.
  intros Hw. unfold strip. pose proof (rstrip_plain_end [ch " "] w Hw) as E.
  cbn [app] in E. rewrite E.
  destruct (plain_word_inv w Hw) as (c & w' & -> & Hc & _).
  unfold lstrip. cbn [app drop_while]. change (is_space (ch " ")) with true. cbv iota.
  now rewrite (plain_not_space c Hc).
Qed.

Lemma scan_tail_text : forall (ws : list str) (fuel : nat) (acc : list str),
  forallb plain_word ws = true -> length ws < fuel ->
  scan_text fuel (tail_text ws) acc = Ok (acc ++ ws).
Proof.
  induction ws as [|w ws IH]; intros fuel acc Hws Hfuel.
  - destruct fuel; [simpl in Hfuel; lia|]. simpl. now rewrite app_nil_r.
  - destruct fuel as [|fuel]; [simpl in Hfuel; lia|].
    cbn [forallb] in Hws. apply andb_true_iff in Hws. destruct Hws as [Hw Hws].
    change (tail_text (w :: ws)) with (ch " " :: w ++ tail_text ws).
    cbn [scan_text]. rewrite match_literal_mild by reflexivity.
    rewrite (match_word_spaced w _ Hw (tail_text_cases ws)).
    rewrite (strip_spaced w Hw).
    destruct (plain_word_inv w Hw) as (c & w' & -> & _ & _).
    change (1 <=? length (c :: w')) with true. cbv iota.
    rewrite IH; [|assumption|simpl in Hfuel; lia].
    now rewrite <- app_assoc.
Qed.

Lemma scan_plain_words (w : str) (ws : list str) (fuel : nat) :
  forallb plain_word (w :: ws) = true -> length (w :: ws) < fuel ->
  scan_text fuel (join (u " ") (w :: ws)) [] = Ok (w :: ws).
Proof.
  intros Hws Hfuel. rewrite join_tail_text.
  destruct fuel as [|fuel]; [simpl in Hfuel; lia|].
  cbn [forallb] in Hws. apply andb_true_iff in Hws. destruct Hws as [Hw Hws].
  pose proof (match_word_plain w (tail_text ws)) as Hword.
  pose proof (strip_plain w Hw) as Hstrip.
  destruct (plain_word_inv w Hw) as (c & w' & -> & Hc & Hw').
  cbn [app scan_text]. rewrite match_literal_mild by now rewrite Hc.
  change (c :: w' ++ tail_text ws) with ((c :: w') ++ tail_text ws).
  rewrite Hword; [|cbn [forallb]; now rewrite Hc, Hw'|discriminate|apply tail_text_cases].
  rewrite Hstrip. change (1 <=? length (c :: w')) with true. cbv iota.
  rewrite scan_tail_text; [reflexivity|assumption|simpl in Hfuel; lia].
Qed.

(** ** The parser on lines of plain words *)

Lemma paragraph_lines_tame (ls : list str) :
  Forall (fun l => tame l = true) ls -> paragraph_lines ls = ls.
Proof.
  induction 1 as [|l ls Hl _ IH]; [reflexivity|].
  destruct (tame_inv l Hl) as (c & rest & -> & Hc & Hrest).
  cbn [paragraph_lines is_empty]. rewrite tame_not_bullet by assumption.
  rewrite tame_not_dot_item by assumption. cbn [orb]. now rewrite IH.
Qed.

Section PlainParagraph.

Variable is_decimal : char -> bool.
Variable parse_sub : list str -> res (list Elem).
Variable k : nat.
Variable c : char.
Variable rest : str.
Variable more : list str.

Hypothesis c_plain : plain_char c = true.
Hypothesis rest_mild : mild rest = true.
Hypothesis more_tame : Forall (fun l => tame l = true) more.

Let fuel : nat := S k.
Let _lines : list str := (c :: rest) :: more.

Lemma next_line_tame k' : match_underline k' (_next_line _lines 0) = false \/ plain_char k' = true.
Proof.
  destruct (plain_char k') eqn:Hk; [now right|left].
  unfold _next_line, _lines. cbn [nth].
  destruct more_tame as [|l ls Hl _]; [reflexivity|].
  destruct (tame_inv l Hl) as (c' & rest' & -> & Hc' & _).
  now apply tame_not_underline.
Qed.

Lemma heading_refuses mk prefix k' :
  prefix = u "=" \/ prefix = u "==" -> plain_char k' = false ->
  _try_parse_heading _lines mk prefix k' 0 = Ok (None, 0).
Proof.
  intros Hp Hk. unfold _try_parse_heading, _cur_line, _lines. cbn [nth_error bind].
  rewrite (tame_not_heading c rest c_plain prefix Hp).
  destruct (next_line_tame k') as [E|E]; [|congruence].
  fold _lines. now rewrite E.
Qed.

Lemma item_loop_refuses {T} (f : rule T) :
  f 0 = Ok (None, 0) -> item_loop _lines f fuel 0 [] = Ok ([], 0).
Proof.
  intros Hf. unfold fuel. cbn [item_loop].
  change (_skip_empty_lines _lines 0) with 0. change (_is_done _lines 0) with false.
  cbv iota. now rewrite Hf.
Qed.

Lemma ul_refuses : _try_parse_ul parse_sub fuel _lines 0 = Ok (None, 0).
Proof.
  unfold _try_parse_ul, _try_parse_simple_list. rewrite item_loop_refuses; [reflexivity|].
  unfold _try_parse_ul_item, _cur_line, _lines. cbn [nth_error bind].
  now rewrite tame_not_bullet by assumption.
Qed.

Lemma ol_refuses : _try_parse_ol is_decimal parse_sub fuel _lines 0 = Ok (None, 0).
Proof.
  unfold _try_parse_ol, _try_parse_simple_list. rewrite item_loop_refuses; [reflexivity|].
  unfold _try_parse_ol_item, _cur_line, _lines. cbn [nth_error bind].
  now rewrite tame_not_ol_item by assumption.
Qed.

Lemma dl_refuses : _try_parse_dl parse_sub fuel _lines 0 = Ok (None, 0).
Proof.
  unfold _try_parse_dl. rewrite item_loop_refuses; [reflexivity|].
  unfold _try_parse_dl_item, _try_parse_single_line_dl_item, _cur_line, _lines.
  cbn [nth_error bind]. rewrite tame_not_single_line_dt by assumption.
  cbn [bind skipn take_terms]. now rewrite tame_not_dt by assumption.
Qed.

Lemma delim_block_refuses delim :
  delim = u "```" \/ delim = u ">>>" \/ delim = u "!!!" ->
  _try_parse_delim_block _lines delim 0 = Ok (None, 0).
Proof.
  intros Hd. unfold _try_parse_delim_block, _cur_line, _lines. cbn [nth_error bind].
  rewrite (tame_not_literal c rest c_plain delim); [reflexivity|tauto].
Qed.

Lemma pre_indented_refuses : _try_parse_pre_indented _lines 0 = Ok (None, 0).
Proof.
  unfold _try_parse_pre_indented, _cur_line, _lines. cbn [nth_error bind].
  now rewrite tame_not_indented_text by assumption.
Qed.

Lemma hr_refuses : _try_parse_hr _lines 0 = Ok (None, 0).
Proof.
  unfold _try_parse_hr, _cur_line, _lines. cbn [nth_error bind].
  rewrite (tame_not_literal c rest) by (tauto || assumption).
  now rewrite tame_not_hr_rule by assumption.
Qed.

Lemma blockquote_prefixed_refuses :
  _try_parse_blockquote_prefixed parse_sub _lines 0 = Ok (None, 0).
Proof.
  unfold _try_parse_blockquote_prefixed, _lines. cbn [skipn quoted_lines].
  rewrite (tame_not_literal c rest) by (tauto || assumption).
  now rewrite tame_not_quoted by assumption.
Qed.

Lemma admon_box_refuses : _try_parse_admon_box parse_sub _lines 0 = Ok (None, 0).
Proof.
  unfold _try_parse_admon_box, _cur_line, _lines. cbn [nth_error bind].
  now rewrite tame_not_box by assumption.
Qed.

Lemma verbatim_refuses : _try_parse_verbatim is_decimal _lines 0 = Ok (None, 0).
Proof.
  unfold _try_parse_verbatim, _lines. cbn [skipn take_while].
  now rewrite tame_not_verbatim by assumption.
Qed.

Lemma try_funcs_skip (f : rule Elem) fs :
  f 0 = Ok (None, 0) -> try_funcs (f :: fs) 0 = try_funcs fs 0.
Proof. intros H. cbn [try_funcs]. now rewrite H. Qed.

(** An iteration of [_parse] at the first line ends in [_try_parse_p]. *)
Lemma try_funcs_paragraph :
  try_funcs (funcs is_decimal parse_sub fuel _lines) 0 = _try_parse_p fuel _lines 0.
Proof.
  unfold funcs.
  rewrite try_funcs_skip by (apply heading_refuses; [tauto|reflexivity]).
  rewrite try_funcs_skip by (apply heading_refuses; [tauto|reflexivity]).
  rewrite try_funcs_skip by apply ul_refuses.
  rewrite try_funcs_skip by apply ol_refuses.
  rewrite try_funcs_skip by apply dl_refuses.
  rewrite try_funcs_skip
    by (unfold _try_parse_pre_delim; now rewrite delim_block_refuses by tauto).
  rewrite try_funcs_skip by apply pre_indented_refuses.
  rewrite try_funcs_skip by apply hr_refuses.
  rewrite try_funcs_skip
    by (unfold _try_parse_blockquote_delim; now rewrite delim_block_refuses by tauto).
  rewrite try_funcs_skip by apply blockquote_prefixed_refuses.
  rewrite try_funcs_skip
    by (unfold _try_parse_admon_box_delim; now rewrite delim_block_refuses by tauto).
  rewrite try_funcs_skip by apply admon_box_refuses.
  rewrite try_funcs_skip by apply verbatim_refuses.
  cbn [try_funcs].
  destruct (_try_parse_p fuel _lines 0) as [[[e|] p]| |]; reflexivity.
Qed.

End PlainParagraph.

(** ** Lines of groups of words *)

Lemma join_app (sep : str) (a b : list str) :
  a <> [] -> b <> [] -> join sep (a ++ b) = join sep a ++ sep ++ join sep b.
Proof.
  intros Ha Hb. induction a as [|x a IH]; [congruence|].
  destruct a as [|x' a'].
  - destruct b as [|y b']; [congruence|]. reflexivity.
  - change (join sep ((x :: x' :: a') ++ b))
      with (x ++ sep ++ join sep ((x' :: a') ++ b)).
    rewrite IH by discriminate.
    change (join sep (x :: x' :: a')) with (x ++ sep ++ join sep (x' :: a')).
    now rewrite <- !app_assoc.
Qed.

Lemma join_groups (sep : str) (groups : list (list str)) :
  Forall (fun g => g <> []) groups ->
  join sep (map (join sep) groups) = join sep (concat groups).
Proof.
  induction 1 as [|g groups Hg Hall IH]; [reflexivity|].
  destruct groups as [|g' groups'].
  - simpl. now rewrite app_nil_r.
  - change (join sep (map (join sep) (g :: g' :: groups')))
      with (join sep g ++ sep ++ join sep (map (join sep) (g' :: groups'))).
    rewrite IH. change (concat (g :: g' :: groups')) with (g ++ concat (g' :: groups')).
    rewrite join_app; [reflexivity|assumption|].
    inversion Hall; subst. destruct g'; [congruence|discriminate].
Qed.

Lemma join_snoc (sep : str) (front : list str) (w : str) :
  exists s, join sep (front ++ [w]) = s ++ w.
Proof.
  destruct front as [|x front].
  - now exists [].
  - exists (join sep (x :: front) ++ sep).
    rewrite join_app by discriminate. now rewrite <- app_assoc.
Qed.

Lemma forallb_concat_inv {A} (p : A -> bool) (groups : list (list A)) :
  forallb p (concat groups) = true -> Forall (fun g => forallb p g = true) groups.
Proof.
  induction groups as [|g groups IH]; [constructor|]. cbn [concat].
  rewrite forallb_app, andb_true_iff. intros [Hg Hrest]. constructor; auto.
Qed.

Lemma rstrip_line_of_words (g : list str) :
  g <> [] -> forallb plain_word g = true -> rstrip (line_of_words g) = join (u " ") g.
Proof.
  intros Hg Hplain. rewrite line_of_words_join by assumption. rewrite rstrip_snoc_space.
  destruct (unsnoc g) as [[front w]|] eqn:E; [|apply unsnoc_None in E; congruence].
  apply unsnoc_Some in E. subst g.
  rewrite forallb_app, andb_true_iff in Hplain. destruct Hplain as [_ Hw].
  cbn [forallb] in Hw. rewrite andb_true_r in Hw.
  destruct (join_snoc (u " ") front w) as [s ->]. now apply rstrip_plain_end.
Qed.

Lemma tame_group (g : list str) :
  g <> [] -> forallb plain_word g = true -> tame (join (u " ") g) = true.
Proof. destruct g as [|w ws]; [congruence|]. intros _. apply tame_join. Qed.

Lemma remove_trailing_blank (ls : list str) :
  ls <> [] -> Forall (fun l => l <> []) ls ->
  _remove_trailing_empty_lines (ls ++ [[]]) = Ok ls.
Proof.
  intros Hne Hall. unfold _remove_trailing_empty_lines.
  destruct (ls ++ [[]]) eqn:E; [destruct ls; discriminate|]. rewrite <- E.
  rewrite rev_app_distr. cbn [rev app drop_trailing_empty is_empty].
  destruct (unsnoc ls) as [[front final]|] eqn:El; [|apply unsnoc_None in El; congruence].
  apply unsnoc_Some in El. subst ls. apply drop_trailing_empty_last.
  apply Forall_app in Hall. destruct Hall as [_ Hl]. now inversion Hl.
Qed.

(** The lines of a paragraph of plain words, as the formatter returns
    them: groups of the words, one space apart. *)
Lemma plain_paragraph_lines (upper : str -> str) (words : list str) (max_line_len : Z)
  (ls : list str) :
  forallb plain_word words = true ->
  Formatter.lines upper [_P words] max_line_len = Ok ls ->
  exists groups,
    ls = map (join (u " ")) groups /\ concat groups = words
    /\ groups <> [] /\ Forall (fun g => g <> []) groups.
Proof.
  intros Hplain H. unfold Formatter.lines, Formatter._Formatter, Formatter._elems_lines in H.
  cbn [concat_mapM Formatter._elem_lines] in H.
  destruct words as [|w0 words].
  - rewrite p_lines_no_words in H. discriminate.
  - destruct (p_lines_groups (Formatter.mkSelf max_line_len (-1) (-1)) (w0 :: words)
                ltac:(discriminate)) as (groups & E & Hcat & Hall).
    rewrite E in H. cbn [bind] in H. rewrite app_nil_r, map_app, map_map in H.
    assert (Hne : Forall (fun g => g <> []) groups).
    { eapply Forall_impl; [|exact Hall]. now intros g [Hg _]. }
    assert (Hgp : Forall (fun g => forallb plain_word g = true) groups).
    { apply forallb_concat_inv. now rewrite Hcat. }
    assert (Hmap : map (fun g => rstrip (line_of_words g)) groups = map (join (u " ")) groups).
    { clear E H Hcat Hall. induction groups as [|g groups IH]; [reflexivity|].
      inversion Hne; subst. inversion Hgp; subst. cbn [map].
      rewrite rstrip_line_of_words by assumption. f_equal. now apply IH. }
    rewrite Hmap in H. change (map rstrip [[]]) with [@nil char] in H.
    assert (Hg0 : groups <> []) by (intros ->; discriminate).
    rewrite remove_trailing_blank in H.
    + inversion H; subst ls. exists groups. repeat split; assumption.
    + destruct groups; [congruence|discriminate].
    + clear E H Hcat Hall Hmap Hg0. induction groups as [|g groups IH]; [constructor|].
      inversion Hne; subst. inversion Hgp; subst. constructor; [|now apply IH].
      intros E0. pose proof (tame_group g H1 H3) as Ht. rewrite E0 in Ht. discriminate.
Qed.

(** ** The lines of the formatted text *)

Lemma mild_not_linebreak (l : str) :
  mild l = true -> forallb (fun x => negb (is_linebreak x)) l = true.
Proof.
  unfold mild. rewrite !forallb_forall. intros H x Hx.
  destruct (mild_head_cases x (H x Hx)) as [->|Hc]; [reflexivity|].
  unfold is_linebreak. destruct Hc as [?|[?|?]]; differs x; reflexivity.
Qed.

Lemma splitlines_line : forall (l : str),
  forallb (fun x => negb (is_linebreak x)) l = true -> l <> [] -> splitlines l = [l].
Proof.
  induction l as [|x l IH]; intros Hl Hne; [congruence|].
  cbn [forallb] in Hl. apply andb_true_iff in Hl. destruct Hl as [Hx Hl].
  cbn [splitlines]. apply negb_true_iff in Hx. rewrite Hx.
  destruct l as [|y l']; [reflexivity|]. now rewrite IH by (assumption || discriminate).
Qed.

Lemma splitlines_first : forall (l s : str),
  forallb (fun x => negb (is_linebreak x)) l = true -> s <> [] ->
  splitlines (l ++ newline ++ s) = l :: splitlines s.
Proof.
  induction l as [|x l IH]; intros s Hl Hs.
  - destruct s as [|y s']; [congruence|]. reflexivity.
  - cbn [forallb] in Hl. apply andb_true_iff in Hl. destruct Hl as [Hx Hl].
    cbn [app splitlines]. apply negb_true_iff in Hx. rewrite Hx.
    now rewrite IH by assumption.
Qed.

Lemma splitlines_join (ls : list str) :
  Forall (fun l => tame l = true) ls -> splitlines (join newline ls) = ls.
Proof.
  induction 1 as [|l ls Hl Hall IH]; [reflexivity|].
  assert (Hne : l <> []) by (intros ->; discriminate).
  pose proof (mild_not_linebreak l (tame_mild l Hl)) as Hnl.
  destruct ls as [|l' ls'].
  - now apply splitlines_line.
  - change (join newline (l :: l' :: ls')) with (l ++ newline ++ join newline (l' :: ls')).
    rewrite splitlines_first, IH; [reflexivity|assumption|].
    inversion Hall; subst. destruct l' as [|x l'']; [discriminate|].
    destruct ls'; discriminate.
Qed.

(** The parser on lines that only the paragraph method takes. *)
Lemma parse_tame_lines (is_decimal : char -> bool) (k : nat) (c : char) (rest : str)
  (more : list str) (words : list str) :
  plain_char c = true -> mild rest = true -> Forall (fun l => tame l = true) more ->
  scan_text (S (S k)) (join (u " ") ((c :: rest) :: more)) [] = Ok words ->
  elems is_decimal (S (S (S k))) ((c :: rest) :: more) = Ok [_P words].
Proof.
  intros Hc Hrest Hmore Hscan.
  cbn [elems]. rewrite parse_S. cbv zeta.
  change (_skip_empty_lines ((c :: rest) :: more) 0) with 0.
  change (_is_done ((c :: rest) :: more) 0) with false. cbv iota.
  rewrite (try_funcs_paragraph is_decimal _ (S k) c rest more Hc Hrest Hmore).
  unfold _try_parse_p. cbn [skipn]. rewrite paragraph_lines_tame.
  2:{ constructor; [|assumption]. cbn [tame]. now rewrite Hc, Hrest. }
  change (1 <=? length ((c :: rest) :: more)) with true. cbv iota.
  unfold _p_elem_from_text. rewrite Hscan.
  cbn [bind]. rewrite parse_S. cbv zeta.
  unfold _skip_empty_lines. rewrite Nat.add_0_l, skipn_all. cbn [take_while length].
  unfold _is_done. cbn [length]. rewrite Nat.add_0_r, Nat.leb_refl. reflexivity.
Qed.

(** The parser reads the lines of a wrapped paragraph of plain words
    back as that paragraph. *)
Lemma parse_plain_lines (is_decimal : char -> bool) (fuel : nat)
  (groups : list (list str)) :
  groups <> [] -> Forall (fun g => g <> []) groups ->
  forallb plain_word (concat groups) = true ->
  length (concat groups) + 2 <= fuel ->
  elems is_decimal fuel (map (join (u " ")) groups) = Ok [_P (concat groups)].
Proof.
  intros Hg Hne Hplain Hfuel.
  assert (Htame : Forall (fun l => tame l = true) (map (join (u " ")) groups)).
  { pose proof (forallb_concat_inv _ _ Hplain) as Hgp. apply Forall_map.
    clear Hg Hplain Hfuel. induction groups as [|g groups IH]; [constructor|].
    inversion Hne; subst. inversion Hgp; subst. constructor; [|now apply IH].
    now apply tame_group. }
  destruct fuel as [|[|[|k]]];
    try (destruct groups as [|[|w g] groups];
         [congruence|inversion Hne; congruence|simpl in Hfuel; lia]).
  assert (Hscan : scan_text (S (S k)) (join (u " ") (map (join (u " ")) groups)) []
                  = Ok (concat groups)).
  { rewrite join_groups by assumption.
    destruct (concat groups) as [|w ws] eqn:Hcat.
    - destruct groups as [|[|w g] groups]; [congruence|inversion Hne; congruence|discriminate].
    - apply scan_plain_words; [assumption|simpl in Hfuel |- *; lia]. }
  destruct (map (join (u " ")) groups) as [|l more] eqn:Hlines.
  { destruct groups; [congruence|discriminate]. }
  inversion Htame as [|l0 more0 Hl Hmore]; subst l0 more0.
  destruct (tame_inv l Hl) as (c & rest & -> & Hc & Hrest).
  now apply parse_tame_lines.
Qed.




End Idempotence.

Section TrailingLines.

Import Formatter.

(** * Trailing empty lines *)

Lemma drop_trailing_empty_blank (k : nat) (rl : list str) :
  drop_trailing_empty (repeat [] k ++ rl) = drop_trailing_empty rl.
Proof. induction k as [|k IH]; [reflexivity|]. simpl. exact IH. Qed.

Lemma rev_repeat_blank (k : nat) : rev (repeat (@nil char) k) = repeat [] k.
Proof.
  induction k as [|k IH]; [reflexivity|]. cbn [repeat rev]. rewrite IH.
  change ([@nil char]) with (repeat (@nil char) 1). rewrite <- repeat_app.
  now rewrite Nat.add_1_r.
Qed.

Lemma remove_trailing_blank_run (front : list str) (l : str) (k : nat) :
  l <> [] ->
  _remove_trailing_empty_lines ((front ++ [l]) ++ repeat [] k) = Ok (front ++ [l]).
Proof.
  intros Hl. unfold _remove_trailing_empty_lines.
  destruct ((front ++ [l]) ++ repeat [] k) eqn:E.
  - destruct front; discriminate.
  - rewrite <- E, rev_app_distr, rev_repeat_blank, drop_trailing_empty_blank.
    now apply drop_trailing_empty_last.
Qed.

Lemma drop_trailing_empty_all_blank (rl : list str) :
  Forall (fun l => l = []) rl -> drop_trailing_empty rl = Raise IndexError.
Proof. induction 1 as [|l rl Hl _ IH]; [reflexivity|]. subst l. exact IH. Qed.

(** X1: what [_remove_trailing_empty_lines] does on every list of
    lines.  On no line its assertion fails; on lines that are all empty
    the loop deletes them all and [new_lines[-1]] raises [IndexError];
    otherwise it returns the lines up to the last one that is not
    empty, and nothing else makes it return.  What it returns it
    returns unchanged when called again. *)
Theorem remove_trailing_empty_lines_outcomes (lines : list str) :
  _remove_trailing_empty_lines [] = Raise AssertionError
  /\ (lines <> [] -> Forall (fun l => l = []) lines ->
      _remove_trailing_empty_lines lines = Raise IndexError)
  /\ (forall result,
        _remove_trailing_empty_lines lines = Ok result
        <-> exists front final k,
              result = front ++ [final] /\ final <> []
              /\ lines = result ++ repeat [] k)
  /\ (forall result,
        _remove_trailing_empty_lines lines = Ok result ->
        _remove_trailing_empty_lines result = Ok result).
Proof.
  split; [reflexivity|]. split; [|split].
  - intros Hne Hall. unfold _remove_trailing_empty_lines.
    destruct lines as [|l0 ls]; [congruence|].
    apply drop_trailing_empty_all_blank. now apply Forall_rev.
  - intros result. split.
    + intros H. apply remove_trailing_Ok in H. destruct H as (k & front & l & E & Hr & Hl).
      now exists front, l, k.
    + intros (front & final & k & -> & Hf & ->). now apply remove_trailing_blank_run.
  - intros result H. apply remove_trailing_Ok in H.
    destruct H as (k & front & l & _ & -> & Hl). now apply remove_trailing_last.
Qed.

(** * What [format] raises and what it returns *)

Lemma drop_while_idem {A} (p : A -> bool) (l : list A) :
  drop_while p (drop_while p l) = drop_while p l.
Proof.
  induction l as [|x l IH]; [reflexivity|]. simpl.
  destruct (p x) eqn:E; [exact IH|]. simpl. now rewrite E.
Qed.

Lemma rstrip_idem (s : str) : rstrip (rstrip s) = rstrip s.
Proof. unfold rstrip. now rewrite rev_involutive, drop_while_idem. Qed.

(** The lines of a formatter: trimmed, and the last is not empty. *)
Lemma elems_lines_trimmed (upper : str -> str) (self : Self) (elems : list Elem)
  (ls : list str) :
  _elems_lines upper self elems = Ok ls ->
  (exists front final, ls = front ++ [final] /\ final <> [])
  /\ Forall (fun l => rstrip l = l) ls.
Proof.
  unfold _elems_lines. intros H. apply bind_Ok in H. destruct H as (raw & _ & H).
  pose proof (remove_trailing_prefix _ _ H) as Hp.
  apply remove_trailing_Ok in H. destruct H as (k & front & final & _ & E & Hf).
  split; [now exists front, final|].
  apply (prefix_of_Forall _ _ _ Hp). apply Forall_map, Forall_forall.
  intros l _. apply rstrip_idem.
Qed.





End TrailingLines.

Section NoElement.

Import Parser.

(** * When the parser finds no element *)

Lemma take_while_all_length {A} (p : A -> bool) (l : list A) :
  length (take_while p l) = length l <-> Forall (fun x => p x = true) l.
Proof.
  induction l as [|x l IH]; simpl; [split; [constructor|reflexivity]|].
  destruct (p x) eqn:E; simpl.
  - rewrite Nat.succ_inj_wd, IH. split; [now constructor|now inversion 1].
  - split; [discriminate|]. inversion 1; congruence.
Qed.

Lemma is_empty_true {A} (l : list A) : is_empty l = true <-> l = [].
Proof. destruct l; simpl; split; congruence. Qed.

Lemma parse_grows is_decimal parse_sub fuel _lines : forall k _at acc r,
  _parse is_decimal parse_sub fuel _lines k _at acc = Ok r -> length acc <= length r.
Proof.
  induction k as [|k IH]; intros _at acc r H; [discriminate|].
  rewrite parse_S in H. cbv zeta in H.
  destruct (_is_done _lines _); [inversion H; subst; lia|].
  apply bind_Ok in H. destruct H as ([[e|] p] & _ & H); apply IH in H.
  - rewrite length_app in H. simpl in H. lia.
  - exact H.
Qed.

(** X4: the parser returns no element exactly for lines that are all
    empty.  On lines without a line feed and with fuel above their
    size, [_Parser(lines).elems] is the empty list if and only if every
    line is the empty string; a line of white space is not such a
    line. *)
Theorem parser_finds_no_element_iff_blank (is_decimal : char -> bool)
  (lines : list str) (fuel : nat) :
  Forall line_ok lines -> size lines + 2 <= fuel ->
  (elems is_decimal fuel lines = Ok [] <-> Forall (fun l => l = []) lines).
Proof.
  intros Hok Hfuel. destruct fuel as [|[|n]]; try lia.
  cbn [elems]. rewrite parse_S. cbv zeta.
  assert (Hskip : _skip_empty_lines lines 0 = length (take_while is_empty lines)) by reflexivity.
  assert (Hall : length (take_while is_empty lines) = length lines
                 <-> Forall (fun l => l = []) lines).
  { rewrite take_while_all_length. split; intros H; eapply Forall_impl; try exact H;
      intros l; apply is_empty_true. }
  assert (Hfuel' : size lines < S n) by lia.
  unfold _is_done. rewrite Hskip.
  destruct (Nat.leb_spec (length lines) (length (take_while is_empty lines))) as [Hd|Hd].
  - split; [intros _|reflexivity]. apply Hall.
    pose proof (take_while_empty_facts (S n) lines Hfuel' lines) as (Hle & _). cbv zeta in Hle. lia.
  - split.
    + intros H. exfalso.
      assert (Hsub : forall ls, Forall line_ok ls -> size ls < size lines ->
                                elems is_decimal (S n) ls <> OutOfFuel).
      { intros ls Hls Hsize. apply elems_returns_or_raises; [assumption|lia]. }
      pose proof (skip_empty_lines_facts (S n) lines Hfuel' 0 ltac:(lia)) as (_ & _ & Hne & _).
      cbv zeta in Hne. rewrite Hskip in Hne. specialize (Hne Hd).
      destruct (try_funcs_takes_line is_decimal (elems is_decimal (S n)) (S n) lines
                  Hsub Hfuel' Hok _ Hd Hne) as [_ Hsome].
      apply bind_Ok in H. destruct H as ([[e|] p] & Htry & H).
      * apply parse_grows in H. rewrite length_app in H. simpl in H. lia.
      * now apply Hsome in Htry.
    + intros H. apply Hall in H. lia.
Qed.

Lemma parser_finds_no_element_iff_blank_witness :
  elems ascii_decimal 10 [[]; []; []] = Ok [] <-> Forall (fun l => l = []) [[]; []; @nil char].
Proof.
  apply (parser_finds_no_element_iff_blank ascii_decimal [[]; []; []] 10).
  - repeat constructor.
  - vm_compute. lia.
Defined.

End NoElement.

Section Headings.

Import Parser.

(** * Headings, formatted and parsed again *)

Lemma rstrip_repeat (c : char) (n : nat) :
  is_space c = false -> rstrip (repeat c n) = repeat c n.
Proof.
  intros Hc. destruct n as [|n]; [reflexivity|].
  cbn [repeat]. rewrite repeat_cons. now apply rstrip_keeps.
Qed.

Lemma drop_while_repeat (c : char) (n : nat) :
  drop_while (fun x => char_eqb x c) (repeat c n) = [].
Proof.
  induction n as [|n IH]; [reflexivity|]. cbn [repeat drop_while].
  unfold char_eqb at 1. now rewrite N.eqb_refl.
Qed.

Lemma underline_matches (c : char) (n : nat) : match_underline c (repeat c (S n)) = true.
Proof.
  unfold match_underline. cbn [repeat]. unfold char_eqb at 1. rewrite N.eqb_refl.
  change (c :: repeat c n) with (repeat c (S n)). now rewrite drop_while_repeat.
Qed.

Lemma underline_differs (c d : char) (n : nat) :
  char_eqb d c = false -> match_underline c (repeat d (S n)) = false.
Proof. intros H. unfold match_underline. cbn [repeat]. now rewrite H. Qed.

(** The lines of a heading are the title, trimmed, and its underline. *)
Lemma heading_lines_formatted (upper : str -> str) (e : Elem) (title : str) (c : char)
  (max_line_len : Z) :
  (forall self, Formatter._elem_lines upper e self
                = Ok (Formatter._heading_lines title c)) ->
  is_space c = false -> title <> [] ->
  Formatter.lines upper [e] max_line_len = Ok [rstrip title; repeat c (length title)].
Proof.
  intros He Hc Ht. unfold Formatter.lines, Formatter._Formatter, Formatter._elems_lines.
  cbn [concat_mapM]. rewrite He. cbn [bind]. unfold Formatter._heading_lines.
  cbn [app map]. rewrite (rstrip_repeat c _ Hc).
  apply (remove_trailing_last [rstrip title]).
  destruct title; [congruence|discriminate].
Qed.

Section HeadingLines.

Variable is_decimal : char -> bool.
Variable parse_sub : list str -> res (list Elem).
Variable fuel : nat.
Variable title : str.
Variable n : nat.

Hypothesis title_not_empty : title <> [].

Lemma underlined_heading mk prefix (c : char) :
  _try_parse_heading [title; repeat c (S n)] mk prefix c 0 = Ok (Some (mk title), 2).
Proof.
  unfold _try_parse_heading, _cur_line, _next_line. cbn [nth_error nth bind].
  rewrite underline_matches.
  destruct (match_heading_prefix prefix title); reflexivity.
Qed.

Lemma other_underline mk prefix (c d : char) :
  char_eqb d c = false ->
  _try_parse_heading [title; repeat d (S n)] mk prefix c 0 = Ok (None, 0).
Proof.
  intros H. unfold _try_parse_heading, _cur_line, _next_line. cbn [nth_error nth bind].
  rewrite (underline_differs c d n H).
  destruct (match_heading_prefix prefix title); reflexivity.
Qed.

Lemma parse_two_lines (l2 : str) (e : Elem) (k : nat) :
  try_funcs (funcs is_decimal parse_sub fuel [title; l2]) 0 = Ok (Some e, 2) ->
  _parse is_decimal parse_sub fuel [title; l2] (S (S k)) 0 [] = Ok [e].
Proof.
  intros H. rewrite parse_S. cbv zeta.
  assert (Hskip : _skip_empty_lines [title; l2] 0 = 0).
  { unfold _skip_empty_lines. cbn [skipn take_while].
    destruct title; [congruence|reflexivity]. }
  rewrite Hskip. change (_is_done [title; l2] 0) with false. cbv iota.
  rewrite H. cbn [bind]. rewrite parse_S. reflexivity.
Qed.

End HeadingLines.

Lemma prefixed_heading mk prefix (c : char) (l title : str) :
  match_heading_prefix prefix l = Some title ->
  _try_parse_heading [l] mk prefix c 0 = Ok (Some (mk title), 1).
Proof.
  intros H. unfold _try_parse_heading, _cur_line, _next_line. cbn [nth_error nth bind].
  now rewrite H.
Qed.

Lemma heading_refused mk prefix (c : char) (l : str) :
  match_heading_prefix prefix l = None ->
  _try_parse_heading [l] mk prefix c 0 = Ok (None, 0).
Proof.
  intros H. unfold _try_parse_heading, _cur_line, _next_line. cbn [nth_error nth bind].
  now rewrite H.
Qed.

Lemma parse_one_line is_decimal parse_sub fuel (l : str) (e : Elem) (k : nat) :
  l <> [] ->
  try_funcs (funcs is_decimal parse_sub fuel [l]) 0 = Ok (Some e, 1) ->
  _parse is_decimal parse_sub fuel [l] (S (S k)) 0 [] = Ok [e].
Proof.
  intros Hl H. rewrite parse_S. cbv zeta.
  assert (Hskip : _skip_empty_lines [l] 0 = 0).
  { unfold _skip_empty_lines. cbn [skipn take_while]. destruct l; [congruence|reflexivity]. }
  rewrite Hskip. change (_is_done [l] 0) with false. cbv iota.
  rewrite H. cbn [bind]. rewrite parse_S. reflexivity.
Qed.

(** X5: a heading that is formatted is parsed as the same heading.
    The formatter writes the title of a first-level heading in upper
    case over a line of as many "━" as the title has characters, and the
    title of a second-level heading over as many "─"; the parser reads
    these two lines as one heading of the same level whose text is the
    title written, whatever the title holds.  The prefixed form
    "= title" alone on its line is the same first-level heading. *)
Theorem heading_parsed_back (is_decimal : char -> bool) (upper : str -> str)
  (fuel : nat) (max_line_len : Z) (text : str) :
  3 <= fuel ->
  (rstrip (upper text) <> [] ->
   Formatter.lines upper [_H1 text] max_line_len
   = Ok [rstrip (upper text); repeat (ch "━") (length (upper text))]
   /\ elems is_decimal fuel [rstrip (upper text); repeat (ch "━") (length (upper text))]
      = Ok [_H1 (rstrip (upper text))])
  /\ (rstrip text <> [] ->
      Formatter.lines upper [_H2 text] max_line_len
      = Ok [rstrip text; repeat (ch "─") (length text)]
      /\ elems is_decimal fuel [rstrip text; repeat (ch "─") (length text)]
         = Ok [_H2 (rstrip text)])
  /\ (text_group text = Some text ->
      elems is_decimal fuel [u "= " ++ text] = Ok [_H1 text]
      /\ elems is_decimal fuel [u "== " ++ text] = Ok [_H2 text]).
Proof.
  intros Hfuel. destruct fuel as [|[|[|k]]]; try lia. clear Hfuel.
  assert (Hlen : forall s : str, rstrip s <> [] -> exists m, length s = S m).
  { intros [|c s] H; [now contradict H|]. now exists (length s). }
  split; [|split].
  - intros Ht. destruct (Hlen _ Ht) as [m Hm]. split.
    + apply heading_lines_formatted; [reflexivity|reflexivity|].
      intros E. rewrite E in Ht. now apply Ht.
    + rewrite Hm. cbn [elems]. apply parse_two_lines; [assumption|].
      unfold funcs. cbn [try_funcs]. unfold _try_parse_h1.
      now rewrite (underlined_heading (rstrip (upper text)) m).
  - intros Ht. destruct (Hlen _ Ht) as [m Hm]. split.
    + apply heading_lines_formatted; [reflexivity|reflexivity|].
      intros E. rewrite E in Ht. now apply Ht.
    + rewrite Hm. cbn [elems]. apply parse_two_lines; [assumption|].
      unfold funcs. cbn [try_funcs]. unfold _try_parse_h1, _try_parse_h2.
      rewrite (other_underline (rstrip text) m) by reflexivity. cbn [bind].
      now rewrite (underlined_heading (rstrip text) m).
  - intros Hg.
    assert (Hp1 : match_heading_prefix (u "=") (u "= " ++ text) = Some text) by exact Hg.
    assert (Hp2 : match_heading_prefix (u "==") (u "== " ++ text) = Some text) by exact Hg.
    assert (Hp3 : match_heading_prefix (u "=") (u "== " ++ text) = None).
    { unfold match_heading_prefix. change (strip_prefix (u "=" ++ u " ") (u "== " ++ text))
        with (@None str). reflexivity. }
    split.
    + cbn [elems]. apply parse_one_line; [discriminate|].
      unfold funcs. cbn [try_funcs]. unfold _try_parse_h1.
      now rewrite (prefixed_heading _H1 (u "=") (ch "━") _ text Hp1).
    + cbn [elems]. apply parse_one_line; [discriminate|].
      unfold funcs. cbn [try_funcs]. unfold _try_parse_h1, _try_parse_h2.
      rewrite (heading_refused _H1 (u "=") (ch "━") _ Hp3). cbn [bind].
      now rewrite (prefixed_heading _H2 (u "==") (ch "─") _ text Hp2).
Qed.

Lemma heading_parsed_back_witness :
  Formatter.lines ascii_upper [_H1 (u "Title")] 72 = Ok [u "TITLE"; u "━━━━━"]
  /\ elems ascii_decimal 10 [u "TITLE"; u "━━━━━"] = Ok [_H1 (u "TITLE")].
Proof.
  pose proof (heading_parsed_back ascii_decimal ascii_upper 10 72 (u "Title")) as H.
  destruct H as (H1 & _); [lia|].
  apply H1. vm_compute. discriminate.
Defined.

End Headings.

Section FirstLines.

Import Parser.

(** * What the methods do at a first line their pattern refuses *)

Section FirstLine.

Variable is_decimal : char -> bool.
Variable parse_sub : list str -> res (list Elem).
Variable k : nat.
Variable c : char.
Variable rest : str.
Variable more : list str.

Lemma heading_refuses_line mk prefix c' :
  match_heading_prefix prefix (c :: rest) = None ->
  match_underline c' (_next_line ((c :: rest) :: more) 0) = false ->
  _try_parse_heading ((c :: rest) :: more) mk prefix c' 0 = Ok (None, 0).
Proof.
  intros Hp Hu. unfold _try_parse_heading, _cur_line. cbn [nth_error bind].
  now rewrite Hp, Hu.
Qed.

Lemma ul_refuses_line :
  match_bullet_line (c :: rest) = None ->
  _try_parse_ul parse_sub (S k) ((c :: rest) :: more) 0 = Ok (None, 0).
Proof.
  intros H. unfold _try_parse_ul, _try_parse_simple_list.
  rewrite item_loop_refuses; [reflexivity|].
  unfold _try_parse_ul_item, _cur_line. cbn [nth_error bind]. now rewrite H.
Qed.

Lemma ol_refuses_line :
  match_ol_item_start is_decimal (c :: rest) = None ->
  _try_parse_ol is_decimal parse_sub (S k) ((c :: rest) :: more) 0 = Ok (None, 0).
Proof.
  intros H. unfold _try_parse_ol, _try_parse_simple_list.
  rewrite item_loop_refuses; [reflexivity|].
  unfold _try_parse_ol_item, _cur_line. cbn [nth_error bind]. now rewrite H.
Qed.

Lemma dl_refuses_line :
  match_single_line_dt (c :: rest) = None -> match_dt (c :: rest) = None ->
  _try_parse_dl parse_sub (S k) ((c :: rest) :: more) 0 = Ok (None, 0).
Proof.
  intros H1 H2. unfold _try_parse_dl. rewrite item_loop_refuses; [reflexivity|].
  unfold _try_parse_dl_item, _try_parse_single_line_dl_item, _cur_line.
  cbn [nth_error bind]. rewrite H1. cbn [bind skipn take_terms]. now rewrite H2.
Qed.

Lemma delim_refuses_line delim :
  str_eqb (c :: rest) delim = false ->
  _try_parse_delim_block ((c :: rest) :: more) delim 0 = Ok (None, 0).
Proof.
  intros H. unfold _try_parse_delim_block, _cur_line. cbn [nth_error bind]. now rewrite H.
Qed.

Lemma pre_delim_refuses_line :
  str_eqb (c :: rest) (u "```") = false ->
  _try_parse_pre_delim ((c :: rest) :: more) 0 = Ok (None, 0).
Proof. intros H. unfold _try_parse_pre_delim. now rewrite delim_refuses_line. Qed.

Lemma pre_indented_refuses_line :
  match_indented_text (c :: rest) = false ->
  _try_parse_pre_indented ((c :: rest) :: more) 0 = Ok (None, 0).
Proof.
  intros H. unfold _try_parse_pre_indented, _cur_line. cbn [nth_error bind]. now rewrite H.
Qed.

Lemma hr_takes_line :
  match_hr_rule (c :: rest) = true ->
  _try_parse_hr ((c :: rest) :: more) 0 = Ok (Some _Hr, 1).
Proof.
  intros H. unfold _try_parse_hr, _cur_line. cbn [nth_error bind].
  now rewrite H, orb_true_r.
Qed.

Lemma try_funcs_take (f : rule Elem) fs e p :
  f 0 = Ok (Some e, p) -> try_funcs (f :: fs) 0 = Ok (Some e, p).
Proof. intros H. cbn [try_funcs]. now rewrite H. Qed.

(** An element that takes all the lines is all the parser returns. *)
Lemma parse_whole (fuel : nat) (e : Elem) :
  try_funcs (funcs is_decimal parse_sub fuel ((c :: rest) :: more)) 0
  = Ok (Some e, length ((c :: rest) :: more)) ->
  _parse is_decimal parse_sub fuel ((c :: rest) :: more) (S (S k)) 0 [] = Ok [e].
Proof.
  intros H. rewrite parse_S. cbv zeta.
  change (_skip_empty_lines ((c :: rest) :: more) 0) with 0.
  change (_is_done ((c :: rest) :: more) 0) with false. cbv iota.
  rewrite H. cbn [bind]. rewrite parse_S. cbv zeta.
  unfold _skip_empty_lines. rewrite skipn_all. cbn [take_while].
  unfold _is_done. change (length (@nil str)) with 0. rewrite Nat.add_0_r, Nat.leb_refl.
  reflexivity.
Qed.

End FirstLine.

(** * Rules *)

Lemma forallb_repeat {A} (p : A -> bool) (x : A) (n : nat) :
  p x = true -> forallb p (repeat x n) = true.
Proof. intros H. induction n as [|n IH]; [reflexivity|]. simpl. now rewrite H. Qed.

Lemma drop_while_constant {A} (p : A -> bool) (x : A) (n : nat) :
  exists m, drop_while p (repeat x n) = repeat x m.
Proof.
  induction n as [|n [m IH]]; [now exists 0|]. cbn [repeat drop_while].
  destruct (p x); [now exists m|now exists (S n)].
Qed.

Lemma unsnoc_repeat {A} (x : A) (n : nat) : unsnoc (repeat x (S n)) = Some (repeat x n, x).
Proof. cbn [repeat]. rewrite repeat_cons. apply unsnoc_snoc. Qed.

Lemma dt_split_constant (x : char) (n : nat) :
  char_eqb (ch ":") x = false -> dt_split (repeat x n) = None.
Proof.
  intros Hx. induction n as [|n IH]; [reflexivity|]. cbn [repeat dt_split].
  destruct (is_dot x); [|reflexivity]. rewrite IH.
  unfold dt_here. change (u ":: ") with (ch ":" :: u ": "). cbn [strip_prefix].
  now rewrite Hx.
Qed.

Section RuleLine.

Variable is_decimal : char -> bool.
Variable m : nat.

(** A rule of three characters or more. *)
Let rule_line : str := repeat (ch "┄") (S (S (S m))).

Lemma rule_not_ol_item : match_ol_item_start is_decimal rule_line = None.
Proof.
  unfold match_ol_item_start.
  replace (ol_numbered is_decimal rule_line) with (@None (str * str)); [reflexivity|].
  symmetry. unfold ol_numbered. cbv zeta. destruct (is_empty _); [reflexivity|].
  change (drop_while (fun c => char_eqb c (ch " ")) rule_line) with rule_line.
  destruct (drop_while_constant is_decimal (ch "┄") (S (S (S m)))) as [j Hj].
  fold rule_line in Hj. rewrite Hj. now destruct j.
Qed.

Lemma rule_not_dt : match_single_line_dt rule_line = None /\ match_dt rule_line = None.
Proof.
  split.
  - unfold match_single_line_dt, rule_line. cbn [repeat].
    change (is_space (ch "┄")) with false. cbv iota.
    change (ch "┄" :: ch "┄" :: repeat (ch "┄") m) with (repeat (ch "┄") (S (S m))).
    now rewrite dt_split_constant.
  - unfold match_dt, chomp, rule_line. rewrite unsnoc_repeat.
    change ((ch "┄" =? 10)%N) with false. cbv iota. cbn [repeat].
    change (is_space (ch "┄")) with false. cbv iota.
    change (ch "┄" :: ch "┄" :: repeat (ch "┄") m) with (repeat (ch "┄") (S (S m))).
    now rewrite unsnoc_repeat.
Qed.

Lemma rule_is_hr : match_hr_rule rule_line = true.
Proof.
  unfold match_hr_rule, chomp, rule_line. rewrite unsnoc_repeat.
  change ((ch "┄" =? 10)%N) with false. cbv iota. rewrite repeat_length.
  rewrite forallb_repeat by reflexivity. reflexivity.
Qed.

Lemma rule_line_parsed (parse_sub : list str -> res (list Elem)) (k : nat) :
  try_funcs (funcs is_decimal parse_sub (S k) [rule_line]) 0 = Ok (Some _Hr, 1).
Proof.
  unfold funcs, rule_line. cbn [repeat].
  rewrite try_funcs_skip by (apply heading_refuses_line; reflexivity).
  rewrite try_funcs_skip by (apply heading_refuses_line; reflexivity).
  rewrite try_funcs_skip by (apply ul_refuses_line; reflexivity).
  rewrite try_funcs_skip by (apply ol_refuses_line; apply rule_not_ol_item).
  rewrite try_funcs_skip by (apply dl_refuses_line; apply rule_not_dt).
  rewrite try_funcs_skip by (apply pre_delim_refuses_line; reflexivity).
  rewrite try_funcs_skip by (apply pre_indented_refuses_line; reflexivity).
  cbn [try_funcs]. rewrite hr_takes_line by apply rule_is_hr. reflexivity.
Qed.

End RuleLine.

Lemma stars_parsed (is_decimal : char -> bool) (parse_sub : list str -> res (list Elem))
  (k : nat) :
  try_funcs (funcs is_decimal parse_sub (S k) [u "***"]) 0 = Ok (Some _Hr, 1).
Proof.
  unfold funcs. change (u "***") with [ch "*"; ch "*"; ch "*"].
  rewrite try_funcs_skip by (apply heading_refuses_line; reflexivity).
  rewrite try_funcs_skip by (apply heading_refuses_line; reflexivity).
  rewrite try_funcs_skip by (apply ul_refuses_line; reflexivity).
  rewrite try_funcs_skip.
  2:{ apply ol_refuses_line. unfold match_ol_item_start, ol_numbered. cbv zeta.
      change (drop_while (fun c => char_eqb c (ch " ")) [ch "*"; ch "*"; ch "*"])
        with [ch "*"; ch "*"; ch "*"].
      cbn [take_while drop_while]. destruct (is_decimal (ch "*")); reflexivity. }
  rewrite try_funcs_skip by (apply dl_refuses_line; reflexivity).
  rewrite try_funcs_skip by (apply pre_delim_refuses_line; reflexivity).
  rewrite try_funcs_skip by (apply pre_indented_refuses_line; reflexivity).
  reflexivity.
Qed.

(** X6: rules.  The line "***" and a line of three "┄" or more are
    each parsed as a rule.  A rule is formatted as a line of
    [max_line_len] characters "┄"; so a rule formatted at a width of 3
    or more is parsed as a rule again, and a rule formatted alone at a
    width of 0 or less, being an empty line, makes
    [_remove_trailing_empty_lines] raise [IndexError]. *)
Theorem rule_formatted_and_parsed_back (is_decimal : char -> bool) (upper : str -> str)
  (fuel : nat) (max_line_len : Z) :
  3 <= fuel ->
  elems is_decimal fuel [u "***"] = Ok [_Hr]
  /\ ((max_line_len <= 0)%Z -> Formatter.lines upper [_Hr] max_line_len = Raise IndexError)
  /\ ((1 <= max_line_len)%Z ->
      Formatter.lines upper [_Hr] max_line_len
      = Ok [repeat (ch "┄") (Z.to_nat max_line_len)])
  /\ ((3 <= max_line_len)%Z ->
      elems is_decimal fuel [repeat (ch "┄") (Z.to_nat max_line_len)] = Ok [_Hr]).
Proof.
  intros Hfuel. destruct fuel as [|[|[|k]]]; try lia. clear Hfuel.
  assert (Hlines :
             Formatter.lines upper [_Hr] max_line_len
             = _remove_trailing_empty_lines
                 [repeat (ch "┄") (Z.to_nat max_line_len); []]).
  { unfold Formatter.lines, Formatter._Formatter, Formatter._elems_lines.
    cbn [concat_mapM Formatter._elem_lines bind]. unfold Formatter._hr_lines.
    cbn [app map Formatter._max_line_len]. now rewrite rstrip_repeat by reflexivity. }
  split; [|split; [|split]].
  - cbn [elems]. apply parse_one_line; [discriminate|]. apply stars_parsed.
  - intros Hw. rewrite Hlines. replace (Z.to_nat max_line_len) with 0 by lia. reflexivity.
  - intros Hw. rewrite Hlines.
    destruct (Z.to_nat max_line_len) as [|n] eqn:E; [lia|].
    apply (remove_trailing_blank_run [] (repeat (ch "┄") (S n)) 1). discriminate.
  - intros Hw. destruct (Z.to_nat max_line_len) as [|[|[|n]]] eqn:E; try lia.
    cbn [elems]. apply parse_one_line; [discriminate|]. apply rule_line_parsed.
Qed.

Lemma rule_formatted_and_parsed_back_witness :
  elems ascii_decimal 5 [u "***"] = Ok [_Hr]
  /\ Formatter.lines ascii_upper [_Hr] 4 = Ok [u "┄┄┄┄"]
  /\ elems ascii_decimal 5 [u "┄┄┄┄"] = Ok [_Hr].
Proof.
  pose proof (rule_formatted_and_parsed_back ascii_decimal ascii_upper 5 4) as H.
  destruct H as (H1 & _ & H2 & H3); [lia|].
  split; [exact H1|]. split; [apply H2; lia|apply H3; lia].
Defined.

End FirstLines.

Section PreBlocks.

Import Parser.

(** * Preformatted blocks, formatted and parsed again *)

Lemma rstrip_spaces (s : str) : forallb is_space s = true -> rstrip s = [].
Proof.
  intros H. unfold rstrip.
  assert (Hr : forallb is_space (rev s) = true).
  { rewrite forallb_forall in *. intros x Hx. apply H. now apply in_rev. }
  clear H. induction (rev s) as [|x l IH]; [reflexivity|].
  simpl in *. apply andb_true_iff in Hr. destruct Hr as [Hx Hl]. rewrite Hx. now apply IH.
Qed.

Lemma rstrip_fixed_last (l : str) :
  rstrip l = l -> l <> [] -> exists front x, l = front ++ [x] /\ is_space x = false.
Proof.
  intros H Hne. destruct (unsnoc l) as [[front x]|] eqn:E; [|apply unsnoc_None in E; congruence].
  apply unsnoc_Some in E. exists front, x. split; [assumption|].
  destruct (is_space x) eqn:Hx; [|reflexivity]. exfalso.
  subst l. unfold rstrip in H. rewrite rev_app_distr in H. cbn [rev app drop_while] in H.
  rewrite Hx in H. fold (rstrip front) in H.
  pose proof (length_rstrip front) as Hlen. rewrite H, length_app in Hlen. simpl in Hlen. lia.
Qed.

Lemma rstrip_fixed_app (s l : str) : rstrip l = l -> l <> [] -> rstrip (s ++ l) = s ++ l.
Proof.
  intros H Hne. destruct (rstrip_fixed_last l H Hne) as (front & x & -> & Hx).
  rewrite app_assoc. now apply rstrip_keeps.
Qed.

Lemma rstrip_pre_line (l : str) : rstrip l = l -> rstrip (u "    " ++ l) = pre_line l.
Proof.
  intros H. unfold pre_line. destruct l as [|c l]; [reflexivity|].
  cbn [is_empty]. now apply rstrip_fixed_app.
Qed.

Lemma chomp_line_ok (s : str) : line_ok s -> chomp s = s.
Proof.
  intros H. unfold chomp. destruct (unsnoc s) as [[front x]|] eqn:E; [|reflexivity].
  apply unsnoc_Some in E. subst s. apply line_ok_app in H. destruct H as [_ H].
  apply line_ok_cons in H. destruct H as [H _]. unfold is_dot in H.
  apply negb_true_iff in H. now rewrite H.
Qed.

Lemma block_lines_pre (ls : list str) :
  Forall line_ok ls ->
  block_lines (match_indented_content 4) (map pre_line ls) = map pre_line ls.
Proof.
  induction 1 as [|l ls Hl _ IH]; [reflexivity|]. cbn [map block_lines].
  destruct l as [|c l]; [cbn [pre_line is_empty]; now rewrite IH|].
  apply line_ok_cons in Hl. destruct Hl as [Hc _].
  change (pre_line (c :: l)) with (repeat (ch " ") 4 ++ c :: l).
  cbn [repeat app is_empty]. unfold match_indented_content.
  replace (strip_prefix (repeat (ch " ") 4) (ch " " :: ch " " :: ch " " :: ch " " :: c :: l))
    with (Some (c :: l)) by reflexivity.
  rewrite Hc. f_equal. exact IH.
Qed.

Lemma unindent_pre (ls : list str) : _unindent_lines (map pre_line ls) 4 = ls.
Proof.
  unfold _unindent_lines. rewrite map_map. rewrite <- (map_id ls) at 2.
  apply map_ext. intros [|c l]; reflexivity.
Qed.

(** X7: a preformatted block that is formatted is parsed as the same
    block, when it can be told from the other elements.  For a block
    whose lines hold no line feed and do not end with white space,
    whose first line starts with a character that is no white space and
    is not read as a numbered item once indented, and whose last line
    is not empty, the formatter returns each line behind four spaces,
    empty lines staying empty, and the parser reads these lines as the
    block it was. *)
Theorem pre_block_parsed_back (is_decimal : char -> bool) (upper : str -> str)
  (fuel : nat) (max_line_len : Z) (c : char) (first : str) (more : list str) :
  3 <= fuel ->
  is_space c = false ->
  Forall line_ok ((c :: first) :: more) ->
  Forall (fun l => rstrip l = l) ((c :: first) :: more) ->
  last ((c :: first) :: more) [] <> [] ->
  ol_numbered is_decimal (u "    " ++ c :: first) = None ->
  Formatter.lines upper [_Pre ((c :: first) :: more)] max_line_len
  = Ok (map pre_line ((c :: first) :: more))
  /\ elems is_decimal fuel (map pre_line ((c :: first) :: more))
     = Ok [_Pre ((c :: first) :: more)].
Proof.
  intros Hfuel Hc Hok Htrim Hlast Hnum.
  destruct fuel as [|[|[|k]]]; try lia. clear Hfuel.
  set (ls := (c :: first) :: more) in *.
  assert (Hpre_last : exists front final, map pre_line ls = front ++ [final] /\ final <> []).
  { destruct (unsnoc ls) as [[front final]|] eqn:E; [|apply unsnoc_None in E; discriminate].
    apply unsnoc_Some in E. exists (map pre_line front), (pre_line final).
    rewrite E, map_app. split; [reflexivity|].
    rewrite E, last_last in Hlast. destruct final; [congruence|discriminate]. }
  destruct Hpre_last as (front & final & Efront & Hfinal).
  split.
  - unfold Formatter.lines, Formatter._Formatter, Formatter._elems_lines.
    cbn [concat_mapM Formatter._elem_lines bind]. unfold Formatter._pre_lines.
    rewrite app_nil_r, map_app, map_map.
    replace (map (fun x => rstrip (u "    " ++ x)) ls) with (map pre_line ls).
    + change (map rstrip [[]]) with (repeat (@nil char) 1).
      rewrite Efront. now apply remove_trailing_blank_run.
    + apply map_ext_Forall. eapply Forall_impl; [|exact Htrim].
      intros l Hl. symmetry. now apply rstrip_pre_line.
  - cbn [elems].
    assert (Elines : map pre_line ls = (ch " " :: u "   " ++ c :: first) :: map pre_line more)
      by reflexivity.
    rewrite Elines. apply parse_whole. rewrite <- Elines at 2.
    assert (Hnext : forall k', char_eqb (ch " ") k' = false ->
               match_underline k'
                 (_next_line ((ch " " :: u "   " ++ c :: first) :: map pre_line more) 0)
               = false).
    { intros k' Hk. unfold _next_line. cbn [nth]. destruct more as [|[|x l2] more'];
        [reflexivity|reflexivity|].
      cbn [map nth]. change (pre_line (x :: l2)) with (ch " " :: u "   " ++ x :: l2).
      unfold match_underline. now rewrite Hk. }
    unfold funcs.
    rewrite try_funcs_skip by (apply heading_refuses_line; [reflexivity|now apply Hnext]).
    rewrite try_funcs_skip by (apply heading_refuses_line; [reflexivity|now apply Hnext]).
    rewrite try_funcs_skip by (apply ul_refuses_line; reflexivity).
    rewrite try_funcs_skip.
    2:{ apply ol_refuses_line. unfold match_ol_item_start.
        change (ch " " :: u "   " ++ c :: first) with (u "    " ++ c :: first).
        now rewrite Hnum. }
    rewrite try_funcs_skip.
    2:{ apply dl_refuses_line; [reflexivity|].
        unfold match_dt. rewrite chomp_line_ok; [reflexivity|].
        inversion Hok; subst. change (ch " " :: u "   " ++ c :: first)
          with (u "    " ++ c :: first).
        apply line_ok_app. split; [reflexivity|assumption]. }
    rewrite try_funcs_skip by (apply pre_delim_refuses_line; reflexivity).
    apply try_funcs_take.
    unfold _try_parse_pre_indented, _cur_line. cbn [nth_error bind].
    replace (match_indented_text (ch " " :: u "   " ++ c :: first)) with true
      by (unfold match_indented_text;
          change (strip_prefix (u "    ") (ch " " :: u "   " ++ c :: first))
            with (Some (c :: first)); cbv iota; now rewrite Hc).
    cbn [negb skipn]. rewrite <- Elines, block_lines_pre by assumption.
    rewrite Efront at 1. rewrite remove_trailing_last by assumption. cbn [bind].
    rewrite <- Efront, unindent_pre. reflexivity.
Qed.

Lemma pre_block_parsed_back_witness :
  Formatter.lines ascii_upper [_Pre [u "if x:"; []; u "  y"]] 72
  = Ok [u "    if x:"; []; u "      y"]
  /\ elems ascii_decimal 5 [u "    if x:"; []; u "      y"]
     = Ok [_Pre [u "if x:"; []; u "  y"]].
Proof.
  apply (pre_block_parsed_back ascii_decimal ascii_upper 5 72 (ch "i") (u "f x:")
           [[]; u "  y"]).
  - lia.
  - reflexivity.
  - repeat constructor.
  - repeat constructor.
  - discriminate.
  - reflexivity.
Defined.

End PreBlocks.

(** * The envelope of a prefixed block comment *)

Lemma rest_of_line_spec (s : str) :
  rest_of_line s <> None <-> exists c rest, s = c :: rest /\ c <> 10%N.
Proof.
  unfold rest_of_line, is_dot. destruct s as [|c rest].
  - split; [congruence|]. intros (c & rest & H & _). discriminate.
  - destruct (N.eqb_spec c 10) as [Hc|Hc]; simpl; split.
    + congruence.
    + intros (c' & rest' & H & Hc'). inversion H; subst. contradiction.
    + intros _. now exists c, rest.
    + discriminate.
Qed.

Lemma prefixed_here_spec (prefix s : str) :
  match strip_prefix prefix s with
  | Some rest => rest_of_line rest
  | None => None
  end <> None
  <-> exists c rest, s = prefix ++ c :: rest /\ c <> 10%N.
Proof.
  destruct (strip_prefix prefix s) as [r|] eqn:E.
  - apply strip_prefix_Some in E. subst s. rewrite rest_of_line_spec. split.
    + intros (c & rest & -> & Hc). now exists c, rest.
    + intros (c & rest & H & Hc). apply app_inv_head in H. now exists c, rest.
  - split; [congruence|]. intros (c & rest & -> & _).
    assert (H : strip_prefix prefix (prefix ++ c :: rest) = Some (c :: rest))
      by now apply strip_prefix_Some.
    congruence.
Qed.

(** What [line_pat] matches: white space, the prefix, a character. *)
Lemma match_prefixed_line_spec (prefix : str) : forall s,
  match_prefixed_line prefix s <> None <-> matches_prefixed_pat prefix s.
Proof.
  unfold matches_prefixed_pat. induction s as [|x s IH].
  - cbn [match_prefixed_line]. rewrite prefixed_here_spec. split.
    + intros (c & rest & H & Hc). now exists [], c, rest.
    + intros (spaces & c & rest & H & _ & Hc). destruct spaces; [|discriminate].
      now exists c, rest.
  - cbn [match_prefixed_line]. pose proof (prefixed_here_spec prefix (x :: s)) as Hhere.
    split.
    + intros H. destruct (is_space x) eqn:Hx.
      * destruct (match_prefixed_line prefix s) as [g|] eqn:Eg.
        -- destruct (proj1 IH ltac:(discriminate)) as (spaces & c & rest & -> & Hsp & Hc).
           exists (x :: spaces), c, rest. simpl. now rewrite Hx, Hsp.
        -- apply Hhere in H. destruct H as (c & rest & H & Hc). now exists [], c, rest.
      * apply Hhere in H. destruct H as (c & rest & H & Hc). now exists [], c, rest.
    + intros (spaces & c & rest & H & Hsp & Hc). destruct spaces as [|y spaces].
      * assert (Hh : exists c rest, x :: s = prefix ++ c :: rest /\ c <> 10%N)
          by now exists c, rest.
        apply Hhere in Hh.
        destruct (is_space x); [|exact Hh].
        destruct (match_prefixed_line prefix s); [discriminate|exact Hh].
      * simpl in H. inversion H; subst y s. simpl in Hsp.
        apply andb_true_iff in Hsp. destruct Hsp as [Hx Hsp]. rewrite Hx.
        assert (Hrec : match_prefixed_line prefix (spaces ++ prefix ++ c :: rest) <> None)
          by (apply IH; now exists spaces, c, rest).
        destruct (match_prefixed_line prefix (spaces ++ prefix ++ c :: rest));
          [discriminate|congruence].
Qed.

Lemma drop_while_head {A} (p : A -> bool) (l : list A) x r :
  drop_while p l = x :: r -> p x = false.
Proof.
  induction l as [|y l IH]; simpl; [discriminate|].
  destruct (p y) eqn:E; [exact IH|]. intros H. inversion H; subst. exact E.
Qed.

Lemma strip_head (line : str) x r : strip line = x :: r -> is_space x = false.
Proof. unfold strip, lstrip. apply drop_while_head. Qed.

Lemma prefixed_line_taken_spec (prefix line : str) :
  prefixed_line_taken prefix line = true <-> prefixed_line_accepted prefix line.
Proof.
  unfold prefixed_line_taken, prefixed_line_accepted.
  rewrite orb_true_iff, str_eqb_eq.
  pose proof (match_prefixed_line_spec prefix (strip line)) as H.
  assert (Hpat : matches_prefixed_pat prefix (strip line)
                 <-> exists c rest, strip line = prefix ++ c :: rest /\ c <> 10%N).
  { split.
    - intros (spaces & c & rest & E & Hsp & Hc). destruct spaces as [|y spaces].
      + now exists c, rest.
      + simpl in E, Hsp. apply strip_head in E. apply andb_true_iff in Hsp.
        destruct Hsp as [Hy _]. congruence.
    - intros (c & rest & E & Hc). now exists [], c, rest. }
  rewrite <- Hpat, <- H. destruct (match_prefixed_line prefix (strip line)); split.
  - intros _. right. discriminate.
  - intros _. now right.
  - intros [?|?]; [now left|discriminate].
  - intros [?|?]; [now left|congruence].
Qed.

(** The first loop raises on the first line it does not take, and
    returns when it takes every line. *)
Lemma prefixed_content_lines_cases (prefix : str) (comment_lines : list str) :
  (exists content, prefixed_content_lines prefix comment_lines = Ok content
                   /\ length content = length comment_lines
                   /\ Forall (prefixed_line_accepted prefix) comment_lines)
  \/ (exists before line after,
        comment_lines = before ++ line :: after
        /\ Forall (prefixed_line_accepted prefix) before
        /\ ~ prefixed_line_accepted prefix line
        /\ prefixed_content_lines prefix comment_lines = Raise (ValueError (strip line))).
Proof.
  induction comment_lines as [|line rest IH]; cbn [prefixed_content_lines].
  - left. exists []. split; [reflexivity|]. split; [reflexivity|constructor].
  - pose proof (prefixed_line_taken_spec prefix line) as Hspec.
    unfold prefixed_line_taken in Hspec. cbv zeta.
    destruct (str_eqb (strip line) (rstrip prefix)) eqn:E1;
      [|destruct (match_prefixed_line prefix (strip line)) eqn:E2].
    3:{ right. exists [], line, rest. simpl in Hspec.
        split; [reflexivity|]. split; [constructor|]. split; [|reflexivity].
        intros Hacc. apply Hspec in Hacc. discriminate. }
    all: assert (Hline : prefixed_line_accepted prefix line)
           by (apply Hspec; simpl; reflexivity).
    all: destruct IH as [(content & Ec & Hlen & Hall)
                        |(before & l & after & -> & Hb & Hl & Ec)];
      rewrite Ec; cbn [bind];
      [left; eexists; split; [reflexivity|]; split; [simpl; now rewrite Hlen|now constructor]
      |right; exists (line :: before), l, after;
       split; [reflexivity|]; split; [now constructor|]; split; [assumption|reflexivity]].
Qed.

(** X8: the error of [format_prefixed_block_comment].  The call raises
    [ValueError] exactly when some line of the comment, stripped, is
    neither the prefix without its trailing white space nor the prefix
    followed by a character; the white space that "\s*" would read in
    front of the prefix is never there, the line being stripped, so a
    prefix that starts with white space is found in no line.  The error
    carries such a line, stripped, and the call raises it whatever the
    engine it would have run: the engine is not run. *)
Theorem prefixed_block_comment_error (is_decimal : char -> bool) (upper : str -> str)
  (fuel : nat) (comment : str) (start_col max_line_len : Z) (prefix : str) :
  ((exists line, In line (splitlines comment) /\ ~ prefixed_line_accepted prefix line)
   <-> (exists arg,
          format_prefixed_block_comment is_decimal upper fuel comment start_col
                                        max_line_len prefix
          = Raise (ValueError arg)))
  /\ (forall arg,
        format_prefixed_block_comment is_decimal upper fuel comment start_col
                                      max_line_len prefix
        = Raise (ValueError arg) ->
        (exists line, In line (splitlines comment)
                      /\ ~ prefixed_line_accepted prefix line /\ arg = strip line)
        /\ (forall run,
              format_prefixed_block_comment_with run comment start_col max_line_len prefix
              = Raise (ValueError arg)))
  /\ (forall c p line,
        prefix = c :: p -> is_space c = true -> prefixed_line_accepted prefix line ->
        strip line = rstrip prefix).
Proof.
  unfold format_prefixed_block_comment, format_prefixed_block_comment_with.
  split; [|split].
  3:{ intros c p line -> Hc [H|(x & rest & H & _)]; [exact H|].
      simpl in H. apply strip_head in H. congruence. }
  all: destruct (prefixed_content_lines_cases prefix (splitlines comment))
    as [(content & Ec & _ & Hall)|(before & line & after & Esplit & Hb & Hl & Ec)];
    rewrite Ec; cbn [bind].
  - assert (Hno : forall arg k,
               bind (engine is_decimal upper fuel content
                            (max_line_len - start_col - Z.of_nat (length prefix)))
                    (fun ls => Ok (k ls)) <> Raise (ValueError arg) :> res str).
    { intros arg k H.
      pose proof (sound_engine is_decimal upper fuel content
                    (max_line_len - start_col - Z.of_nat (length prefix))%Z) as Hs.
      destruct (engine _ _ _ _ _); simpl in *; try discriminate.
      inversion H; subst. destruct Hs; discriminate. }
    split.
    + intros (l & Hin & Hbad). rewrite Forall_forall in Hall. now apply Hall in Hin.
    + intros (arg & H). now apply Hno in H.
  - split; [intros _; now exists (strip line)|].
    intros _. exists line. split; [|assumption].
    rewrite Esplit. apply in_or_app. right. now left.
  - intros arg H. exfalso.
    pose proof (sound_engine is_decimal upper fuel content
                  (max_line_len - start_col - Z.of_nat (length prefix))%Z) as Hs.
    destruct (engine _ _ _ _ _); simpl in *; try discriminate.
    inversion H; subst. destruct Hs; discriminate.
  - intros arg H. inversion H; subst arg. split; [|reflexivity].
    exists line. repeat split; [|assumption].
    rewrite Esplit. apply in_or_app. right. now left.
Qed.

Section CommentWidth.

Import Formatter.

(** * The width of a formatted comment *)

Lemma indent_str_length (n : nat) : length (_indent_str n) = n.
Proof. apply repeat_length. Qed.

Lemma rstrip_comment_line (indent r : str) :
  forallb is_space indent = true -> rstrip r = r ->
  rstrip (indent ++ u " * " ++ r)
  = if is_empty r then indent ++ u " *" else indent ++ u " * " ++ r.
Proof.
  intros Hi Hr. destruct r as [|c r]; cbn [is_empty].
  - change (indent ++ u " * " ++ []) with (indent ++ (u " *" ++ u " ")).
    rewrite app_assoc, rstrip_snoc_space.
    change (indent ++ u " *") with (indent ++ ([ch " "] ++ [ch "*"])).
    rewrite app_assoc. now apply rstrip_keeps.
  - rewrite app_assoc. now apply rstrip_fixed_app.
Qed.

(** X9: a formatted C block comment keeps to the width.  When the
    content of the comment parses to paragraphs, lists, blockquotes and
    admonition boxes whose words fit the width left to them, the
    content is formatted at [max_line_len - start_col - 3] columns, and
    the comment returned is "/*", the content lines behind the
    indentation and " * " (" *" alone for an empty line), and the
    indentation and " */"; none of these lines is wider than
    [max_line_len]. *)
Theorem c_block_comment_within_width (is_decimal : char -> bool) (upper : str -> str)
  (fuel : nat) (comment : str) (start_col max_line_len : Z)
  (content : list str) (elems : list Elem) (ls : list str) :
  (0 <= start_col)%Z ->
  c_content_lines (splitlines comment) = Ok content ->
  Parser.elems is_decimal fuel content = Ok elems ->
  forallb (fun e => words_fit e (mkSelf (max_line_len - start_col - 3) (-1) (-1))) elems
  = true ->
  lines upper elems (max_line_len - start_col - 3) = Ok ls ->
  let indent := _indent_str (Z.to_nat start_col) in
  let out_lines :=
    u "/*"
    :: map (fun r => if is_empty r then indent ++ u " *" else indent ++ u " * " ++ r) ls
    ++ [indent ++ u " */"] in
  format_c_block_comment is_decimal upper fuel comment start_col max_line_len
  = Ok (join newline out_lines)
  /\ Forall (within max_line_len) out_lines.
Proof.
  intros Hcol Hcontent Hparse Hfit Hlines indent out_lines.
  pose proof (lines_within upper elems _ ls Hfit Hlines) as Hw.
  pose proof Hlines as Htrim. unfold lines, _Formatter in Htrim.
  apply elems_lines_trimmed in Htrim. destruct Htrim as ((front & final & E & Hfinal) & Htrim).
  assert (Hmax : (4 + start_col <= max_line_len)%Z).
  { rewrite E in Hw. apply Forall_app in Hw. destruct Hw as [_ Hw]. inversion Hw; subst.
    unfold within in H1. destruct final; [congruence|]. simpl in H1. lia. }
  assert (Hindent : length indent = Z.to_nat start_col) by apply indent_str_length.
  split.
  - unfold format_c_block_comment, format_c_block_comment_with, engine.
    rewrite Hcontent. cbn [bind]. rewrite Hparse. cbn [bind]. rewrite Hlines. cbn [bind].
    do 2 f_equal. unfold out_lines. cbn [app]. f_equal. f_equal.
    apply map_ext_Forall. eapply Forall_impl; [|exact Htrim]. intros r Hr.
    apply rstrip_comment_line; [|assumption]. now apply forallb_repeat.
  - unfold out_lines. constructor; [unfold within; simpl; lia|].
    apply Forall_app. split.
    + apply Forall_map. eapply Forall_impl; [|exact Hw]. intros r Hr. unfold within in *.
      destruct (is_empty r); rewrite !length_app, Hindent; simpl; lia.
    + constructor; [|constructor]. unfold within. rewrite length_app, Hindent. simpl. lia.
Qed.

Lemma c_block_comment_within_width_witness :
  format_c_block_comment ascii_decimal ascii_upper 100
    (u "/*" ++ newline ++ u " * aaa bbb ccc" ++ newline ++ u " */") 2 12
  = Ok (join newline [u "/*"; u "   * aaa"; u "   * bbb ccc"; u "   */"])
  /\ Forall (within 12) [u "/*"; u "   * aaa"; u "   * bbb ccc"; u "   */"].
Proof.
  apply (c_block_comment_within_width ascii_decimal ascii_upper 100
           (u "/*" ++ newline ++ u " * aaa bbb ccc" ++ newline ++ u " */") 2 12
           [u "aaa bbb ccc"] [_P [u "aaa"; u "bbb"; u "ccc"]] [u "aaa"; u "bbb ccc"]).
  - lia.
  - vm_compute. reflexivity.
  - vm_compute. reflexivity.
  - vm_compute. reflexivity.
  - vm_compute. reflexivity.
Defined.

(** X10: a formatted prefixed block comment keeps to the width.  When
    the content of the comment parses to paragraphs, lists, blockquotes
    and admonition boxes whose words fit the width left to them, the
    content is formatted at [max_line_len - start_col - len(prefix)]
    columns, and the comment returned is the content lines behind the
    indentation and the prefix, trimmed; none of these lines is wider
    than [max_line_len]. *)
Theorem prefixed_block_comment_within_width (is_decimal : char -> bool)
  (upper : str -> str) (fuel : nat) (comment : str) (start_col max_line_len : Z)
  (prefix : str) (content : list str) (elems : list Elem) (ls : list str) :
  (0 <= start_col)%Z ->
  prefixed_content_lines prefix (splitlines comment) = Ok content ->
  Parser.elems is_decimal fuel content = Ok elems ->
  forallb (fun e => words_fit e (mkSelf (max_line_len - start_col - Z.of_nat (length prefix))
                                        (-1) (-1))) elems = true ->
  lines upper elems (max_line_len - start_col - Z.of_nat (length prefix)) = Ok ls ->
  let out_lines :=
    map (fun r => rstrip (_indent_str (Z.to_nat start_col) ++ prefix ++ r)) ls in
  format_prefixed_block_comment is_decimal upper fuel comment start_col max_line_len prefix
  = Ok (join newline out_lines)
  /\ Forall (within max_line_len) out_lines.
Proof.
  intros Hcol Hcontent Hparse Hfit Hlines out_lines.
  pose proof (lines_within upper elems _ ls Hfit Hlines) as Hw.
  split.
  - unfold format_prefixed_block_comment, format_prefixed_block_comment_with, engine.
    rewrite Hcontent. cbn [bind]. rewrite Hparse. cbn [bind]. rewrite Hlines. reflexivity.
  - unfold out_lines. apply Forall_map. eapply Forall_impl; [|exact Hw].
    intros r Hr. apply within_rstrip. unfold within in *.
    rewrite !length_app, indent_str_length. lia.
Qed.

Lemma prefixed_block_comment_within_width_witness :
  format_prefixed_block_comment ascii_decimal ascii_upper 100
    (u "# aaa bbb ccc" ++ newline ++ u "#" ++ newline ++ u "# ddd") 2 11 (u "# ")
  = Ok (join newline [u "  # aaa"; u "  # bbb ccc"; u "  #"; u "  # ddd"])
  /\ Forall (within 11) [u "  # aaa"; u "  # bbb ccc"; u "  #"; u "  # ddd"].
Proof.
  apply (prefixed_block_comment_within_width ascii_decimal ascii_upper 100
           (u "# aaa bbb ccc" ++ newline ++ u "#" ++ newline ++ u "# ddd") 2 11 (u "# ")
           [u "aaa bbb ccc"; []; u "ddd"]
           [_P [u "aaa"; u "bbb"; u "ccc"]; _P [u "ddd"]]
           [u "aaa"; u "bbb ccc"; []; u "ddd"]).
  - lia.
  - vm_compute. reflexivity.
  - vm_compute. reflexivity.
  - vm_compute. reflexivity.
  - vm_compute. reflexivity.
Defined.

End CommentWidth.

(** * The two parts of a test file *)

Lemma split_ft_before : forall (before rest formol_lines : list str),
  Forall (fun l => is_separator l = false) before ->
  split_ft_lines (before ++ rest) false formol_lines []
  = split_ft_lines rest false (formol_lines ++ before) [].
Proof.
  induction before as [|l before IH]; intros rest formol_lines H.
  - now rewrite app_nil_r.
  - inversion H; subst. cbn [app split_ft_lines]. rewrite H2. cbn [andb].
    rewrite IH by assumption. now rewrite <- app_assoc.
Qed.

Lemma split_ft_separators : forall (seps rest formol_lines : list str) (in_expected : bool),
  Forall (fun l => is_separator l = true) seps ->
  split_ft_lines (seps ++ rest) in_expected formol_lines []
  = split_ft_lines rest (in_expected || negb (is_empty seps)) formol_lines [].
Proof.
  induction seps as [|l seps IH]; intros rest formol_lines in_expected H.
  - cbn [app is_empty negb]. now rewrite orb_false_r.
  - inversion H; subst. cbn [app split_ft_lines]. rewrite H2. cbn [length Nat.eqb andb].
    rewrite IH by assumption. cbn [is_empty negb orb]. now rewrite orb_true_r.
Qed.

Lemma split_ft_expected : forall (rest formol_lines expected_lines : list str),
  expected_lines <> [] ->
  split_ft_lines rest true formol_lines expected_lines
  = (formol_lines, expected_lines ++ rest).
Proof.
  induction rest as [|l rest IH]; intros formol_lines expected_lines H.
  - now rewrite app_nil_r.
  - cbn [split_ft_lines].
    replace (length expected_lines =? 0) with false
      by (destruct expected_lines; [congruence|reflexivity]).
    rewrite andb_false_r, IH by (destruct expected_lines; discriminate).
    now rewrite <- app_assoc.
Qed.

(** X11: the two parts of a test file.  The Formol text is the lines
    before the first line that is "---" once right-stripped; the
    expected text is the lines after the separators that follow one
    another there, right-stripped as a whole: a separator that comes
    after a line of the expected text is a line of it.  A file without a
    separator is all Formol text, and nothing is expected. *)
Theorem split_ft_file_parts (before seps after : list str) :
  Forall (fun l => is_separator l = false) before ->
  Forall (fun l => is_separator l = true) seps ->
  is_separator (hd [] after) = false ->
  (seps = [] -> after = []) ->
  _split_ft_file (before ++ seps ++ after) = (concat before, rstrip (concat after)).
Proof.
  intros Hb Hs Ha Hnone. unfold _split_ft_file.
  rewrite split_ft_before by assumption. rewrite split_ft_separators by assumption.
  cbn [app orb].
  destruct after as [|l after].
  - now destruct seps.
  - destruct seps as [|s seps]; [now specialize (Hnone eq_refl)|]. cbn [is_empty negb].
    cbn [hd] in Ha. cbn [split_ft_lines]. rewrite Ha. cbn [andb].
    now rewrite split_ft_expected by discriminate.
Qed.

Lemma split_ft_file_parts_witness :
  _split_ft_file [u "* a" ++ newline; u "--- " ++ newline; u "---" ++ newline;
                  u "• a" ++ newline; u "---" ++ newline; newline]
  = (u "* a" ++ newline, u "• a" ++ newline ++ u "---").
Proof.
  apply (split_ft_file_parts [u "* a" ++ newline]
           [u "--- " ++ newline; u "---" ++ newline]
           [u "• a" ++ newline; u "---" ++ newline; newline]).
  - repeat constructor.
  - repeat constructor.
  - reflexivity.
  - discriminate.
Defined.

Section Layout.

Import Formatter.

(** * The layout of lists and boxes *)

Section ItemLayout.

Variable F : list Elem -> Self -> res (list str).

Lemma indented_lines self elems n ls :
  _format_elems_indented F self elems n = Ok ls ->
  Forall (fun l => l = [] \/ exists text, l = repeat (ch " ") n ++ text) ls.
Proof.
  unfold _format_elems_indented. intros H. apply bind_Ok in H.
  destruct H as (inner & _ & H). inversion H; subst ls. apply Forall_map, Forall_forall.
  intros l _. destruct l as [|c l]; [now left|right]. now exists (c :: l).
Qed.

Lemma marked_item_lines (marker : str) (line0 : str) (rest r : list str) :
  Forall (fun l => l = [] \/ exists text, l = repeat (ch " ") (length marker + 1) ++ text)
         rest ->
  (lines <- _remove_trailing_empty_lines
              ((marker ++ u " " ++ skipn (length marker + 1) line0) :: rest) ;;
   Ok (lines ++ [[]])) = Ok r ->
  Forall (item_line marker) r
  /\ exists text more, r = (marker ++ u " " ++ text) :: more.
Proof.
  intros Hrest H. apply bind_Ok in H. destruct H as (lines & Hlines & H).
  inversion H; subst r. clear H.
  pose proof (remove_trailing_prefix _ _ Hlines) as Hp.
  assert (Hall : Forall (item_line marker)
                        ((marker ++ u " " ++ skipn (length marker + 1) line0) :: rest)).
  { constructor.
    - right. left. now eexists.
    - eapply Forall_impl; [|exact Hrest]. intros l [->|Hl]; [now left|now right; right]. }
  split.
  - apply Forall_app. split; [exact (prefix_of_Forall _ _ _ Hp Hall)|].
    constructor; [now left|constructor].
  - apply remove_trailing_Ok_nonempty in Hlines. destruct Hp as [tail Hp].
    destruct lines as [|l1 lines]; [congruence|]. inversion Hp; subst.
    now eexists _, _.
Qed.

Lemma ul_item_layout self item r :
  _ul_item_lines F (incr_ul self) item = Ok r ->
  Forall (item_line [ul_bullet self]) r
  /\ exists text more, r = ([ul_bullet self] ++ u " " ++ text) :: more.
Proof.
  unfold _ul_item_lines. intros H. apply bind_Ok in H. destruct H as (ls & Hls & H).
  apply indented_lines in Hls. destruct ls as [|line0 rest]; [discriminate|].
  inversion Hls; subst.
  exact (marked_item_lines [ul_bullet self] line0 rest r H3 H).
Qed.

Lemma ol_item_layout self items index item r :
  _ol_item_lines F self items index item = Ok r ->
  Forall (item_line (_make_ol_item_num self items index)) r
  /\ exists text more, r = (_make_ol_item_num self items index ++ u " " ++ text) :: more.
Proof.
  unfold _ol_item_lines. intros H. apply bind_Ok in H. destruct H as (ls & Hls & H).
  apply indented_lines in Hls. destruct ls as [|line0 rest]; [discriminate|].
  inversion Hls; subst.
  exact (marked_item_lines (_make_ol_item_num self items index) line0 rest r H3 H).
Qed.

Lemma compact_list_Forall {A} (Q : str -> Prop) (items : list A) ls :
  Q [] -> Forall Q ls -> Forall Q (_compact_list items ls).
Proof.
  intros Hq H. unfold _compact_list. destruct (_ =? _); [|assumption].
  apply Forall_app. split; [now apply filter_Forall|]. now constructor.
Qed.

End ItemLayout.


(** X13: an admonition box is a rectangle.  The lines of a formatted
    admonition box are its top, one line for each line of its content
    formatted four columns narrower, its bottom, and an empty line; the
    top, the bottom and every content line, padded, are all as wide as
    the widest content line and four columns more. *)
Theorem admon_box_is_rectangle (upper : str -> str) (self : Self) (elems : list Elem)
  (ls : list str) :
  _elem_lines upper (_AdmonBox elems) self = Ok ls ->
  exists content width top body bottom,
    _Formatter upper elems (narrow self 4) = Ok content
    /\ longest_len content = Ok width
    /\ ls = top :: body ++ [bottom; []]
    /\ length body = length content
    /\ Forall (fun l => length l = width + 4) (top :: body ++ [bottom])
    /\ Forall2 (fun l c => exists pad, l = u "│ " ++ c ++ repeat (ch " ") pad ++ u " │")
               body content.
Proof.
  rewrite elem_lines_AdmonBox. unfold _admon_box_lines, _format_elems. intros H.
  apply bind_Ok in H. destruct H as (content & Hcontent & H).
  apply bind_Ok in H. destruct H as (width & Hwidth & H). inversion H; subst ls. clear H.
  destruct (longest_len_bound _ _ Hwidth) as [Hle _].
  exists content, width. eexists _, _, _.
  split; [exact Hcontent|]. split; [exact Hwidth|]. split; [reflexivity|].
  split; [apply length_map|]. split.
  - constructor; [cbn [length app]; rewrite length_app, repeat_length; simpl; lia|].
    apply Forall_app. split.
    + apply Forall_map. eapply Forall_impl; [|exact Hle]. intros l Hl. cbv beta in Hl.
      unfold ljust. cbn [length app]. rewrite !length_app, repeat_length.
      replace (length (u " │")) with 2 by reflexivity. lia.
    + constructor; [|constructor].
      cbn [length app]. rewrite length_app, repeat_length. simpl. lia.
  - clear Hcontent Hwidth Hle. induction content as [|c content IH]; constructor; [|exact IH].
    exists (width - length c). unfold ljust. now rewrite <- app_assoc.
Qed.

Lemma admon_box_is_rectangle_witness :
  exists content width top body bottom,
    _Formatter ascii_upper [_P [u "NOTE:"; u "a"; u "bb"]] (narrow (mkSelf 11 (-1) (-1)) 4)
    = Ok content
    /\ longest_len content = Ok width
    /\ [u "┌───────┐"; u "│ NOTE: │"; u "│ a bb  │"; u "└───────┘"; []]
       = top :: body ++ [bottom; []]
    /\ length body = length content
    /\ Forall (fun l => length l = width + 4) (top :: body ++ [bottom])
    /\ Forall2 (fun l c => exists pad, l = u "│ " ++ c ++ repeat (ch " ") pad ++ u " │")
               body content.
Proof.
  apply (admon_box_is_rectangle ascii_upper (mkSelf 11 (-1) (-1))
           [_P [u "NOTE:"; u "a"; u "bb"]]).
  vm_compute. reflexivity.
Defined.

End Layout.

Section CharsPatterns.

Import Parser.

(** * The characters of the elements *)

Lemma returns_bind {A B} (P : A -> Prop) (R : B -> Prop) (r : res A) (k : A -> res B) :
  returns P r -> (forall a, P a -> returns R (k a)) -> returns R (bind r k).
Proof.
  intros Hr Hk b H. apply bind_Ok in H. destruct H as (a & Ha & Hb).
  exact (Hk a (Hr a Ha) b Hb).
Qed.

Lemma returns_any_bind {A B} (R : B -> Prop) (r : res A) (k : A -> res B) :
  (forall a, returns R (k a)) -> returns R (bind r k).
Proof.
  intros Hk. apply (returns_bind (fun _ => True)); [intros a _; exact I|auto].
Qed.

Lemma returns_Ok {A} (P : A -> Prop) (a : A) : P a -> returns P (Ok a).
Proof. intros H b E. inversion E; subst. exact H. Qed.

Lemma returns_Raise {A} (P : A -> Prop) e : returns P (Raise e).
Proof. intros a H. discriminate. Qed.

Lemma returns_OutOfFuel {A} (P : A -> Prop) : returns P OutOfFuel.
Proof. intros a H. discriminate. Qed.

Lemma found_None {A} (P : A -> Prop) p : found P (Ok (None, p)).
Proof. apply returns_Ok. discriminate. Qed.

Lemma found_Some {A} (P : A -> Prop) a p : P a -> found P (Ok (Some a, p)).
Proof. intros H. apply returns_Ok. intros b E. inversion E; subst. exact H. Qed.

Section CharsOfStrings.

Variable Q : char -> bool.

Lemma chars_incl (g s : str) : incl g s -> forallb Q s = true -> forallb Q g = true.
Proof. rewrite !forallb_forall. intros Hi Hs x Hx. apply Hs, Hi, Hx. Qed.

Lemma chars_prefix (g s : str) : prefix_of g s -> forallb Q s = true -> forallb Q g = true.
Proof. intros [t ->]. rewrite forallb_app. intros H. now apply andb_true_iff in H. Qed.

Lemma chars_app (a b : str) :
  forallb Q (a ++ b) = true <-> forallb Q a = true /\ forallb Q b = true.
Proof. rewrite forallb_app. apply andb_true_iff. Qed.

Lemma chars_take_while p (s : str) : forallb Q s = true -> forallb Q (take_while p s) = true.
Proof. apply chars_prefix, take_while_prefix. Qed.

Lemma chars_drop_while p (s : str) : forallb Q s = true -> forallb Q (drop_while p s) = true.
Proof.
  intros H. rewrite <- (take_drop_while p s) in H. now apply chars_app in H.
Qed.

Lemma chars_skipn n (s : str) : forallb Q s = true -> forallb Q (skipn n s) = true.
Proof. intros H. rewrite <- (firstn_skipn n s) in H. now apply chars_app in H. Qed.

Lemma chars_rev (s : str) : forallb Q s = true -> forallb Q (rev s) = true.
Proof. apply chars_incl. intros x Hx. now apply in_rev. Qed.

Lemma chars_rstrip (s : str) : forallb Q s = true -> forallb Q (rstrip s) = true.
Proof. intros H. unfold rstrip. now apply chars_rev, chars_drop_while, chars_rev. Qed.

Lemma chars_strip (s : str) : forallb Q s = true -> forallb Q (strip s) = true.
Proof. intros H. unfold strip, lstrip. now apply chars_drop_while, chars_rstrip. Qed.

Lemma chars_strip_prefix prefix (s rest : str) :
  strip_prefix prefix s = Some rest -> forallb Q s = true -> forallb Q rest = true.
Proof. intros H Hs. apply strip_prefix_Some in H. subst s. now apply chars_app in Hs. Qed.

Lemma chars_unsnoc (s front : str) x :
  unsnoc s = Some (front, x) -> forallb Q s = true -> forallb Q front = true.
Proof. intros H Hs. apply unsnoc_Some in H. subst s. now apply chars_app in Hs. Qed.

Lemma chars_text_group (s g : str) :
  text_group s = Some g -> forallb Q s = true -> forallb Q g = true.
Proof. intros H. apply text_group_prefix in H. apply chars_prefix, H. Qed.

Lemma chars_bullet_line cur first :
  match_bullet_line cur = Some first -> forallb Q cur = true -> forallb Q first = true.
Proof.
  unfold match_bullet_line. destruct cur as [|b [|sp rest]]; try discriminate.
  destruct (_ && _); [|discriminate]. intros H Hc. apply (chars_text_group _ _ H).
  now apply (chars_skipn 2) in Hc.
Qed.

Lemma chars_ol_dotted cur num first :
  ol_dotted cur = Some (num, first) -> forallb Q cur = true -> forallb Q first = true.
Proof.
  unfold ol_dotted. destruct (strip_prefix _ cur) as [r|] eqn:E; [|discriminate].
  destruct (text_group r) eqn:Eg; [|discriminate]. intros H Hc. inversion H; subst.
  eapply chars_text_group; [exact Eg|]. eapply chars_strip_prefix; eassumption.
Qed.

Lemma chars_ol_lettered cur num first :
  ol_lettered cur = Some (num, first) -> forallb Q cur = true -> forallb Q first = true.
Proof.
  unfold ol_lettered. destruct cur as [|c r0]; [discriminate|].
  destruct (_ && _); [|discriminate].
  destruct (strip_prefix _ r0) as [r|] eqn:E; [|discriminate].
  destruct (text_group r) eqn:Eg; [|discriminate]. intros H Hc. inversion H; subst.
  eapply chars_text_group; [exact Eg|]. eapply chars_strip_prefix; [exact E|].
  now apply (chars_skipn 1) in Hc.
Qed.

Lemma chars_ol_numbered is_decimal cur num first :
  ol_numbered is_decimal cur = Some (num, first) ->
  forallb Q cur = true -> forallb Q first = true.
Proof.
  unfold ol_numbered. cbv zeta. destruct (is_empty _); [discriminate|].
  destruct (strip_prefix _ _) as [r|] eqn:E; [|discriminate].
  destruct (text_group r) eqn:Eg; [|discriminate]. intros H Hc. inversion H; subst.
  eapply chars_text_group; [exact Eg|]. eapply chars_strip_prefix; [exact E|].
  now apply chars_drop_while, chars_drop_while.
Qed.

Lemma chars_ol_item_start is_decimal cur num first :
  match_ol_item_start is_decimal cur = Some (num, first) ->
  forallb Q cur = true -> forallb Q first = true.
Proof.
  unfold match_ol_item_start. intros H.
  destruct (ol_numbered is_decimal cur) as [[n f]|] eqn:E1.
  { inversion H; subst. eapply chars_ol_numbered, E1. }
  destruct (ol_dotted cur) as [[n f]|] eqn:E2.
  { inversion H; subst. eapply chars_ol_dotted, E2. }
  eapply chars_ol_lettered, H.
Qed.

Lemma chars_dt_split : forall s g1 g2,
  dt_split s = Some (g1, g2) -> forallb Q s = true ->
  forallb Q g1 = true /\ forallb Q g2 = true.
Proof.
  induction s as [|c s IH]; intros g1 g2 H Hs; [discriminate|]. cbn [dt_split] in H.
  destruct (is_dot c); [|discriminate].
  cbn [forallb] in Hs. apply andb_true_iff in Hs. destruct Hs as [Hc Hs].
  destruct (dt_split s) as [[a b]|] eqn:E.
  - inversion H; subst. destruct (IH a g2 eq_refl Hs) as [Ha Hb].
    split; [cbn [forallb]; now rewrite Hc, Ha|assumption].
  - unfold dt_here in H. destruct (strip_prefix _ (c :: s)) as [r|] eqn:Er; [|discriminate].
    destruct (text_group r) eqn:Eg; [|discriminate]. inversion H; subst.
    split; [reflexivity|]. eapply chars_text_group; [exact Eg|].
    eapply chars_strip_prefix; [exact Er|]. cbn [forallb]. now rewrite Hc, Hs.
Qed.

Lemma chars_single_line_dt cur term def :
  match_single_line_dt cur = Some (term, def) -> forallb Q cur = true ->
  forallb Q term = true /\ forallb Q def = true.
Proof.
  unfold match_single_line_dt. destruct cur as [|c r]; [discriminate|].
  destruct (is_space c); [discriminate|].
  destruct (dt_split r) as [[g1 g2]|] eqn:E; [|discriminate]. intros H Hs.
  inversion H; subst. cbn [forallb] in Hs. apply andb_true_iff in Hs.
  destruct Hs as [Hc Hs]. destruct (chars_dt_split _ _ _ E Hs) as [H1 H2].
  split; [cbn [forallb]; now rewrite Hc, H1|assumption].
Qed.

Lemma chars_chomp (s : str) : forallb Q s = true -> forallb Q (chomp s) = true.
Proof.
  unfold chomp. destruct (unsnoc s) as [[front x]|] eqn:E; [|auto].
  destruct (x =? 10)%N; [|auto]. now apply (chars_unsnoc _ _ _ E).
Qed.

Lemma chars_dt line term :
  match_dt line = Some term -> forallb Q line = true -> forallb Q term = true.
Proof.
  unfold match_dt. intros H Hs. apply chars_chomp in Hs.
  destruct (chomp line) as [|c r]; [discriminate|].
  destruct (is_space c); [discriminate|].
  destruct (unsnoc r) as [[mid x]|] eqn:E; [|discriminate].
  destruct (_ && _); [|discriminate]. inversion H; subst.
  cbn [forallb] in *. apply andb_true_iff in Hs. destruct Hs as [Hc Hs].
  now rewrite Hc, (chars_unsnoc _ _ _ E Hs).
Qed.

Lemma chars_admon_line l g :
  match_admon_line l = Some g -> forallb Q l = true -> forallb Q g = true.
Proof.
  unfold match_admon_line. destruct l as [|c [|sp r]]; try discriminate.
  destruct (_ && _); [|discriminate]. intros H Hs. inversion H; subst.
  apply chars_take_while. now apply (chars_skipn 2) in Hs.
Qed.

Lemma chars_literal s lit rest :
  match_literal s = Some (lit, rest) -> forallb Q s = true ->
  forallb Q lit = true /\ forallb Q rest = true.
Proof.
  unfold match_literal. intros H Hs.
  assert (Hgen : forall bracket s1,
             forallb Q bracket = true -> forallb Q s1 = true ->
             match s1 with
             | q :: s2 =>
                 if char_eqb q (ch "`") then
                   match drop_while (fun c => negb (char_eqb c (ch "`"))) s2 with
                   | q' :: s3 =>
                       Some (bracket ++ [q] ++ take_while (fun c => negb (char_eqb c (ch "`"))) s2
                             ++ [q'] ++ take_while (fun c => negb (is_space c)) s3,
                             drop_while (fun c => negb (is_space c)) s3)
                   | [] => None
                   end
                 else None
             | [] => None
             end = Some (lit, rest) ->
             forallb Q lit = true /\ forallb Q rest = true).
  { intros bracket s1 Hb H1 E. destruct s1 as [|q s2]; [discriminate|].
    destruct (char_eqb q _); [|discriminate].
    cbn [forallb] in H1. apply andb_true_iff in H1. destruct H1 as [Hq H2].
    pose proof (chars_drop_while (fun c => negb (char_eqb c (ch "`"))) s2 H2) as Hd.
    destruct (drop_while _ s2) as [|q' s3]; [discriminate|]. inversion E; subst.
    cbn [forallb] in Hd. apply andb_true_iff in Hd. destruct Hd as [Hq' H3].
    split; [|now apply chars_drop_while].
    apply chars_app; split; [assumption|].
    cbn [forallb]. rewrite Hq. cbn [andb].
    apply chars_app; split; [now apply chars_take_while|].
    cbn [forallb]. rewrite Hq'. now apply chars_take_while. }
  destruct s as [|c r].
  - now apply (Hgen [] []).
  - destruct (char_in _ c).
    + apply (Hgen [c] r); [| |exact H]; cbn [forallb] in *;
        apply andb_true_iff in Hs; destruct Hs as [Hc Hr]; [now rewrite Hc|assumption].
    + now apply (Hgen [] (c :: r)).
Qed.

Lemma chars_scan_text : forall fuel text acc,
  forallb Q text = true -> Forall (fun w => forallb Q w = true) acc ->
  returns (Forall (fun w => forallb Q w = true)) (scan_text fuel text acc).
Proof.
  induction fuel as [|fuel IH]; intros text acc Ht Hacc; [apply returns_OutOfFuel|].
  cbn [scan_text]. destruct text as [|c text']; [now apply returns_Ok|].
  destruct (match_literal (c :: text')) as [[lit rest]|] eqn:El.
  - destruct (chars_literal _ _ _ El Ht) as [Hl Hr].
    apply IH; [assumption|]. apply Forall_app. split; [assumption|now constructor].
  - destruct (match_word (c :: text')) as [[w rest]|] eqn:Ew.
    + pose proof (match_word_rest _ _ _ Ew) as [E _]. rewrite E in Ht.
      apply chars_app in Ht. destruct Ht as [Hw Hr].
      apply IH; [assumption|]. destruct (1 <=? length (strip w)); [|assumption].
      apply Forall_app. split; [assumption|]. constructor; [|constructor].
      now apply chars_strip.
    + now apply IH.
Qed.

Lemma chars_join (sep : str) (ls : list str) :
  forallb Q sep = true -> Forall (fun l => forallb Q l = true) ls ->
  forallb Q (join sep ls) = true.
Proof.
  intros Hsep. induction 1 as [|l ls Hl Hall IH]; [reflexivity|].
  destruct ls as [|l' ls']; [exact Hl|].
  change (join sep (l :: l' :: ls')) with (l ++ sep ++ join sep (l' :: ls')).
  rewrite !forallb_app, Hl, Hsep. exact IH.
Qed.

(** *** The loops over the lines *)

Lemma chars_prefix_lines (a b : list str) :
  prefix_of a b -> Forall (fun l => forallb Q l = true) b ->
  Forall (fun l => forallb Q l = true) a.
Proof. apply prefix_of_Forall. Qed.

Lemma chars_skipn_lines n (ls : list str) :
  Forall (fun l => forallb Q l = true) ls ->
  Forall (fun l => forallb Q l = true) (skipn n ls).
Proof. intros H. rewrite <- (firstn_skipn n ls) in H. now apply Forall_app in H. Qed.

Lemma chars_take_terms (rest : list str) :
  Forall (fun l => forallb Q l = true) rest ->
  Forall (fun l => forallb Q l = true) (take_terms rest).
Proof.
  induction 1 as [|l rest Hl _ IH]; [constructor|]. cbn [take_terms].
  destruct (match_dt l) eqn:E; [|constructor]. constructor; [|exact IH].
  eapply chars_dt; eassumption.
Qed.

Lemma chars_quoted_lines (rest : list str) :
  Forall (fun l => forallb Q l = true) rest ->
  Forall (fun l => forallb Q l = true) (quoted_lines rest).
Proof.
  induction 1 as [|l rest Hl _ IH]; [constructor|]. rewrite quoted_lines_cons.
  destruct (str_eqb l _); [now constructor|].
  destruct (strip_prefix _ l) eqn:E; [|constructor]. constructor; [|exact IH].
  eapply chars_strip_prefix; eassumption.
Qed.

Lemma chars_admon_content (rest : list str) :
  Forall (fun l => forallb Q l = true) rest ->
  Forall (fun l => forallb Q l = true) (fst (admon_content rest)).
Proof.
  induction 1 as [|l rest Hl _ IH]; [constructor|]. rewrite admon_content_cons.
  destruct (startswith l _); [constructor|].
  destruct (admon_content rest) as [ls n]. cbn [fst] in IH.
  destruct (match_admon_blank l); [now constructor|].
  destruct (match_admon_line l) eqn:E; [|exact IH]. constructor; [|exact IH].
  apply chars_rstrip. eapply chars_admon_line; eassumption.
Qed.

Lemma chars_unindent_lines (ls : list str) count :
  Forall (fun l => forallb Q l = true) ls ->
  Forall (fun l => forallb Q l = true) (_unindent_lines ls count).
Proof.
  intros H. unfold _unindent_lines. apply Forall_map.
  eapply Forall_impl; [|exact H]. intros l Hl. cbv beta.
  destruct (startswith l _); [now apply chars_skipn|assumption].
Qed.

End CharsOfStrings.

End CharsPatterns.

Section CharsParser.

Import Parser.

(** * The characters of the parsed elements *)

Section ParserChars.

Variable Q : char -> bool.
Variable is_decimal : char -> bool.
Variable parse_sub : list str -> res (list Elem).
Variable fuel : nat.
Variable _lines : list str.

Hypothesis Q_space : Q (ch " ") = true.
Hypothesis lines_Q : Forall (fun l => forallb Q l = true) _lines.
Hypothesis parse_sub_Q :
  forall ls, Forall (fun l => forallb Q l = true) ls ->
             returns (fun es => forallb (elem_chars Q) es = true) (parse_sub ls).

Lemma returns_cur_line _at :
  returns (fun cur => forallb Q cur = true) (_cur_line _lines _at).
Proof.
  unfold _cur_line. destruct (nth_error _lines _at) as [l|] eqn:E; [|apply returns_Raise].
  apply returns_Ok. apply nth_error_In in E. rewrite Forall_forall in lines_Q. now apply lines_Q.
Qed.

Lemma rest_Q n : Forall (fun l => forallb Q l = true) (skipn n _lines).
Proof. now apply chars_skipn_lines. Qed.

Lemma returns_remove_trailing (ls : list str) :
  Forall (fun l => forallb Q l = true) ls ->
  returns (Forall (fun l => forallb Q l = true)) (_remove_trailing_empty_lines ls).
Proof. intros H r Hr. apply remove_trailing_prefix in Hr. eapply prefix_of_Forall; eassumption. Qed.

Lemma block_lines_Q cont n :
  Forall (fun l => forallb Q l = true) (block_lines cont (skipn n _lines)).
Proof. eapply prefix_of_Forall; [apply block_lines_prefix|apply rest_Q]. Qed.

Lemma chars_heading mk prefix c _at :
  (forall text, elem_chars Q (mk text) = forallb Q text) ->
  found (fun e => elem_chars Q e = true) (_try_parse_heading _lines mk prefix c _at).
Proof.
  intros Hmk. unfold _try_parse_heading.
  eapply returns_bind; [apply returns_cur_line|]. intros cur Hcur. cbv beta in Hcur.
  assert (Hunder : found (fun e => elem_chars Q e = true)
                     (if match_underline c (_next_line _lines _at)
                      then _at' <- _goto_next_line _lines _at 2 ;; Ok (Some (mk cur), _at')
                      else Ok (None, _at))).
  { destruct (match_underline _ _); [|apply found_None].
    apply returns_any_bind. intros p. apply found_Some. now rewrite Hmk. }
  unfold match_heading_prefix.
  destruct (strip_prefix _ cur) as [r|] eqn:E; [|exact Hunder].
  destruct (text_group r) as [g|] eqn:Eg; [|exact Hunder].
  destruct (is_empty _); [|exact Hunder].
  apply returns_any_bind. intros p. apply found_Some. rewrite Hmk.
  eapply chars_text_group; [exact Eg|]. eapply chars_strip_prefix; eassumption.
Qed.

Lemma chars_item_loop {T} (P : T -> Prop) (f : rule T) :
  (forall _at, found P (f _at)) ->
  forall k _at items,
    Forall P items -> returns (fun r => Forall P (fst r)) (item_loop _lines f k _at items).
Proof.
  intros Hf. induction k as [|k IH]; intros _at items Hitems; [apply returns_OutOfFuel|].
  cbn [item_loop]. destruct (_is_done _ _); [now apply returns_Ok|].
  eapply returns_bind; [apply Hf|]. intros [[item|] p] Hp; [|now apply returns_Ok].
  apply IH. apply Forall_app. split; [assumption|]. constructor; [|constructor].
  now apply Hp.
Qed.

Lemma chars_simple_list mk (f : rule _SimpleListItem) _at :
  (forall items, elem_chars Q (mk items) = forallb (forallb (elem_chars Q)) items) ->
  (forall _at, found (fun item => forallb (elem_chars Q) item = true) (f _at)) ->
  found (fun e => elem_chars Q e = true) (_try_parse_simple_list fuel _lines mk f _at).
Proof.
  intros Hmk Hf. unfold _try_parse_simple_list.
  eapply returns_bind; [apply (chars_item_loop _ f Hf); constructor|].
  intros [items p] Hitems. cbn [fst] in Hitems.
  destruct (1 <=? length items); [|apply found_None].
  apply found_Some. rewrite Hmk. now apply forallb_Forall.
Qed.

Lemma chars_ul_item _at :
  found (fun item => forallb (elem_chars Q) item = true)
        (_try_parse_ul_item parse_sub _lines _at).
Proof.
  unfold _try_parse_ul_item.
  eapply returns_bind; [apply returns_cur_line|]. intros cur Hcur. cbv beta in Hcur.
  destruct (match_bullet_line cur) as [first|] eqn:E; [|apply found_None].
  apply returns_any_bind. intros _at1.
  eapply returns_bind.
  - apply returns_remove_trailing. constructor; [|apply block_lines_Q].
    eapply chars_bullet_line; eassumption.
  - intros ls Hls. eapply returns_bind.
    + apply parse_sub_Q. now apply chars_unindent_lines.
    + intros es Hes. now apply found_Some.
Qed.

Lemma chars_ol_item _at :
  found (fun item => forallb (elem_chars Q) item = true)
        (_try_parse_ol_item is_decimal parse_sub _lines _at).
Proof.
  unfold _try_parse_ol_item.
  eapply returns_bind; [apply returns_cur_line|]. intros cur Hcur. cbv beta in Hcur.
  destruct (match_ol_item_start is_decimal cur) as [[num first]|] eqn:E; [|apply found_None].
  apply returns_any_bind. intros _at1. cbv zeta.
  eapply returns_bind.
  - apply returns_remove_trailing. constructor; [|apply block_lines_Q].
    eapply chars_ol_item_start; eassumption.
  - intros ls Hls. eapply returns_bind.
    + apply parse_sub_Q. now apply chars_unindent_lines.
    + intros es Hes. now apply found_Some.
Qed.

Lemma chars_dl_item _at :
  found (fun item : _DlItem =>
           forallb (forallb Q) (fst item) && forallb (elem_chars Q) (snd item) = true)
        (_try_parse_dl_item parse_sub _lines _at).
Proof.
  unfold _try_parse_dl_item, _try_parse_single_line_dl_item.
  eapply returns_bind.
  - eapply returns_bind; [apply returns_cur_line|]. intros cur Hcur. cbv beta in Hcur.
    instantiate (1 := fun p => forall a, fst p = Some a ->
                   forallb (forallb Q) (fst a) && forallb (elem_chars Q) (snd a) = true).
    destruct (match_single_line_dt cur) as [[term def]|] eqn:E; [|apply found_None].
    destruct (chars_single_line_dt Q _ _ _ E Hcur) as [Ht Hd].
    apply returns_any_bind. intros _at'. eapply returns_bind.
    + apply parse_sub_Q. constructor; [exact Hd|constructor].
    + intros es Hes. apply found_Some. cbn [fst snd forallb]. now rewrite Ht, Hes.
  - intros [[item|] begin_at] Hitem; [now apply found_Some, Hitem|].
    destruct (length _ =? 0); [apply found_None|].
    destruct (_ || _); [apply found_None|].
    eapply returns_bind; [apply returns_remove_trailing, block_lines_Q|].
    intros ls Hls. eapply returns_bind.
    + apply parse_sub_Q. now apply chars_unindent_lines.
    + intros es Hes. apply found_Some. cbn [fst snd]. rewrite Hes, andb_true_r.
      apply forallb_Forall. apply chars_take_terms, rest_Q.
Qed.

Lemma chars_dl _at :
  found (fun e => elem_chars Q e = true) (_try_parse_dl parse_sub fuel _lines _at).
Proof.
  unfold _try_parse_dl.
  eapply returns_bind; [apply (chars_item_loop _ _ chars_dl_item); constructor|].
  intros [items p] Hitems. cbn [fst] in Hitems.
  destruct (1 <=? length items); [|apply found_None].
  apply found_Some. cbn [elem_chars]. now apply forallb_Forall.
Qed.

Lemma chars_pre_indented _at :
  found (fun e => elem_chars Q e = true) (_try_parse_pre_indented _lines _at).
Proof.
  unfold _try_parse_pre_indented. apply returns_any_bind. intros cur.
  destruct (negb _); [apply found_None|].
  eapply returns_bind; [apply returns_remove_trailing, block_lines_Q|].
  intros ls Hls. apply found_Some. cbn [elem_chars].
  now apply forallb_Forall, chars_unindent_lines.
Qed.

Lemma chars_delim_block delim _at :
  found (Forall (fun l => forallb Q l = true)) (_try_parse_delim_block _lines delim _at).
Proof.
  unfold _try_parse_delim_block. apply returns_any_bind. intros cur.
  destruct (negb _); [apply found_None|].
  apply returns_any_bind. intros _at1.
  pose proof (delim_content_facts delim (skipn _at1 _lines)) as [Hp _].
  destruct (delim_content delim (skipn _at1 _lines)) as [ls n]. cbn [fst] in Hp.
  eapply returns_bind.
  - apply returns_remove_trailing. eapply prefix_of_Forall; [exact Hp|apply rest_Q].
  - intros r Hr. destruct (1 <=? length r); [now apply found_Some|apply found_None].
Qed.

Lemma chars_pre_delim _at :
  found (fun e => elem_chars Q e = true) (_try_parse_pre_delim _lines _at).
Proof.
  unfold _try_parse_pre_delim. eapply returns_bind; [apply chars_delim_block|].
  intros [[ls|] p] Hls; [|apply found_None]. apply found_Some. cbn [elem_chars].
  now apply forallb_Forall, Hls.
Qed.

Lemma chars_delim_elems (mk : list Elem -> Elem) delim _at :
  (forall es, elem_chars Q (mk es) = forallb (elem_chars Q) es) ->
  found (fun e => elem_chars Q e = true)
        (' (lines, _at') <- _try_parse_delim_block _lines delim _at ;;
         match lines with
         | Some lines => elems <- parse_sub lines ;; Ok (Some (mk elems), _at')
         | None => Ok (None, _at')
         end).
Proof.
  intros Hmk. eapply returns_bind; [apply chars_delim_block|].
  intros [[ls|] p] Hls; [|apply found_None].
  eapply returns_bind; [apply parse_sub_Q; now apply Hls|].
  intros es Hes. apply found_Some. now rewrite Hmk.
Qed.

Lemma chars_p _at :
  found (fun e => elem_chars Q e = true) (_try_parse_p fuel _lines _at).
Proof.
  unfold _try_parse_p, _p_elem_from_text. destruct (1 <=? _); [|apply found_None].
  eapply returns_bind.
  - eapply returns_bind.
    + apply chars_scan_text; [|constructor].
      apply chars_join; [change (u " ") with [ch " "]; cbn [forallb]; now rewrite Q_space|].
      eapply prefix_of_Forall; [apply paragraph_lines_prefix|apply rest_Q].
    + intros ws Hws. apply returns_Ok.
      instantiate (1 := fun e => elem_chars Q e = true). cbn [elem_chars].
      now apply forallb_Forall.
  - intros e He. now apply found_Some.
Qed.

Lemma chars_hr _at : found (fun e => elem_chars Q e = true) (_try_parse_hr _lines _at).
Proof.
  unfold _try_parse_hr. apply returns_any_bind. intros cur.
  destruct (_ || _); [|apply found_None].
  apply returns_any_bind. intros p. now apply found_Some.
Qed.

Lemma chars_blockquote_prefixed _at :
  found (fun e => elem_chars Q e = true) (_try_parse_blockquote_prefixed parse_sub _lines _at).
Proof.
  unfold _try_parse_blockquote_prefixed. destruct (1 <=? _); [|apply found_None].
  eapply returns_bind; [apply parse_sub_Q, chars_quoted_lines, rest_Q|].
  intros es Hes. now apply found_Some.
Qed.

Lemma chars_verbatim _at :
  found (fun e => elem_chars Q e = true) (_try_parse_verbatim is_decimal _lines _at).
Proof.
  unfold _try_parse_verbatim. destruct (1 <=? _); [|apply found_None].
  apply found_Some. cbn [elem_chars]. apply forallb_Forall.
  eapply prefix_of_Forall; [apply take_while_prefix|apply rest_Q].
Qed.

Lemma chars_admon_box _at :
  found (fun e => elem_chars Q e = true) (_try_parse_admon_box parse_sub _lines _at).
Proof.
  unfold _try_parse_admon_box. apply returns_any_bind. intros cur.
  destruct (negb _); [apply found_None|]. destruct (negb _); [apply found_None|].
  apply returns_any_bind. intros _at1.
  pose proof (chars_admon_content Q _ (rest_Q _at1)) as Hc.
  destruct (admon_content (skipn _at1 _lines)) as [ls n]. cbn [fst] in Hc.
  eapply returns_bind; [apply parse_sub_Q, Hc|].
  intros es Hes. now apply found_Some.
Qed.

Lemma chars_try_funcs (fs : list (rule Elem)) :
  Forall (fun f => forall _at, found (fun e => elem_chars Q e = true) (f _at)) fs ->
  forall _at, found (fun e => elem_chars Q e = true) (try_funcs fs _at).
Proof.
  induction 1 as [|f fs Hf _ IH]; intros _at; cbn [try_funcs]; [apply found_None|].
  eapply returns_bind; [apply Hf|]. intros [[e|] p] He; [|apply IH].
  apply found_Some. now apply He.
Qed.

Lemma chars_funcs :
  Forall (fun f => forall _at, found (fun e => elem_chars Q e = true) (f _at))
         (funcs is_decimal parse_sub fuel _lines).
Proof.
  unfold funcs. repeat constructor.
  - intros _at. now apply chars_heading.
  - intros _at. now apply chars_heading.
  - intros _at. apply chars_simple_list; [reflexivity|apply chars_ul_item].
  - intros _at. apply chars_simple_list; [reflexivity|apply chars_ol_item].
  - apply chars_dl.
  - apply chars_pre_delim.
  - apply chars_pre_indented.
  - apply chars_hr.
  - intros _at. now apply chars_delim_elems.
  - apply chars_blockquote_prefixed.
  - intros _at. now apply chars_delim_elems.
  - apply chars_admon_box.
  - apply chars_verbatim.
  - apply chars_p.
Qed.

Lemma chars_parse : forall k _at acc,
  forallb (elem_chars Q) acc = true ->
  returns (fun es => forallb (elem_chars Q) es = true)
          (_parse is_decimal parse_sub fuel _lines k _at acc).
Proof.
  induction k as [|k IH]; intros _at acc Hacc; [apply returns_OutOfFuel|].
  rewrite parse_S. cbv zeta. destruct (_is_done _ _); [now apply returns_Ok|].
  eapply returns_bind; [apply (chars_try_funcs _ chars_funcs)|].
  intros [[e|] p] He; [|now apply IH]. apply IH.
  rewrite forallb_app, Hacc. cbn [forallb]. now rewrite (He e eq_refl).
Qed.

End ParserChars.

(** The parser keeps the characters of the lines. *)
Lemma chars_elems (Q : char -> bool) (is_decimal : char -> bool) :
  Q (ch " ") = true ->
  forall fuel lines,
    Forall (fun l => forallb Q l = true) lines ->
    returns (fun es => forallb (elem_chars Q) es = true) (elems is_decimal fuel lines).
Proof.
  intros Hsp. induction fuel as [|fuel IH]; intros lines Hlines; [apply returns_OutOfFuel|].
  cbn [elems]. apply chars_parse; auto.
Qed.

End CharsParser.

Section CharsFormatter.

Import Formatter.

(** * The characters of the formatted lines *)

Lemma emitted_digits (d : Decimal.uint) : forallb emitted (uint_str d) = true.
Proof. induction d; cbn [uint_str forallb]; try reflexivity; now rewrite IHd. Qed.

Lemma emitted_int (n : Z) : forallb emitted (str_of_int n) = true.
Proof.
  unfold str_of_int. destruct (Z.to_int n); [apply emitted_digits|].
  cbn [forallb]. now rewrite emitted_digits.
Qed.

Lemma emitted_letter (index : nat) : emitted (ch "a" + N.of_nat (index mod 26))%N = true.
Proof.
  pose proof (Nat.mod_upper_bound index 26 ltac:(lia)) as H.
  unfold emitted. apply orb_true_iff. right.
  change (ch "a") with 97%N. apply andb_true_iff. split; apply N.leb_le; lia.
Qed.

Lemma emitted_ol_item_num self (items : list _SimpleListItem) index :
  forallb emitted (_make_ol_item_num self items index) = true.
Proof.
  unfold _make_ol_item_num. destruct (_ =? 0)%Z.
  - cbv zeta. unfold rjust. rewrite !forallb_app, emitted_int, andb_true_r.
    rewrite forallb_repeat by reflexivity. reflexivity.
  - cbn [app forallb]. now rewrite emitted_letter.
Qed.

Lemma emitted_bullet (level : Z) :
  emitted (nth (Z.to_nat (level mod 3)) (u "•‣⁃") 0%N) = true.
Proof.
  pose proof (Z.mod_pos_bound level 3 eq_refl) as Hb.
  assert (H : Z.to_nat (level mod 3) = 0 \/ Z.to_nat (level mod 3) = 1
              \/ Z.to_nat (level mod 3) = 2) by lia.
  destruct H as [-> | [-> | ->]]; reflexivity.
Qed.

Section FormatterChars.

Variable Q : char -> bool.
Variable upper : str -> str.

Hypothesis Q_emitted : forall c, emitted c = true -> Q c = true.
Hypothesis upper_Q : forall s, forallb Q s = true -> forallb Q (upper s) = true.

Lemma chars_emitted (s : str) : forallb emitted s = true -> forallb Q s = true.
Proof.
  rewrite !forallb_forall. intros H c Hc. apply Q_emitted. now apply H.
Qed.

Lemma chars_blank : forallb Q [] = true.
Proof. reflexivity. Qed.

Lemma chars_p_lines self words :
  forallb (forallb Q) words = true ->
  returns (Forall (fun l => forallb Q l = true)) (_p_lines self words).
Proof.
  intros Hw ls H. destruct words as [|w0 words]; [rewrite p_lines_no_words in H; discriminate|].
  destruct (p_lines_groups self (w0 :: words) ltac:(discriminate)) as (groups & E & Hcat & _).
  rewrite E in H. inversion H; subst ls. clear H.
  apply Forall_app. split; [|now constructor].
  apply Forall_map, Forall_forall. intros g Hg. unfold line_of_words.
  apply forallb_forall. intros c Hc. apply in_concat in Hc. destruct Hc as (tok & Htok & Hc).
  apply in_map_iff in Htok. destruct Htok as (w & <- & Hw').
  unfold add_space in Hc. apply in_app_or in Hc. destruct Hc as [Hc|Hc].
  - assert (Hin : In w (w0 :: words)).
    { rewrite <- Hcat. apply in_concat. now exists g. }
    rewrite forallb_forall in Hw. specialize (Hw w Hin). rewrite forallb_forall in Hw.
    now apply Hw.
  - destruct Hc as [<-|[]]. now apply Q_emitted.
Qed.

Section Nested.

(** The formatter of nested elements, and what is known of it. *)
Variable elems : list Elem.
Hypothesis nested_Q :
  forall self, returns (Forall (fun l => forallb Q l = true)) (_Formatter upper elems self).

Lemma chars_indented self n :
  returns (Forall (fun l => forallb Q l = true))
          (_format_elems_indented (_Formatter upper) self elems n).
Proof.
  unfold _format_elems_indented, _format_elems.
  eapply returns_bind; [apply nested_Q|]. intros ls Hls. apply returns_Ok.
  apply Forall_map. eapply Forall_impl; [|exact Hls]. intros l Hl. cbv beta.
  destruct (1 <=? length l); [|assumption].
  apply chars_app. split; [|assumption]. apply chars_emitted. now apply forallb_repeat.
Qed.

Lemma chars_marked (first : str -> str) n self :
  (forall line0, forallb Q line0 = true -> forallb Q (first line0) = true) ->
  returns (Forall (fun l => forallb Q l = true))
          (lines <- _format_elems_indented (_Formatter upper) self elems n ;;
           match lines with
           | [] => Raise IndexError
           | line0 :: rest =>
               lines <- _remove_trailing_empty_lines (first line0 :: rest) ;;
               Ok (lines ++ [[]])
           end).
Proof.
  intros Hm. eapply returns_bind; [apply chars_indented|].
  intros [|line0 rest] Hls; [apply returns_Raise|]. inversion Hls; subst.
  eapply returns_bind.
  - apply (returns_remove_trailing Q). constructor; [|assumption]. now apply Hm.
  - intros r Hr. apply returns_Ok. apply Forall_app. split; [assumption|now constructor].
Qed.

Lemma chars_ul_item_lines self :
  returns (Forall (fun l => forallb Q l = true)) (_ul_item_lines (_Formatter upper) self elems).
Proof.
  apply (chars_marked
           (fun line0 => nth (Z.to_nat (_cur_ul_level self mod 3)) (u "•‣⁃") 0%N
                         :: u " " ++ skipn 2 line0) 2).
  intros line0 H. cbn [forallb]. rewrite (Q_emitted _ (emitted_bullet _)).
  apply chars_app. split; [now apply chars_emitted|now apply chars_skipn].
Qed.

Lemma chars_ol_item_lines self items index :
  returns (Forall (fun l => forallb Q l = true))
          (_ol_item_lines (_Formatter upper) self items index elems).
Proof.
  apply (chars_marked
           (fun line0 => _make_ol_item_num self items index ++ u " "
                         ++ skipn (length (_make_ol_item_num self items index) + 1) line0)
           (length (_make_ol_item_num self items index) + 1)).
  intros line0 H. apply chars_app. split; [apply chars_emitted, emitted_ol_item_num|].
  apply chars_app. split; [now apply chars_emitted|now apply chars_skipn].
Qed.

Lemma chars_dl_item_lines self terms :
  forallb (forallb Q) terms = true ->
  returns (Forall (fun l => forallb Q l = true))
          (_dl_item_lines (_Formatter upper) self (terms, elems)).
Proof.
  intros Ht. unfold _dl_item_lines.
  eapply returns_bind; [apply chars_indented|]. intros more Hmore.
  eapply returns_bind.
  - apply (returns_remove_trailing Q). apply Forall_app. split; [|exact Hmore].
    apply Forall_map, Forall_forall. intros t Hin. rewrite forallb_forall in Ht.
    apply chars_app. split; [now apply Ht|now apply chars_emitted].
  - intros r Hr. apply returns_Ok. apply Forall_app. split; [assumption|now constructor].
Qed.

Lemma chars_blockquote_lines self :
  returns (Forall (fun l => forallb Q l = true))
          (_blockquote_lines (_Formatter upper) self elems).
Proof.
  unfold _blockquote_lines.
  eapply returns_bind; [apply chars_indented|]. intros ls Hls.
  eapply returns_bind; [now apply (returns_remove_trailing Q)|]. intros r Hr.
  apply returns_Ok. apply Forall_app. split; [|now constructor].
  apply Forall_map. eapply Forall_impl; [|exact Hr]. intros l Hl. cbv beta.
  apply chars_app. split; [now apply chars_emitted|now apply chars_skipn].
Qed.

Lemma chars_admon_box_lines self :
  returns (Forall (fun l => forallb Q l = true))
          (_admon_box_lines (_Formatter upper) self elems).
Proof.
  unfold _admon_box_lines, _format_elems.
  eapply returns_bind; [apply nested_Q|]. intros content Hc.
  apply returns_any_bind. intros n. apply returns_Ok.
  assert (Hrule : forallb Q (repeat (ch "─") n) = true)
    by (apply chars_emitted; now apply forallb_repeat).
  assert (Hcap : forall a b : str,
             forallb emitted a = true -> forallb emitted b = true ->
             forallb Q (a ++ repeat (ch "─") n ++ b) = true).
  { intros a b Ha Hb. apply chars_app. split; [now apply chars_emitted|].
    apply chars_app. split; [assumption|now apply chars_emitted]. }
  apply Forall_app. split; [constructor; [now apply Hcap|constructor]|].
  apply Forall_app. split.
  - apply Forall_map. eapply Forall_impl; [|exact Hc]. intros l Hl. cbv beta.
    apply chars_app. split; [now apply chars_emitted|].
    apply chars_app. split; [|now apply chars_emitted].
    unfold ljust. apply chars_app. split; [assumption|].
    apply chars_emitted. now apply forallb_repeat.
  - apply Forall_app. split; [constructor; [now apply Hcap|constructor]|].
    now constructor.
Qed.

End Nested.

Lemma chars_elems_lines self elems :
  Forall (fun e => elem_chars Q e = true ->
                   forall self, returns (Forall (fun l => forallb Q l = true))
                                        (_elem_lines upper e self)) elems ->
  forallb (elem_chars Q) elems = true ->
  returns (Forall (fun l => forallb Q l = true)) (_elems_lines upper self elems).
Proof.
  intros Hall Hgood. unfold _elems_lines.
  eapply returns_bind.
  - intros raw Hraw. eapply concat_mapM_Forall; [|exact Hraw].
    intros e r Hin Hr. rewrite Forall_forall in Hall. rewrite forallb_forall in Hgood.
    exact (Hall e Hin (Hgood e Hin) self r Hr).
  - intros raw Hraw. apply (returns_remove_trailing Q).
    apply Forall_map. eapply Forall_impl; [|exact Hraw]. intros l. apply chars_rstrip.
Qed.

Lemma chars_elem_lines : forall e,
  elem_chars Q e = true ->
  forall self, returns (Forall (fun l => forallb Q l = true)) (_elem_lines upper e self).
Proof.
  induction e using Elem_nested_ind; intros Hgood self; cbn [elem_chars] in Hgood.
  - now apply chars_p_lines.
  - rewrite elem_lines_Ul. unfold _ul_lines.
    eapply returns_bind.
    + intros raw Hraw. eapply concat_mapM_Forall; [|exact Hraw].
      intros item r Hin Hr. rewrite Forall_forall in H. rewrite forallb_forall in Hgood.
      apply (chars_ul_item_lines item) in Hr; [exact Hr|].
      intros self'. now apply chars_elems_lines; [apply H|apply Hgood].
    + intros raw Hraw. apply returns_Ok. now apply compact_list_Forall.
  - rewrite elem_lines_Ol. unfold _ol_lines.
    eapply returns_bind.
    + intros raw Hraw. eapply concat_mapM_enum_Forall; [|exact Hraw].
      intros i item r Hi Hr. apply nth_error_In in Hi.
      rewrite Forall_forall in H. rewrite forallb_forall in Hgood.
      apply (chars_ol_item_lines item) in Hr; [exact Hr|].
      intros self'. now apply chars_elems_lines; [apply H|apply Hgood].
    + intros raw Hraw. apply returns_Ok. now apply compact_list_Forall.
  - rewrite elem_lines_Dl. unfold _dl_lines.
    intros ls Hls. eapply concat_mapM_Forall; [|exact Hls].
    intros [terms es] r Hin Hr. rewrite Forall_forall in H. rewrite forallb_forall in Hgood.
    specialize (Hgood _ Hin). cbn [fst snd] in Hgood. apply andb_true_iff in Hgood.
    destruct Hgood as [Ht He].
    apply (chars_dl_item_lines es) in Hr; [exact Hr| |exact Ht].
    intros self'. apply chars_elems_lines; [apply (H _ Hin)|exact He].
  - apply returns_Ok. unfold _pre_lines. apply Forall_app. split; [|now constructor].
    apply Forall_map, Forall_forall. intros l Hin. rewrite forallb_forall in Hgood.
    apply chars_app. split; [now apply chars_emitted|now apply Hgood].
  - apply returns_Ok. unfold _h1_lines, _heading_lines.
    constructor; [now apply upper_Q|]. constructor; [|constructor].
    apply chars_emitted. now apply forallb_repeat.
  - apply returns_Ok. unfold _h2_lines, _heading_lines.
    constructor; [assumption|]. constructor; [|constructor].
    apply chars_emitted. now apply forallb_repeat.
  - apply returns_Ok. unfold _hr_lines. constructor; [|now constructor].
    apply chars_emitted. now apply forallb_repeat.
  - rewrite elem_lines_AdmonBox. apply chars_admon_box_lines.
    intros self'. now apply chars_elems_lines.
  - rewrite elem_lines_Blockquote. apply chars_blockquote_lines.
    intros self'. now apply chars_elems_lines.
  - apply returns_Ok. unfold _verbatim_lines. apply Forall_forall. intros l Hin.
    rewrite forallb_forall in Hgood. now apply Hgood.
Qed.

Lemma chars_lines elems max_line_len :
  forallb (elem_chars Q) elems = true ->
  returns (Forall (fun l => forallb Q l = true)) (lines upper elems max_line_len).
Proof.
  intros H. unfold lines, _Formatter. apply chars_elems_lines; [|assumption].
  apply Forall_forall. intros e _. apply chars_elem_lines.
Qed.

End FormatterChars.

End CharsFormatter.

(** * The characters of the text returned *)

(** X14: [format] writes no character of its own but its markup.
    Take any set of characters that holds the characters the formatter
    writes of its own (the space, the bullets, the marks and digits and
    letters of the markers, the strokes of boxes, underlines and rules)
    and that [str.upper] does not leave.  When every character of the
    lines given to the engine is in the set, so is every character of
    the lines it returns. *)
Theorem format_writes_known_characters (Q : char -> bool) (is_decimal : char -> bool)
  (upper : str -> str) (fuel : nat) (lines : list str) (max_line_len : Z)
  (out : list str) :
  (forall c, emitted c = true -> Q c = true) ->
  (forall s, forallb Q s = true -> forallb Q (upper s) = true) ->
  Forall (fun l => forallb Q l = true) lines ->
  engine is_decimal upper fuel lines max_line_len = Ok out ->
  Forall (fun l => forallb Q l = true) out.
Proof.
  intros Hem Hup Hlines H. unfold engine in H.
  apply bind_Ok in H. destruct H as (elems & Hparse & Hfmt).
  apply (chars_lines Q upper Hem Hup elems max_line_len); [|exact Hfmt].
  apply (chars_elems Q is_decimal (Hem (ch " ") eq_refl) fuel lines Hlines). exact Hparse.
Qed.

(** ** Line boundaries *)

Lemma is_linebreak_cases (c : char) :
  is_linebreak c = true ->
  (10 <= c <= 13 \/ 28 <= c <= 30 \/ c = 133 \/ c = 8232 \/ c = 8233)%N.
Proof.
  unfold is_linebreak. rewrite !orb_true_iff, !andb_true_iff, !N.leb_le, !N.eqb_eq. tauto.
Qed.

Lemma emitted_cases (c : char) :
  emitted c = true ->
  (In c (u " •‣⁃.):>│┌─┐└┘━┄-") \/ 48 <= c <= 57 \/ 97 <= c <= 122)%N.
Proof.
  unfold emitted, char_in. rewrite !orb_true_iff, !andb_true_iff, !N.leb_le.
  intros [[H|H]|H]; [left|tauto|tauto].
  apply existsb_exists in H. destruct H as (x & Hx & E).
  apply N.eqb_eq in E. now subst x.
Qed.

Lemma emitted_not_linebreak (c : char) : emitted c = true -> negb (is_linebreak c) = true.
Proof.
  intros H. apply negb_true_iff. destruct (is_linebreak c) eqn:E; [|reflexivity].
  apply is_linebreak_cases in E. apply emitted_cases in H.
  destruct H as [H|H]; [|lia].
  let v := eval vm_compute in (u " •‣⁃.):>│┌─┐└┘━┄-") in
  change (u " •‣⁃.):>│┌─┐└┘━┄-") with v in H.
  cbn [In] in H. repeat (destruct H as [H|H]; [subst c; lia|]). destruct H.
Qed.

Lemma ascii_upper_not_linebreak (s : str) :
  forallb (fun c => negb (is_linebreak c)) s = true ->
  forallb (fun c => negb (is_linebreak c)) (ascii_upper s) = true.
Proof.
  unfold ascii_upper. induction s as [|c s IH]; [reflexivity|]. cbn [map forallb].
  rewrite !andb_true_iff. intros [Hc Hs]. split; [|now apply IH].
  destruct ((97 <=? c) && (c <=? 122))%N eqn:E; [|exact Hc].
  apply andb_true_iff in E. destruct E as [E1 E2]. apply N.leb_le in E1, E2.
  apply negb_true_iff. destruct (is_linebreak (c - 32)%N) eqn:El; [|reflexivity].
  apply is_linebreak_cases in El. lia.
Qed.

(** The engine brings no line boundary into its lines. *)
Lemma engine_no_linebreak (is_decimal : char -> bool) (upper : str -> str) (fuel : nat)
  (lines : list str) (max_line_len : Z) (out : list str) :
  (forall s, no_linebreak s -> no_linebreak (upper s)) ->
  Forall no_linebreak lines ->
  engine is_decimal upper fuel lines max_line_len = Ok out ->
  Forall no_linebreak out.
Proof.
  intros Hup Hlines H. unfold engine in H.
  apply bind_Ok in H. destruct H as (elems & Hparse & Hfmt).
  apply (chars_lines (fun c => negb (is_linebreak c)) upper emitted_not_linebreak Hup
           elems max_line_len); [|exact Hfmt].
  apply (chars_elems (fun c => negb (is_linebreak c)) is_decimal
           (emitted_not_linebreak (ch " ") eq_refl) fuel lines Hlines).
  exact Hparse.
Qed.

Lemma format_writes_known_characters_witness :
  Forall (fun l => forallb (fun c => negb (is_linebreak c)) l = true)
         [u "TITLE"; u "━━━━━"; u "• a"].
Proof.
  apply (format_writes_known_characters (fun c => negb (is_linebreak c))
           ascii_decimal ascii_upper 10 [u "= Title"; []; u "* a"] 72).
  - exact emitted_not_linebreak.
  - exact ascii_upper_not_linebreak.
  - repeat constructor.
  - vm_compute. reflexivity.
Defined.

Lemma join_last_nonempty (front : list str) (final : str) :
  final <> [] -> join newline (front ++ [final]) <> [].
Proof.
  intros Hf. destruct front as [|l front]; [exact Hf|].
  destruct front as [|l' front'].
  - cbn [app join]. intros E. apply app_eq_nil in E. destruct E as [_ E]. discriminate.
  - cbn [app]. change (join newline (l :: l' :: front' ++ [final]))
      with (l ++ newline ++ join newline (l' :: front' ++ [final])).
    intros E. apply app_eq_nil in E. destruct E as [_ E]. discriminate.
Qed.

(** Lines without a line boundary, the last of them not empty, are
    the lines of their join. *)
Lemma splitlines_join_lines : forall (front : list str) (final : str),
  Forall no_linebreak (front ++ [final]) -> final <> [] ->
  splitlines (join newline (front ++ [final])) = front ++ [final].
Proof.
  induction front as [|l front IH]; intros final Hall Hf.
  - cbn [app join]. inversion Hall; subst. now apply splitlines_line.
  - inversion Hall; subst.
    assert (E : join newline ((l :: front) ++ [final])
                = l ++ newline ++ join newline (front ++ [final])).
    { cbn [app]. destruct (front ++ [final]) eqn:Ef; [destruct front; discriminate|].
      reflexivity. }
    rewrite E, splitlines_first; [|assumption|now apply join_last_nonempty].
    cbn [app]. f_equal. now apply IH.
Qed.

(** X15: the lines of the text returned are the lines of the
    formatter.  When [str.upper] brings no line boundary into a string
    that has none, no line that [format] joins holds a line boundary
    ("\n", "\r", form feed and the like), so that splitting the text
    returned at its line boundaries gives back the lines the formatter
    returned, one for one. *)
Theorem format_lines_are_formatter_lines (is_decimal : char -> bool) (upper : str -> str)
  (fuel : nat) (text : str) (max_line_len : Z) (out : str) :
  (forall s, no_linebreak s -> no_linebreak (upper s)) ->
  format is_decimal upper fuel text max_line_len = Ok out ->
  engine is_decimal upper fuel (splitlines text) max_line_len = Ok (splitlines out)
  /\ Forall no_linebreak (splitlines out).
Proof.
  intros Hup H. unfold format in H. apply bind_Ok in H. destruct H as (ls & Hls & Hout).
  inversion Hout; subst out. clear Hout.
  assert (Hnl : Forall no_linebreak ls).
  { apply (engine_no_linebreak is_decimal upper fuel (splitlines text) max_line_len ls);
      [exact Hup| |exact Hls].
    apply (splitlines_no_linebreak (length text)). lia. }
  pose proof Hls as Htrim. unfold engine in Htrim. apply bind_Ok in Htrim.
  destruct Htrim as (elems & _ & Htrim). apply elems_lines_trimmed in Htrim.
  destruct Htrim as ((front & final & -> & Hfinal) & _).
  rewrite splitlines_join_lines by assumption. now split.
Qed.

Lemma format_lines_are_formatter_lines_witness :
  engine ascii_decimal ascii_upper 10 (splitlines (u "* a" ++ newline ++ u "* b")) 72
  = Ok (splitlines (u "• a" ++ newline ++ u "• b"))
  /\ Forall no_linebreak (splitlines (u "• a" ++ newline ++ u "• b")).
Proof.
  apply (format_lines_are_formatter_lines ascii_decimal ascii_upper 10
           (u "* a" ++ newline ++ u "* b") 72).
  - exact ascii_upper_not_linebreak.
  - vm_compute. reflexivity.
Defined.

(** * A formatted comment, read again *)

Lemma take_while_all {A} (p : A -> bool) (l : list A) :
  forallb p l = true -> take_while p l = l.
Proof.
  induction l as [|x l IH]; [reflexivity|]. cbn [forallb take_while].
  intros H. apply andb_true_iff in H. destruct H as [Hx Hl]. now rewrite Hx, IH.
Qed.

Lemma lstrip_spaces (spaces s : str) (c : char) :
  forallb is_space spaces = true -> is_space c = false ->
  lstrip (spaces ++ c :: s) = c :: s.
Proof. intros Hs Hc. unfold lstrip. now apply drop_while_all_then. Qed.

(** A trimmed line behind white space, stripped, is the line from its
    first character that is no white space. *)
Lemma strip_indented (spaces s : str) (c : char) :
  forallb is_space spaces = true -> is_space c = false -> rstrip (c :: s) = c :: s ->
  strip (spaces ++ c :: s) = c :: s.
Proof.
  intros Hs Hc Hr. unfold strip. rewrite rstrip_fixed_app by (assumption || discriminate).
  now apply lstrip_spaces.
Qed.

Lemma rest_of_line_line_ok (r : str) : r <> [] -> line_ok r -> rest_of_line r = Some r.
Proof.
  intros Hne Hok. destruct r as [|c r]; [congruence|]. unfold rest_of_line.
  apply line_ok_cons in Hok. destruct Hok as [Hc Hr]. rewrite Hc.
  now rewrite take_while_all.
Qed.

Lemma match_c_line_content (r : str) :
  r <> [] -> line_ok r -> match_c_line (u "* " ++ r) = Some r.
Proof.
  intros Hne Hok. unfold match_c_line.
  change (drop_while is_space (u "* " ++ r)) with (u "* " ++ r).
  replace (strip_prefix (u "* ") (u "* " ++ r)) with (Some r)
    by (symmetry; now apply strip_prefix_Some).
  now apply (rest_of_line_line_ok r).
Qed.

Lemma chars_c_content_lines (Q : char -> bool) : forall (ls content : list str),
  Forall (fun l => forallb Q l = true) ls ->
  c_content_lines ls = Ok content ->
  Forall (fun l => forallb Q l = true) content.
Proof.
  induction ls as [|l ls IH]; intros content Hls H; cbn [c_content_lines] in H.
  - inversion H. constructor.
  - inversion Hls; subst. cbv zeta in H.
    destruct (_ || _); [now apply IH|].
    destruct (str_eqb _ _).
    + apply bind_Ok in H. destruct H as (cl & Hcl & H). inversion H; subst.
      constructor; [reflexivity|now apply IH].
    + destruct (match_c_line (strip l)) as [g|] eqn:E; [|discriminate].
      apply bind_Ok in H. destruct H as (cl & Hcl & H). inversion H; subst.
      constructor; [|now apply IH].
      unfold match_c_line in E.
      destruct (strip_prefix _ _) as [[|c rest]|] eqn:Ep; try discriminate.
      destruct (is_dot c); [|discriminate]. inversion E; subst.
      assert (Hr : forallb Q (c :: rest) = true).
      { eapply chars_strip_prefix; [exact Ep|]. now apply chars_drop_while, chars_strip. }
      cbn [forallb] in *. apply andb_true_iff in Hr. destruct Hr as [Hc Hr].
      now rewrite Hc, chars_take_while.
Qed.

Lemma Ok_inj {A} (a b : A) : Ok a = Ok b -> a = b.
Proof. congruence. Qed.

(** The loop of [format_c_block_comment] on the lines it wrote. *)
Lemma c_content_lines_of_written (indent : str) (tail tail_content : list str) :
  forallb is_space indent = true ->
  c_content_lines tail = Ok tail_content ->
  forall ls : list str,
    Forall (fun r => rstrip r = r) ls ->
    Forall line_ok ls ->
    c_content_lines
      (map (fun r => if is_empty r then indent ++ u " *" else indent ++ u " * " ++ r) ls
       ++ tail)
    = Ok (ls ++ tail_content).
Proof.
  intros Hi Htail. induction ls as [|r ls IH]; intros Htrim Hok; [exact Htail|].
  inversion Htrim; subst. inversion Hok; subst. cbn [map app c_content_lines]. cbv zeta.
  assert (Hsp : forallb is_space (indent ++ [ch " "]) = true)
    by (rewrite forallb_app, Hi; reflexivity).
  destruct r as [|c r]; cbn [is_empty].
  - replace (strip (indent ++ u " *")) with (u "*").
    + change (str_eqb (u "*") (u "/*") || str_eqb (u "*") (u "*/")) with false.
      change (str_eqb (u "*") (u "*")) with true. cbv iota.
      now rewrite IH.
    + symmetry. replace (indent ++ u " *") with ((indent ++ [ch " "]) ++ ch "*" :: [])
        by now rewrite <- app_assoc.
      now apply strip_indented.
  - replace (strip (indent ++ u " * " ++ c :: r)) with (u "* " ++ c :: r).
    + change (str_eqb (u "* " ++ c :: r) (u "/*") || str_eqb (u "* " ++ c :: r) (u "*/"))
        with false.
      change (str_eqb (u "* " ++ c :: r) (u "*")) with false. cbv iota.
      rewrite match_c_line_content by (assumption || discriminate).
      now rewrite IH.
    + symmetry.
      replace (indent ++ u " * " ++ c :: r)
        with ((indent ++ [ch " "]) ++ ch "*" :: ch " " :: c :: r)
        by now rewrite <- app_assoc.
      apply strip_indented; [assumption|reflexivity|].
      apply (rstrip_fixed_app [ch "*"; ch " "] (c :: r)); [assumption|discriminate].
Qed.

(** X16: a formatted C block comment is a C block comment.  When
    [str.upper] brings no line boundary into a string that has none,
    the text that [format_c_block_comment] returns is one the function
    takes: its lines are all lines of the envelope, and the content
    lines read from them are the formatted lines, as they are. *)
Theorem c_block_comment_read_back (is_decimal : char -> bool) (upper : str -> str)
  (fuel : nat) (comment : str) (start_col max_line_len : Z) (out : str) :
  (forall s, no_linebreak s -> no_linebreak (upper s)) ->
  format_c_block_comment is_decimal upper fuel comment start_col max_line_len = Ok out ->
  exists content ls,
    c_content_lines (splitlines comment) = Ok content
    /\ engine is_decimal upper fuel content (max_line_len - start_col - 3) = Ok ls
    /\ c_content_lines (splitlines out) = Ok ls.
Proof.
  intros Hup H. unfold format_c_block_comment, format_c_block_comment_with in H.
  apply bind_Ok in H. destruct H as (content & Hcontent & H).
  apply bind_Ok in H. destruct H as (ls & Hls & H). cbv zeta in H.
  apply Ok_inj in H. subst out.
  exists content, ls. split; [assumption|]. split; [assumption|].
  set (indent := _indent_str (Z.to_nat start_col)).
  assert (Hi : forallb is_space indent = true) by now apply forallb_repeat.
  assert (Hnl : Forall no_linebreak ls).
  { apply (engine_no_linebreak is_decimal upper fuel content
             (max_line_len - start_col - 3) ls); [exact Hup| |exact Hls].
    apply (chars_c_content_lines _ (splitlines comment)); [|assumption].
    apply (splitlines_no_linebreak (length comment)). lia. }
  pose proof Hls as Htrim. unfold engine in Htrim. apply bind_Ok in Htrim.
  destruct Htrim as (elems & _ & Htrim). apply elems_lines_trimmed in Htrim.
  destruct Htrim as (_ & Htrim).
  assert (Hmap : map (fun rline => rstrip (indent ++ u " * " ++ rline)) ls
                 = map (fun r => if is_empty r then indent ++ u " *"
                                 else indent ++ u " * " ++ r) ls).
  { apply map_ext_Forall. eapply Forall_impl; [|exact Htrim]. intros r Hr.
    now apply rstrip_comment_line. }
  rewrite Hmap.
  assert (Hlines : Forall no_linebreak
                     (u "/*" :: map (fun r => if is_empty r then indent ++ u " *"
                                              else indent ++ u " * " ++ r) ls)).
  { constructor; [reflexivity|]. apply Forall_map. eapply Forall_impl; [|exact Hnl].
    intros r Hr. unfold no_linebreak in *.
    assert (Hin : forallb (fun c => negb (is_linebreak c)) indent = true)
      by now apply forallb_repeat.
    destruct (is_empty r); rewrite !forallb_app, Hin; [reflexivity|].
    now rewrite Hr. }
  match goal with
  | |- c_content_lines (splitlines (join newline ?x)) = _ =>
      change x with ((u "/*" :: map (fun r => if is_empty r then indent ++ u " *"
                                              else indent ++ u " * " ++ r) ls)
                     ++ [indent ++ u " */"])
  end.
  rewrite splitlines_join_lines.
  - cbn [app c_content_lines]. cbv zeta.
    change (str_eqb (strip (u "/*")) (u "/*") || str_eqb (strip (u "/*")) (u "*/")) with true.
    cbv iota. rewrite <- (app_nil_r ls) at 2.
    apply c_content_lines_of_written; [assumption| |assumption|].
    + cbn [c_content_lines]. cbv zeta.
      replace (strip (indent ++ u " */")) with (u "*/"); [reflexivity|].
      symmetry. replace (indent ++ u " */") with ((indent ++ [ch " "]) ++ ch "*" :: u "/")
        by now rewrite <- app_assoc.
      apply strip_indented; [|reflexivity|reflexivity].
      rewrite forallb_app, Hi. reflexivity.
    + eapply Forall_impl; [apply no_linebreak_line_ok|exact Hnl].
  - apply Forall_app. split; [assumption|]. constructor; [|constructor].
    unfold no_linebreak. rewrite forallb_app. apply andb_true_iff.
    split; [now apply forallb_repeat|reflexivity].
  - destruct indent; discriminate.
Qed.

Lemma c_block_comment_read_back_witness :
  exists content ls,
    c_content_lines (splitlines (u "/*" ++ newline ++ u " * * a b" ++ newline ++ u " */"))
    = Ok content
    /\ engine ascii_decimal ascii_upper 100 content (8 - 2 - 3) = Ok ls
    /\ c_content_lines
         (splitlines (join newline [u "/*"; u "   * • a"; u "   *   b"; u "   */"]))
       = Ok ls.
Proof.
  apply (c_block_comment_read_back ascii_decimal ascii_upper 100
           (u "/*" ++ newline ++ u " * * a b" ++ newline ++ u " */") 2 8).
  - exact ascii_upper_not_linebreak.
  - vm_compute. reflexivity.
Defined.

(** ** Prefixed block comments *)

Lemma chars_rest_of_line (Q : char -> bool) (s g : str) :
  rest_of_line s = Some g -> forallb Q s = true -> forallb Q g = true.
Proof.
  unfold rest_of_line. destruct s as [|c r]; [discriminate|].
  destruct (is_dot c); [|discriminate]. intros H Hs. inversion H; subst.
  cbn [forallb] in *. apply andb_true_iff in Hs. destruct Hs as [Hc Hr].
  now rewrite Hc, chars_take_while.
Qed.

Lemma chars_prefixed_line (Q : char -> bool) (prefix : str) : forall (s g : str),
  match_prefixed_line prefix s = Some g -> forallb Q s = true -> forallb Q g = true.
Proof.
  assert (Hhere : forall s g,
             match strip_prefix prefix s with
             | Some rest => rest_of_line rest
             | None => None
             end = Some g -> forallb Q s = true -> forallb Q g = true).
  { intros s g H Hs. destruct (strip_prefix prefix s) as [rest|] eqn:E; [|discriminate].
    eapply chars_rest_of_line; [exact H|]. eapply chars_strip_prefix; eassumption. }
  induction s as [|x s IH]; intros g H Hs; cbn [match_prefixed_line] in H.
  - now apply (Hhere []).
  - destruct (is_space x); [|now apply (Hhere (x :: s))].
    destruct (match_prefixed_line prefix s) as [g'|] eqn:E; [|now apply (Hhere (x :: s))].
    inversion H; subst. apply (IH g eq_refl).
    cbn [forallb] in Hs. now apply andb_true_iff in Hs.
Qed.

Lemma chars_prefixed_content_lines (Q : char -> bool) (prefix : str) :
  forall (ls content : list str),
    Forall (fun l => forallb Q l = true) ls ->
    prefixed_content_lines prefix ls = Ok content ->
    Forall (fun l => forallb Q l = true) content.
Proof.
  induction ls as [|l ls IH]; intros content Hls H; cbn [prefixed_content_lines] in H.
  - inversion H. constructor.
  - inversion Hls; subst. cbv zeta in H. destruct (str_eqb _ _).
    + apply bind_Ok in H. destruct H as (cl & Hcl & H). inversion H; subst.
      constructor; [reflexivity|now apply IH].
    + destruct (match_prefixed_line prefix (strip l)) as [g|] eqn:E; [|discriminate].
      apply bind_Ok in H. destruct H as (cl & Hcl & H). inversion H; subst.
      constructor; [|now apply IH].
      eapply chars_prefixed_line; [exact E|]. now apply chars_strip.
Qed.

Lemma rstrip_keeps_head (c : char) (p : str) :
  is_space c = false -> exists p', rstrip (c :: p) = c :: p' /\ rstrip (c :: p') = c :: p'.
Proof.
  intros Hc. destruct (rstrip_split (c :: p)) as (dropped & E & Hd).
  destruct (rstrip (c :: p)) as [|x p'] eqn:Er.
  - cbn [app] in E. subst dropped. cbn [forallb] in Hd. rewrite Hc in Hd. discriminate.
  - cbn [app] in E. inversion E; subst x. exists p'. split; [reflexivity|].
    rewrite <- Er. apply rstrip_idem.
Qed.

Lemma drop_while_all_app {A} (p : A -> bool) (l1 l2 : list A) :
  forallb p l1 = true -> drop_while p (l1 ++ l2) = drop_while p l2.
Proof.
  induction l1 as [|x l1 IH]; [reflexivity|]. cbn [forallb app drop_while].
  intros H. apply andb_true_iff in H. destruct H as [Hx Hl]. now rewrite Hx, IH.
Qed.

Lemma rstrip_dropped (s dropped : str) :
  forallb is_space dropped = true -> rstrip (s ++ dropped) = rstrip s.
Proof.
  intros H. unfold rstrip. rewrite rev_app_distr, drop_while_all_app; [reflexivity|].
  rewrite forallb_forall in *. intros y Hy. apply H. now apply in_rev.
Qed.

(** White space is dropped from the end of what follows, when not all
    of it is white space. *)
Lemma rstrip_app_nonblank (a b : str) : rstrip b <> [] -> rstrip (a ++ b) = a ++ rstrip b.
Proof.
  intros Hb. destruct (rstrip_split b) as (dropped & E & Hd).
  rewrite E at 1. rewrite app_assoc, rstrip_dropped by assumption.
  apply rstrip_fixed_app; [apply rstrip_idem|assumption].
Qed.

Lemma str_eqb_longer (a b : str) : length b < length a -> str_eqb a b = false.
Proof.
  intros H. destruct (str_eqb a b) eqn:E; [|reflexivity].
  apply str_eqb_eq in E. subst. lia.
Qed.

(** The loop of [format_prefixed_block_comment] on the lines it wrote. *)
Lemma prefixed_content_lines_of_written (indent : str) (c : char) (p : str) :
  forallb is_space indent = true -> is_space c = false -> line_ok (c :: p) ->
  forall ls : list str,
    Forall (fun r => rstrip r = r) ls ->
    Forall line_ok ls ->
    prefixed_content_lines (c :: p)
      (map (fun r => rstrip (indent ++ (c :: p) ++ r)) ls)
    = Ok ls.
Proof.
  intros Hi Hc Hp. destruct (rstrip_keeps_head c p Hc) as (p' & Ep & Ep').
  induction ls as [|r ls IH]; intros Htrim Hok; [reflexivity|].
  inversion Htrim; subst. inversion Hok; subst. cbn [map prefixed_content_lines]. cbv zeta.
  destruct r as [|x r].
  - rewrite app_nil_r.
    replace (strip (rstrip (indent ++ c :: p))) with (rstrip (c :: p)).
    + replace (str_eqb (rstrip (c :: p)) (rstrip (c :: p))) with true
        by (symmetry; now apply str_eqb_eq).
      now rewrite IH.
    + symmetry. unfold strip. rewrite rstrip_idem.
      rewrite rstrip_app_nonblank by (rewrite Ep; discriminate).
      rewrite Ep. now apply lstrip_spaces.
  - assert (Hline : rstrip (indent ++ (c :: p) ++ x :: r) = indent ++ (c :: p) ++ x :: r).
    { rewrite app_assoc. apply rstrip_fixed_app; [assumption|discriminate]. }
    rewrite Hline.
    replace (strip (indent ++ (c :: p) ++ x :: r)) with ((c :: p) ++ x :: r).
    + rewrite str_eqb_longer.
      2:{ pose proof (length_rstrip (c :: p)). rewrite length_app. simpl in *. lia. }
      assert (Hm : match_prefixed_line (c :: p) ((c :: p) ++ x :: r) = Some (x :: r)).
      { cbn [app match_prefixed_line]. rewrite Hc.
        replace (strip_prefix (c :: p) (c :: p ++ x :: r)) with (Some (x :: r))
          by (symmetry; now apply strip_prefix_Some).
        apply rest_of_line_line_ok; [discriminate|assumption]. }
      rewrite Hm. now rewrite IH.
    + symmetry. cbn [app]. apply strip_indented; [assumption|assumption|].
      change (c :: p ++ x :: r) with ((c :: p) ++ x :: r).
      apply rstrip_fixed_app; [assumption|discriminate].
Qed.

(** X17: a formatted prefixed block comment is a prefixed block
    comment.  For a prefix that starts with a character that is no
    white space and that holds no line boundary, and when [str.upper]
    brings no line boundary into a string that has none, the text that
    [format_prefixed_block_comment] returns is one the function takes,
    and the content lines read from it are the formatted lines, as they
    are. *)
Theorem prefixed_block_comment_read_back (is_decimal : char -> bool) (upper : str -> str)
  (fuel : nat) (comment : str) (start_col max_line_len : Z) (c : char) (p : str)
  (out : str) :
  (forall s, no_linebreak s -> no_linebreak (upper s)) ->
  is_space c = false -> no_linebreak (c :: p) ->
  format_prefixed_block_comment is_decimal upper fuel comment start_col max_line_len
                                (c :: p) = Ok out ->
  exists content ls,
    prefixed_content_lines (c :: p) (splitlines comment) = Ok content
    /\ engine is_decimal upper fuel content
              (max_line_len - start_col - Z.of_nat (length (c :: p))) = Ok ls
    /\ prefixed_content_lines (c :: p) (splitlines out) = Ok ls.
Proof.
  intros Hup Hc Hp H.
  unfold format_prefixed_block_comment, format_prefixed_block_comment_with in H.
  apply bind_Ok in H. destruct H as (content & Hcontent & H).
  apply bind_Ok in H. destruct H as (ls & Hls & H). cbv zeta in H.
  apply Ok_inj in H. subst out.
  exists content, ls. split; [assumption|]. split; [assumption|].
  set (indent := _indent_str (Z.to_nat start_col)).
  assert (Hi : forallb is_space indent = true) by now apply forallb_repeat.
  assert (Hin : no_linebreak indent) by now apply forallb_repeat.
  assert (Hnl : Forall no_linebreak ls).
  { apply (engine_no_linebreak is_decimal upper fuel content
             (max_line_len - start_col - Z.of_nat (length (c :: p))) ls);
      [exact Hup| |exact Hls].
    apply (chars_prefixed_content_lines _ (c :: p) (splitlines comment)); [|assumption].
    apply (splitlines_no_linebreak (length comment)). lia. }
  pose proof Hls as Htrim. unfold engine in Htrim. apply bind_Ok in Htrim.
  destruct Htrim as (elems & _ & Htrim). apply elems_lines_trimmed in Htrim.
  destruct Htrim as ((front & final & E & Hfinal) & Htrim).
  assert (Hout : exists front' final',
             map (fun r => rstrip (indent ++ (c :: p) ++ r)) ls = front' ++ [final']
             /\ final' <> []).
  { exists (map (fun r => rstrip (indent ++ (c :: p) ++ r)) front),
      (rstrip (indent ++ (c :: p) ++ final)).
    rewrite E, map_app. split; [reflexivity|].
    rewrite E in Htrim. apply Forall_app in Htrim. destruct Htrim as [_ Hf].
    inversion Hf; subst. rewrite app_assoc, rstrip_fixed_app by assumption.
    destruct indent; discriminate. }
  destruct Hout as (front' & final' & Eout & Hfinal').
  assert (Hlines : Forall no_linebreak (map (fun r => rstrip (indent ++ (c :: p) ++ r)) ls)).
  { apply Forall_map. eapply Forall_impl; [|exact Hnl]. intros r Hr. unfold no_linebreak in *.
    apply chars_rstrip. rewrite !forallb_app, Hin, Hp, Hr. reflexivity. }
  rewrite Eout in *. rewrite splitlines_join_lines by assumption. rewrite <- Eout.
  apply prefixed_content_lines_of_written; try assumption.
  - now apply no_linebreak_line_ok.
  - eapply Forall_impl; [apply no_linebreak_line_ok|exact Hnl].
Qed.

Lemma prefixed_block_comment_read_back_witness :
  exists content ls,
    prefixed_content_lines (u "# ") (splitlines (u "# * a b" ++ newline ++ u "#"))
    = Ok content
    /\ engine ascii_decimal ascii_upper 100 content (7 - 2 - Z.of_nat (length (u "# "))) = Ok ls
    /\ prefixed_content_lines
         (u "# ") (splitlines (join newline [u "  # • a"; u "  #   b"]))
       = Ok ls.
Proof.
  apply (prefixed_block_comment_read_back ascii_decimal ascii_upper 100
           (u "# * a b" ++ newline ++ u "#") 2 7 (ch "#") (u " ")).
  - exact ascii_upper_not_linebreak.
  - reflexivity.
  - reflexivity.
  - vm_compute. reflexivity.
Defined.

Section Blockquotes.

Import Formatter.

(** * Blockquotes, formatted and read again *)

Lemma rstrip_quoted (l : str) :
  rstrip l = l -> rstrip (u "> " ++ l) = if is_empty l then u ">" else u "> " ++ l.
Proof.
  intros H. destruct l as [|c l]; [reflexivity|]. cbn [is_empty].
  now apply rstrip_fixed_app.
Qed.

Lemma quoted_lines_of_written (content : list str) :
  Parser.quoted_lines (map (fun l => if is_empty l then u ">" else u "> " ++ l) content)
  = content.
Proof.
  induction content as [|l content IH]; [reflexivity|]. cbn [map].
  rewrite quoted_lines_cons. destruct l as [|c l]; cbn [is_empty].
  - change (str_eqb (u ">") (u ">")) with true. cbv iota. now rewrite IH.
  - change (str_eqb (u "> " ++ c :: l) (u ">")) with false. cbv iota.
    replace (strip_prefix (u "> ") (u "> " ++ c :: l)) with (Some (c :: l))
      by (symmetry; now apply strip_prefix_Some).
    now rewrite IH.
Qed.

(** X18: a blockquote that is formatted is read as the same lines.
    The lines of a formatted blockquote are the lines of its content,
    formatted two columns narrower, each behind "> ", and ">" alone for
    an empty line; the parser, taking the quotation marks off these
    lines, has the lines of the content again, as they were. *)
Theorem blockquote_read_back (upper : str -> str) (elems : list Elem) (max_line_len : Z)
  (ls : list str) :
  lines upper [_Blockquote elems] max_line_len = Ok ls ->
  exists content,
    lines upper elems (max_line_len - 2) = Ok content
    /\ ls = map (fun l => if is_empty l then u ">" else u "> " ++ l) content
    /\ Parser.quoted_lines ls = content.
Proof.
  unfold lines at 1, _Formatter, _elems_lines. cbn [concat_mapM]. rewrite elem_lines_Blockquote.
  unfold _blockquote_lines, _format_elems_indented, _format_elems. intros H.
  apply bind_Ok in H. destruct H as (raw & Hraw & H).
  apply bind_Ok in Hraw. destruct Hraw as (quoted & Hq & Hraw). cbn [bind] in Hraw.
  apply Ok_inj in Hraw. subst raw.
  apply bind_Ok in Hq. destruct Hq as (indented & Hi & Hq).
  apply bind_Ok in Hi. destruct Hi as (content & Hcontent & Hi). apply Ok_inj in Hi.
  apply bind_Ok in Hq. destruct Hq as (kept & Hkept & Hq). apply Ok_inj in Hq. subst quoted.
  exists content. split; [exact Hcontent|].
  pose proof Hcontent as Htrim. apply elems_lines_trimmed in Htrim.
  destruct Htrim as ((front & final & E & Hfinal) & Htrim).
  assert (Hkept' : kept = indented).
  { assert (Ei : indented
                 = map (fun line => if 1 <=? length line then repeat (ch " ") 2 ++ line
                                    else line) front
                   ++ [repeat (ch " ") 2 ++ final]).
    { rewrite <- Hi, E, map_app. cbn [map]. destruct final; [congruence|reflexivity]. }
    rewrite Ei in Hkept. rewrite remove_trailing_last in Hkept by discriminate.
    apply Ok_inj in Hkept. now rewrite Ei. }
  subst kept.
  assert (Hlines : map rstrip ((map (fun line => u "> " ++ skipn 2 line) indented ++ [[]]) ++ [])
                   = map (fun l => if is_empty l then u ">" else u "> " ++ l) content
                     ++ repeat [] 1).
  { rewrite app_nil_r, map_app, <- Hi, !map_map. cbn [map repeat]. f_equal.
    apply map_ext_Forall. eapply Forall_impl; [|exact Htrim]. intros l Hl. cbv beta.
    pose proof (rstrip_quoted l Hl) as Hq. destruct l; exact Hq. }
  match type of H with
  | _remove_trailing_empty_lines ?x = _ =>
      change x with (map rstrip ((map (fun line => u "> " ++ skipn 2 line) indented
                                  ++ [[]]) ++ [])) in H
  end.
  rewrite Hlines in H.
  assert (Hout : map (fun l => if is_empty l then u ">" else u "> " ++ l) content
                 = map (fun l => if is_empty l then u ">" else u "> " ++ l) front
                   ++ [u "> " ++ final]).
  { rewrite E, map_app. cbn [map]. destruct final; [congruence|reflexivity]. }
  rewrite Hout in H. rewrite remove_trailing_blank_run in H by discriminate.
  apply Ok_inj in H.
  assert (Hls : ls = map (fun l => if is_empty l then u ">" else u "> " ++ l) content)
    by (rewrite Hout; symmetry; exact H).
  clear H. subst ls.
  split; [reflexivity|apply quoted_lines_of_written].
Qed.

Lemma blockquote_read_back_witness :
  exists content,
    lines ascii_upper [_P [u "aa"; u "bb"]; _P [u "cc"]] (6 - 2) = Ok content
    /\ [u "> aa"; u "> bb"; u ">"; u "> cc"]
       = map (fun l => if is_empty l then u ">" else u "> " ++ l) content
    /\ Parser.quoted_lines [u "> aa"; u "> bb"; u ">"; u "> cc"] = content.
Proof.
  apply (blockquote_read_back ascii_upper [_P [u "aa"; u "bb"]; _P [u "cc"]] 6).
  vm_compute. reflexivity.
Defined.

End Blockquotes.

Section Delimited.

Import Parser.

(** * Delimited blocks *)

Lemma str_eqb_same (a : str) : str_eqb a a = true.
Proof. now apply str_eqb_eq. Qed.

Lemma str_eqb_differs (a b : str) : a <> b -> str_eqb a b = false.
Proof.
  intros H. destruct (str_eqb a b) eqn:E; [|reflexivity]. apply str_eqb_eq in E. congruence.
Qed.

(** The content of a block runs to the closing delimiter, or to the
    last line when there is none. *)
Lemma delim_content_closed (delim : str) (content closing : list str) :
  Forall (fun l => l <> delim) content ->
  closing = [] \/ closing = [delim] ->
  delim_content delim (content ++ closing) = (content, length (content ++ closing)).
Proof.
  intros Hc Hcl. induction Hc as [|l content Hl _ IH].
  - destruct Hcl as [->| ->]; [reflexivity|]. cbn [app delim_content].
    now rewrite str_eqb_same.
  - cbn [app delim_content]. rewrite (str_eqb_differs _ _ Hl), IH. reflexivity.
Qed.

Lemma remove_trailing_all_blank (lines : list str) :
  lines <> [] -> Forall (fun l => l = []) lines ->
  _remove_trailing_empty_lines lines = Raise IndexError.
Proof.
  intros Hne H. unfold _remove_trailing_empty_lines.
  destruct lines as [|l more] eqn:E; [congruence|]. rewrite <- E in *.
  apply drop_trailing_empty_all_blank. apply Forall_rev. exact H.
Qed.

Lemma delimiter_not_ol_item (is_decimal : char -> bool) (delim : str) :
  In delim [u "```"; u ">>>"; u "!!!"] -> match_ol_item_start is_decimal delim = None.
Proof.
  intros [<-|[<-|[<-|[]]]]; unfold match_ol_item_start, ol_numbered; cbv zeta;
    match goal with
    | |- context [drop_while ?p (u ?s)] =>
        let w := eval vm_compute in (drop_while p (u s)) in
        change (drop_while p (u s)) with w
    end;
    cbn [take_while drop_while];
    match goal with |- context [is_decimal ?c] => destruct (is_decimal c) end;
    reflexivity.
Qed.

Section DelimitedBlock.

Variable is_decimal : char -> bool.
Variable parse_sub : list str -> res (list Elem).
Variables k j : nat.
Variable delim : str.
Variables content closing : list str.

Hypothesis delim_cases : In delim [u "```"; u ">>>"; u "!!!"].
Hypothesis closing_cases : closing = [] \/ closing = [delim].
Hypothesis content_open : Forall (fun l => l <> delim) content.
Hypothesis no_underline :
  forall c, In c [ch "━"; ch "─"] -> match_underline c (hd [] content) = false.

Let _lines : list str := delim :: content ++ closing.

Lemma delim_block_taken :
  _try_parse_delim_block _lines delim 0
  = (kept <- _remove_trailing_empty_lines content ;; Ok (Some kept, length _lines)).
Proof.
  unfold _try_parse_delim_block, _cur_line, _lines. cbn [nth_error bind].
  rewrite str_eqb_same. cbn [negb]. unfold _goto_next_line. cbn [Nat.add length Nat.leb bind].
  cbn [skipn]. rewrite delim_content_closed by assumption.
  destruct (_remove_trailing_empty_lines content) as [kept| |] eqn:E; cbn [bind];
    [|reflexivity|reflexivity].
  apply remove_trailing_Ok_nonempty in E. destruct kept; [congruence|reflexivity].
Qed.

Lemma delim_next_line c :
  In c [ch "━"; ch "─"] -> match_underline c (_next_line _lines 0) = false.
Proof.
  intros Hc. unfold _next_line, _lines. cbn [nth].
  destruct content as [|l content'].
  - destruct closing_cases as [->| ->]; [reflexivity|]. cbn [app nth].
    destruct delim_cases as [<-|[<-|[<-|[]]]], Hc as [<-|[<-|[]]]; reflexivity.
  - cbn [app nth]. now apply no_underline.
Qed.

(** The methods tried before the delimited blocks refuse a delimiter. *)
Lemma delim_first_methods fs :
  try_funcs (_try_parse_h1 _lines :: _try_parse_h2 _lines
             :: _try_parse_ul parse_sub (S k) _lines
             :: _try_parse_ol is_decimal parse_sub (S k) _lines
             :: _try_parse_dl parse_sub (S k) _lines :: fs) 0
  = try_funcs fs 0.
Proof.
  assert (Hd : exists c rest, delim = c :: rest
               /\ match_heading_prefix (u "=") delim = None
               /\ match_heading_prefix (u "==") delim = None
               /\ match_bullet_line delim = None
               /\ match_ol_item_start is_decimal delim = None
               /\ match_single_line_dt delim = None
               /\ match_dt delim = None).
  { destruct delim_cases as [<-|[<-|[<-|[]]]]; eexists _, _;
      (split; [reflexivity|]); repeat split; try reflexivity.
    all: now apply delimiter_not_ol_item. }
  destruct Hd as (c & rest & E & Hh1 & Hh2 & Hul & Hol & Hsdt & Hdt).
  pose proof (delim_next_line (ch "━") (or_introl eq_refl)) as Hn1.
  pose proof (delim_next_line (ch "─") (or_intror (or_introl eq_refl))) as Hn2.
  unfold _lines in *. rewrite E in *.
  rewrite try_funcs_skip by (apply heading_refuses_line; assumption).
  rewrite try_funcs_skip by (apply heading_refuses_line; assumption).
  rewrite try_funcs_skip by (apply ul_refuses_line; assumption).
  rewrite try_funcs_skip by (apply ol_refuses_line; assumption).
  rewrite try_funcs_skip by (apply dl_refuses_line; assumption).
  reflexivity.
Qed.

(** What the parser returns when the first method that takes the first
    line takes all the lines, or raises. *)
Lemma parse_whole_or_raise (fuel : nat) (body : res Elem) :
  try_funcs (funcs is_decimal parse_sub fuel _lines) 0
  = (e <- body ;; Ok (Some e, length _lines)) ->
  _parse is_decimal parse_sub fuel _lines (S (S j)) 0 [] = (e <- body ;; Ok [e]).
Proof.
  intros H. rewrite parse_S. cbv zeta.
  assert (Hskip : _skip_empty_lines _lines 0 = 0).
  { unfold _skip_empty_lines, _lines. cbn [skipn take_while].
    destruct delim_cases as [<-|[<-|[<-|[]]]]; reflexivity. }
  rewrite Hskip. change (_is_done _lines 0) with false. cbv iota.
  rewrite H. destruct body as [e| |]; cbn [bind]; [|reflexivity|reflexivity].
  rewrite parse_S. cbv zeta.
  unfold _skip_empty_lines. rewrite skipn_all. cbn [take_while].
  unfold _is_done. change (length (@nil str)) with 0. rewrite Nat.add_0_r, Nat.leb_refl.
  reflexivity.
Qed.

Lemma fenced_block_parsed :
  delim = u "```" ->
  _parse is_decimal parse_sub (S k) _lines (S (S j)) 0 []
  = (kept <- _remove_trailing_empty_lines content ;; Ok [_Pre kept]).
Proof.
  intros Ed.
  replace (kept <- _remove_trailing_empty_lines content ;; Ok [_Pre kept])
    with (e <- (kept <- _remove_trailing_empty_lines content ;; Ok (_Pre kept)) ;; Ok [e])
    by (destruct (_remove_trailing_empty_lines content); reflexivity).
  apply parse_whole_or_raise. unfold funcs. rewrite delim_first_methods.
  cbn [try_funcs]. unfold _try_parse_pre_delim. rewrite <- Ed, delim_block_taken.
  destruct (_remove_trailing_empty_lines content); reflexivity.
Qed.

Lemma quoted_block_parsed :
  delim = u ">>>" ->
  _parse is_decimal parse_sub (S k) _lines (S (S j)) 0 []
  = (kept <- _remove_trailing_empty_lines content ;;
     elems <- parse_sub kept ;; Ok [_Blockquote elems]).
Proof.
  intros Ed.
  replace (kept <- _remove_trailing_empty_lines content ;;
           elems <- parse_sub kept ;; Ok [_Blockquote elems])
    with (e <- (kept <- _remove_trailing_empty_lines content ;;
                elems <- parse_sub kept ;; Ok (_Blockquote elems)) ;; Ok [e])
    by (destruct (_remove_trailing_empty_lines content) as [kept| |]; cbn [bind];
        [destruct (parse_sub kept)|..]; reflexivity).
  apply parse_whole_or_raise. unfold funcs. rewrite delim_first_methods.
  assert (E : _lines = u ">>>" :: content ++ closing) by (unfold _lines; now rewrite Ed).
  rewrite try_funcs_skip
    by (unfold _try_parse_pre_delim; rewrite E;
        change (u ">>>") with (ch ">" :: u ">>");
        now rewrite delim_refuses_line by reflexivity).
  rewrite try_funcs_skip
    by (rewrite E; change (u ">>>") with (ch ">" :: u ">>");
        now apply pre_indented_refuses_line).
  rewrite try_funcs_skip
    by (rewrite E; unfold _try_parse_hr, _cur_line; cbn [nth_error bind]; reflexivity).
  cbn [try_funcs]. unfold _try_parse_blockquote_delim. rewrite <- Ed, delim_block_taken.
  destruct (_remove_trailing_empty_lines content) as [kept| |]; cbn [bind];
    [destruct (parse_sub kept)|..]; reflexivity.
Qed.

Lemma box_block_parsed :
  delim = u "!!!" ->
  _parse is_decimal parse_sub (S k) _lines (S (S j)) 0 []
  = (kept <- _remove_trailing_empty_lines content ;;
     elems <- parse_sub kept ;; Ok [_AdmonBox elems]).
Proof.
  intros Ed.
  replace (kept <- _remove_trailing_empty_lines content ;;
           elems <- parse_sub kept ;; Ok [_AdmonBox elems])
    with (e <- (kept <- _remove_trailing_empty_lines content ;;
                elems <- parse_sub kept ;; Ok (_AdmonBox elems)) ;; Ok [e])
    by (destruct (_remove_trailing_empty_lines content) as [kept| |]; cbn [bind];
        [destruct (parse_sub kept)|..]; reflexivity).
  apply parse_whole_or_raise. unfold funcs. rewrite delim_first_methods.
  assert (E : _lines = u "!!!" :: content ++ closing) by (unfold _lines; now rewrite Ed).
  rewrite try_funcs_skip
    by (unfold _try_parse_pre_delim; rewrite E;
        change (u "!!!") with (ch "!" :: u "!!");
        now rewrite delim_refuses_line by reflexivity).
  rewrite try_funcs_skip
    by (rewrite E; change (u "!!!") with (ch "!" :: u "!!");
        now apply pre_indented_refuses_line).
  rewrite try_funcs_skip
    by (rewrite E; unfold _try_parse_hr, _cur_line; cbn [nth_error bind]; reflexivity).
  rewrite try_funcs_skip
    by (unfold _try_parse_blockquote_delim; rewrite E;
        change (u "!!!") with (ch "!" :: u "!!");
        now rewrite delim_refuses_line by reflexivity).
  rewrite try_funcs_skip
    by (rewrite E; unfold _try_parse_blockquote_prefixed; cbn [skipn];
        rewrite quoted_lines_cons; reflexivity).
  cbn [try_funcs]. unfold _try_parse_admon_box_delim. rewrite <- Ed, delim_block_taken.
  destruct (_remove_trailing_empty_lines content) as [kept| |]; cbn [bind];
    [destruct (parse_sub kept)|..]; reflexivity.
Qed.

End DelimitedBlock.

(** X19: what a delimited block is parsed as.  Take lines that start
    with one of the delimiters, go on with content lines that are not
    this delimiter, and end there or with the delimiter again; the
    first content line being no underline, under which the delimiter
    would be a heading.  Without a content line the parser raises
    [AssertionError], and with content lines that are all empty
    [IndexError]: a block is never skipped.  Otherwise the content,
    less its trailing empty lines, is a preformatted block as it is,
    for the delimiter of three backquotes, and is parsed in turn as the
    content of a blockquote for ">>>", of an admonition box for "!!!";
    a block that is not closed runs to the last line. *)
Theorem delimited_block_parsed (is_decimal : char -> bool) (fuel : nat) (delim : str)
  (content closing : list str) :
  3 <= fuel ->
  In delim [u "```"; u ">>>"; u "!!!"] ->
  closing = [] \/ closing = [delim] ->
  Forall (fun l => l <> delim) content ->
  match_underline (ch "━") (hd [] content) = false ->
  match_underline (ch "─") (hd [] content) = false ->
  let parsed := elems is_decimal fuel (delim :: content ++ closing) in
  (content = [] -> parsed = Raise AssertionError)
  /\ (content <> [] -> Forall (fun l => l = []) content -> parsed = Raise IndexError)
  /\ (forall front final n,
        content = (front ++ [final]) ++ repeat [] n -> final <> [] ->
        (delim = u "```" -> parsed = Ok [_Pre (front ++ [final])])
        /\ (delim = u ">>>" ->
            parsed = (sub <- elems is_decimal (fuel - 1) (front ++ [final]) ;;
                      Ok [_Blockquote sub]))
        /\ (delim = u "!!!" ->
            parsed = (sub <- elems is_decimal (fuel - 1) (front ++ [final]) ;;
                      Ok [_AdmonBox sub]))).
Proof.
  intros Hfuel Hd Hcl Hopen Hu1 Hu2 parsed.
  destruct fuel as [|[|[|k]]]; try lia. clear Hfuel.
  assert (Hu : forall c, In c [ch "━"; ch "─"] -> match_underline c (hd [] content) = false)
    by (intros c [<-|[<-|[]]]; assumption).
  assert (Hparsed : exists mk,
            parsed = (kept <- _remove_trailing_empty_lines content ;; mk kept)
            /\ (delim = u "```" -> mk = fun kept => Ok [_Pre kept])
            /\ (delim = u ">>>" ->
                mk = fun kept => sub <- elems is_decimal (S (S k)) kept ;;
                                 Ok [_Blockquote sub])
            /\ (delim = u "!!!" ->
                mk = fun kept => sub <- elems is_decimal (S (S k)) kept ;;
                                 Ok [_AdmonBox sub])).
  { subst parsed. cbn [elems].
    destruct Hd as [<-|[<-|[<-|[]]]]; eexists; (split; [|split; [|split]]).
    - apply (fenced_block_parsed is_decimal (elems is_decimal (S (S k))) (S k) k
               (u "```") content closing);
        first [assumption | reflexivity | (cbn [In]; tauto)].
    - reflexivity.
    - intros E. vm_compute in E. discriminate E.
    - intros E. vm_compute in E. discriminate E.
    - apply (quoted_block_parsed is_decimal (elems is_decimal (S (S k))) (S k) k
               (u ">>>") content closing);
        first [assumption | reflexivity | (cbn [In]; tauto)].
    - intros E. vm_compute in E. discriminate E.
    - reflexivity.
    - intros E. vm_compute in E. discriminate E.
    - apply (box_block_parsed is_decimal (elems is_decimal (S (S k))) (S k) k
               (u "!!!") content closing);
        first [assumption | reflexivity | (cbn [In]; tauto)].
    - intros E. vm_compute in E. discriminate E.
    - intros E. vm_compute in E. discriminate E.
    - reflexivity. }
  destruct Hparsed as (mk & -> & Hpre & Hquote & Hbox).
  split; [|split].
  - intros ->. reflexivity.
  - intros Hne Hall. now rewrite remove_trailing_all_blank.
  - intros front final n -> Hfinal. rewrite remove_trailing_blank_run by assumption.
    cbn [bind]. change (S (S (S k)) - 1) with (S (S k)).
    repeat split; intros E.
    + now rewrite (Hpre E).
    + now rewrite (Hquote E).
    + now rewrite (Hbox E).
Qed.

Lemma delimited_block_parsed_witness :
  elems ascii_decimal 5 [u "```"; u "  x = 1"; []; u "y"; []; u "```"]
  = Ok [_Pre [u "  x = 1"; []; u "y"]]
  /\ elems ascii_decimal 5 [u ">>>"; []; u ">>>"] = Raise IndexError.
Proof.
  split.
  - destruct (delimited_block_parsed ascii_decimal 5 (u "```")
                [u "  x = 1"; []; u "y"; []] [u "```"]) as (_ & _ & H);
      [lia | now left | now right | repeat constructor; discriminate
       | reflexivity | reflexivity | ].
    destruct (H [u "  x = 1"; []] (u "y") 1) as (Hpre & _);
      [reflexivity | discriminate | ].
    exact (Hpre eq_refl).
  - destruct (delimited_block_parsed ascii_decimal 5 (u ">>>") [[]] [u ">>>"])
      as (_ & H & _);
      [lia | now right; left | now right | repeat constructor; discriminate
       | reflexivity | reflexivity | ].
    apply H; [discriminate | repeat constructor].
Defined.

End Delimited.

Section ParagraphWords.

Import Parser.

(** * The words of a paragraph *)

(** A literal is the start of the text it is found in. *)
Lemma match_literal_start (s lit rest : str) :
  match_literal s = Some (lit, rest) -> s = lit ++ rest /\ lit <> [].
Proof.
  unfold match_literal.
  set (nq := fun c => negb (char_eqb c (ch "`"))).
  set (ns := fun c => negb (is_space c)).
  assert (H : forall bracket s1,
             s = bracket ++ s1 ->
             match s1 with
             | q :: s2 =>
                 if char_eqb q (ch "`") then
                   match drop_while nq s2 with
                   | q' :: s3 =>
                       Some (bracket ++ [q] ++ take_while nq s2 ++ [q'] ++ take_while ns s3,
                             drop_while ns s3)
                   | [] => None
                   end
                 else None
             | [] => None
             end = Some (lit, rest) ->
             s = lit ++ rest /\ lit <> []).
  { intros bracket s1 E. destruct s1 as [|q s2]; [discriminate|].
    destruct (char_eqb q (ch "`")); [|discriminate].
    destruct (drop_while nq s2) as [|q' s3] eqn:Ed; [discriminate|].
    intros Hm. injection Hm as <- <-. split.
    - rewrite E. rewrite <- (take_drop_while nq s2) at 1. rewrite Ed.
      rewrite <- (take_drop_while ns s3) at 1.
      cbn [app]. rewrite <- !app_assoc. cbn [app]. rewrite <- !app_assoc. reflexivity.
    - destruct bracket; discriminate. }
  destruct s as [|c r]; [apply (H [] []); reflexivity|].
  destruct (char_in (u "([{") c); [apply (H [c] r)|apply (H [] (c :: r))]; reflexivity.
Qed.

Section Visible.

Let visible := fun c => negb (is_space c).

Lemma visible_drop_while (s : str) :
  filter visible (drop_while is_space s) = filter visible s.
Proof.
  induction s as [|c s IH]; [reflexivity|]. cbn [drop_while].
  destruct (is_space c) eqn:E; [|reflexivity]. rewrite IH.
  change (filter visible (c :: s))
    with (if negb (is_space c) then c :: filter visible s else filter visible s).
  now rewrite E.
Qed.

Lemma filter_rev {A} (p : A -> bool) (s : list A) : filter p (rev s) = rev (filter p s).
Proof.
  induction s as [|c s IH]; [reflexivity|]. cbn [rev filter].
  rewrite filter_app, IH. cbn [filter]. destruct (p c); [reflexivity|apply app_nil_r].
Qed.

(** [str.strip] takes white space only. *)
Lemma visible_strip (s : str) : filter visible (strip s) = filter visible s.
Proof.
  unfold strip, lstrip, rstrip. rewrite visible_drop_while, filter_rev, visible_drop_while.
  now rewrite filter_rev, rev_involutive.
Qed.

Lemma scan_text_keeps : forall (fuel : nat) (text : str) (elems words : list str),
  scan_text fuel text elems = Ok words ->
  exists new,
    words = elems ++ new
    /\ Forall (fun w => w <> []) new
    /\ filter visible (concat new) = filter visible text.
Proof.
  induction fuel as [|fuel IH]; intros text elems words H; [discriminate|].
  cbn [scan_text] in H. destruct text as [|c text].
  { apply Ok_inj in H. subst words. exists []. now rewrite app_nil_r. }
  destruct (match_literal (c :: text)) as [[lit rest]|] eqn:El.
  - apply match_literal_start in El. destruct El as (E & Hlit).
    apply IH in H. destruct H as (new & -> & Hnew & Hvis).
    exists (lit :: new). rewrite <- app_assoc. split; [reflexivity|].
    split; [now constructor|]. cbn [concat]. now rewrite E, !filter_app, Hvis.
  - destruct (match_word (c :: text)) as [[w rest]|] eqn:Ew.
    + apply match_word_rest in Ew. destruct Ew as (E & _).
      apply IH in H. destruct H as (new & -> & Hnew & Hvis).
      rewrite E, filter_app, <- Hvis, <- (visible_strip w).
      destruct (strip w) as [|x word] eqn:Es; cbn [length Nat.leb].
      * exists new. repeat split; assumption.
      * exists ((x :: word) :: new). rewrite <- app_assoc. split; [reflexivity|].
        split; [constructor; [discriminate|assumption]|].
        cbn [concat]. now rewrite filter_app.
    + apply IH in H. destruct H as (new & -> & Hnew & Hvis). now exists new.
Qed.

End Visible.

(** X20: the words of a paragraph hold its text.  When
    [_p_elem_from_text] returns, no word of the paragraph is empty, and
    the characters of the words, one word after the other, are the
    characters of the text less white space ones: the scan drops white
    space between words and around them, and nothing else. *)
Theorem paragraph_words_hold_text (fuel : nat) (text : str) (words : list str) :
  scan_text fuel text [] = Ok words ->
  Forall (fun w => w <> []) words
  /\ filter (fun c => negb (is_space c)) (concat words)
     = filter (fun c => negb (is_space c)) text.
Proof.
  intros H. apply scan_text_keeps in H. destruct H as (new & -> & Hnew & Hvis).
  now split.
Qed.

Lemma paragraph_words_hold_text_witness :
  Forall (fun w => w <> []) [u "a"; u "(`b c`),"; u "d"]
  /\ filter (fun c => negb (is_space c)) (concat [u "a"; u "(`b c`),"; u "d"])
     = filter (fun c => negb (is_space c)) (u " a  (`b c`), d ").
Proof.
  apply (paragraph_words_hold_text 20 (u " a  (`b c`), d ")). vm_compute. reflexivity.
Defined.

End ParagraphWords.

Section BoxesRead.

Import Formatter.

(** * Admonition boxes, formatted and read again *)

Lemma take_while_stop {A} (p : A -> bool) (a b : list A) (x : A) :
  forallb p a = true -> p x = false -> take_while p (a ++ x :: b) = a.
Proof.
  intros Ha Hx. induction a as [|y a IH]; cbn [app take_while].
  - now rewrite Hx.
  - cbn [forallb] in Ha. apply andb_true_iff in Ha. destruct Ha as [Hy Ha].
    now rewrite Hy, IH.
Qed.

Lemma forallb_stop {A} (p : A -> bool) (a b : list A) (x : A) :
  p x = false -> forallb p (a ++ x :: b) = false.
Proof.
  intros Hx. rewrite forallb_app. cbn [forallb]. rewrite Hx. apply andb_false_r.
Qed.

(** A line of the body of a box is read as the content line it frames. *)
Lemma admon_body_line_read (c : str) (width : nat) :
  forallb (fun x => negb (char_eqb x (ch "│"))) c = true ->
  rstrip c = c ->
  let l := u "│ " ++ ljust c width ++ u " │" in
  startswith l (u "└") = false
  /\ Parser.match_admon_blank l = false
  /\ Parser.match_admon_line l = Some (c ++ repeat (ch " ") (width - length c) ++ u " ")
  /\ rstrip (c ++ repeat (ch " ") (width - length c) ++ u " ") = c.
Proof.
  intros Hbar Htrim l. subst l. unfold ljust.
  set (pad := repeat (ch " ") (width - length c)).
  assert (Hpad : forallb is_space (pad ++ u " ") = true).
  { rewrite forallb_app. subst pad. now rewrite forallb_repeat. }
  assert (E : u "│ " ++ (c ++ pad) ++ u " │"
              = ch "│" :: ch " " :: (c ++ pad ++ u " ") ++ ch "│" :: []).
  { change (u "│ ") with [ch "│"; ch " "]. change (u " │") with (u " " ++ [ch "│"]).
    cbn [app]. now rewrite <- !app_assoc. }
  rewrite E. split; [reflexivity|]. split; [|split].
  - unfold Parser.match_admon_blank. cbn [forallb].
    change (is_space (ch "│")) with false.
    change (char_eqb (ch "│") (ch "│")) with true. cbn [andb orb].
    rewrite forallb_stop by reflexivity. apply andb_false_r.
  - unfold Parser.match_admon_line.
    change (char_eqb (ch "│") (ch "│")) with true.
    change (char_eqb (ch " ") (ch " ")) with true. cbn [andb orb].
    rewrite take_while_stop; [reflexivity| |reflexivity].
    rewrite forallb_app, Hbar. cbn [andb].
    rewrite forallb_forall in *. intros x Hx. apply Hpad in Hx.
    destruct (char_eqb x (ch "│")) eqn:Ex; [|reflexivity].
    apply N.eqb_eq in Ex. subst x. discriminate Hx.
  - now rewrite rstrip_dropped.
Qed.

Lemma admon_content_of_written (content : list str) (width : nat) (bottom : str)
  (rest : list str) :
  Forall (fun l => forallb (fun x => negb (char_eqb x (ch "│"))) l = true) content ->
  Forall (fun l => rstrip l = l) content ->
  startswith bottom (u "└") = true ->
  Parser.admon_content
    (map (fun c => u "│ " ++ ljust c width ++ u " │") content ++ bottom :: rest)
  = (content, S (length content)).
Proof.
  intros Hbar Htrim Hbottom. induction content as [|c content IH].
  - cbn [map app Parser.admon_content]. now rewrite Hbottom.
  - inversion Hbar as [|? ? Hc Hbar']; subst. inversion Htrim as [|? ? Hr Htrim']; subst.
    cbn [map app Parser.admon_content length].
    destruct (admon_body_line_read c width Hc Hr) as (Hs & Hb & Hl & Hstrip).
    cbv zeta in Hs, Hb, Hl. rewrite Hs, (IH Hbar' Htrim'), Hb, Hl, Hstrip. reflexivity.
Qed.

(** X21: the body of a formatted admonition box is read as its
    content.  The lines of the box are a first line that starts with
    "┌" and the framed content lines; when no content line holds a "│"
    (the content holds no box or drawing of its own), the parser reads,
    from the lines after the first one, the content lines as they were
    formatted, up to the bottom of the box; and when the first framed
    line shows an admonition label, [_try_parse_admon_box] gives these
    lines to the nested parser and passes the box, leaving the empty
    line that follows it. *)
Theorem admon_box_read_back (upper : str -> str) (self : Self) (elems : list Elem)
  (ls : list str) (parse_sub : list str -> res (list Elem)) :
  _elem_lines upper (_AdmonBox elems) self = Ok ls ->
  exists content top framed,
    _Formatter upper elems (narrow self 4) = Ok content
    /\ ls = top :: framed
    /\ startswith top (u "┌") = true
    /\ (Forall (fun l => forallb (fun x => negb (char_eqb x (ch "│"))) l = true) content ->
        Parser.admon_content framed = (content, S (length content))
        /\ (Parser.match_admon_tag (hd [] framed) = true ->
            Parser._try_parse_admon_box parse_sub ls 0
            = (sub <- parse_sub content ;;
               Ok (Some (_AdmonBox sub), S (S (length content)))))).
Proof.
  rewrite elem_lines_AdmonBox. unfold _admon_box_lines, _format_elems. intros H.
  apply bind_Ok in H. destruct H as (content & Hcontent & H).
  apply bind_Ok in H. destruct H as (width & Hwidth & H). apply Ok_inj in H. subst ls.
  pose proof Hcontent as Htrim. apply elems_lines_trimmed in Htrim.
  destruct Htrim as (_ & Htrim).
  exists content. eexists _, _. split; [exact Hcontent|]. split; [reflexivity|].
  split; [reflexivity|]. intros Hbar.
  assert (Hread : Parser.admon_content
                    (map (fun c => u "│ " ++ ljust c width ++ u " │") content
                     ++ [u "└─" ++ repeat (ch "─") width ++ u "─┘"] ++ [[]])
                  = (content, S (length content)))
    by (apply admon_content_of_written; [assumption|assumption|reflexivity]).
  split; [exact Hread|]. intros Htag.
  unfold Parser._try_parse_admon_box, Parser._cur_line. cbn [app nth_error bind].
  change (startswith (u "┌─" ++ repeat (ch "─") width ++ u "─┐") (u "┌")) with true.
  cbn [negb]. unfold Parser._next_line. cbn [nth].
  match goal with
  | |- context [Parser.match_admon_tag ?l] =>
      assert (Hnext : Parser.match_admon_tag l = true)
        by (destruct content; exact Htag);
      rewrite Hnext
  end.
  cbn [negb].
  unfold Parser._goto_next_line. cbn [Nat.add length Nat.leb bind skipn].
  cbn [app] in Hread. rewrite Hread. reflexivity.
Qed.

Lemma admon_box_read_back_witness :
  exists content top framed,
    _Formatter ascii_upper [_P [u "NOTE:"; u "a"; u "bb"]] (narrow (mkSelf 10 (-1) (-1)) 4)
    = Ok content
    /\ [u "┌───────┐"; u "│ NOTE: │"; u "│ a bb  │"; u "└───────┘"; []] = top :: framed
    /\ startswith top (u "┌") = true
    /\ (Forall (fun l => forallb (fun x => negb (char_eqb x (ch "│"))) l = true) content ->
        Parser.admon_content framed = (content, S (length content))
        /\ (Parser.match_admon_tag (hd [] framed) = true ->
            Parser._try_parse_admon_box (Parser.elems ascii_decimal 5)
              [u "┌───────┐"; u "│ NOTE: │"; u "│ a bb  │"; u "└───────┘"; []] 0
            = (sub <- Parser.elems ascii_decimal 5 content ;;
               Ok (Some (_AdmonBox sub), S (S (length content)))))).
Proof.
  apply (admon_box_read_back ascii_upper (mkSelf 10 (-1) (-1))
           [_P [u "NOTE:"; u "a"; u "bb"]]).
  vm_compute. reflexivity.
Defined.

End BoxesRead.

Section VerbatimBlocks.

Import Parser.

(** * Verbatim blocks *)

Lemma rstrip_visible (l : str) (x : char) :
  In x l -> is_space x = false -> rstrip l <> [].
Proof.
  intros Hx Hs E. destruct (rstrip_split l) as (dropped & El & Hd).
  rewrite E in El. cbn [app] in El. subst dropped.
  rewrite forallb_forall in Hd. apply Hd in Hx. congruence.
Qed.

Lemma verbatim_char_not_space (c : char) :
  char_in verbatim_chars c = true -> is_space c = false.
Proof.
  unfold char_in. intros H. apply existsb_exists in H. destruct H as (x & Hx & E).
  apply N.eqb_eq in E. subst x.
  let v := eval vm_compute in verbatim_chars in change verbatim_chars with v in Hx.
  cbn [In] in Hx.
  repeat (destruct Hx as [<-|Hx]; [reflexivity|]). contradiction.
Qed.

(** A line of a verbatim block shows a character. *)
Lemma verbatim_line_visible (is_decimal : char -> bool) (l : str) :
  match_verbatim_line is_decimal l = true -> rstrip l <> [].
Proof.
  unfold match_verbatim_line. cbv zeta. intros H. apply orb_true_iff in H.
  destruct H as [H|H].
  - destruct (drop_while (fun c => char_eqb c (ch " ")) l) as [|c s1] eqn:E;
      [discriminate|].
    apply andb_true_iff in H. destruct H as [H _].
    apply andb_true_iff in H. destruct H as [H _].
    apply N.eqb_eq in H. subst c.
    apply (rstrip_visible l (ch "[")); [|reflexivity].
    rewrite <- (take_drop_while (fun c => char_eqb c (ch " ")) l), E.
    apply in_or_app. right. now left.
  - destruct l as [|c [|c2 l]]; try discriminate.
    apply andb_true_iff in H. destruct H as [H _].
    apply (rstrip_visible _ c); [now left|now apply verbatim_char_not_space].
Qed.

Lemma take_while_run (p : str -> bool) (l rest : list str) :
  Forall (fun x => p x = true) l -> p (hd [] rest) = false ->
  take_while p (l ++ rest) = l.
Proof.
  intros Hl Hrest. induction Hl as [|x l Hx _ IH]; cbn [app take_while].
  - destruct rest as [|y rest]; [reflexivity|]. cbn [hd] in Hrest. cbn [take_while].
    now rewrite Hrest.
  - now rewrite Hx, IH.
Qed.

(** X22: a verbatim block is written as it is read.  The parser's
    method takes the lines that match the verbatim pattern (a link
    reference, a line of a drawing), up to the first line that does
    not, as one block; and the formatter writes the lines of such a
    block as they are, less the white space at their end, whatever the
    width: no line of it is wrapped, joined or dropped. *)
Theorem verbatim_block_as_read (is_decimal : char -> bool) (upper : str -> str)
  (ls rest : list str) (max_line_len : Z) :
  ls <> [] ->
  Forall (fun l => match_verbatim_line is_decimal l = true) ls ->
  match_verbatim_line is_decimal (hd [] rest) = false ->
  _try_parse_verbatim is_decimal (ls ++ rest) 0 = Ok (Some (_Verbatim ls), length ls)
  /\ Formatter.lines upper [_Verbatim ls] max_line_len = Ok (map rstrip ls).
Proof.
  intros Hne Hls Hrest. split.
  - unfold _try_parse_verbatim. cbn [skipn]. rewrite take_while_run by assumption.
    destruct ls; [congruence|reflexivity].
  - unfold Formatter.lines, Formatter._Formatter, Formatter._elems_lines.
    cbn [concat_mapM Formatter._elem_lines bind]. unfold Formatter._verbatim_lines.
    rewrite app_nil_r.
    destruct (unsnoc ls) as [[front final]|] eqn:E; [|apply unsnoc_None in E; congruence].
    apply unsnoc_Some in E. subst ls. rewrite map_app. cbn [map].
    apply remove_trailing_last. apply (verbatim_line_visible is_decimal).
    apply Forall_app in Hls. destruct Hls as [_ Hfinal]. now inversion Hfinal.
Qed.

Lemma verbatim_block_as_read_witness :
  _try_parse_verbatim ascii_decimal
    ([u "│ a  b │  "; u "  [1]: https://example.org/a/very/long/address"] ++ [u "text"]) 0
  = Ok (Some (_Verbatim [u "│ a  b │  ";
                         u "  [1]: https://example.org/a/very/long/address"]), 2)
  /\ Formatter.lines ascii_upper
       [_Verbatim [u "│ a  b │  "; u "  [1]: https://example.org/a/very/long/address"]] 10
     = Ok (map rstrip [u "│ a  b │  ";
                       u "  [1]: https://example.org/a/very/long/address"]).
Proof.
  apply (verbatim_block_as_read ascii_decimal ascii_upper
           [u "│ a  b │  "; u "  [1]: https://example.org/a/very/long/address"]
           [u "text"] 10).
  - discriminate.
  - repeat constructor.
  - reflexivity.
Defined.

End VerbatimBlocks.
